(** * Internet of Space Things: the space-communications stack

    A shallow embedding of three Python modules and the properties
    their specification states about them:

    - [src/communication/multiband_radio.py]   (module [Radio]),
    - [src/core/space_network.py]              (module [Network]),
    - [src/communication/protocols/deep_space_protocol.py]
                                               (module [Protocol]).

    Conventions of the embedding.

    - Python [float] values are modelled by exact rationals ([Q]); the
      rounding of IEEE arithmetic is not modelled.
    - Python [dict]s are [gmap]s (or association lists where the
      iteration order is observable), [str] is [string], [bytes] is
      [list byte], [int] is [Z].
    - Random draws, the clock and library functions whose results are
      not computed here (SHA-256, the IEEE encoding of a double, the
      decimal logarithm) are explicit inputs or section variables.
    - The coroutines of the protocol engine are run on an explicit
      world: the protocol object, the clock, the tasks of the event
      loop and the trace of log messages and sleeps.

    The properties are proved in [RadioSpec], [NetworkSpec] and
    [ProtocolSpec]; a theorem that settles a statement of the
    specification carries its number (C1 to C10). *)

From Stdlib Require Import QArith Qminmax Qabs Lqa ZArith Lia.
From Stdlib Require Import Strings.String Strings.Ascii Strings.Byte.
From Stdlib Require Import Lists.List DecimalString.
From stdpp Require Import base option list gmap strings fin_maps fin_sets.

Local Open Scope Q_scope.

Set Warnings "-clear-no-such-hyp".

(** ** Python built-ins used by the three modules *)

Module Py.

(** [min(a, b)]: the first argument unless the second is strictly
    smaller. *)
Definition min (a b : Q) : Q := if Qlt_le_dec b a then b else a.

(** [max(a, b)]: the first argument unless the second is strictly
    larger. *)
Definition max (a b : Q) : Q := if Qlt_le_dec a b then b else a.

(** [a / b] on floats raises [ZeroDivisionError] when [b] is zero. *)
Definition div (a b : Q) : option Q :=
  if Qeq_bool b 0 then None else Some (a / b).

(** [d.get(key, default)] on a dictionary of numbers. *)
Definition get (d : gmap string Q) (key : string) (dflt : Q) : Q :=
  default dflt (d !! key).

(** [x in [a, b, ...]] on strings. *)
Definition str_in (x : string) (l : list string) : bool :=
  bool_decide (x ∈ l).

(** [np.mean(l)] of a non-empty list. *)
Definition mean (l : list Q) : Q :=
  fold_right Qplus 0 l / inject_Z (Z.of_nat (length l)).

End Py.

(** ** The adaptive multiband radio ([multiband_radio.py]) *)

Module Radio.

Inductive FrequencyBand := MICROWAVE | MILLIMETER_WAVE | TERAHERTZ | OPTICAL.

Inductive ModulationType := BPSK | QPSK | QAM16 | QAM64 | OFDM | ADAPTIVE.

#[global] Instance FrequencyBand_eq_dec : EqDecision FrequencyBand.
Proof. solve_decision. Defined.

#[global] Instance ModulationType_eq_dec : EqDecision ModulationType.
Proof. solve_decision. Defined.

(** [band.name], the identifier of the enumeration member. *)
Definition band_name (b : FrequencyBand) : string :=
  match b with
  | MICROWAVE => "MICROWAVE"
  | MILLIMETER_WAVE => "MILLIMETER_WAVE"
  | TERAHERTZ => "TERAHERTZ"
  | OPTICAL => "OPTICAL"
  end.

(** [band.value["freq_range"]], in Hz. *)
Definition freq_range (b : FrequencyBand) : Q * Q :=
  match b with
  | MICROWAVE => (300000000, 30000000000)
  | MILLIMETER_WAVE => (30000000000, 300000000000)
  | TERAHERTZ => (300000000000, 3000000000000)
  | OPTICAL => (100000000000000, 1000000000000000)
  end.

Record ChannelConditions := {
  signal_to_noise_ratio : Q;
  bit_error_rate : Q;
  atmospheric_loss : Q;
  multipath_fading : Q;
  doppler_shift : Q;
  interference_level : Q;
  weather_impact : string;
  link_quality_score : Q;
  cc_timestamp : Q
}.

Record CommunicationLink := {
  link_id : string;
  source_node : string;
  destination_node : string;
  frequency_band : FrequencyBand;
  modulation : ModulationType;
  data_rate : Q;
  power_level : Q;
  antenna_gain : Q;
  is_active : bool;
  channel_conditions : option ChannelConditions;
  quality_history : list Q;
  established_at : Q
}.

Record TransmissionRequest := {
  request_id : string;
  source : string;
  destination : string;
  data_size : Z;
  qos_requirements : gmap string Q;
  priority : Z;
  deadline : option Q;
  preferred_bands : list FrequencyBand
}.

(** The radio object.  [ai_models] is never read or written by the
    methods below and is left out. *)
Record MultibandRadio := {
  radio_id : string;
  supported_bands : list FrequencyBand;
  active_links : gmap string CommunicationLink;
  spectrum_sensing_data : gmap string (list Q);
  cognitive_engine_enabled : bool;
  throughput_history : list Q;
  error_rate_history : list Q;
  power_consumption : Q;
  min_snr_threshold : Q;
  max_acceptable_ber : Q;
  link_quality_threshold : Q
}.

(** [MultibandRadio.__init__]. *)
Definition init (rid : string) (bands : list FrequencyBand) : MultibandRadio :=
  {| radio_id := rid;
     supported_bands := bands;
     active_links := ∅;
     spectrum_sensing_data := ∅;
     cognitive_engine_enabled := true;
     throughput_history := [];
     error_rate_history := [];
     power_consumption := 0;
     min_snr_threshold := 10;
     max_acceptable_ber := 0.000001;
     link_quality_threshold := 0.7 |}.

Definition set_active_links (r : MultibandRadio)
    (m : gmap string CommunicationLink) : MultibandRadio :=
  {| radio_id := radio_id r;
     supported_bands := supported_bands r;
     active_links := m;
     spectrum_sensing_data := spectrum_sensing_data r;
     cognitive_engine_enabled := cognitive_engine_enabled r;
     throughput_history := throughput_history r;
     error_rate_history := error_rate_history r;
     power_consumption := power_consumption r;
     min_snr_threshold := min_snr_threshold r;
     max_acceptable_ber := max_acceptable_ber r;
     link_quality_threshold := link_quality_threshold r |}.

Definition set_channel_conditions (l : CommunicationLink)
    (c : option ChannelConditions) : CommunicationLink :=
  {| link_id := link_id l;
     source_node := source_node l;
     destination_node := destination_node l;
     frequency_band := frequency_band l;
     modulation := modulation l;
     data_rate := data_rate l;
     power_level := power_level l;
     antenna_gain := antenna_gain l;
     is_active := is_active l;
     channel_conditions := c;
     quality_history := quality_history l;
     established_at := established_at l |}.

(** *** [_calculate_band_score] *)

Definition _calculate_band_score (band : FrequencyBand)
    (transmission_req : TransmissionRequest)
    (spectrum_info : gmap string Q)
    (channel_conditions : option ChannelConditions) : Q :=
  let score := 1 in
  (* Spectrum availability *)
  let occupancy := Py.get spectrum_info "occupancy" 0.5 in
  let score := score * (1 - occupancy) in
  (* Interference level *)
  let interference := Py.get spectrum_info "interference" 0 in
  let score := score * (1 - interference) in
  (* Channel conditions *)
  let score :=
    match channel_conditions with
    | Some cc =>
        let score := score * link_quality_score cc in
        if Py.str_in (weather_impact cc) ["rain"; "storm"]%string then
          if bool_decide (band ∈ [MILLIMETER_WAVE; TERAHERTZ]) then score * 0.3
          else if bool_decide (band = OPTICAL) then score * 0.1
          else score
        else score
    | None => score
    end in
  (* QoS requirements *)
  let qos := qos_requirements transmission_req in
  let required_bandwidth := Py.get qos "bandwidth_mbps" 10 in
  let available_bandwidth := Py.get spectrum_info "available_bandwidth" 50 in
  let score :=
    if Qle_bool required_bandwidth available_bandwidth
    then score * 1.2 else score * 0.5 in
  let required_latency := Py.get qos "latency_ms" 100 in
  let score :=
    if bool_decide (band = OPTICAL) && negb (Qle_bool 10 required_latency)
    then score * 1.5 else score in
  Py.max 0 (Py.min 1 score).

(** *** Modulation and link budget *)

Definition _select_modulation (band : FrequencyBand)
    (qos_requirements : gmap string Q) : ModulationType :=
  let required_ber := Py.get qos_requirements "max_ber" 0.000001 in
  let required_throughput := Py.get qos_requirements "bandwidth_mbps" 10 * 1000000 in
  if bool_decide (band ∈ [MILLIMETER_WAVE; TERAHERTZ; OPTICAL]) then
    if negb (Qle_bool 0.000000001 required_ber) then QPSK
    else if negb (Qle_bool required_throughput 100000000) then QAM64
    else QAM16
  else
    if negb (Qle_bool 0.000000001 required_ber) then BPSK
    else QPSK.

Definition _get_antenna_gain (band : FrequencyBand) : Q :=
  match band with
  | MICROWAVE => 20
  | MILLIMETER_WAVE => 30
  | TERAHERTZ => 40
  | OPTICAL => 50
  end.

Definition _get_band_bandwidth (band : FrequencyBand) : Q :=
  match band with
  | MICROWAVE => 100000000
  | MILLIMETER_WAVE => 1000000000
  | TERAHERTZ => 10000000000
  | OPTICAL => 100000000000
  end.

Definition _get_spectral_efficiency (m : ModulationType) : Q :=
  match m with
  | BPSK => 1
  | QPSK => 2
  | QAM16 => 4
  | QAM64 => 6
  | OFDM => 3
  | ADAPTIVE => 2
  end.

(** The table [snr_requirements] with its default 15.0. *)
Definition snr_requirement (m : ModulationType) : Q :=
  match m with
  | BPSK => 10
  | QPSK => 13
  | QAM16 => 18
  | QAM64 => 24
  | OFDM => 15
  | ADAPTIVE => 15
  end.

(** The values drawn from [random] by one call of
    [_assess_channel_conditions], in the order of the calls. *)
Record ChannelDraws := {
  draw_snr : Q;                (* random.uniform(10, 30) *)
  draw_ber : Q;                (* random.uniform(1e-9, 1e-3) *)
  draw_atmospheric_loss : Q;   (* random.uniform(0.1, 5.0) *)
  draw_weather : string;       (* random.choice(weather_conditions) *)
  draw_multipath : Q;          (* random.uniform(0, 3) *)
  draw_doppler : Q;            (* random.uniform(-1000, 1000) *)
  draw_interference : Q        (* random.uniform(0, 0.3) *)
}.

Definition weather_conditions : list string :=
  ["clear"; "cloudy"; "rain"; "storm"]%string.

(** The draws lie in the ranges the code samples them from. *)
Definition draws_in_range (d : ChannelDraws) : Prop :=
  10 <= draw_snr d <= 30 /\
  0.000000001 <= draw_ber d <= 0.001 /\
  0.1 <= draw_atmospheric_loss d <= 5 /\
  draw_weather d ∈ weather_conditions /\
  0 <= draw_multipath d <= 3 /\
  -1000 <= draw_doppler d <= 1000 /\
  0 <= draw_interference d <= 0.3.

(** The weather adjustment of [(atmospheric_loss, snr)]. *)
Definition weather_adjust (band : FrequencyBand) (weather : string)
    (atmospheric_loss snr : Q) : Q * Q :=
  if bool_decide (band ∈ [MILLIMETER_WAVE; TERAHERTZ]) then
    if Py.str_in weather ["rain"; "storm"]%string
    then (atmospheric_loss * 3, snr * 0.5)
    else (atmospheric_loss, snr)
  else if bool_decide (band = OPTICAL) then
    if Py.str_in weather ["cloudy"; "rain"; "storm"]%string
    then (atmospheric_loss * 10, snr * 0.1)
    else (atmospheric_loss, snr)
  else (atmospheric_loss, snr).

(** [_assess_channel_conditions]; [None] stands for the
    [ZeroDivisionError] of a zero bit error rate or loss. *)
Definition _assess_channel_conditions (link : CommunicationLink)
    (now : Q) (d : ChannelDraws) : option ChannelConditions :=
  let snr := draw_snr d in
  let ber := draw_ber d in
  let atmospheric_loss := draw_atmospheric_loss d in
  let weather := draw_weather d in
  let '(atmospheric_loss, snr) :=
    weather_adjust (frequency_band link) weather atmospheric_loss snr in
  ber_ratio ← Py.div 0.000001 ber;
  loss_ratio ← Py.div 10 atmospheric_loss;
  let quality_factors :=
    [ Py.min 1 (snr / 20); Py.min 1 ber_ratio; Py.min 1 loss_ratio ] in
  let link_quality := Py.mean quality_factors in
  Some {| signal_to_noise_ratio := snr;
          bit_error_rate := ber;
          atmospheric_loss := atmospheric_loss;
          multipath_fading := draw_multipath d;
          doppler_shift := draw_doppler d;
          interference_level := draw_interference d;
          weather_impact := weather;
          link_quality_score := link_quality;
          cc_timestamp := now |}.

Section LinkBudget.

(** [np.log10]. *)
Variable np_log10 : Q -> Q.

Definition _calculate_link_budget (band : FrequencyBand)
    (modulation : ModulationType) (qos_requirements : gmap string Q) : Q * Q :=
  let frequency := (fst (freq_range band) + snd (freq_range band)) / 2 in
  let distance_km := Py.get qos_requirements "distance_km" 1000 in
  let path_loss_db :=
    20 * np_log10 (distance_km * 1000) + 20 * np_log10 frequency - 147.55 in
  let required_snr := snr_requirement modulation in
  let power_level := required_snr + path_loss_db - _get_antenna_gain band in
  let bandwidth := _get_band_bandwidth band in
  let spectral_efficiency := _get_spectral_efficiency modulation in
  let data_rate := bandwidth * spectral_efficiency in
  (power_level, data_rate).

(** The identifier [f"{source}-{destination}-{band.name}"]. *)
Definition make_link_id (source destination : string)
    (band : FrequencyBand) : string :=
  (source ++ "-" ++ destination ++ "-" ++ band_name band)%string.

(** The link as created by [establish_link], before its assessment. *)
Definition new_link (source destination : string) (band : FrequencyBand)
    (qos_requirements : gmap string Q) (now : Q) : CommunicationLink :=
  let modulation := _select_modulation band qos_requirements in
  let '(power_level, data_rate) :=
    _calculate_link_budget band modulation qos_requirements in
  {| link_id := make_link_id source destination band;
     source_node := source;
     destination_node := destination;
     frequency_band := band;
     modulation := modulation;
     data_rate := data_rate;
     power_level := power_level;
     antenna_gain := _get_antenna_gain band;
     is_active := true;
     channel_conditions := None;
     quality_history := [];
     established_at := now |}.

(** [establish_link].  The random draws of the channel assessment and
    the clock are inputs; an exception inside the [try] block yields
    [None]. *)
Definition establish_link (r : MultibandRadio) (source destination : string)
    (band : FrequencyBand) (qos_requirements : gmap string Q)
    (now : Q) (d : ChannelDraws)
    : MultibandRadio * option CommunicationLink :=
  let link_id := make_link_id source destination band in
  match active_links r !! link_id with
  | Some existing => (r, Some existing)
  | None =>
      let link := new_link source destination band qos_requirements now in
      match _assess_channel_conditions link now d with
      | None => (r, None)
      | Some cc =>
          let link := set_channel_conditions link (Some cc) in
          if Qlt_le_dec (link_quality_threshold r) (link_quality_score cc)
          then (set_active_links r (<[link_id := link]> (active_links r)),
                Some link)
          else (r, None)
      end
  end.

End LinkBudget.

End Radio.

(** ** The topology and routing manager ([space_network.py]) *)

Module Network.

Inductive NetworkStatus := ACTIVE | DEGRADED | OFFLINE | EMERGENCY.

Inductive CommunicationMode :=
  DEEP_SPACE | INTER_SATELLITE | GROUND_STATION | EMERGENCY_BEACON.

(** [mode.value]. *)
Definition mode_value (m : CommunicationMode) : string :=
  match m with
  | DEEP_SPACE => "deep_space"
  | INTER_SATELLITE => "inter_satellite"
  | GROUND_STATION => "ground_station"
  | EMERGENCY_BEACON => "emergency_beacon"
  end.

Record NetworkNode := {
  node_id : string;
  name : string;
  node_type : string;
  position : Q * Q * Q;
  velocity : Q * Q * Q;
  status : NetworkStatus;
  communication_modes : list CommunicationMode;
  last_contact : option Q;
  node_signal_strength : Q;
  bandwidth_capacity : Q;
  current_load : Q;
  priority_level : Z
}.

Record CommunicationLink := {
  link_id : string;
  source_node : string;
  target_node : string;
  link_type : CommunicationMode;
  established_at : Q;
  signal_strength : Q;
  bandwidth : Q;
  latency : Q;
  packet_loss : Q;
  is_encrypted : bool;
  quality_score : Q
}.

(** The network object.  [links] keeps the insertion order of the
    Python dictionary, which [find_optimal_route] observes through
    [self.links.values()].  The routing table filled by
    [_update_routing_table] is not read by [find_optimal_route] and is
    left out, with the configuration constants. *)
Record SpaceNetwork := {
  network_name : string;
  nodes : gmap string NetworkNode;
  links : list (string * CommunicationLink);
  network_status : NetworkStatus;
  emergency_protocols_active : bool;
  total_data_transmitted : Q
}.

(** [SpaceNetwork.__init__]. *)
Definition init (nm : string) : SpaceNetwork :=
  {| network_name := nm; nodes := ∅; links := [];
     network_status := ACTIVE; emergency_protocols_active := false;
     total_data_transmitted := 0 |}.

(** [d[k] = v] on an insertion-ordered dictionary. *)
Fixpoint dict_set {V : Type} (k : string) (v : V) (d : list (string * V))
    : list (string * V) :=
  match d with
  | [] => [(k, v)]
  | (k', v') :: d' =>
      if decide (k = k') then (k, v) :: d' else (k', v') :: dict_set k v d'
  end.

(** [d.values()]. *)
Definition dict_values {V : Type} (d : list (string * V)) : list V :=
  map snd d.

Definition set_last_contact (n : NetworkNode) (t : option Q) : NetworkNode :=
  {| node_id := node_id n; name := name n; node_type := node_type n;
     position := position n; velocity := velocity n; status := status n;
     communication_modes := communication_modes n; last_contact := t;
     node_signal_strength := node_signal_strength n;
     bandwidth_capacity := bandwidth_capacity n;
     current_load := current_load n; priority_level := priority_level n |}.

(** [add_node]. *)
Definition add_node (net : SpaceNetwork) (node : NetworkNode) (now : Q)
    : SpaceNetwork * bool :=
  match nodes net !! node_id node with
  | Some _ => (net, false)
  | None =>
      ({| network_name := network_name net;
          nodes := <[node_id node := set_last_contact node (Some now)]>
                     (nodes net);
          links := links net;
          network_status := network_status net;
          emergency_protocols_active := emergency_protocols_active net;
          total_data_transmitted := total_data_transmitted net |}, true)
  end.

(** The weight both routing algorithms give a link. *)
Definition weight (l : CommunicationLink) : Q :=
  latency l * (2 - quality_score l).

Section LinkModel.

(** [np.linalg.norm], [np.log10] and [10 ** x]. *)
Variable np_linalg_norm : Q * Q * Q -> Q.
Variable np_log10 : Q -> Q.
Variable pow10 : Q -> Q.

Definition base_strength (m : CommunicationMode) : Q :=
  match m with
  | DEEP_SPACE => 0.6
  | INTER_SATELLITE => 0.9
  | GROUND_STATION => 0.8
  | EMERGENCY_BEACON => 0.7
  end.

Definition _calculate_signal_strength (distance : Q)
    (link_type : CommunicationMode) : Q :=
  let distance_km := distance / 1000 in
  if Qeq_bool distance_km 0 then base_strength link_type
  else
    let path_loss_db :=
      20 * np_log10 distance_km + 20 * np_log10 2400000000 - 147.55 in
    let strength := base_strength link_type * pow10 (- path_loss_db / 20) in
    Py.max 0.1 (Py.min 1 strength).

Definition max_bandwidth (m : CommunicationMode) : Q :=
  match m with
  | DEEP_SPACE => 10
  | INTER_SATELLITE => 100
  | GROUND_STATION => 50
  | EMERGENCY_BEACON => 5
  end.

Definition _calculate_bandwidth (signal_strength : Q)
    (link_type : CommunicationMode) : Q :=
  max_bandwidth link_type * signal_strength.

Definition processing_delay (m : CommunicationMode) : Q :=
  match m with
  | DEEP_SPACE => 100
  | INTER_SATELLITE => 10
  | GROUND_STATION => 50
  | EMERGENCY_BEACON => 20
  end.

Definition _calculate_latency (distance : Q) (link_type : CommunicationMode)
    : Q :=
  let light_speed := 300000000 in
  let propagation_delay := (distance / light_speed) * 1000 in
  propagation_delay + processing_delay link_type.

Definition vec_sub (a b : Q * Q * Q) : Q * Q * Q :=
  let '(ax, ay, az) := a in
  let '(bx, by', bz) := b in
  (ax - bx, ay - by', az - bz).

(** [establish_link]. *)
Definition establish_link (net : SpaceNetwork) (source_id target_id : string)
    (link_type : CommunicationMode) (now : Q)
    : SpaceNetwork * option CommunicationLink :=
  match nodes net !! source_id, nodes net !! target_id with
  | Some source_node, Some target_node =>
      let distance :=
        np_linalg_norm (vec_sub (position source_node) (position target_node)) in
      let signal_strength := _calculate_signal_strength distance link_type in
      let bandwidth := _calculate_bandwidth signal_strength link_type in
      let latency := _calculate_latency distance link_type in
      let link :=
        {| link_id := (source_id ++ "-" ++ target_id ++ "-"
                         ++ mode_value link_type)%string;
           source_node := source_id;
           target_node := target_id;
           link_type := link_type;
           established_at := now;
           signal_strength := signal_strength;
           bandwidth := bandwidth;
           latency := latency;
           packet_loss := 0;
           is_encrypted := true;
           quality_score := signal_strength |} in
      ({| network_name := network_name net;
          nodes := nodes net;
          links := dict_set (link_id link) link (links net);
          network_status := network_status net;
          emergency_protocols_active := emergency_protocols_active net;
          total_data_transmitted := total_data_transmitted net |}, Some link)
  | _, _ => (net, None)
  end.

End LinkModel.

(** *** [find_optimal_route] *)

(** A distance: a float that may be [float('infinity')]. *)
Inductive dist := Fin (q : Q) | Inf.

(** [a < b] on distances. *)
Definition dist_lt (a b : dist) : bool :=
  match a, b with
  | Fin x, Fin y => if Qlt_le_dec x y then true else false
  | Fin _, Inf => true
  | Inf, _ => false
  end.

(** [a + w] for a finite weight [w]. *)
Definition dist_add (a : dist) (w : Q) : dist :=
  match a with
  | Fin x => Fin (x + w)
  | Inf => Inf
  end.

(** [distances[x]]; every key looked up is a registered node. *)
Definition dist_of (distances : gmap string dist) (x : string) : dist :=
  default Inf (distances !! x).

(** [min(iterable, key=...)] after its first element: the running
    best is replaced only by a strictly smaller key. *)
Fixpoint min_by (key : string -> dist) (best : string) (rest : list string)
    : string :=
  match rest with
  | [] => best
  | x :: rest' =>
      min_by key (if dist_lt (key x) (key best) then x else best) rest'
  end.

(** [min(iterable, key=...)]; [None] is the [ValueError] of an empty
    iterable. *)
Definition py_min_key (key : string -> dist) (l : list string)
    : option string :=
  match l with
  | [] => None
  | x :: rest => Some (min_by key x rest)
  end.

(** One iteration of [for link in self.links.values()]. *)
Definition relax_link (current : string) (unvisited : gset string)
    (st : gmap string dist * gmap string string) (link : CommunicationLink)
    : gmap string dist * gmap string string :=
  let '(distances, previous) := st in
  if bool_decide (source_node link = current)
     && bool_decide (target_node link ∈ unvisited)
  then
    let alt := dist_add (dist_of distances current) (weight link) in
    if dist_lt alt (dist_of distances (target_node link))
    then (<[target_node link := alt]> distances,
          <[target_node link := current]> previous)
    else st
  else st.

Definition relax_links (links : list CommunicationLink) (current : string)
    (unvisited : gset string)
    (st : gmap string dist * gmap string string)
    : gmap string dist * gmap string string :=
  fold_left (relax_link current unvisited) links st.

(** The reconstruction loop [while current is not None]; [None] when
    the fuel runs out. *)
Fixpoint walk_back (fuel : nat) (previous : gmap string string)
    (current : option string) (path : list string) : option (list string) :=
  match current with
  | None => Some path
  | Some c =>
      match fuel with
      | O => None
      | S fuel' => walk_back fuel' previous (previous !! c) (path ++ [c])
      end
  end.

Section Dijkstra.

(** The order in which a Python [set] is iterated is not specified:
    it is a parameter, known only to enumerate the elements. *)
Variable set_iter : gset string -> list string.

(** The [while unvisited] loop; [None] when the fuel runs out or when
    [min] is applied to an empty set. *)
Fixpoint dijkstra_loop (fuel : nat) (links : list CommunicationLink)
    (target_id : string) (distances : gmap string dist)
    (previous : gmap string string) (unvisited : gset string)
    : option (gmap string dist * gmap string string) :=
  match fuel with
  | O => None
  | S fuel' =>
      if bool_decide (unvisited = ∅) then Some (distances, previous)
      else
        match py_min_key (dist_of distances) (set_iter unvisited) with
        | None => None
        | Some current =>
            match dist_of distances current with
            | Inf => Some (distances, previous)
            | Fin _ =>
                if bool_decide (current = target_id)
                then Some (distances, previous)
                else
                  let unvisited := unvisited ∖ {[current]} in
                  let '(distances, previous) :=
                    relax_links links current unvisited (distances, previous) in
                  dijkstra_loop fuel' links target_id distances previous
                    unvisited
            end
        end
  end.

(** [find_optimal_route]; the result is [None] only if a loop of the
    model runs out of fuel. *)
Definition find_optimal_route (net : SpaceNetwork)
    (source_id target_id : string) : option (list string) :=
  if negb (bool_decide (source_id ∈ dom (nodes net)))
     || negb (bool_decide (target_id ∈ dom (nodes net)))
  then Some []
  else if bool_decide (source_id = target_id) then Some [source_id]
  else
    let distances :=
      <[source_id := Fin 0]> (gset_to_gmap Inf (dom (nodes net))) in
    let previous : gmap string string := ∅ in
    let unvisited := dom (nodes net) in
    match dijkstra_loop (S (size unvisited)) (dict_values (links net))
            target_id distances previous unvisited with
    | None => None
    | Some (distances, previous) =>
        if bool_decide (previous !! target_id = None)
           && negb (bool_decide (target_id = source_id))
        then Some []
        else
          (fun path => List.rev path)
            <$> walk_back (S (size unvisited)) previous (Some target_id) []
    end.

End Dijkstra.

(** *** Directed link paths *)

(** [is_walk links a b ls]: the links [ls], all of them in [links],
    lead from [a] to [b]. *)
Fixpoint is_walk (links : list CommunicationLink) (a b : string)
    (ls : list CommunicationLink) : Prop :=
  match ls with
  | [] => a = b
  | l :: ls' =>
      l ∈ links /\ source_node l = a /\ is_walk links (target_node l) b ls'
  end.

Definition walk_weight (ls : list CommunicationLink) : Q :=
  fold_right (fun l acc => weight l + acc) 0 ls.

(** The nodes a walk from [a] goes through. *)
Definition walk_nodes (a : string) (ls : list CommunicationLink)
    : list string :=
  a :: map target_node ls.

(** Every link joins two registered nodes and has a non-negative
    weight. *)
Definition network_wf (net : SpaceNetwork) : Prop :=
  forall l, l ∈ dict_values (links net) ->
    source_node l ∈ dom (nodes net) /\
    target_node l ∈ dom (nodes net) /\
    0 <= weight l.

End Network.

(** ** The transport protocol engine ([deep_space_protocol.py]) *)

Module Protocol.

(** *** Strings and bytes

    A Python [str] is modelled by the string of its UTF-8 bytes, so
    that [encode] keeps the bytes and [decode] checks them. *)

Definition encode (s : string) : list byte := list_byte_of_string s.

Definition in_range (lo hi b : N) : bool := ((lo <=? b) && (b <=? hi))%N.

Definition continuation (b : N) : bool := in_range 128 191 b.

(** Well-formed UTF-8, as the strict decoder of Python accepts it. *)
Fixpoint utf8_valid (l : list N) : bool :=
  match l with
  | [] => true
  | b0 :: r0 =>
      if (b0 <? 128)%N then utf8_valid r0
      else
        match r0 with
        | [] => false
        | b1 :: r1 =>
            if in_range 194 223 b0 then continuation b1 && utf8_valid r1
            else
              match r1 with
              | [] => false
              | b2 :: r2 =>
                  if (N.eqb b0 224 && in_range 160 191 b1)
                     || (in_range 225 236 b0 && continuation b1)
                     || (N.eqb b0 237 && in_range 128 159 b1)
                     || (in_range 238 239 b0 && continuation b1)
                  then continuation b2 && utf8_valid r2
                  else
                    match r2 with
                    | [] => false
                    | b3 :: r3 =>
                        if (N.eqb b0 240 && in_range 144 191 b1)
                           || (in_range 241 243 b0 && continuation b1)
                           || (N.eqb b0 244 && in_range 128 143 b1)
                        then continuation b2 && continuation b3
                             && utf8_valid r3
                        else false
                    end
              end
        end
  end.

(** [b.decode()]; [None] is the [UnicodeDecodeError]. *)
Definition decode (b : list byte) : option string :=
  if utf8_valid (map Byte.to_N b) then Some (string_of_list_byte b) else None.

Fixpoint lstrip_nul (b : list byte) : list byte :=
  match b with
  | [] => []
  | x :: r => if Byte.eqb x x00 then lstrip_nul r else b
  end.

Definition rstrip_nul (b : list byte) : list byte :=
  rev (lstrip_nul (rev b)).

(** [s.rstrip('\x00')] and [s.strip('\x00')]. *)
Definition str_rstrip_nul (s : string) : string :=
  string_of_list_byte (rstrip_nul (list_byte_of_string s)).

Definition str_strip_nul (s : string) : string :=
  string_of_list_byte (lstrip_nul (rstrip_nul (list_byte_of_string s))).

(** [b.ljust(n, b'\x00')]. *)
Definition ljust (n : nat) (b : list byte) : list byte :=
  b ++ repeat x00 (n - length b).

(** [b[i:j]]. *)
Definition slice (i j : nat) (b : list byte) : list byte :=
  take (j - i) (drop i b).

(** [str(n)] for an integer. *)
Definition str_int (z : Z) : string := NilZero.string_of_int (Z.to_int z).

(** *** The [struct] module *)

Definition byte_of_Z (v : Z) : byte :=
  default x00 (Byte.of_N (Z.to_N (v mod 256))).

Definition Z_of_byte (b : byte) : Z := Z.of_N (Byte.to_N b).

(** The [n] low-order bytes of [v], least significant first. *)
Fixpoint le_bytes (n : nat) (v : Z) : list byte :=
  match n with
  | O => []
  | S n' => byte_of_Z v :: le_bytes n' (v / 256)
  end.

(** The unsigned integer whose big-endian bytes are [b]. *)
Definition be_uint (b : list byte) : Z :=
  fold_left (fun acc x => (acc * 256 + Z_of_byte x)%Z) b 0%Z.

(** [struct.pack('B', v)]; [None] is [struct.error]. *)
Definition pack_B (v : Z) : option (list byte) :=
  if ((0 <=? v) && (v <? 256))%Z then Some [byte_of_Z v] else None.

(** [struct.pack('I', v)] in native order, taken to be little-endian. *)
Definition pack_I (v : Z) : option (list byte) :=
  if ((0 <=? v) && (v <? 2 ^ 32))%Z then Some (le_bytes 4 v) else None.

(** [struct.pack('!I', v)]. *)
Definition pack_I_be (v : Z) : option (list byte) :=
  (fun b => rev b) <$> pack_I v.

(** The field of a ['32s'] format: the bytes cut or padded to 32. *)
Definition pack_32s (b : list byte) : list byte := ljust 32 (take 32 b).

(** *** Packets *)

Inductive PacketType :=
  DATA | ACK | NACK | HEARTBEAT | EMERGENCY | ROUTING_UPDATE | TIME_SYNC.

#[global] Instance PacketType_eq_dec : EqDecision PacketType.
Proof. solve_decision. Defined.

Definition packet_type_value (t : PacketType) : Z :=
  match t with
  | DATA => 1 | ACK => 2 | NACK => 3 | HEARTBEAT => 4
  | EMERGENCY => 5 | ROUTING_UPDATE => 6 | TIME_SYNC => 7
  end.

(** [PacketType(v)]; [None] is the [ValueError]. *)
Definition packet_type_of_value (v : Z) : option PacketType :=
  match v with
  | 1 => Some DATA | 2 => Some ACK | 3 => Some NACK | 4 => Some HEARTBEAT
  | 5 => Some EMERGENCY | 6 => Some ROUTING_UPDATE | 7 => Some TIME_SYNC
  | _ => None
  end%Z.

Module Priority.
Inductive t := LOW | NORMAL | HIGH | CRITICAL | EMERGENCY.

Definition value (p : t) : Z :=
  match p with
  | LOW => 1 | NORMAL => 2 | HIGH => 3 | CRITICAL => 4 | EMERGENCY => 5
  end.

Definition of_value (v : Z) : option t :=
  match v with
  | 1 => Some LOW | 2 => Some NORMAL | 3 => Some HIGH | 4 => Some CRITICAL
  | 5 => Some EMERGENCY
  | _ => None
  end%Z.
End Priority.

(** A packet.  [retry_count] is the attribute the ack-timeout handler
    attaches to a packet; [None] when it has not been set. *)
Record DeepSpacePacket := {
  packet_id : string;
  source_id : string;
  destination_id : string;
  packet_type : PacketType;
  priority : Priority.t;
  payload : list byte;
  sequence_number : Z;
  timestamp : Q;
  ttl : Z;
  route_history : list string;
  checksum : string;
  retry_count : option Z
}.

Definition set_route_history (p : DeepSpacePacket) (h : list string)
    : DeepSpacePacket :=
  {| packet_id := packet_id p; source_id := source_id p;
     destination_id := destination_id p; packet_type := packet_type p;
     priority := priority p; payload := payload p;
     sequence_number := sequence_number p; timestamp := timestamp p;
     ttl := ttl p; route_history := h; checksum := checksum p;
     retry_count := retry_count p |}.

Definition set_retry_count (p : DeepSpacePacket) (c : option Z)
    : DeepSpacePacket :=
  {| packet_id := packet_id p; source_id := source_id p;
     destination_id := destination_id p; packet_type := packet_type p;
     priority := priority p; payload := payload p;
     sequence_number := sequence_number p; timestamp := timestamp p;
     ttl := ttl p; route_history := route_history p;
     checksum := checksum p; retry_count := c |}.

(** [getattr(packet, 'retry_count', 0)]. *)
Definition get_retry_count (p : DeepSpacePacket) : Z :=
  default 0%Z (retry_count p).

(** *** Effects and tasks *)

Inductive Level := DEBUG | INFO | WARNING | ERROR.

(** The messages passed to the logger, by their format string. *)
Inductive Message :=
  | MsgInitialized (node : string)
  | MsgPayloadTooLarge (size : Z)
  | MsgSent (pid destination : string)
  | MsgSendFailed
  | MsgInvalidPacket (pid : string)
  | MsgDuplicate (pid : string)
  | MsgProcessFailed
  | MsgNoRoute (destination : string)
  | MsgTransmitted (pid neighbor : string)
  | MsgAckReceived (pid : string)
  | MsgNackRetransmitted (pid : string)
  | MsgHeartbeat (source : string)
  | MsgRoutingUpdate (source : string)
  | MsgRoutingUpdateFailed
  | MsgReceived (pid source : string)
  | MsgExpired (pid : string)
  | MsgLoop (pid : string)
  | MsgRetransmitting (pid : string) (attempt : Z)
  | MsgDeliveryFailed (pid : string) (retries : Z)
  | MsgDeserializeFailed.

(** The coroutine that calls [asyncio.sleep]. *)
Inductive Coroutine :=
  | CoAckTimeout (pid : string)
  | CoTransmit (neighbor : string).

Inductive Effect :=
  | Logged (level : Level) (msg : Message)
  | Slept (co : Coroutine) (duration : Q).

(** A task running [_handle_ack_timeout(pid)]: created and not yet
    started, suspended in [asyncio.sleep(self.ack_timeout)], or
    suspended in the backoff sleep with the packet and the retry count
    it has read. *)
Inductive Task :=
  | TaskCreated (pid : string)
  | TaskAckSleep (wake : Q) (pid : string)
  | TaskBackoff (wake : Q) (pid : string) (packet : DeepSpacePacket)
      (retries : Z).


(** The protocol object. *)
Record DeepSpaceProtocol := {
  node_id : string;
  max_retries : Z;
  ack_timeout : Q;
  sequence_counter : Z;
  pending_acks : gmap string DeepSpacePacket;
  received_packets : gmap string DeepSpacePacket;
  duplicate_filter : gmap string Q;
  routing_table : gmap string string;
  neighbor_nodes : gmap string Q;
  link_qualities : gmap string Q;
  packets_sent : Z;
  packets_received : Z;
  packets_dropped : Z;
  bytes_transmitted : Z;
  bytes_received : Z;
  packet_cache_duration : Q;
  neighbor_timeout : Q;
  max_packet_size : Z
}.

Definition set_sequence_counter (p : DeepSpaceProtocol)
    (v : Z) : DeepSpaceProtocol :=
  {| node_id := node_id p; max_retries := max_retries p; ack_timeout :=
     ack_timeout p; sequence_counter := v; pending_acks := pending_acks p;
     received_packets := received_packets p; duplicate_filter :=
     duplicate_filter p; routing_table := routing_table p; neighbor_nodes :=
     neighbor_nodes p; link_qualities := link_qualities p; packets_sent :=
     packets_sent p; packets_received := packets_received p; packets_dropped
     := packets_dropped p; bytes_transmitted := bytes_transmitted p;
     bytes_received := bytes_received p; packet_cache_duration :=
     packet_cache_duration p; neighbor_timeout := neighbor_timeout p;
     max_packet_size := max_packet_size p |}.

Definition set_pending_acks (p : DeepSpaceProtocol)
    (v : gmap string DeepSpacePacket) : DeepSpaceProtocol :=
  {| node_id := node_id p; max_retries := max_retries p; ack_timeout :=
     ack_timeout p; sequence_counter := sequence_counter p; pending_acks :=
     v; received_packets := received_packets p; duplicate_filter :=
     duplicate_filter p; routing_table := routing_table p; neighbor_nodes :=
     neighbor_nodes p; link_qualities := link_qualities p; packets_sent :=
     packets_sent p; packets_received := packets_received p; packets_dropped
     := packets_dropped p; bytes_transmitted := bytes_transmitted p;
     bytes_received := bytes_received p; packet_cache_duration :=
     packet_cache_duration p; neighbor_timeout := neighbor_timeout p;
     max_packet_size := max_packet_size p |}.

Definition set_received_packets (p : DeepSpaceProtocol)
    (v : gmap string DeepSpacePacket) : DeepSpaceProtocol :=
  {| node_id := node_id p; max_retries := max_retries p; ack_timeout :=
     ack_timeout p; sequence_counter := sequence_counter p; pending_acks :=
     pending_acks p; received_packets := v; duplicate_filter :=
     duplicate_filter p; routing_table := routing_table p; neighbor_nodes :=
     neighbor_nodes p; link_qualities := link_qualities p; packets_sent :=
     packets_sent p; packets_received := packets_received p; packets_dropped
     := packets_dropped p; bytes_transmitted := bytes_transmitted p;
     bytes_received := bytes_received p; packet_cache_duration :=
     packet_cache_duration p; neighbor_timeout := neighbor_timeout p;
     max_packet_size := max_packet_size p |}.

Definition set_duplicate_filter (p : DeepSpaceProtocol)
    (v : gmap string Q) : DeepSpaceProtocol :=
  {| node_id := node_id p; max_retries := max_retries p; ack_timeout :=
     ack_timeout p; sequence_counter := sequence_counter p; pending_acks :=
     pending_acks p; received_packets := received_packets p; duplicate_filter
     := v; routing_table := routing_table p; neighbor_nodes := neighbor_nodes
     p; link_qualities := link_qualities p; packets_sent := packets_sent p;
     packets_received := packets_received p; packets_dropped :=
     packets_dropped p; bytes_transmitted := bytes_transmitted p;
     bytes_received := bytes_received p; packet_cache_duration :=
     packet_cache_duration p; neighbor_timeout := neighbor_timeout p;
     max_packet_size := max_packet_size p |}.

Definition set_routing_table (p : DeepSpaceProtocol)
    (v : gmap string string) : DeepSpaceProtocol :=
  {| node_id := node_id p; max_retries := max_retries p; ack_timeout :=
     ack_timeout p; sequence_counter := sequence_counter p; pending_acks :=
     pending_acks p; received_packets := received_packets p; duplicate_filter
     := duplicate_filter p; routing_table := v; neighbor_nodes :=
     neighbor_nodes p; link_qualities := link_qualities p; packets_sent :=
     packets_sent p; packets_received := packets_received p; packets_dropped
     := packets_dropped p; bytes_transmitted := bytes_transmitted p;
     bytes_received := bytes_received p; packet_cache_duration :=
     packet_cache_duration p; neighbor_timeout := neighbor_timeout p;
     max_packet_size := max_packet_size p |}.

Definition set_neighbor_nodes (p : DeepSpaceProtocol)
    (v : gmap string Q) : DeepSpaceProtocol :=
  {| node_id := node_id p; max_retries := max_retries p; ack_timeout :=
     ack_timeout p; sequence_counter := sequence_counter p; pending_acks :=
     pending_acks p; received_packets := received_packets p; duplicate_filter
     := duplicate_filter p; routing_table := routing_table p; neighbor_nodes
     := v; link_qualities := link_qualities p; packets_sent := packets_sent
     p; packets_received := packets_received p; packets_dropped :=
     packets_dropped p; bytes_transmitted := bytes_transmitted p;
     bytes_received := bytes_received p; packet_cache_duration :=
     packet_cache_duration p; neighbor_timeout := neighbor_timeout p;
     max_packet_size := max_packet_size p |}.

Definition set_link_qualities (p : DeepSpaceProtocol)
    (v : gmap string Q) : DeepSpaceProtocol :=
  {| node_id := node_id p; max_retries := max_retries p; ack_timeout :=
     ack_timeout p; sequence_counter := sequence_counter p; pending_acks :=
     pending_acks p; received_packets := received_packets p; duplicate_filter
     := duplicate_filter p; routing_table := routing_table p; neighbor_nodes
     := neighbor_nodes p; link_qualities := v; packets_sent := packets_sent
     p; packets_received := packets_received p; packets_dropped :=
     packets_dropped p; bytes_transmitted := bytes_transmitted p;
     bytes_received := bytes_received p; packet_cache_duration :=
     packet_cache_duration p; neighbor_timeout := neighbor_timeout p;
     max_packet_size := max_packet_size p |}.

Definition set_packets_sent (p : DeepSpaceProtocol)
    (v : Z) : DeepSpaceProtocol :=
  {| node_id := node_id p; max_retries := max_retries p; ack_timeout :=
     ack_timeout p; sequence_counter := sequence_counter p; pending_acks :=
     pending_acks p; received_packets := received_packets p; duplicate_filter
     := duplicate_filter p; routing_table := routing_table p; neighbor_nodes
     := neighbor_nodes p; link_qualities := link_qualities p; packets_sent :=
     v; packets_received := packets_received p; packets_dropped :=
     packets_dropped p; bytes_transmitted := bytes_transmitted p;
     bytes_received := bytes_received p; packet_cache_duration :=
     packet_cache_duration p; neighbor_timeout := neighbor_timeout p;
     max_packet_size := max_packet_size p |}.

Definition set_packets_received (p : DeepSpaceProtocol)
    (v : Z) : DeepSpaceProtocol :=
  {| node_id := node_id p; max_retries := max_retries p; ack_timeout :=
     ack_timeout p; sequence_counter := sequence_counter p; pending_acks :=
     pending_acks p; received_packets := received_packets p; duplicate_filter
     := duplicate_filter p; routing_table := routing_table p; neighbor_nodes
     := neighbor_nodes p; link_qualities := link_qualities p; packets_sent :=
     packets_sent p; packets_received := v; packets_dropped :=
     packets_dropped p; bytes_transmitted := bytes_transmitted p;
     bytes_received := bytes_received p; packet_cache_duration :=
     packet_cache_duration p; neighbor_timeout := neighbor_timeout p;
     max_packet_size := max_packet_size p |}.

Definition set_packets_dropped (p : DeepSpaceProtocol)
    (v : Z) : DeepSpaceProtocol :=
  {| node_id := node_id p; max_retries := max_retries p; ack_timeout :=
     ack_timeout p; sequence_counter := sequence_counter p; pending_acks :=
     pending_acks p; received_packets := received_packets p; duplicate_filter
     := duplicate_filter p; routing_table := routing_table p; neighbor_nodes
     := neighbor_nodes p; link_qualities := link_qualities p; packets_sent :=
     packets_sent p; packets_received := packets_received p; packets_dropped
     := v; bytes_transmitted := bytes_transmitted p; bytes_received :=
     bytes_received p; packet_cache_duration := packet_cache_duration p;
     neighbor_timeout := neighbor_timeout p; max_packet_size :=
     max_packet_size p |}.

Definition set_bytes_transmitted (p : DeepSpaceProtocol)
    (v : Z) : DeepSpaceProtocol :=
  {| node_id := node_id p; max_retries := max_retries p; ack_timeout :=
     ack_timeout p; sequence_counter := sequence_counter p; pending_acks :=
     pending_acks p; received_packets := received_packets p; duplicate_filter
     := duplicate_filter p; routing_table := routing_table p; neighbor_nodes
     := neighbor_nodes p; link_qualities := link_qualities p; packets_sent :=
     packets_sent p; packets_received := packets_received p; packets_dropped
     := packets_dropped p; bytes_transmitted := v; bytes_received :=
     bytes_received p; packet_cache_duration := packet_cache_duration p;
     neighbor_timeout := neighbor_timeout p; max_packet_size :=
     max_packet_size p |}.

Definition set_bytes_received (p : DeepSpaceProtocol)
    (v : Z) : DeepSpaceProtocol :=
  {| node_id := node_id p; max_retries := max_retries p; ack_timeout :=
     ack_timeout p; sequence_counter := sequence_counter p; pending_acks :=
     pending_acks p; received_packets := received_packets p; duplicate_filter
     := duplicate_filter p; routing_table := routing_table p; neighbor_nodes
     := neighbor_nodes p; link_qualities := link_qualities p; packets_sent :=
     packets_sent p; packets_received := packets_received p; packets_dropped
     := packets_dropped p; bytes_transmitted := bytes_transmitted p;
     bytes_received := v; packet_cache_duration := packet_cache_duration p;
     neighbor_timeout := neighbor_timeout p; max_packet_size :=
     max_packet_size p |}.

(** The protocol object in its environment: the clock read by
    [time.time()], the tasks created by [asyncio.create_task] that
    have not finished, the effects performed so far and the number of
    random draws made. *)
Record World := {
  proto : DeepSpaceProtocol;
  clock : Q;
  tasks : list Task;
  trace : list Effect;
  rng : nat
}.

Definition set_proto (w : World) (v : DeepSpaceProtocol) : World :=
  {| proto := v; clock := clock w; tasks := tasks w; trace := trace w; rng :=
     rng w |}.

Definition set_clock (w : World) (v : Q) : World :=
  {| proto := proto w; clock := v; tasks := tasks w; trace := trace w; rng :=
     rng w |}.

Definition set_tasks (w : World) (v : list Task) : World :=
  {| proto := proto w; clock := clock w; tasks := v; trace := trace w; rng :=
     rng w |}.

Definition set_trace (w : World) (v : list Effect) : World :=
  {| proto := proto w; clock := clock w; tasks := tasks w; trace := v; rng :=
     rng w |}.

Definition set_rng (w : World) (v : nat) : World :=
  {| proto := proto w; clock := clock w; tasks := tasks w; trace := trace w;
     rng := v |}.

Definition upd_proto (f : DeepSpaceProtocol -> DeepSpaceProtocol)
    (w : World) : World :=
  set_proto w (f (proto w)).

(** [DeepSpaceProtocol.__init__]. *)
Definition init (node : string) (retries : Z) (timeout : Q)
    : DeepSpaceProtocol :=
  {| node_id := node; max_retries := retries; ack_timeout := timeout;
     sequence_counter := 0; pending_acks := ∅; received_packets := ∅;
     duplicate_filter := ∅; routing_table := ∅; neighbor_nodes := ∅;
     link_qualities := ∅; packets_sent := 0; packets_received := 0;
     packets_dropped := 0; bytes_transmitted := 0; bytes_received := 0;
     packet_cache_duration := 3600; neighbor_timeout := 600;
     max_packet_size := 65536 |}.

Definition init_world (node : string) (retries : Z) (timeout : Q) (now : Q)
    : World :=
  {| proto := init node retries timeout; clock := now; tasks := [];
     trace := [Logged INFO (MsgInitialized node)]; rng := 0 |}.

(** [logger.<level>(msg)]. *)
Definition log (lvl : Level) (msg : Message) (w : World) : World :=
  set_trace w (trace w ++ [Logged lvl msg]).

(** [await asyncio.sleep(d)] inside a coroutine that is run to its end
    in one piece: the clock advances; a sleep that is not positive
    returns at once. *)
Definition sleep (co : Coroutine) (d : Q) (w : World) : World :=
  set_clock (set_trace w (trace w ++ [Slept co d])) (clock w + Qmax 0 d).

(** [asyncio.create_task(self._handle_ack_timeout(pid))]. *)
Definition create_task (pid : string) (w : World) : World :=
  set_tasks w (tasks w ++ [TaskCreated pid]).

Section Model.

(** Library functions whose results are not computed here:
    [hashlib.sha256(data).hexdigest()], [struct.pack('d', x)] and
    [struct.unpack('d', b)] in native byte order, [str(x)] of a float,
    and the successive draws of [np.random.exponential(0.05)]. *)
Variable sha256_hexdigest : list byte -> string.
Variable pack_d : Q -> list byte.
Variable unpack_d : list byte -> Q.
Variable str_float : Q -> string.
Variable random_exponential : nat -> Q.

(** *** [DeepSpacePacket] *)

(** The bytes [_calculate_checksum] hashes; [None] is the
    [struct.error] of a field that does not fit its format. *)
Definition checksum_input (p : DeepSpacePacket) : option (list byte) :=
  type_byte ← pack_B (packet_type_value (packet_type p));
  priority_byte ← pack_B (Priority.value (priority p));
  sequence_bytes ← pack_I (sequence_number p);
  Some (encode (packet_id p) ++ encode (source_id p)
        ++ encode (destination_id p) ++ type_byte ++ priority_byte
        ++ payload p ++ sequence_bytes ++ pack_d (timestamp p)).

Definition _calculate_checksum (p : DeepSpacePacket) : option string :=
  sha256_hexdigest <$> checksum_input p.

Definition is_valid (p : DeepSpacePacket) : option bool :=
  c ← _calculate_checksum p;
  Some (bool_decide (checksum p = c)).

(** The constructor with its [__post_init__]: a checksum that is not
    given is computed. *)
Definition new_packet (pid src dst : string) (ty : PacketType)
    (prio : Priority.t) (data : list byte) (seq : Z) (ts : Q) (life : Z)
    (history : list string) (given : option string)
    : option DeepSpacePacket :=
  let p c :=
    {| packet_id := pid; source_id := src; destination_id := dst;
       packet_type := ty; priority := prio; payload := data;
       sequence_number := seq; timestamp := ts; ttl := life;
       route_history := history; checksum := c; retry_count := None |} in
  match given with
  | Some c => Some (p c)
  | None => c ← _calculate_checksum (p ""%string); Some (p c)
  end.

(** [serialize]. *)
Definition serialize (p : DeepSpacePacket) : option (list byte) :=
  type_byte ← pack_B (packet_type_value (packet_type p));
  priority_byte ← pack_B (Priority.value (priority p));
  sequence_bytes ← pack_I_be (sequence_number p);
  length_bytes ← pack_I_be (Z.of_nat (length (payload p)));
  let header :=
    pack_32s (take 32 (encode (packet_id p)))
    ++ pack_32s (take 32 (encode (source_id p)))
    ++ pack_32s (take 32 (encode (destination_id p)))
    ++ type_byte ++ priority_byte ++ sequence_bytes ++ length_bytes
    ++ rev (pack_d (timestamp p)) in
  let route_data :=
    concat (map (fun node => ljust 32 (take 32 (encode node)))
                (take 10 (route_history p))) in
  route_header ← pack_B (Z.of_nat (length (route_history p)));
  let checksum_data := ljust 64 (take 64 (encode (checksum p))) in
  Some (header ++ route_header ++ route_data ++ checksum_data ++ payload p).

(** [struct.calcsize('!32s32s32sBBIId')]. *)
Definition header_size : nat := 32 + 32 + 32 + 1 + 1 + 4 + 4 + 8.

(** [struct.unpack('!32s32s32sBBIId', buf)]; the buffer must have
    exactly the size of the format, otherwise [struct.error]. *)
Definition unpack_header (buf : list byte)
    : option (list byte * list byte * list byte * Z * Z * Z * Z * Q) :=
  if Nat.eqb (length buf) header_size then
    Some (slice 0 32 buf, slice 32 64 buf, slice 64 96 buf,
          be_uint (slice 96 97 buf), be_uint (slice 97 98 buf),
          be_uint (slice 98 102 buf), be_uint (slice 102 106 buf),
          unpack_d (rev (slice 106 114 buf)))
  else None.

(** [struct.unpack('!B', buf)[0]]. *)
Definition unpack_B (buf : list byte) : option Z :=
  match buf with
  | [b] => Some (Z_of_byte b)
  | _ => None
  end.

(** The loop over the route entries of [_deserialize_packet]. *)
Fixpoint parse_route (count i : nat) (route_data : list byte)
    : option (list string) :=
  match count with
  | O => Some []
  | S count' =>
      node ← decode (slice (i * 32) ((i + 1) * 32) route_data);
      let node := str_rstrip_nul node in
      rest ← parse_route count' (S i) route_data;
      Some (if bool_decide (node = ""%string) then rest else node :: rest)
  end.

(** The body of the [try] block of [_deserialize_packet] after the
    length test; [None] is an exception. *)
Definition parse_packet (data : list byte) : option DeepSpacePacket :=
  header ← unpack_header (slice 0 142 data);
  let '(h_pid, h_src, h_dst, h_type, h_prio, h_seq, h_len, h_time) :=
    header in
  pid ← decode h_pid;
  src ← decode h_src;
  dst ← decode h_dst;
  ty ← packet_type_of_value h_type;
  prio ← Priority.of_value h_prio;
  route_count ← unpack_B (slice 142 143 data);
  let route_count := Z.to_nat route_count in
  let route_data := slice 143 (143 + route_count * 32) data in
  history ← parse_route route_count 0 route_data;
  let checksum_start := (143 + route_count * 32)%nat in
  sum ← decode (slice checksum_start (checksum_start + 64) data);
  let payload_start := (checksum_start + 64)%nat in
  let body := slice payload_start (payload_start + Z.to_nat h_len) data in
  new_packet (str_rstrip_nul pid) (str_rstrip_nul src) (str_rstrip_nul dst)
    ty prio body h_seq h_time 86400 history (Some (str_rstrip_nul sum)).

Definition _deserialize_packet (w : World) (data : list byte)
    : World * option DeepSpacePacket :=
  if Nat.ltb (length data) 142 then (w, None)
  else
    match parse_packet data with
    | Some p => (w, Some p)
    | None => (log ERROR MsgDeserializeFailed w, None)
    end.

(** *** [DeepSpaceProtocol] *)

(** [_is_duplicate]. *)
Definition _is_duplicate (w : World) (packet : DeepSpacePacket)
    : World * bool :=
  let packet_key :=
    (source_id packet ++ "_" ++ str_int (sequence_number packet))%string in
  let current_time := clock w in
  let duration := packet_cache_duration (proto w) in
  (* Clean old entries *)
  let kept :=
    filter (fun kv => Qle_bool (current_time - snd kv) duration = true)
           (duplicate_filter (proto w)) in
  let w := upd_proto (fun p => set_duplicate_filter p kept) w in
  match kept !! packet_key with
  | Some _ => (w, true)
  | None =>
      (upd_proto (fun p =>
         set_duplicate_filter p (<[packet_key := current_time]> kept)) w,
       false)
  end.

(** [_calculate_transmission_delay]. *)
Definition _calculate_transmission_delay (w : World) (neighbor_id : string)
    : World * Q :=
  let base_delay := 0.1 in
  let random_component := random_exponential (rng w) in
  (set_rng w (S (rng w)), base_delay + random_component).

(** [_transmit_to_neighbor]; nothing in its [try] block raises. *)
Definition _transmit_to_neighbor (w : World) (neighbor_id : string)
    (packet : DeepSpacePacket) : World * bool :=
  let '(w, transmission_delay) :=
    _calculate_transmission_delay w neighbor_id in
  let w := sleep (CoTransmit neighbor_id) transmission_delay w in
  let link_id := (node_id (proto w) ++ "-" ++ neighbor_id)%string in
  let current_quality := Py.get (link_qualities (proto w)) link_id 1 in
  let w :=
    upd_proto (fun p =>
      set_link_qualities p
        (<[link_id := Py.min 1 (current_quality + 0.01)]>
           (link_qualities p))) w in
  (log DEBUG (MsgTransmitted (packet_id packet) neighbor_id) w, true).

(** [_route_packet]. *)
Definition _route_packet (w : World) (packet : DeepSpacePacket)
    : World * bool :=
  match neighbor_nodes (proto w) !! destination_id packet with
  | Some _ => _transmit_to_neighbor w (destination_id packet) packet
  | None =>
      match routing_table (proto w) !! destination_id packet with
      | Some next_hop =>
          if bool_decide (next_hop = ""%string)
          then (log WARNING (MsgNoRoute (destination_id packet)) w, false)
          else _transmit_to_neighbor w next_hop packet
      | None => (log WARNING (MsgNoRoute (destination_id packet)) w, false)
      end
  end.

(** [send_packet]. *)
Definition send_packet (w : World) (destination : string)
    (data : list byte) (ty : PacketType) (prio : Priority.t)
    : World * bool :=
  if (max_packet_size (proto w) <? Z.of_nat (length data))%Z then
    (log ERROR (MsgPayloadTooLarge (Z.of_nat (length data))) w, false)
  else
    let pid :=
      (node_id (proto w) ++ "_" ++ str_int (sequence_counter (proto w))
         ++ "_" ++ str_float (clock w))%string in
    match new_packet pid (node_id (proto w)) destination ty prio data
            (sequence_counter (proto w)) (clock w) 86400 [] None with
    | None => (log ERROR MsgSendFailed w, false)
    | Some packet =>
        let w :=
          upd_proto (fun p =>
            set_sequence_counter p (sequence_counter p + 1)%Z) w in
        let w :=
          if bool_decide (ty = DATA) then
            create_task (packet_id packet)
              (upd_proto (fun p =>
                 set_pending_acks p
                   (<[packet_id packet := packet]> (pending_acks p))) w)
          else w in
        let '(w, success) := _route_packet w packet in
        if success then
          let w :=
            upd_proto (fun p =>
              set_packets_sent p (packets_sent p + 1)%Z) w in
          match serialize packet with
          | None => (log ERROR MsgSendFailed w, false)
          | Some wire =>
              let w :=
                upd_proto (fun p =>
                  set_bytes_transmitted p
                    (bytes_transmitted p + Z.of_nat (length wire))%Z) w in
              (log DEBUG (MsgSent (packet_id packet) destination) w, true)
          end
        else (w, success)
    end.

(** The packet id an ACK or NACK payload refers to; [None] is the
    [UnicodeDecodeError] of [payload[:64].decode()]. *)
Definition referenced_id (data : list byte) : option string :=
  str_strip_nul <$> decode (take 64 data).

(** [_handle_ack]; [None] when it raises. *)
Definition _handle_ack (w : World) (ack_packet : DeepSpacePacket)
    : option World :=
  if Nat.leb 64 (length (payload ack_packet)) then
    original_packet_id ← referenced_id (payload ack_packet);
    match pending_acks (proto w) !! original_packet_id with
    | Some _ =>
        Some (log DEBUG (MsgAckReceived original_packet_id)
                (upd_proto (fun p =>
                   set_pending_acks p
                     (delete original_packet_id (pending_acks p))) w))
    | None => Some w
    end
  else Some w.

(** [_handle_nack]; [None] when it raises. *)
Definition _handle_nack (w : World) (nack_packet : DeepSpacePacket)
    : option World :=
  if Nat.leb 64 (length (payload nack_packet)) then
    original_packet_id ← referenced_id (payload nack_packet);
    match pending_acks (proto w) !! original_packet_id with
    | Some original_packet =>
        let '(w, _) := _route_packet w original_packet in
        Some (log DEBUG (MsgNackRetransmitted original_packet_id) w)
    | None => Some w
    end
  else Some w.

(** [_handle_heartbeat]. *)
Definition _handle_heartbeat (w : World) (heartbeat_packet : DeepSpacePacket)
    : World :=
  log DEBUG (MsgHeartbeat (source_id heartbeat_packet))
    (upd_proto (fun p =>
       set_neighbor_nodes p
         (<[source_id heartbeat_packet := clock w]> (neighbor_nodes p))) w).

(** [_handle_routing_update]: the payload is decoded and dropped. *)
Definition _handle_routing_update (w : World)
    (routing_packet : DeepSpacePacket) : World :=
  match decode (payload routing_packet) with
  | Some _ => log DEBUG (MsgRoutingUpdate (source_id routing_packet)) w
  | None => log ERROR MsgRoutingUpdateFailed w
  end.

(** [_handle_received_packet]. *)
Definition _handle_received_packet (w : World) (packet : DeepSpacePacket)
    : World :=
  let w :=
    if bool_decide (packet_type packet = DATA) then
      let ack_payload := ljust 64 (encode (packet_id packet)) in
      fst (send_packet w (source_id packet) ack_payload ACK Priority.HIGH)
    else w in
  log DEBUG (MsgReceived (packet_id packet) (source_id packet))
    (upd_proto (fun p =>
       set_received_packets p
         (<[packet_id packet := packet]> (received_packets p))) w).

Definition count_dropped (w : World) : World :=
  upd_proto (fun p => set_packets_dropped p (packets_dropped p + 1)%Z) w.

(** [_forward_packet]. *)
Definition _forward_packet (w : World) (packet : DeepSpacePacket) : World :=
  (* Check TTL *)
  if negb (Qle_bool (clock w - timestamp packet) (inject_Z (ttl packet)))
  then count_dropped (log WARNING (MsgExpired (packet_id packet)) w)
  (* Check for routing loops *)
  else if bool_decide (node_id (proto w) ∈ route_history packet)
  then count_dropped (log WARNING (MsgLoop (packet_id packet)) w)
  else fst (_route_packet w packet).

(** The dispatch on the packet type in [receive_packet]; [None] when
    a handler raises. *)
Definition dispatch (w : World) (packet : DeepSpacePacket) : option World :=
  match packet_type packet with
  | ACK => _handle_ack w packet
  | NACK => _handle_nack w packet
  | HEARTBEAT => Some (_handle_heartbeat w packet)
  | ROUTING_UPDATE => Some (_handle_routing_update w packet)
  | _ =>
      if bool_decide (destination_id packet = node_id (proto w))
      then Some (_handle_received_packet w packet)
      else Some (_forward_packet w packet)
  end.

(** [receive_packet] from the integrity check on, for the packet that
    [_deserialize_packet] has returned and the length of the data it
    was read from. *)
Definition process_packet (w : World) (packet : DeepSpacePacket)
    (data_length : nat) : World * option DeepSpacePacket :=
  match is_valid packet with
  | None => (log ERROR MsgProcessFailed w, None)
  | Some false =>
      (count_dropped (log WARNING (MsgInvalidPacket (packet_id packet)) w),
       None)
  | Some true =>
      let '(w, duplicate) := _is_duplicate w packet in
      if duplicate then (log DEBUG (MsgDuplicate (packet_id packet)) w, None)
      else
        (* Update route history *)
        let packet :=
          if bool_decide (node_id (proto w) ∈ route_history packet)
          then packet
          else set_route_history packet
                 (route_history packet ++ [node_id (proto w)]) in
        match dispatch w packet with
        | None => (log ERROR MsgProcessFailed w, None)
        | Some w =>
            (upd_proto (fun p =>
               set_bytes_received
                 (set_packets_received p (packets_received p + 1)%Z)
                 (bytes_received p + Z.of_nat data_length)%Z) w,
             Some packet)
        end
  end.

(** [receive_packet]. *)
Definition receive_packet (w : World) (packet_data : list byte)
    : World * option DeepSpacePacket :=
  match _deserialize_packet w packet_data with
  | (w, None) => (w, None)
  | (w, Some packet) => process_packet w packet (length packet_data)
  end.

(** *** The ack-timeout handler, between its suspensions *)

(** The task starts and suspends in
    [asyncio.sleep(self.ack_timeout)]. *)
Definition ack_timeout_start (w : World) (pid : string) : World :=
  let w :=
    set_trace w
      (trace w ++ [Slept (CoAckTimeout pid) (ack_timeout (proto w))]) in
  set_tasks w
    (tasks w ++ [TaskAckSleep (clock w + ack_timeout (proto w)) pid]).

(** The ack-timeout sleep is over: the pending entry is looked up and
    either the backoff sleep starts, or the entry is given up, or
    nothing is left to do. *)
Definition ack_timeout_expired (w : World) (pid : string) : World :=
  match pending_acks (proto w) !! pid with
  | Some packet =>
      let retries := get_retry_count packet in
      if (retries <? max_retries (proto w))%Z then
        let packet := set_retry_count packet (Some (retries + 1)%Z) in
        let w :=
          upd_proto (fun p =>
            set_pending_acks p (<[pid := packet]> (pending_acks p))) w in
        let backoff := inject_Z (2 ^ retries) in
        let w :=
          set_trace w (trace w ++ [Slept (CoAckTimeout pid) backoff]) in
        set_tasks w
          (tasks w ++ [TaskBackoff (clock w + backoff) pid packet retries])
      else
        log ERROR (MsgDeliveryFailed pid (max_retries (proto w)))
          (upd_proto (fun p =>
             set_pending_acks p (delete pid (pending_acks p))) w)
  | None => w
  end.

(** The backoff sleep is over: the packet is routed again, the timer
    restarted and the retransmission logged. *)
Definition backoff_done (w : World) (pid : string)
    (packet : DeepSpacePacket) (retries : Z) : World :=
  let '(w, _) := _route_packet w packet in
  let w := create_task pid w in
  log DEBUG (MsgRetransmitting pid (retries + 1)%Z) w.

(** *** Runs *)

(** What can happen at a node: a call of [send_packet] or of
    [receive_packet]; the part of [receive_packet] that follows the
    deserialization, applied to a packet; the event loop resuming a
    task of [_handle_ack_timeout] that has been created or whose sleep
    is over, up to its next suspension; and time passing.  The calls
    and the pieces of the handler are run one at a time. *)
Inductive Event :=
  | EvSend (destination : string) (data : list byte) (ty : PacketType)
      (prio : Priority.t)
  | EvReceive (data : list byte)
  | EvProcess (packet : DeepSpacePacket) (data_length : nat)
  | EvStart (pid : string)
  | EvAckTimeout (pid : string)
  | EvBackoffDone (pid : string)
  | EvElapse (d : Q).

(** The first task satisfying [pick] is taken out of the list. *)
Fixpoint take_task (pick : Task -> bool) (ts : list Task)
    : option (Task * list Task) :=
  match ts with
  | [] => None
  | t :: ts' =>
      if pick t then Some (t, ts')
      else '(t', rest) ← take_task pick ts'; Some (t', t :: rest)
  end.

Definition is_created (pid : string) (t : Task) : bool :=
  match t with
  | TaskCreated pid' => bool_decide (pid' = pid)
  | _ => false
  end.

Definition is_ack_sleep (now : Q) (pid : string) (t : Task) : bool :=
  match t with
  | TaskAckSleep wake pid' => bool_decide (pid' = pid) && Qle_bool wake now
  | _ => false
  end.

Definition is_backoff (now : Q) (pid : string) (t : Task) : bool :=
  match t with
  | TaskBackoff wake pid' _ _ => bool_decide (pid' = pid) && Qle_bool wake now
  | _ => false
  end.

(** One step of the event loop; [None] when the event cannot happen
    in this world. *)
Definition step (w : World) (ev : Event) : option World :=
  match ev with
  | EvSend destination data ty prio =>
      Some (fst (send_packet w destination data ty prio))
  | EvReceive data => Some (fst (receive_packet w data))
  | EvProcess packet n => Some (fst (process_packet w packet n))
  | EvStart pid =>
      '(_, rest) ← take_task (is_created pid) (tasks w);
      Some (ack_timeout_start (set_tasks w rest) pid)
  | EvAckTimeout pid =>
      '(_, rest) ← take_task (is_ack_sleep (clock w) pid) (tasks w);
      Some (ack_timeout_expired (set_tasks w rest) pid)
  | EvBackoffDone pid =>
      '(t, rest) ← take_task (is_backoff (clock w) pid) (tasks w);
      match t with
      | TaskBackoff _ _ packet retries =>
          Some (backoff_done (set_tasks w rest) pid packet retries)
      | _ => None
      end
  | EvElapse d =>
      if Qle_bool 0 d then Some (set_clock w (clock w + d)) else None
  end.

Fixpoint run (w : World) (evs : list Event) : option World :=
  match evs with
  | [] => Some w
  | ev :: evs' => w' ← step w ev; run w' evs'
  end.

End Model.

End Protocol.

(** ** Properties of the radio *)

Module RadioSpec.
Import Radio.

(** The final clamp [max(0.0, min(1.0, score))]. *)
Lemma clamp_range (x : Q) : 0 <= Py.max 0 (Py.min 1 x) <= 1.
Proof.
  unfold Py.max, Py.min.
  destruct (Qlt_le_dec x 1); destruct (Qlt_le_dec 0 _); lra.
Qed.

Lemma clamp_mono (x y : Q) :
  x <= y -> Py.max 0 (Py.min 1 x) <= Py.max 0 (Py.min 1 y).
Proof.
  intros Hxy. unfold Py.max, Py.min.
  destruct (Qlt_le_dec x 1); destruct (Qlt_le_dec y 1);
    repeat match goal with |- context [Qlt_le_dec ?a ?b] =>
      destruct (Qlt_le_dec a b) end; lra.
Qed.

(** Everything [_calculate_band_score] multiplies into the score after
    the occupancy and interference factors. *)
Definition remaining_factor (band : FrequencyBand)
    (req : TransmissionRequest) (info : gmap string Q)
    (cc : option ChannelConditions) : Q :=
  (match cc with
   | Some c =>
       link_quality_score c *
       (if Py.str_in (weather_impact c) ["rain"; "storm"]%string then
          if bool_decide (band ∈ [MILLIMETER_WAVE; TERAHERTZ]) then 0.3
          else if bool_decide (band = OPTICAL) then 0.1 else 1
        else 1)
   | None => 1
   end) *
  (if Qle_bool (Py.get (qos_requirements req) "bandwidth_mbps" 10)
               (Py.get info "available_bandwidth" 50)
   then 1.2 else 0.5) *
  (if bool_decide (band = OPTICAL) &&
      negb (Qle_bool 10 (Py.get (qos_requirements req) "latency_ms" 100))
   then 1.5 else 1).

Lemma band_score_factored band req info cc :
  exists s,
    _calculate_band_score band req info cc = Py.max 0 (Py.min 1 s) /\
    s == (1 - Py.get info "occupancy" 0.5) *
         (1 - Py.get info "interference" 0) *
         remaining_factor band req info cc.
Proof.
  unfold _calculate_band_score, remaining_factor.
  destruct cc as [c|]; simpl;
    repeat match goal with
      | |- context [if ?b then _ else _] => destruct b
      end;
    eexists; (split; [reflexivity | ring]).
Qed.

Lemma remaining_factor_nonneg band req info cc :
  (forall c, cc = Some c -> 0 <= link_quality_score c) ->
  0 <= remaining_factor band req info cc.
Proof.
  intros Hq. unfold remaining_factor.
  assert (H1 : 0 <= match cc with
     | Some c => link_quality_score c *
         (if Py.str_in (weather_impact c) ["rain"; "storm"]%string then
            if bool_decide (band ∈ [MILLIMETER_WAVE; TERAHERTZ]) then 0.3
            else if bool_decide (band = OPTICAL) then 0.1 else 1
          else 1)
     | None => 1 end).
  { destruct cc as [c|]; [|lra].
    specialize (Hq c eq_refl).
    repeat match goal with
      | |- context [if ?b then _ else _] => destruct b
      end; nra. }
  repeat match goal with
    | |- context [if ?b then _ else _] => destruct b
    end; nra.
Qed.

Lemma remaining_factor_insert band req info cc (k : string) (v : Q) :
  k <> "available_bandwidth"%string ->
  remaining_factor band req (<[k := v]> info) cc =
  remaining_factor band req info cc.
Proof.
  intros Hk. unfold remaining_factor, Py.get.
  rewrite lookup_insert_ne by done. reflexivity.
Qed.

(** The measurement [info] with the given occupancy and interference. *)
Definition with_measurement (info : gmap string Q) (o i : Q) : gmap string Q :=
  <["occupancy"%string := o]> (<["interference"%string := i]> info).

Lemma score_with_measurement band req info cc o i :
  exists s,
    _calculate_band_score band req (with_measurement info o i) cc
      = Py.max 0 (Py.min 1 s) /\
    s == (1 - o) * (1 - i) * remaining_factor band req info cc.
Proof.
  destruct (band_score_factored band req (with_measurement info o i) cc)
    as (s & Hs & Heq).
  exists s. split; [exact Hs|].
  rewrite Heq. unfold with_measurement.
  rewrite !remaining_factor_insert by done.
  unfold Py.get. rewrite lookup_insert_eq.
  rewrite lookup_insert_ne by done. rewrite lookup_insert_eq.
  simpl. reflexivity.
Qed.

(** C8.  With occupancy and interference in [[0,1]] and a non-negative
    link quality, the band selection score does not increase when the
    occupancy increases, does not increase when the interference
    increases, every other input being the same, and it always lies in
    [[0,1]]. *)
Theorem band_score_monotone band req info cc (o1 o2 i1 i2 : Q) :
  (forall c, cc = Some c -> 0 <= link_quality_score c) ->
  0 <= o1 -> o1 <= o2 -> o2 <= 1 ->
  0 <= i1 -> i1 <= i2 -> i2 <= 1 ->
  let score o i :=
    _calculate_band_score band req (with_measurement info o i) cc in
  score o2 i1 <= score o1 i1 /\
  score o1 i2 <= score o1 i1 /\
  (forall info' cc', 0 <= _calculate_band_score band req info' cc' <= 1).
Proof.
  intros Hq Ho1 Ho Ho2 Hi1 Hi Hi2 score. subst score.
  pose proof (remaining_factor_nonneg band req info cc Hq) as HK.
  destruct (score_with_measurement band req info cc o1 i1) as (s11 & E11 & V11).
  destruct (score_with_measurement band req info cc o2 i1) as (s21 & E21 & V21).
  destruct (score_with_measurement band req info cc o1 i2) as (s12 & E12 & V12).
  rewrite E11, E21, E12.
  set (K := remaining_factor band req info cc) in *.
  split; [|split].
  - apply clamp_mono. rewrite V21, V11.
    assert (HA : 0 <= (o2 - o1) * ((1 - i1) * K))
      by (apply Qmult_le_0_compat; [lra | apply Qmult_le_0_compat; lra]).
    lra.
  - apply clamp_mono. rewrite V12, V11.
    assert (HA : 0 <= (i2 - i1) * ((1 - o1) * K))
      by (apply Qmult_le_0_compat; [lra | apply Qmult_le_0_compat; lra]).
    lra.
  - intros info' cc'.
    destruct (band_score_factored band req info' cc') as (s & Hs & _).
    rewrite Hs. apply clamp_range.
Qed.

(** A request without QoS entries and a storm assessment, used to
    instantiate the statements. *)
Definition plain_request : TransmissionRequest :=
  {| request_id := "req-1"; source := "sat-a"; destination := "sat-b";
     data_size := 1024; qos_requirements := ∅; priority := 5;
     deadline := None; preferred_bands := [] |}.

Definition storm_conditions : ChannelConditions :=
  {| signal_to_noise_ratio := 3; bit_error_rate := 0.000000001;
     atmospheric_loss := 1; multipath_fading := 0; doppler_shift := 0;
     interference_level := 0; weather_impact := "storm";
     link_quality_score := 0.8; cc_timestamp := 0 |}.

Lemma band_score_monotone_witness :
  let score o i :=
    _calculate_band_score OPTICAL plain_request (with_measurement ∅ o i)
      (Some storm_conditions) in
  score 0.6 0.1 <= score 0.2 0.1 /\
  score 0.2 0.3 <= score 0.2 0.1 /\
  (forall info' cc',
     0 <= _calculate_band_score OPTICAL plain_request info' cc' <= 1).
Proof.
  apply (band_score_monotone OPTICAL plain_request ∅ (Some storm_conditions)
           0.2 0.6 0.1 0.3).
  - intros c Hc. injection Hc as <-. simpl. lra.
  - lra.
  - lra.
  - lra.
  - lra.
  - lra.
  - lra.
Defined.

(** *** Channel assessment of an optical link in a storm *)

(** The three quality factors of an assessment are ratios; these are
    the bounds of a ratio with a constant numerator. *)
Lemma ratio_le (a x hi : Q) : 0 < a -> 0 < x -> x <= hi -> a / hi <= a / x.
Proof.
  intros Ha Hx Hh.
  apply Qle_shift_div_l; [exact Hx|].
  assert (E : a / hi * x == (a * x) / hi) by (field; lra).
  rewrite E. apply Qle_shift_div_r; [lra|].
  nra.
Qed.

Lemma ratio_bounds (a lo hi x : Q) :
  0 < a -> 0 < lo -> lo <= x -> x <= hi ->
  exists r, Py.div a x = Some r /\ a / hi <= r /\ r <= a / lo.
Proof.
  intros Ha Hlo Hx1 Hx2. unfold Py.div.
  destruct (Qeq_bool x 0) eqn:E.
  - apply Qeq_bool_iff in E. lra.
  - eexists. split; [reflexivity|].
    split; apply ratio_le; lra.
Qed.

Lemma py_min_bounds (x lo hi : Q) :
  lo <= x -> lo <= 1 -> Py.min 1 x <= 1 /\ lo <= Py.min 1 x /\
  (x <= hi -> Py.min 1 x <= hi).
Proof.
  intros. unfold Py.min. destruct (Qlt_le_dec x 1); repeat split; intros; lra.
Qed.

Lemma mean3 (a b c : Q) : Py.mean [a; b; c] == (a + b + c) / 3.
Proof. unfold Py.mean. simpl. field. Qed.

(** C9, as the code has it.  For an OPTICAL link assessed under "storm"
    weather, with the base draws in their sampled ranges, the
    assessment succeeds and the link quality score lies between
    251/3000 and 43/60; the score is not bounded by 0.2. *)
Theorem storm_optical_quality_bounds link now d :
  frequency_band link = OPTICAL ->
  draws_in_range d ->
  draw_weather d = "storm"%string ->
  exists cc,
    _assess_channel_conditions link now d = Some cc /\
    weather_impact cc = "storm"%string /\
    251 # 3000 <= link_quality_score cc /\
    link_quality_score cc <= 43 # 60.
Proof.
  intros Hband (Hsnr & Hber & Hloss & _) Hw.
  unfold _assess_channel_conditions, weather_adjust.
  rewrite Hband, Hw. simpl.
  destruct (ratio_bounds 0.000001 0.000000001 0.001 (draw_ber d)) as (rb & Eb & Lb & Ub);
    try lra.
  destruct (ratio_bounds 10 1 50 (draw_atmospheric_loss d * 10))
    as (rl & El & Ll & Ul); try lra.
  rewrite Eb. simpl. rewrite El. simpl.
  eexists. split; [reflexivity|]. simpl. split; [reflexivity|].
  rewrite mean3.
  assert (Lb' : 1 # 1000 <= rb).
  { eapply Qle_trans; [|exact Lb]. vm_compute. discriminate. }
  assert (Ll' : 2 # 10 <= rl).
  { eapply Qle_trans; [|exact Ll]. vm_compute. discriminate. }
  destruct (py_min_bounds rb (1 # 1000) 1 Lb') as (B1 & B2 & _); [lra|].
  destruct (py_min_bounds rl (2 # 10) 1 Ll') as (L1 & L2 & _); [lra|].
  destruct (py_min_bounds (draw_snr d * 0.1 / 20) (5 # 100) (15 # 100))
    as (S1 & S2 & S3).
  { apply Qle_shift_div_l; lra. }
  { lra. }
  assert (S4 : Py.min 1 (draw_snr d * 0.1 / 20) <= 15 # 100).
  { apply S3. apply Qle_shift_div_r; lra. }
  split.
  - apply Qle_shift_div_l; lra.
  - apply Qle_shift_div_r; lra.
Qed.

(** Draws at the favourable end of every range. *)
Definition best_storm_draws : ChannelDraws :=
  {| draw_snr := 30; draw_ber := 0.000000001; draw_atmospheric_loss := 0.1;
     draw_weather := "storm"; draw_multipath := 0; draw_doppler := 0;
     draw_interference := 0 |}.

Definition optical_link : CommunicationLink :=
  {| link_id := "sat-a-sat-b-OPTICAL"; source_node := "sat-a";
     destination_node := "sat-b"; frequency_band := OPTICAL;
     modulation := QAM16; data_rate := 400000000000; power_level := 0;
     antenna_gain := 50; is_active := true; channel_conditions := None;
     quality_history := []; established_at := 0 |}.

Lemma best_storm_draws_in_range : draws_in_range best_storm_draws.
Proof.
  unfold draws_in_range, best_storm_draws, weather_conditions. simpl.
  repeat split; try lra. set_solver.
Qed.

Lemma storm_optical_quality_bounds_witness :
  exists cc,
    _assess_channel_conditions optical_link 0 best_storm_draws = Some cc /\
    weather_impact cc = "storm"%string /\
    251 # 3000 <= link_quality_score cc /\
    link_quality_score cc <= 43 # 60.
Proof.
  apply (storm_optical_quality_bounds optical_link 0 best_storm_draws).
  - reflexivity.
  - exact best_storm_draws_in_range.
  - reflexivity.
Defined.

(** C9 as stated fails: an OPTICAL link in a storm whose draws are
    SNR 30 dB, a BER of one in a billion and loss 0.1 dB is assessed at 43/60, which is
    not below 0.2. *)
Lemma storm_optical_quality_counterexample :
  frequency_band optical_link = OPTICAL /\
  draws_in_range best_storm_draws /\
  draw_weather best_storm_draws = "storm"%string /\
  exists cc,
    _assess_channel_conditions optical_link 0 best_storm_draws = Some cc /\
    link_quality_score cc == 43 # 60 /\
    ~ link_quality_score cc < 0.2.
Proof.
  split; [reflexivity|]. split; [exact best_storm_draws_in_range|].
  split; [reflexivity|].
  eexists. split; [vm_compute; reflexivity|].
  split; [vm_compute; reflexivity|].
  vm_compute. discriminate.
Qed.

(** *** [establish_link] *)

Lemma weather_adjust_loss_pos band weather loss snr :
  0 < loss -> 0 < fst (weather_adjust band weather loss snr).
Proof.
  intros H. unfold weather_adjust.
  repeat match goal with
    | |- context [if ?b then _ else _] => destruct b
    end; simpl; lra.
Qed.

(** With draws in their ranges no division fails: the assessment
    returns a result. *)
Lemma assess_total link now d :
  draws_in_range d ->
  exists cc, _assess_channel_conditions link now d = Some cc.
Proof.
  intros (Hsnr & Hber & Hloss & _).
  unfold _assess_channel_conditions.
  pose proof (weather_adjust_loss_pos (frequency_band link) (draw_weather d)
                (draw_atmospheric_loss d) (draw_snr d)) as Hpos.
  destruct (weather_adjust _ _ _ _) as [loss snr]. simpl in Hpos.
  unfold Py.div.
  destruct (Qeq_bool (draw_ber d) 0) eqn:E1.
  { apply Qeq_bool_iff in E1. lra. }
  destruct (Qeq_bool loss 0) eqn:E2.
  { apply Qeq_bool_iff in E2. assert (0 < loss) by (apply Hpos; lra). lra. }
  simpl. eexists. reflexivity.
Qed.


(** Draws assessed well below the threshold. *)
Definition poor_draws : ChannelDraws :=
  {| draw_snr := 10; draw_ber := 0.001; draw_atmospheric_loss := 5;
     draw_weather := "clear"; draw_multipath := 0; draw_doppler := 0;
     draw_interference := 0 |}.




(** A radio on which the link sat-a to sat-b is already active. *)
Definition microwave_link : CommunicationLink :=
  {| link_id := "sat-a-sat-b-MICROWAVE"; source_node := "sat-a";
     destination_node := "sat-b"; frequency_band := MICROWAVE;
     modulation := QPSK; data_rate := 200000000; power_level := 0;
     antenna_gain := 20; is_active := true; channel_conditions := None;
     quality_history := []; established_at := 0 |}.

Definition busy_radio : MultibandRadio :=
  set_active_links (init "radio-1" [MICROWAVE])
    (<["sat-a-sat-b-MICROWAVE"%string := microwave_link]> ∅).




End RadioSpec.

(** ** Properties of the routing manager *)

Module NetworkSpec.
Import Network.

(** The order on distances. *)
Definition dle (a b : dist) : Prop :=
  match a, b with
  | Fin x, Fin y => x <= y
  | _, Inf => True
  | Inf, Fin _ => False
  end.

Lemma dist_lt_false a b : dist_lt a b = false <-> dle b a.
Proof.
  destruct a as [x|], b as [y|]; simpl; try tauto.
  - destruct (Qlt_le_dec x y); split; intros; try discriminate; try lra; auto.
  - split; [discriminate | tauto].
Qed.

Lemma dist_lt_true a b : dist_lt a b = true <-> ~ dle b a.
Proof.
  rewrite <- dist_lt_false. destruct (dist_lt a b); split; intros; congruence.
Qed.

Lemma dle_refl a : dle a a.
Proof. destruct a; simpl; [lra | exact I]. Qed.

Lemma dle_trans a b c : dle a b -> dle b c -> dle a c.
Proof. destruct a, b, c; simpl; try tauto; lra. Qed.

Lemma dle_total a b : dle a b \/ dle b a.
Proof.
  destruct a as [x|], b as [y|]; simpl; auto.
  destruct (Qlt_le_dec x y); [left | right]; lra.
Qed.

Lemma min_by_spec key best rest :
  let c := min_by key best rest in
  (c = best \/ c ∈ rest) /\
  dle (key c) (key best) /\
  (forall x, x ∈ rest -> dle (key c) (key x)).
Proof.
  revert best. induction rest as [|x rest IH]; intros best; simpl.
  - split; [left; reflexivity|]. split; [apply dle_refl|].
    intros x Hx. inversion Hx.
  - destruct (IH (if dist_lt (key x) (key best) then x else best))
      as (Hin & Hle & Hall).
    set (c := min_by key _ rest) in *.
    assert (Hb : dle (key (if dist_lt (key x) (key best) then x else best))
                     (key best) /\
                 dle (key (if dist_lt (key x) (key best) then x else best))
                     (key x)).
    { destruct (dist_lt (key x) (key best)) eqn:E.
      - split; [|apply dle_refl].
        apply dist_lt_true in E.
        destruct (dle_total (key x) (key best)); tauto.
      - split; [apply dle_refl|]. apply dist_lt_false in E. exact E. }
    destruct Hb as [Hb1 Hb2].
    split; [|split].
    + destruct Hin as [Hin|Hin].
      * destruct (dist_lt (key x) (key best)); rewrite Hin; auto.
        right. left.
      * right. right. exact Hin.
    + eapply dle_trans; eauto.
    + intros y Hy. apply elem_of_cons in Hy as [->|Hy].
      * eapply dle_trans; eauto.
      * auto.
Qed.

Lemma py_min_key_spec key l c :
  py_min_key key l = Some c ->
  c ∈ l /\ forall x, x ∈ l -> dle (key c) (key x).
Proof.
  destruct l as [|x rest]; simpl; [discriminate|].
  intros [= <-].
  destruct (min_by_spec key x rest) as (Hin & Hle & Hall).
  split.
  - destruct Hin as [-> | Hin]; [left | right; exact Hin].
  - intros y Hy. apply elem_of_cons in Hy as [->|Hy]; auto.
Qed.
Lemma walk_weight_nonneg links ls a b :
  (forall l, l ∈ links -> 0 <= weight l) ->
  is_walk links a b ls -> 0 <= walk_weight ls.
Proof.
  intros Hw. revert a. induction ls as [|l ls IH]; intros a; simpl.
  - intros _. lra.
  - intros (Hl & _ & Hrest). specialize (IH _ Hrest).
    specialize (Hw l Hl). lra.
Qed.

Lemma walk_weight_snoc ls l :
  walk_weight (ls ++ [l]) == walk_weight ls + weight l.
Proof.
  induction ls as [|l' ls IH]; simpl.
  - ring.
  - change (fold_right (fun l acc => weight l + acc) 0 (ls ++ [l]))
      with (walk_weight (ls ++ [l])).
    change (fold_right (fun l acc => weight l + acc) 0 ls)
      with (walk_weight ls).
    rewrite IH. ring.
Qed.

Lemma is_walk_snoc links a b ls l :
  is_walk links a b ls -> l ∈ links -> source_node l = b ->
  is_walk links a (target_node l) (ls ++ [l]).
Proof.
  revert a. induction ls as [|l' ls IH]; intros a; simpl.
  - intros -> Hl Hs. auto.
  - intros (Hl' & Hs' & Hrest) Hl Hs. auto.
Qed.

Lemma walk_nodes_snoc a ls l :
  walk_nodes a (ls ++ [l]) = walk_nodes a ls ++ [target_node l].
Proof. unfold walk_nodes. rewrite map_app. reflexivity. Qed.

(** The predecessor of every node of the list occurs later in it. *)
Fixpoint chain_ok (P : gmap string string) (vis : list string) : Prop :=
  match vis with
  | [] => True
  | v :: vis' => (forall u, P !! v = Some u -> u ∈ vis') /\ chain_ok P vis'
  end.

Lemma chain_ok_ext P P' vis :
  (forall v, v ∈ vis -> P' !! v = P !! v) ->
  chain_ok P vis -> chain_ok P' vis.
Proof.
  induction vis as [|v vis IH]; simpl; [auto|].
  intros Hext (Hv & Hrest). split.
  - intros u Hu. apply Hv. rewrite <- Hext; [exact Hu | left].
  - apply IH; [|exact Hrest]. intros w Hw. apply Hext. right. exact Hw.
Qed.

Section Relax.

Variable c : string.
Variable dc : Q.
Variable U' : gset string.
Hypothesis c_out : c ∉ U'.

Lemma relax_link_spec D P l :
  dist_of D c = Fin dc ->
  let st := relax_link c U' (D, P) l in
  dist_of (fst st) c = Fin dc /\
  (forall v, v ∉ U' ->
     dist_of (fst st) v = dist_of D v /\ snd st !! v = P !! v) /\
  (forall v,
     (dist_of (fst st) v = dist_of D v /\ snd st !! v = P !! v) \/
     (v ∈ U' /\ v = target_node l /\ source_node l = c /\
      snd st !! v = Some c /\ dist_of (fst st) v = Fin (dc + weight l))) /\
  (forall v, dle (dist_of (fst st) v) (dist_of D v)) /\
  (source_node l = c -> target_node l ∈ U' ->
     dle (dist_of (fst st) (target_node l)) (Fin (dc + weight l))).
Proof.
  intros Hc. unfold relax_link.
  destruct (bool_decide (source_node l = c)) eqn:Es; cbn [andb fst snd];
    [apply bool_decide_eq_true in Es | apply bool_decide_eq_false in Es].
  2:{ split; [exact Hc|]. split; [auto|]. split; [intros v; left; auto|].
      split; [intros v; apply dle_refl|]. intros; tauto. }
  destruct (bool_decide (target_node l ∈ U')) eqn:Et; cbn [andb fst snd];
    [apply bool_decide_eq_true in Et | apply bool_decide_eq_false in Et].
  2:{ split; [exact Hc|]. split; [auto|]. split; [intros v; left; auto|].
      split; [intros v; apply dle_refl|]. intros; tauto. }
  rewrite Hc. cbn [dist_add].
  destruct (dist_lt (Fin (dc + weight l)) (dist_of D (target_node l))) eqn:Elt;
    cbn [fst snd].
  - assert (Hne : target_node l <> c) by (intros E; rewrite E in Et; tauto).
    assert (Hget : forall v, v <> target_node l ->
       dist_of (<[target_node l := Fin (dc + weight l)]> D) v = dist_of D v).
    { intros v Hv. unfold dist_of. rewrite lookup_insert_ne by congruence.
      reflexivity. }
    assert (Hhit :
       dist_of (<[target_node l := Fin (dc + weight l)]> D) (target_node l)
       = Fin (dc + weight l)).
    { unfold dist_of. rewrite lookup_insert_eq. reflexivity. }
    split; [rewrite Hget by congruence; exact Hc|].
    split.
    { intros v Hv. assert (v <> target_node l) by (intros ->; tauto).
      rewrite Hget by assumption. rewrite lookup_insert_ne by congruence.
      auto. }
    split.
    { intros v. destruct (decide (v = target_node l)) as [->|Hv].
      - right. rewrite lookup_insert_eq. auto.
      - left. rewrite Hget by assumption.
        rewrite lookup_insert_ne by congruence. auto. }
    split.
    { intros v. destruct (decide (v = target_node l)) as [->|Hv].
      - rewrite Hhit. apply dist_lt_true in Elt.
        destruct (dle_total (Fin (dc + weight l)) (dist_of D (target_node l)));
          tauto.
      - rewrite Hget by assumption. apply dle_refl. }
    intros _ _. rewrite Hhit. apply dle_refl.
  - split; [exact Hc|]. split; [auto|]. split; [intros v; left; auto|].
    split; [intros v; apply dle_refl|].
    intros _ _. apply dist_lt_false in Elt. exact Elt.
Qed.

Lemma relax_links_spec ls : forall D P,
  dist_of D c = Fin dc ->
  let st := relax_links ls c U' (D, P) in
  dist_of (fst st) c = Fin dc /\
  (forall v, v ∉ U' ->
     dist_of (fst st) v = dist_of D v /\ snd st !! v = P !! v) /\
  (forall v,
     (dist_of (fst st) v = dist_of D v /\ snd st !! v = P !! v) \/
     (v ∈ U' /\ snd st !! v = Some c /\
      exists l, l ∈ ls /\ source_node l = c /\ target_node l = v /\
                dist_of (fst st) v = Fin (dc + weight l))) /\
  (forall v, dle (dist_of (fst st) v) (dist_of D v)) /\
  (forall l, l ∈ ls -> source_node l = c -> target_node l ∈ U' ->
     dle (dist_of (fst st) (target_node l)) (Fin (dc + weight l))).
Proof.
  induction ls as [|l ls IH]; intros D P Hc; cbv zeta.
  - unfold relax_links. cbn [fold_left fst snd].
    split; [exact Hc|]. split; [auto|]. split; [intros v; left; auto|].
    split; [intros v; apply dle_refl|].
    intros l Hl. inversion Hl.
  - pose proof (relax_link_spec D P l Hc) as H1. cbv zeta in H1.
    unfold relax_links. cbn [fold_left].
    destruct (relax_link c U' (D, P) l) as [D1 P1] eqn:E1.
    cbn [fst snd] in H1.
    destruct H1 as (Hc1 & Hout1 & Hch1 & Hmono1 & Hrel1).
    specialize (IH D1 P1 Hc1). cbv zeta in IH. unfold relax_links in IH.
    destruct (fold_left (relax_link c U') ls (D1, P1)) as [D2 P2] eqn:E2.
    cbn [fst snd] in *.
    destruct IH as (Hc2 & Hout2 & Hch2 & Hmono2 & Hrel2).
    split; [exact Hc2|].
    split.
    { intros v Hv. destruct (Hout1 v Hv) as [A1 B1].
      destruct (Hout2 v Hv) as [A2 B2]. split; congruence. }
    split.
    { intros v. destruct (Hch2 v) as [[A2 B2]|(Hin & HP & l' & Hl' & Hs & Ht & Hd)].
      - destruct (Hch1 v) as [[A1 B1]|(Hin & Hv & Hs & HP & Hd)].
        + left. split; congruence.
        + right. split; [exact Hin|]. split; [congruence|].
          exists l. split; [left|]. split; [exact Hs|]. split; [auto|].
          congruence.
      - right. split; [exact Hin|]. split; [exact HP|].
        exists l'. split; [right; exact Hl'|]. auto. }
    split.
    { intros v. eapply dle_trans; [apply Hmono2 | apply Hmono1]. }
    intros l' Hl' Hs Ht. apply elem_of_cons in Hl' as [->|Hl'].
    + eapply dle_trans; [apply Hmono2 | apply Hrel1; assumption].
    + apply Hrel2; assumption.
Qed.

End Relax.

Lemma walk_back_None fuel P path : walk_back fuel P None path = Some path.
Proof. destruct fuel; reflexivity. Qed.

Section DijkstraProof.

Variable set_iter : gset string -> list string.
Hypothesis set_iter_spec : forall X x, x ∈ set_iter X <-> x ∈ X.

Variable links : list CommunicationLink.
Variable N : gset string.
Variable src : string.

Hypothesis links_wf : forall l, l ∈ links ->
  source_node l ∈ N /\ target_node l ∈ N /\ 0 <= weight l.
Hypothesis src_in : src ∈ N.

Abbreviation walk := (is_walk links).

(** The loop invariant: [D] and [P] are the dictionaries [distances]
    and [previous], [U] is the set [unvisited], and [vis] lists the
    nodes removed from it, the latest first. *)
Record Inv (D : gmap string dist) (P : gmap string string)
    (U : gset string) (vis : list string) : Prop := {
  inv_sub : U ⊆ N;
  inv_vis : forall v, v ∈ vis <-> v ∈ N /\ v ∉ U;
  inv_nodup : NoDup vis;
  inv_chain : chain_ok P vis;
  inv_init : src ∈ U -> forall v, v <> src -> dist_of D v = Inf;
  inv_src : dist_of D src = Fin 0 /\ P !! src = None;
  inv_prev : forall v q, dist_of D v = Fin q -> v <> src ->
    exists u l qu,
      P !! v = Some u /\ u ∈ N /\ (u ∉ U) /\ l ∈ links /\
      source_node l = u /\ target_node l = v /\
      dist_of D u = Fin qu /\ q = (qu + weight l)%Q;
  inv_inf : forall v, dist_of D v = Inf -> P !! v = None;
  inv_walk : forall v q, dist_of D v = Fin q ->
    exists ls, walk src v ls /\ walk_weight ls == q;
  inv_opt : forall v, v ∈ N -> v ∉ U ->
    exists q, dist_of D v = Fin q /\
      forall ls, walk src v ls -> q <= walk_weight ls;
  inv_relaxed : forall l qu, l ∈ links -> source_node l ∉ U ->
    dist_of D (source_node l) = Fin qu ->
    dle (dist_of D (target_node l)) (Fin (qu + weight l))
}.

Lemma weights_nonneg : forall l, l ∈ links -> 0 <= weight l.
Proof. intros l Hl. apply links_wf. exact Hl. Qed.

(** A walk that leaves the visited nodes passes an unvisited node
    whose recorded distance is at most the weight walked so far. *)
Lemma crossing D P U vis :
  Inv D P U vis ->
  forall ls a b qa,
    walk a b ls -> a ∈ N -> a ∉ U -> dist_of D a = Fin qa -> b ∈ U ->
    exists x qx, x ∈ U /\ dist_of D x = Fin qx /\ qx <= qa + walk_weight ls.
Proof.
  intros HI. induction ls as [|l ls IH]; intros a b qa Hw Ha HaU Hda Hb.
  - simpl in Hw. subst b. tauto.
  - simpl in Hw. destruct Hw as (Hl & Hs & Hrest).
    destruct (links_wf l Hl) as (_ & Ht & Hwl).
    pose proof (inv_relaxed _ _ _ _ HI l qa Hl) as Hrel.
    rewrite Hs in Hrel. specialize (Hrel HaU Hda).
    destruct (dist_of D (target_node l)) as [qt|] eqn:Edt; [|contradiction].
    simpl in Hrel.
    pose proof (walk_weight_nonneg links ls _ _ weights_nonneg Hrest) as Hnn.
    destruct (decide (target_node l ∈ U)) as [HtU|HtU].
    + exists (target_node l), qt. split; [exact HtU|]. split; [exact Edt|].
      simpl. lra.
    + destruct (IH (target_node l) b qt Hrest Ht HtU Edt Hb)
        as (x & qx & Hx & Hdx & Hle).
      exists x, qx. split; [exact Hx|]. split; [exact Hdx|]. simpl. lra.
Qed.

(** The unvisited node of least recorded distance is settled: no walk
    from the source to it is lighter. *)
Lemma settle D P U vis c dc :
  Inv D P U vis -> c ∈ U -> dist_of D c = Fin dc ->
  (forall x, x ∈ U -> dle (dist_of D c) (dist_of D x)) ->
  forall ls, walk src c ls -> dc <= walk_weight ls.
Proof.
  intros HI Hc Hdc Hmin ls Hw.
  destruct (decide (src ∈ U)) as [HsU|HsU].
  - destruct (decide (c = src)) as [->|Hne].
    + destruct (inv_src _ _ _ _ HI) as [H0 _]. rewrite H0 in Hdc.
      injection Hdc as <-.
      apply (walk_weight_nonneg links ls _ _ weights_nonneg Hw).
    + rewrite (inv_init _ _ _ _ HI HsU c Hne) in Hdc. discriminate.
  - destruct (inv_src _ _ _ _ HI) as [H0 _].
    destruct (crossing D P U vis HI ls src c 0 Hw src_in HsU H0 Hc)
      as (x & qx & Hx & Hdx & Hle).
    specialize (Hmin x Hx). rewrite Hdc, Hdx in Hmin. simpl in Hmin. lra.
Qed.

(** When the least recorded distance of the unvisited nodes is
    infinite, none of them can be reached. *)
Lemma unreachable D P U vis c :
  Inv D P U vis -> c ∈ U -> dist_of D c = Inf ->
  (forall x, x ∈ U -> dle (dist_of D c) (dist_of D x)) ->
  forall t, t ∈ U -> dist_of D t = Inf /\ forall ls, ~ walk src t ls.
Proof.
  intros HI Hc Hdc Hmin t Ht.
  assert (Hall : forall x, x ∈ U -> dist_of D x = Inf).
  { intros x Hx. specialize (Hmin x Hx). rewrite Hdc in Hmin.
    destruct (dist_of D x); [contradiction | reflexivity]. }
  split; [apply Hall; exact Ht|].
  intros ls Hw.
  destruct (inv_src _ _ _ _ HI) as [H0 _].
  destruct (decide (src ∈ U)) as [HsU|HsU].
  - rewrite (Hall src HsU) in H0. discriminate.
  - destruct (crossing D P U vis HI ls src t 0 Hw src_in HsU H0 Ht)
      as (x & qx & Hx & Hdx & _).
    rewrite (Hall x Hx) in Hdx. discriminate.
Qed.

(** One iteration of the loop keeps the invariant. *)
Lemma step_inv D P U vis c dc :
  Inv D P U vis -> c ∈ U -> dist_of D c = Fin dc ->
  (forall x, x ∈ U -> dle (dist_of D c) (dist_of D x)) ->
  let st := relax_links links c (U ∖ {[c]}) (D, P) in
  Inv (fst st) (snd st) (U ∖ {[c]}) (c :: vis).
Proof.
  intros HI Hc Hdc Hmin st.
  assert (Hout : c ∉ U ∖ {[c]}) by set_solver.
  pose proof (relax_links_spec c dc (U ∖ {[c]}) Hout links D P Hdc) as HR.
  cbv zeta in HR. fold st in HR.
  destruct st as [D' P']. cbn [fst snd] in *.
  destruct HR as (Hc' & Hsame & Hch & Hmono & Hrel).
  pose proof (inv_sub _ _ _ _ HI) as Hsub.
  assert (HcN : c ∈ N) by set_solver.
  assert (Hsrc_out : src ∉ U ∖ {[c]}).
  { intros Hin. assert (HsU : src ∈ U) by set_solver.
    assert (Hne : c <> src) by set_solver.
    rewrite (inv_init _ _ _ _ HI HsU c Hne) in Hdc. discriminate. }
  assert (Hfin_mono : forall v q, dist_of D v = Fin q ->
            exists q', dist_of D' v = Fin q' /\ q' <= q).
  { intros v q Hv. specialize (Hmono v). rewrite Hv in Hmono.
    destruct (dist_of D' v) as [q'|]; [|contradiction].
    exists q'. auto. }
  pose proof (settle D P U vis c dc HI Hc Hdc Hmin) as Hsettle.
  constructor.
  - set_solver.
  - intros v. rewrite elem_of_cons, (inv_vis _ _ _ _ HI v).
    split.
    + intros [->|[Hv HvU]]; split; auto; set_solver.
    + intros [Hv HvU]. destruct (decide (v = c)); [left; assumption|].
      right. split; [assumption|]. set_solver.
  - apply NoDup_cons. split; [|apply (inv_nodup _ _ _ _ HI)].
    intros Hin. apply (inv_vis _ _ _ _ HI) in Hin. tauto.
  - cbn [chain_ok]. split.
    + intros u Hu. destruct (Hsame c Hout) as [_ HP]. rewrite HP in Hu.
      destruct (decide (c = src)) as [->|Hne].
      * destruct (inv_src _ _ _ _ HI) as [_ HPs]. congruence.
      * destruct (inv_prev _ _ _ _ HI c dc Hdc Hne)
          as (u' & l & qu & HPc & Hu'N & Hu'U & _).
        assert (u = u') by congruence. subst u'.
        apply (inv_vis _ _ _ _ HI). auto.
    + apply (chain_ok_ext P); [|apply (inv_chain _ _ _ _ HI)].
      intros v Hv. apply (inv_vis _ _ _ _ HI) in Hv as [_ HvU].
      apply Hsame. set_solver.
  - intros Hin. contradiction.
  - destruct (Hsame src Hsrc_out) as [Hd HP].
    destruct (inv_src _ _ _ _ HI) as [H0 HP0]. split; congruence.
  - intros v q Hv Hne.
    destruct (Hch v) as [[Hd HP]|(HvU & HP & l & Hl & Hs & Ht & Hd)].
    + rewrite Hd in Hv.
      destruct (inv_prev _ _ _ _ HI v q Hv Hne)
        as (u & l & qu & HPv & HuN & HuU & Hl & Hs & Ht & Hdu & Hq).
      exists u, l, qu.
      assert (HuU' : u ∉ U ∖ {[c]}) by set_solver.
      destruct (Hsame u HuU') as [Hdu' _].
      repeat split; try assumption; congruence.
    + exists c, l, dc.
      repeat split; try assumption. congruence.
  - intros v Hv.
    destruct (Hch v) as [[Hd HP]|(HvU & HP & l & Hl & Hs & Ht & Hd)].
    + rewrite HP. apply (inv_inf _ _ _ _ HI). congruence.
    + congruence.
  - intros v q Hv.
    destruct (Hch v) as [[Hd HP]|(HvU & HP & l & Hl & Hs & Ht & Hd)].
    + apply (inv_walk _ _ _ _ HI). congruence.
    + destruct (inv_walk _ _ _ _ HI c dc Hdc) as (ls & Hw & Hww).
      exists (ls ++ [l]). split.
      * rewrite <- Ht. apply (is_walk_snoc links src c ls l); assumption.
      * rewrite walk_weight_snoc, Hww.
        rewrite Hd in Hv. injection Hv as <-. reflexivity.
  - intros v HvN HvU.
    assert (HvU' : v ∉ U ∖ {[c]}) by exact HvU.
    destruct (Hsame v HvU') as [Hd _]. rewrite Hd.
    destruct (decide (v = c)) as [->|Hne].
    + exists dc. split; [exact Hdc | exact Hsettle].
    + apply (inv_opt _ _ _ _ HI); [exact HvN | set_solver].
  - intros l qu Hl HsU Hdu.
    destruct (links_wf l Hl) as (HsN & HtN & Hwl).
    destruct (Hsame (source_node l) HsU) as [Hd _]. rewrite Hd in Hdu.
    destruct (decide (source_node l = c)) as [Hsc|Hsc].
    + rewrite Hsc in Hdu. rewrite Hdc in Hdu. injection Hdu as <-.
      destruct (decide (target_node l ∈ U ∖ {[c]})) as [HtU|HtU].
      * apply Hrel; assumption.
      * destruct (Hsame (target_node l) HtU) as [Hdt _]. rewrite Hdt.
        destruct (decide (target_node l = c)) as [Htc|Htc].
        -- rewrite Htc, Hdc. simpl. lra.
        -- assert (HtU0 : target_node l ∉ U) by set_solver.
           destruct (inv_opt _ _ _ _ HI _ HtN HtU0) as (qt & Hqt & Hopt).
           rewrite Hqt. simpl.
           destruct (inv_walk _ _ _ _ HI c dc Hdc) as (ls & Hw & Hww).
           specialize (Hopt (ls ++ [l])
                         (is_walk_snoc links _ _ ls l Hw Hl Hsc)).
           rewrite walk_weight_snoc, Hww in Hopt. exact Hopt.
    + assert (HsU0 : source_node l ∉ U) by set_solver.
      pose proof (inv_relaxed _ _ _ _ HI l qu Hl HsU0 Hdu) as Hold.
      eapply dle_trans; [apply Hmono | exact Hold].
Qed.

Lemma dist_of_initial v :
  dist_of (<[src := Fin 0]> (gset_to_gmap Inf N)) v
  = if decide (v = src) then Fin 0 else Inf.
Proof.
  unfold dist_of. destruct (decide (v = src)) as [->|Hne].
  - rewrite lookup_insert_eq. reflexivity.
  - rewrite lookup_insert_ne by congruence.
    rewrite lookup_gset_to_gmap. case_guard; reflexivity.
Qed.

(** The state before the first iteration satisfies the invariant. *)
Lemma initial_inv :
  Inv (<[src := Fin 0]> (gset_to_gmap Inf N)) ∅ N [].
Proof.
  constructor.
  - reflexivity.
  - intros v. split; [intros H; inversion H | tauto].
  - apply NoDup_nil. exact I.
  - exact I.
  - intros _ v Hne. rewrite dist_of_initial.
    destruct (decide (v = src)); [contradiction | reflexivity].
  - split; [|apply lookup_empty]. rewrite dist_of_initial.
    destruct (decide (src = src)); [reflexivity | contradiction].
  - intros v q Hv Hne. rewrite dist_of_initial in Hv.
    destruct (decide (v = src)); [contradiction | discriminate].
  - intros v _. apply lookup_empty.
  - intros v q Hv. rewrite dist_of_initial in Hv.
    destruct (decide (v = src)) as [->|]; [|discriminate].
    injection Hv as <-. exists []. split; [reflexivity|]. reflexivity.
  - intros v Hv HvN. contradiction.
  - intros l qu Hl Hs. destruct (links_wf l Hl) as (HsN & _). contradiction.
Qed.

Variable tgt : string.
Hypothesis tgt_in : tgt ∈ N.

(** What the loop has established about the target when it ends. *)
Definition Settled (D : gmap string dist) (U : gset string) : Prop :=
  tgt ∉ U \/
  (dist_of D tgt = Inf /\ forall ls, ~ walk src tgt ls) \/
  (exists q, dist_of D tgt = Fin q /\
     forall ls, walk src tgt ls -> q <= walk_weight ls).

(** The loop ends within [size U + 1] iterations, with the invariant
    and the target settled. *)
Lemma loop_spec fuel : forall D P U vis,
  Inv D P U vis -> (size U < fuel)%nat ->
  exists D' P' U' vis',
    dijkstra_loop set_iter fuel links tgt D P U = Some (D', P') /\
    Inv D' P' U' vis' /\ Settled D' U'.
Proof.
  induction fuel as [|fuel IH]; intros D P U vis HI Hsize; [lia|].
  cbn [dijkstra_loop].
  destruct (bool_decide (U = ∅)) eqn:Eempty.
  { apply bool_decide_eq_true in Eempty. subst U.
    exists D, P, ∅, vis. split; [reflexivity|]. split; [exact HI|].
    left. set_solver. }
  apply bool_decide_eq_false in Eempty.
  destruct (py_min_key (dist_of D) (set_iter U)) as [c|] eqn:Emin.
  2:{ exfalso. unfold py_min_key in Emin.
      destruct (set_iter U) as [|x rest] eqn:Eiter; [|discriminate].
      apply Eempty. apply set_eq. intros x.
      rewrite <- set_iter_spec, Eiter. set_solver. }
  apply py_min_key_spec in Emin as [Hc Hmin].
  apply set_iter_spec in Hc.
  assert (Hmin' : forall x, x ∈ U -> dle (dist_of D c) (dist_of D x)).
  { intros x Hx. apply Hmin. apply set_iter_spec. exact Hx. }
  destruct (dist_of D c) as [dc|] eqn:Edc.
  2:{ exists D, P, U, vis. split; [reflexivity|]. split; [exact HI|].
      destruct (decide (tgt ∈ U)) as [Ht|Ht]; [|left; exact Ht].
      right. left. rewrite <- Edc in Hmin'.
      exact (unreachable D P U vis c HI Hc Edc Hmin' tgt Ht). }
  destruct (bool_decide (c = tgt)) eqn:Etgt.
  { apply bool_decide_eq_true in Etgt. subst c.
    exists D, P, U, vis. split; [reflexivity|]. split; [exact HI|].
    right. right. exists dc. split; [exact Edc|].
    rewrite <- Edc in Hmin'.
    exact (settle D P U vis tgt dc HI Hc Edc Hmin'). }
  rewrite <- Edc in Hmin'.
  pose proof (step_inv D P U vis c dc HI Hc Edc Hmin') as Hstep.
  cbv zeta in Hstep.
  destruct (relax_links links c (U ∖ {[c]}) (D, P)) as [D1 P1].
  cbn [fst snd] in Hstep.
  apply (IH D1 P1 (U ∖ {[c]}) (c :: vis) Hstep).
  assert (size (U ∖ {[c]}) < size U)%nat; [|lia].
  apply subset_size. set_solver.
Qed.

(** Following [previous] from a visited node leads back to the source
    along a walk whose weight is the recorded distance. *)
Lemma chain_walk D P U vis :
  Inv D P U vis ->
  forall vs, chain_ok P vs -> (forall v, v ∈ vs -> v ∈ N /\ v ∉ U) ->
  forall v fuel acc, v ∈ vs -> (length vs <= fuel)%nat ->
  exists ls q,
    walk src v ls /\ dist_of D v = Fin q /\ walk_weight ls == q /\
    walk_back fuel P (Some v) acc = Some (acc ++ rev (walk_nodes src ls)).
Proof.
  intros HI. induction vs as [|v0 vs IH]; intros Hchain Hvs v fuel acc Hv Hfuel.
  { inversion Hv. }
  cbn [chain_ok] in Hchain. destruct Hchain as [Hhead Hchain].
  assert (Hvs' : forall v, v ∈ vs -> v ∈ N /\ v ∉ U).
  { intros w Hw. apply Hvs. right. exact Hw. }
  destruct (decide (v ∈ vs)) as [Hin|Hnin].
  { apply IH; try assumption. simpl in Hfuel. lia. }
  apply elem_of_cons in Hv as [->|Hv]; [|contradiction].
  destruct fuel as [|fuel]; [simpl in Hfuel; lia|].
  simpl in Hfuel.
  destruct (Hvs v0) as [Hv0N Hv0U]; [left|].
  destruct (inv_opt _ _ _ _ HI v0 Hv0N Hv0U) as (q & Hq & _).
  cbn [walk_back].
  destruct (decide (v0 = src)) as [->|Hne].
  - destruct (inv_src _ _ _ _ HI) as [H0 HP0]. rewrite HP0.
    exists [], q. split; [reflexivity|]. split; [exact Hq|].
    split; [|apply walk_back_None].
    rewrite H0 in Hq. injection Hq as <-. reflexivity.
  - destruct (inv_prev _ _ _ _ HI v0 q Hq Hne)
      as (u & l & qu & HPv & HuN & HuU & Hl & Hs & Ht & Hdu & Hqe).
    rewrite HPv.
    destruct (IH Hchain Hvs' u fuel (acc ++ [v0]) (Hhead u HPv))
      as (ls & q' & Hw & Hq' & Hww & Hback); [lia|].
    exists (ls ++ [l]), q.
    split; [rewrite <- Ht; apply (is_walk_snoc links src u ls l); assumption|].
    split; [exact Hq|].
    split.
    + rewrite walk_weight_snoc, Hww.
      rewrite Hdu in Hq'. injection Hq' as <-. rewrite Hqe. reflexivity.
    + rewrite Hback. rewrite walk_nodes_snoc, rev_app_distr, Ht.
      simpl. rewrite <- app_assoc. reflexivity.
Qed.

Lemma vis_length D P U vis :
  Inv D P U vis -> (length vis + size U <= size N)%nat.
Proof.
  intros HI. pose proof (inv_nodup _ _ _ _ HI) as Hnd.
  assert (Hdisj : list_to_set vis ## U).
  { intros x Hx HxU. apply elem_of_list_to_set in Hx.
    apply (inv_vis _ _ _ _ HI) in Hx. tauto. }
  assert (Hsub : list_to_set vis ∪ U ⊆ N).
  { intros x [Hx|Hx]%elem_of_union.
    - apply elem_of_list_to_set in Hx. apply (inv_vis _ _ _ _ HI) in Hx. tauto.
    - apply (inv_sub _ _ _ _ HI). exact Hx. }
  apply subseteq_size in Hsub.
  rewrite size_union in Hsub by exact Hdisj.
  rewrite size_list_to_set in Hsub by exact Hnd. exact Hsub.
Qed.

(** The path reconstruction after the loop: an empty route when the
    target cannot be reached, and otherwise the nodes of a lightest
    walk. *)
Lemma route_spec D P U vis :
  Inv D P U vis -> Settled D U -> tgt <> src ->
  exists route,
    (if bool_decide (P !! tgt = None) && negb (bool_decide (tgt = src))
     then Some []
     else (fun path => rev path)
            <$> walk_back (S (size N)) P (Some tgt) []) = Some route /\
    (((forall ls, ~ walk src tgt ls) /\ route = []) \/
     (exists ls, walk src tgt ls /\ route = walk_nodes src ls /\
        forall ls', walk src tgt ls' -> walk_weight ls <= walk_weight ls')).
Proof.
  intros HI Hset Hne.
  assert (Hcases :
    (dist_of D tgt = Inf /\ forall ls, ~ walk src tgt ls) \/
    (exists q, dist_of D tgt = Fin q /\
       forall ls, walk src tgt ls -> q <= walk_weight ls)).
  { destruct Hset as [HtU|[H|H]]; [|left; exact H|right; exact H].
    right. apply (inv_opt _ _ _ _ HI); assumption. }
  rewrite (bool_decide_eq_false_2 (tgt = src)) by exact Hne.
  rewrite andb_true_r.
  destruct Hcases as [[Hinf Hno]|(q & Hq & Hopt)].
  - rewrite (inv_inf _ _ _ _ HI tgt Hinf).
    rewrite bool_decide_eq_true_2 by reflexivity.
    exists []. split; [reflexivity|]. left. auto.
  - destruct (inv_prev _ _ _ _ HI tgt q Hq Hne)
      as (u & l & qu & HPt & HuN & HuU & Hl & Hs & Ht & Hdu & Hqe).
    rewrite HPt. rewrite bool_decide_eq_false_2 by discriminate.
    pose proof (vis_length D P U vis HI) as Hlen.
    assert (Hchain : exists ls,
      walk src tgt ls /\ walk_weight ls == q /\
      walk_back (S (size N)) P (Some tgt) [] = Some (rev (walk_nodes src ls))).
    { cbn [walk_back]. rewrite HPt.
      assert (Hu : u ∈ vis) by (apply (inv_vis _ _ _ _ HI); auto).
      destruct (chain_walk D P U vis HI vis (inv_chain _ _ _ _ HI)
                  (fun v Hv => proj1 (inv_vis _ _ _ _ HI v) Hv)
                  u (size N) ([] ++ [tgt]) Hu)
        as (ls & q' & Hw & Hq' & Hww & Hback); [lia|].
      exists (ls ++ [l]).
      split; [rewrite <- Ht; apply (is_walk_snoc links src u ls l); assumption|].
      split.
      - rewrite walk_weight_snoc, Hww.
        rewrite Hdu in Hq'. injection Hq' as <-. rewrite Hqe. reflexivity.
      - rewrite Hback. rewrite walk_nodes_snoc, rev_app_distr, Ht.
        reflexivity. }
    destruct Hchain as (ls & Hw & Hww & Hback).
    rewrite Hback. cbn [fmap option_fmap option_map]. rewrite rev_involutive.
    exists (walk_nodes src ls). split; [reflexivity|].
    right. exists ls. split; [exact Hw|]. split; [reflexivity|].
    intros ls' Hw'. rewrite Hww. apply Hopt. exact Hw'.
Qed.

End DijkstraProof.

(** C6.  For registered nodes of a well-formed network,
    [find_optimal_route] returns a result whatever the iteration order
    of the set of unvisited nodes: [[src]] when source and target are
    the same node, the empty list when no directed link path leads
    from the source to the target, and otherwise the nodes of a path
    from the source to the target whose total weight, the sum of
    latency * (2 - quality_score) over its links, is minimal among
    all directed link paths. *)
Theorem find_optimal_route_minimal set_iter net src tgt :
  (forall X x, x ∈ set_iter X <-> x ∈ X) ->
  network_wf net ->
  src ∈ dom (nodes net) -> tgt ∈ dom (nodes net) ->
  let links := dict_values (links net) in
  exists route,
    find_optimal_route set_iter net src tgt = Some route /\
    (src = tgt -> route = [src]) /\
    (src <> tgt -> (forall ls, ~ is_walk links src tgt ls) -> route = []) /\
    (src <> tgt -> (exists ls, is_walk links src tgt ls) ->
       exists ls,
         is_walk links src tgt ls /\ route = walk_nodes src ls /\
         forall ls', is_walk links src tgt ls' ->
           walk_weight ls <= walk_weight ls').
Proof.
  intros Hiter Hwf Hsrc Htgt links0.
  unfold find_optimal_route.
  rewrite (bool_decide_eq_true_2 _ Hsrc), (bool_decide_eq_true_2 _ Htgt).
  cbn [negb orb].
  destruct (bool_decide (src = tgt)) eqn:Eeq.
  { apply bool_decide_eq_true in Eeq. exists [src].
    split; [reflexivity|]. split; [auto|]. split; intros Hne; contradiction. }
  apply bool_decide_eq_false in Eeq.
  pose proof (initial_inv links0 (dom (nodes net)) src Hwf) as Hinit.
  destruct (loop_spec set_iter Hiter links0 (dom (nodes net)) src Hwf Hsrc tgt
              Htgt (S (size (dom (nodes net)))) _ _ _ _ Hinit)
    as (D & P & U & vis & Hloop & HI & Hset); [lia|].
  fold links0. rewrite Hloop.
  destruct (route_spec links0 (dom (nodes net)) src tgt Htgt
              D P U vis HI Hset) as (route & Hroute & Hres); [congruence|].
  exists route. split; [exact Hroute|].
  split; [intros; contradiction|].
  split.
  - intros _ Hno. destruct Hres as [[_ Hr]|(ls & Hw & _)]; [exact Hr|].
    exfalso. exact (Hno ls Hw).
  - intros _ (ls0 & Hw0). destruct Hres as [[Hno _]|Hres]; [|exact Hres].
    exfalso. exact (Hno ls0 Hw0).
Qed.

(** *** Well-formed networks *)

Lemma dict_values_set {V : Type} (k : string) (v : V) d x :
  x ∈ dict_values (dict_set k v d) -> x = v \/ x ∈ dict_values d.
Proof.
  induction d as [|[k' v'] d IH]; simpl.
  - intros Hx. apply elem_of_cons in Hx as [->|Hx]; [left; reflexivity|].
    inversion Hx.
  - destruct (decide (k = k')) as [->|Hne]; simpl; intros Hx.
    + apply elem_of_cons in Hx as [->|Hx]; [left; reflexivity|].
      right. right. exact Hx.
    + apply elem_of_cons in Hx as [->|Hx]; [right; left|].
      destruct (IH Hx) as [->|Hin]; [left; reflexivity|].
      right. right. exact Hin.
Qed.

Lemma init_wf nm : network_wf (init nm).
Proof. intros l Hl. inversion Hl. Qed.

Lemma add_node_wf net node now :
  network_wf net -> network_wf (fst (add_node net node now)).
Proof.
  intros Hwf. unfold add_node.
  destruct (nodes net !! node_id node); [exact Hwf|].
  intros l Hl. simpl in *. destruct (Hwf l Hl) as (Hs & Ht & Hw).
  rewrite dom_insert_L. repeat split; [set_solver | set_solver | exact Hw].
Qed.

Section LinkWeights.

Variable np_linalg_norm : Q * Q * Q -> Q.
Variable np_log10 : Q -> Q.
Variable pow10 : Q -> Q.
Hypothesis norm_nonneg : forall v, 0 <= np_linalg_norm v.

Lemma signal_strength_range distance link_type :
  0.1 <= _calculate_signal_strength np_log10 pow10 distance link_type <= 1.
Proof.
  unfold _calculate_signal_strength.
  destruct (Qeq_bool (distance / 1000) 0).
  - destruct link_type; simpl; lra.
  - unfold Py.max, Py.min.
    repeat match goal with
      | |- context [Qlt_le_dec ?a ?b] => destruct (Qlt_le_dec a b)
      end; lra.
Qed.

Lemma latency_pos distance link_type :
  0 <= distance -> 0 < _calculate_latency distance link_type.
Proof.
  intros Hd. unfold _calculate_latency.
  assert (0 <= distance / 300000000 * 1000).
  { apply Qmult_le_0_compat; [|lra]. apply Qle_shift_div_l; lra. }
  destruct link_type; simpl; lra.
Qed.

(** Links are created by [establish_link] only, between registered
    nodes, with a positive latency and a quality in [[0.1, 1]]: every
    network built by [add_node] and [establish_link] is well formed. *)
Lemma establish_link_wf net source_id target_id link_type now :
  network_wf net ->
  network_wf (fst (establish_link np_linalg_norm np_log10 pow10 net
                     source_id target_id link_type now)).
Proof.
  intros Hwf. unfold establish_link.
  destruct (nodes net !! source_id) as [sn|] eqn:Es; [|exact Hwf].
  destruct (nodes net !! target_id) as [tn|] eqn:Et; [|exact Hwf].
  intros l Hl. cbn [fst links nodes] in *.
  apply dict_values_set in Hl as [->|Hl]; [|exact (Hwf l Hl)].
  cbn [source_node target_node].
  split; [apply elem_of_dom; eauto|]. split; [apply elem_of_dom; eauto|].
  unfold weight. cbn [latency quality_score].
  pose proof (signal_strength_range
    (np_linalg_norm (vec_sub (position sn) (position tn))) link_type) as Hq.
  pose proof (latency_pos
    (np_linalg_norm (vec_sub (position sn) (position tn))) link_type
    (norm_nonneg _)) as Hlat.
  apply Qmult_le_0_compat; lra.
Qed.

End LinkWeights.

(** *** A small constellation *)

Definition taxicab_norm (v : Q * Q * Q) : Q :=
  let '(x, y, z) := v in Qabs x + Qabs y + Qabs z.

Lemma taxicab_norm_nonneg v : 0 <= taxicab_norm v.
Proof.
  destruct v as [[x y] z]. unfold taxicab_norm.
  pose proof (Qabs_nonneg x). pose proof (Qabs_nonneg y).
  pose proof (Qabs_nonneg z). lra.
Qed.

Definition satellite (id : string) (x : Q) : NetworkNode :=
  {| node_id := id; name := id; node_type := "satellite";
     position := (x, 0, 0); velocity := (0, 0, 0); status := ACTIVE;
     communication_modes := [INTER_SATELLITE; DEEP_SPACE];
     last_contact := None; node_signal_strength := 0;
     bandwidth_capacity := 0; current_load := 0; priority_level := 1 |}.

Definition demo_link (net : SpaceNetwork) (a b : string)
    (m : CommunicationMode) : SpaceNetwork :=
  fst (establish_link taxicab_norm (fun _ => 0) (fun _ => 1) net a b m 0).

(** Four satellites; a reaches c directly over a slow deep-space link
    and through b over two fast links; d has no link. *)
Definition demo_network : SpaceNetwork :=
  let net := init "demo" in
  let net := fst (add_node net (satellite "a" 0) 0) in
  let net := fst (add_node net (satellite "b" 300000) 0) in
  let net := fst (add_node net (satellite "c" 600000) 0) in
  let net := fst (add_node net (satellite "d" 900000) 0) in
  let net := demo_link net "a" "c" DEEP_SPACE in
  let net := demo_link net "a" "b" INTER_SATELLITE in
  demo_link net "b" "c" INTER_SATELLITE.

Lemma demo_network_wf : network_wf demo_network.
Proof.
  unfold demo_network, demo_link.
  repeat first
    [ apply (establish_link_wf taxicab_norm (fun _ => 0) (fun _ => 1)
               taxicab_norm_nonneg)
    | apply add_node_wf ].
  apply init_wf.
Qed.

Lemma elements_spec (X : gset string) (x : string) : x ∈ elements X <-> x ∈ X.
Proof. apply elem_of_elements. Qed.

Example demo_route_a_c :
  find_optimal_route elements demo_network "a" "c" = Some ["a"; "b"; "c"]%string.
Proof. vm_compute. reflexivity. Qed.

Example demo_route_a_d :
  find_optimal_route elements demo_network "a" "d" = Some [].
Proof. vm_compute. reflexivity. Qed.

Lemma find_optimal_route_minimal_witness :
  let links := dict_values (links demo_network) in
  exists route,
    find_optimal_route elements demo_network "a" "c" = Some route /\
    ("a"%string = "c"%string -> route = ["a"%string]) /\
    ("a"%string <> "c"%string ->
       (forall ls, ~ is_walk links "a" "c" ls) -> route = []) /\
    ("a"%string <> "c"%string -> (exists ls, is_walk links "a" "c" ls) ->
       exists ls,
         is_walk links "a" "c" ls /\ route = walk_nodes "a" ls /\
         forall ls', is_walk links "a" "c" ls' ->
           walk_weight ls <= walk_weight ls').
Proof.
  apply (find_optimal_route_minimal elements demo_network "a" "c").
  - exact elements_spec.
  - exact demo_network_wf.
  - apply elem_of_dom. vm_compute. eexists. reflexivity.
  - apply elem_of_dom. vm_compute. eexists. reflexivity.
Defined.

End NetworkSpec.

(** ** Properties of the transport protocol engine *)

Module ProtocolSpec.
Import Protocol.

Section Engine.

Variable sha256_hexdigest : list byte -> string.
Variable pack_d : Q -> list byte.
Variable unpack_d : list byte -> Q.
Variable str_float : Q -> string.
Variable random_exponential : nat -> Q.

Abbreviation is_valid := (is_valid sha256_hexdigest pack_d).
Abbreviation _calculate_checksum := (_calculate_checksum sha256_hexdigest pack_d).
Abbreviation new_packet := (new_packet sha256_hexdigest pack_d).
Abbreviation send_packet :=
  (send_packet sha256_hexdigest pack_d str_float random_exponential).
Abbreviation process_packet :=
  (process_packet sha256_hexdigest pack_d str_float random_exponential).
Abbreviation receive_packet :=
  (receive_packet sha256_hexdigest pack_d unpack_d str_float
     random_exponential).
Abbreviation _route_packet := (_route_packet random_exponential).
Abbreviation _forward_packet := (_forward_packet random_exponential).
Abbreviation _deserialize_packet :=
  (_deserialize_packet sha256_hexdigest pack_d unpack_d).
Abbreviation dispatch :=
  (dispatch sha256_hexdigest pack_d str_float random_exponential).
Abbreviation backoff_done := (backoff_done random_exponential).
Abbreviation step :=
  (step sha256_hexdigest pack_d unpack_d str_float random_exponential).
Abbreviation run :=
  (run sha256_hexdigest pack_d unpack_d str_float random_exponential).

(** *** The checksum *)

(** The eight fields the checksum is computed from. *)
Definition checksum_fields (p : DeepSpacePacket) :=
  (packet_id p, source_id p, destination_id p, packet_type p, priority p,
   payload p, sequence_number p, timestamp p).

Lemma pack_B_type (t : PacketType) :
  pack_B (packet_type_value t) = Some [byte_of_Z (packet_type_value t)].
Proof. destruct t; reflexivity. Qed.

Lemma pack_B_priority (p : Priority.t) :
  pack_B (Priority.value p) = Some [byte_of_Z (Priority.value p)].
Proof. destruct p; reflexivity. Qed.

Lemma pack_I_in_range (v : Z) :
  (0 <= v < 2 ^ 32)%Z -> pack_I v = Some (le_bytes 4 v).
Proof.
  intros [H1 H2]. unfold pack_I.
  destruct (Z.leb_spec 0 v); [|lia].
  destruct (Z.ltb_spec v (2 ^ 32)); [|lia]. reflexivity.
Qed.

Lemma pack_I_out_of_range (v : Z) :
  ~ (0 <= v < 2 ^ 32)%Z -> pack_I v = None.
Proof.
  intros H. unfold pack_I.
  destruct (Z.leb_spec 0 v); destruct (Z.ltb_spec v (2 ^ 32));
    try reflexivity; lia.
Qed.

(** The digest is taken over the eight fields, in this order. *)
Lemma checksum_digest p :
  (0 <= sequence_number p < 2 ^ 32)%Z ->
  _calculate_checksum p =
  Some (sha256_hexdigest
          (encode (packet_id p) ++ encode (source_id p)
           ++ encode (destination_id p)
           ++ [byte_of_Z (packet_type_value (packet_type p))]
           ++ [byte_of_Z (Priority.value (priority p))]
           ++ payload p ++ le_bytes 4 (sequence_number p)
           ++ pack_d (timestamp p))).
Proof.
  intros Hseq. unfold Protocol._calculate_checksum, checksum_input.
  rewrite pack_B_type, pack_B_priority, (pack_I_in_range _ Hseq).
  reflexivity.
Qed.

(** Nothing else enters the digest. *)
Lemma checksum_depends_on_fields p q :
  checksum_fields p = checksum_fields q ->
  _calculate_checksum p = _calculate_checksum q.
Proof.
  unfold checksum_fields. intros H. injection H as H1 H2 H3 H4 H5 H6 H7 H8.
  unfold Protocol._calculate_checksum, checksum_input.
  rewrite H1, H2, H3, H4, H5, H6, H7, H8. reflexivity.
Qed.

(** The packet the constructor returns when no checksum is given. *)
Lemma new_packet_computed pid src dst ty prio data seq ts life history :
  (0 <= seq < 2 ^ 32)%Z ->
  new_packet pid src dst ty prio data seq ts life history None =
  Some {| packet_id := pid; source_id := src; destination_id := dst;
          packet_type := ty; priority := prio; payload := data;
          sequence_number := seq; timestamp := ts; ttl := life;
          route_history := history;
          checksum :=
            sha256_hexdigest
              (encode pid ++ encode src ++ encode dst
               ++ [byte_of_Z (packet_type_value ty)]
               ++ [byte_of_Z (Priority.value prio)]
               ++ data ++ le_bytes 4 seq ++ pack_d ts);
          retry_count := None |}.
Proof.
  intros Hseq. unfold Protocol.new_packet.
  rewrite checksum_digest by exact Hseq. reflexivity.
Qed.

Lemma is_valid_route_history p h :
  is_valid (set_route_history p h) = is_valid p.
Proof. reflexivity. Qed.

(** C1.  The checksum a packet is created with is the SHA-256 hex
    digest of packet id, source id, destination id, type byte,
    priority byte, payload, sequence number and timestamp, in this
    order, and it depends on no other field.  Hence appending a node
    id to the route history of a packet whose checksum validates
    leaves it valid, and the integrity check of the receiver, which is
    [is_valid], compares the stored checksum with the digest of the
    same fields: a packet whose stored checksum differs is dropped and
    counted. *)
Theorem checksum_excludes_route_history
    pid src dst ty prio data seq ts life history :
  (0 <= seq < 2 ^ 32)%Z ->
  let digest :=
    sha256_hexdigest
      (encode pid ++ encode src ++ encode dst
       ++ [byte_of_Z (packet_type_value ty)]
       ++ [byte_of_Z (Priority.value prio)]
       ++ data ++ le_bytes 4 seq ++ pack_d ts) in
  (exists p,
     new_packet pid src dst ty prio data seq ts life history None = Some p /\
     checksum p = digest /\ is_valid p = Some true) /\
  (forall p,
     checksum_fields p = (pid, src, dst, ty, prio, data, seq, ts) ->
     _calculate_checksum p = Some digest /\
     (is_valid p = Some true <-> checksum p = digest) /\
     (forall node,
        is_valid p = Some true ->
        is_valid (set_route_history p (route_history p ++ [node]))
          = Some true) /\
     (forall w n,
        checksum p <> digest ->
        process_packet w p n =
          (count_dropped (log WARNING (MsgInvalidPacket (packet_id p)) w),
           None))).
Proof.
  intros Hseq digest.
  assert (Hfields : forall p,
    checksum_fields p = (pid, src, dst, ty, prio, data, seq, ts) ->
    _calculate_checksum p = Some digest).
  { intros p Hp. unfold checksum_fields in Hp.
    injection Hp as H1 H2 H3 H4 H5 H6 H7 H8.
    rewrite checksum_digest by (rewrite H7; exact Hseq).
    rewrite H1, H2, H3, H4, H5, H6, H7, H8. reflexivity. }
  split.
  - rewrite new_packet_computed by exact Hseq.
    eexists. split; [reflexivity|]. split; [reflexivity|].
    unfold Protocol.is_valid. rewrite Hfields by reflexivity.
    cbn [mbind option_bind checksum].
    rewrite bool_decide_eq_true_2 by reflexivity. reflexivity.
  - intros p Hp. pose proof (Hfields p Hp) as Hsum.
    assert (Hiff : is_valid p = Some true <-> checksum p = digest).
    { unfold Protocol.is_valid. rewrite Hsum. cbn [mbind option_bind].
      split.
      - intros [= H]. apply bool_decide_eq_true in H. exact H.
      - intros H. rewrite bool_decide_eq_true_2 by exact H. reflexivity. }
    split; [exact Hsum|]. split; [exact Hiff|]. split.
    + intros node Hv. rewrite is_valid_route_history. exact Hv.
    + intros w n Hne. unfold Protocol.process_packet.
      unfold Protocol.is_valid. rewrite Hsum. cbn [mbind option_bind].
      rewrite bool_decide_eq_false_2 by exact Hne. reflexivity.
Qed.

(** *** [send_packet] *)

(** C4.  A payload longer than [max_packet_size] is refused before
    anything else happens: [send_packet] returns false, the protocol
    object (sequence counter, pending acknowledgements, statistics),
    the tasks and the clock are unchanged; only the error is logged. *)
Theorem send_packet_oversized w destination data ty prio :
  (max_packet_size (proto w) < Z.of_nat (length data))%Z ->
  let res := send_packet w destination data ty prio in
  snd res = false /\
  proto (fst res) = proto w /\
  tasks (fst res) = tasks w /\
  clock (fst res) = clock w /\
  rng (fst res) = rng w /\
  trace (fst res) =
    trace w ++ [Logged ERROR (MsgPayloadTooLarge (Z.of_nat (length data)))].
Proof.
  intros Hlen res. subst res. unfold Protocol.send_packet.
  destruct (Z.ltb_spec (max_packet_size (proto w)) (Z.of_nat (length data)));
    [|lia].
  repeat split; reflexivity.
Qed.

(** The identifier [send_packet] gives the next packet. *)
Definition next_packet_id (w : World) : string :=
  (node_id (proto w) ++ "_" ++ str_int (sequence_counter (proto w))
     ++ "_" ++ str_float (clock w))%string.

(** Neither the neighbour table nor the routing table leads to the
    destination. *)
Definition no_route (w : World) (destination : string) : Prop :=
  neighbor_nodes (proto w) !! destination = None /\
  (routing_table (proto w) !! destination = None \/
   routing_table (proto w) !! destination = Some ""%string).

Lemma route_packet_no_route w packet :
  no_route w (destination_id packet) ->
  _route_packet w packet =
    (log WARNING (MsgNoRoute (destination_id packet)) w, false).
Proof.
  intros [Hn Hr]. unfold Protocol._route_packet. rewrite Hn.
  destruct Hr as [-> | ->]; reflexivity.
Qed.

(** C10.  With a payload within the size limit and no route to the
    destination, [send_packet] returns false after it has consumed a
    sequence number; a DATA packet stays registered in the pending
    acknowledgements and the task of its ack-timeout handler has been
    created, so that the timer runs once the task is started; the
    statistics of sent packets are unchanged. *)
Theorem send_packet_no_route w destination data ty prio :
  (Z.of_nat (length data) <= max_packet_size (proto w))%Z ->
  (0 <= sequence_counter (proto w) < 2 ^ 32)%Z ->
  no_route w destination ->
  let res := send_packet w destination data ty prio in
  let pid := next_packet_id w in
  snd res = false /\
  sequence_counter (proto (fst res)) = (sequence_counter (proto w) + 1)%Z /\
  packets_sent (proto (fst res)) = packets_sent (proto w) /\
  bytes_transmitted (proto (fst res)) = bytes_transmitted (proto w) /\
  (ty = DATA ->
     (exists packet,
        new_packet pid (node_id (proto w)) destination DATA prio data
          (sequence_counter (proto w)) (clock w) 86400 [] None
          = Some packet /\
        pending_acks (proto (fst res)) = <[pid := packet]> (pending_acks (proto w))) /\
     tasks (fst res) = tasks w ++ [TaskCreated pid]) /\
  (ty <> DATA ->
     pending_acks (proto (fst res)) = pending_acks (proto w) /\
     tasks (fst res) = tasks w).
Proof.
  intros Hlen Hseq Hroute res pid. subst res. unfold Protocol.send_packet.
  destruct (Z.ltb_spec (max_packet_size (proto w)) (Z.of_nat (length data)));
    [lia|].
  fold (next_packet_id w). fold pid.
  pose proof (new_packet_computed pid (node_id (proto w)) destination
                ty prio data (sequence_counter (proto w)) (clock w) 86400 []
                Hseq) as Hnew.
  rewrite Hnew.
  match type of Hnew with _ = Some ?q => set (packet := q) in * end.
  assert (Hpid : packet_id packet = pid) by reflexivity.
  assert (Hdst : destination_id packet = destination) by reflexivity.
  rewrite Hpid.
  destruct (bool_decide (ty = DATA)) eqn:Ety;
    [apply bool_decide_eq_true in Ety | apply bool_decide_eq_false in Ety].
  - rewrite route_packet_no_route by (rewrite Hdst; exact Hroute). cbn.
    repeat split; try reflexivity; try congruence.
    subst ty. exists packet. split; [exact Hnew | reflexivity].
  - rewrite route_packet_no_route by (rewrite Hdst; exact Hroute). cbn.
    repeat split; try reflexivity; try congruence.
Qed.

(** *** Reception *)

Lemma slice_length_prefix (n : nat) (data : list byte) :
  (n <= length data)%nat -> length (slice 0 n data) = n.
Proof.
  intros H. unfold slice. rewrite Nat.sub_0_r, drop_0, length_take. lia.
Qed.

(** The header format has 114 bytes and [_deserialize_packet] hands
    [struct.unpack] a slice of 142: no data is ever deserialized. *)
Lemma deserialize_packet_fails w data :
  _deserialize_packet w data = (w, None) \/
  _deserialize_packet w data
    = (log ERROR MsgDeserializeFailed w, None).
Proof.
  unfold Protocol._deserialize_packet.
  destruct (Nat.ltb_spec (length data) 142) as [Hlt|Hge]; [left; reflexivity|].
  right. unfold parse_packet, unpack_header.
  rewrite slice_length_prefix by exact Hge. reflexivity.
Qed.

Lemma receive_packet_returns_none w data :
  receive_packet w data = (w, None) \/
  receive_packet w data = (log ERROR MsgDeserializeFailed w, None).
Proof.
  unfold Protocol.receive_packet.
  destruct (deserialize_packet_fails w data) as [-> | ->]; auto.
Qed.

Lemma is_duplicate_node_id w p :
  node_id (proto (fst (_is_duplicate w p))) = node_id (proto w).
Proof. unfold _is_duplicate. destruct (_ !! _); reflexivity. Qed.

(** The packet [receive_packet] hands to its handlers, with the local
    node in its route history. *)
Definition with_local_node (w : World) (p : DeepSpacePacket)
    : DeepSpacePacket :=
  if bool_decide (node_id (proto w) ∈ route_history p) then p
  else set_route_history p (route_history p ++ [node_id (proto w)]).

Lemma with_local_node_in w p :
  node_id (proto w) ∈ route_history (with_local_node w p).
Proof.
  unfold with_local_node.
  destruct (bool_decide (node_id (proto w) ∈ route_history p)) eqn:E.
  - apply bool_decide_eq_true in E. exact E.
  - cbn. apply elem_of_app. right. left.
Qed.

(** The warning [_forward_packet] logs when it drops a packet. *)
Definition drop_message (w : World) (p : DeepSpacePacket) : Message :=
  if negb (Qle_bool (clock w - timestamp p) (inject_Z (ttl p)))
  then MsgExpired (packet_id p) else MsgLoop (packet_id p).

Lemma forward_packet_drops w p :
  node_id (proto w) ∈ route_history p ->
  _forward_packet w p =
    count_dropped (log WARNING (drop_message w p) w).
Proof.
  intros Hin. unfold Protocol._forward_packet, drop_message.
  destruct (negb (Qle_bool _ _)); [reflexivity|].
  rewrite bool_decide_eq_true_2 by exact Hin. reflexivity.
Qed.

(** C2.  The code at a packet that has passed the integrity and the
    duplicate check, is not an ACK, NACK, HEARTBEAT or ROUTING_UPDATE
    and is addressed to another node: [receive_packet] has put the
    local node into the route history before [_forward_packet] checks
    it for a loop, so the packet is always dropped and counted, with
    the warning of an expired packet or of a routing loop; it is never
    routed, whatever the neighbour and routing tables hold: no
    transmission is made, no link quality is touched and no time
    passes. *)
Theorem forwarding_always_drops w p n :
  is_valid p = Some true ->
  snd (_is_duplicate w p) = false ->
  packet_type p ∉ [ACK; NACK; HEARTBEAT; ROUTING_UPDATE] ->
  destination_id p <> node_id (proto w) ->
  let w1 := fst (_is_duplicate w p) in
  let p1 := with_local_node w p in
  let res := process_packet w p n in
  snd res = Some p1 /\
  packets_dropped (proto (fst res)) = (packets_dropped (proto w) + 1)%Z /\
  link_qualities (proto (fst res)) = link_qualities (proto w) /\
  clock (fst res) = clock w /\
  trace (fst res) = trace w ++ [Logged WARNING (drop_message w p1)].
Proof.
  intros Hvalid Hdup Hty Hdst. cbv zeta.
  unfold Protocol.process_packet. rewrite Hvalid.
  pose proof (is_duplicate_node_id w p) as Hnode.
  assert (Hw1 : clock (fst (_is_duplicate w p)) = clock w /\
                trace (fst (_is_duplicate w p)) = trace w /\
                packets_dropped (proto (fst (_is_duplicate w p)))
                  = packets_dropped (proto w) /\
                link_qualities (proto (fst (_is_duplicate w p)))
                  = link_qualities (proto w)).
  { unfold _is_duplicate. destruct (_ !! _); repeat split. }
  destruct Hw1 as (Hclock & Htrace & Hdropped & Hlq).
  destruct (_is_duplicate w p) as [w1 dup].
  cbn [fst snd] in *. subst dup.
  rewrite Hnode. fold (with_local_node w p).
  set (p1 := with_local_node w p).
  assert (Ht1 : packet_type p1 = packet_type p).
  { subst p1. unfold with_local_node. destruct (bool_decide _); reflexivity. }
  assert (Hd1 : destination_id p1 = destination_id p).
  { subst p1. unfold with_local_node. destruct (bool_decide _); reflexivity. }
  assert (Hdisp : dispatch w1 p1 = Some (_forward_packet w1 p1)).
  { unfold Protocol.dispatch. rewrite Ht1, Hd1, Hnode.
    rewrite bool_decide_eq_false_2 by exact Hdst.
    destruct (packet_type p); try reflexivity; exfalso; apply Hty; set_solver. }
  rewrite Hdisp.
  rewrite forward_packet_drops.
  2:{ rewrite Hnode. subst p1. apply with_local_node_in. }
  cbn. rewrite Hdropped, Hlq, Hclock, Htrace.
  unfold drop_message. rewrite Hclock.
  repeat split; reflexivity.
Qed.

(** *** The duplicate filter *)

(** The key under which [_is_duplicate] files a packet. *)
Definition packet_key (p : DeepSpacePacket) : string :=
  (source_id p ++ "_" ++ str_int (sequence_number p))%string.

(** A packet that is not a duplicate is filed with the current time. *)
Lemma is_duplicate_records w p :
  snd (_is_duplicate w p) = false ->
  duplicate_filter (proto (fst (_is_duplicate w p))) !! packet_key p
    = Some (clock w).
Proof.
  unfold _is_duplicate. fold (packet_key p).
  destruct (_ !! packet_key p); [discriminate|].
  intros _. cbn. apply lookup_insert_eq.
Qed.

(** A packet whose key was filed no longer ago than the cache duration
    is a duplicate. *)
Lemma is_duplicate_within_window w q t :
  duplicate_filter (proto w) !! packet_key q = Some t ->
  clock w - t <= packet_cache_duration (proto w) ->
  snd (_is_duplicate w q) = true.
Proof.
  intros Hfiled Hwindow. unfold _is_duplicate. fold (packet_key q).
  match goal with
  | |- context [filter ?P ?m !! _] =>
      assert (Hkept : filter P m !! packet_key q = Some t)
  end.
  { apply map_lookup_filter_Some. split; [exact Hfiled|].
    cbn. apply Qle_bool_iff. exact Hwindow. }
  rewrite Hkept. reflexivity.
Qed.

(** A duplicate is dropped silently: nothing is returned, only the
    debug message is logged, no handler runs and no counter moves; the
    packet itself is left as it is. *)
Lemma duplicate_is_silent w q n t :
  is_valid q = Some true ->
  duplicate_filter (proto w) !! packet_key q = Some t ->
  clock w - t <= packet_cache_duration (proto w) ->
  let res := process_packet w q n in
  snd res = None /\
  trace (fst res) = trace w ++ [Logged DEBUG (MsgDuplicate (packet_id q))] /\
  tasks (fst res) = tasks w /\
  clock (fst res) = clock w /\
  packets_dropped (proto (fst res)) = packets_dropped (proto w) /\
  packets_received (proto (fst res)) = packets_received (proto w) /\
  received_packets (proto (fst res)) = received_packets (proto w) /\
  pending_acks (proto (fst res)) = pending_acks (proto w).
Proof.
  intros Hvalid Hfiled Hwindow. cbv zeta.
  unfold Protocol.process_packet. rewrite Hvalid.
  pose proof (is_duplicate_within_window w q t Hfiled Hwindow) as Hdup.
  revert Hdup. unfold _is_duplicate. clear Hfiled.
  destruct (filter _ _ !! _); [|discriminate]. intros _. cbn.
  repeat split; reflexivity.
Qed.

(** C3.  The code at a pair of receptions: whatever bytes arrive,
    [receive_packet] deserializes nothing, so that neither the first
    nor the second packet of a pair with the same source and sequence
    number is returned, delivered or forwarded; the protocol object,
    the tasks and the clock are as before, and at most the
    deserialization error is logged. *)
Theorem duplicate_pair_not_delivered w data1 data2 :
  let r1 := receive_packet w data1 in
  let r2 := receive_packet (fst r1) data2 in
  snd r1 = None /\ snd r2 = None /\
  proto (fst r2) = proto w /\ tasks (fst r2) = tasks w /\
  clock (fst r2) = clock w /\
  (forall e, e ∈ trace (fst r2) ->
     e ∈ trace w \/ e = Logged ERROR MsgDeserializeFailed).
Proof.
  cbv zeta.
  destruct (receive_packet_returns_none w data1) as [-> | ->]; cbn [fst snd];
    match goal with
    | |- context [receive_packet ?w1 data2] =>
        destruct (receive_packet_returns_none w1 data2) as [-> | ->]
    end; cbn; repeat (split; [reflexivity|]);
    intros e He; repeat (apply elem_of_app in He as [He|He]);
    try (left; exact He); right; apply list_elem_of_singleton in He; exact He.
Qed.

(** *** The clock *)

Lemma sleep_clock co d w : clock w <= clock (sleep co d w).
Proof.
  unfold sleep. cbn. pose proof (Q.le_max_l 0 d). lra.
Qed.

Lemma transmit_clock w neighbor packet :
  clock w <=
  clock (fst (_transmit_to_neighbor random_exponential w neighbor packet)).
Proof.
  unfold _transmit_to_neighbor, _calculate_transmission_delay. cbn.
  pose proof (Q.le_max_l 0 (0.1 + random_exponential (rng w))). lra.
Qed.

Lemma route_clock w packet : clock w <= clock (fst (_route_packet w packet)).
Proof.
  unfold Protocol._route_packet.
  destruct (neighbor_nodes (proto w) !! destination_id packet).
  { apply transmit_clock. }
  destruct (routing_table (proto w) !! destination_id packet) as [hop|];
    [destruct (bool_decide (hop = ""%string))|];
    try apply transmit_clock; cbn; lra.
Qed.

Lemma send_clock w destination data ty prio :
  clock w <= clock (fst (send_packet w destination data ty prio)).
Proof.
  unfold Protocol.send_packet.
  destruct (_ <? _)%Z; [cbn; lra|].
  destruct (Protocol.new_packet _ _ _ _ _ _ _ _ _ _ _ _ _) as [packet|];
    [|cbn; lra].
  match goal with
  | |- context [Protocol._route_packet _ ?w0 packet] => set (w1 := w0)
  end.
  assert (H1 : clock w1 = clock w).
  { subst w1. destruct (bool_decide (ty = DATA)); reflexivity. }
  pose proof (route_clock w1 packet) as H2.
  destruct (_route_packet w1 packet) as [w2 success]. cbn [fst] in H2.
  rewrite H1 in H2.
  destruct success; [|cbn [fst]; lra].
  destruct (serialize pack_d packet); cbn; lra.
Qed.

Lemma is_duplicate_clock w p : clock (fst (_is_duplicate w p)) = clock w.
Proof. unfold _is_duplicate. destruct (_ !! _); reflexivity. Qed.

Lemma dispatch_clock w p w' : dispatch w p = Some w' -> clock w <= clock w'.
Proof.
  unfold Protocol.dispatch.
  assert (Hother : (if bool_decide (destination_id p = node_id (proto w))
                    then Some (_handle_received_packet sha256_hexdigest
                                 pack_d str_float random_exponential w p)
                    else Some (_forward_packet w p)) = Some w' ->
                   clock w <= clock w').
  { destruct (bool_decide (destination_id p = node_id (proto w)));
      intros Hw; injection Hw as <-.
    - unfold _handle_received_packet. cbn.
      destruct (bool_decide (packet_type p = DATA)); [|lra].
      apply send_clock.
    - unfold Protocol._forward_packet.
      destruct (negb _); [cbn; lra|].
      destruct (bool_decide _); [cbn; lra|]. apply route_clock. }
  destruct (packet_type p); try exact Hother.
  - unfold _handle_ack.
    destruct (Nat.leb 64 (length (payload p)));
      [|intros Hw; injection Hw as <-; lra].
    destruct (referenced_id (payload p)) as [orig|];
      cbn [mbind option_bind]; [|discriminate].
    destruct (pending_acks (proto w) !! orig);
      intros Hw; injection Hw as <-; cbn; lra.
  - unfold _handle_nack.
    destruct (Nat.leb 64 (length (payload p)));
      [|intros Hw; injection Hw as <-; lra].
    destruct (referenced_id (payload p)) as [orig|];
      cbn [mbind option_bind]; [|discriminate].
    destruct (pending_acks (proto w) !! orig) as [original|];
      [|intros Hw; injection Hw as <-; lra].
    pose proof (route_clock w original) as Hr.
    destruct (_route_packet w original) as [w3 ok]. cbn [fst] in Hr.
    intros Hw; injection Hw as <-. cbn. exact Hr.
  - intros Hw; injection Hw as <-. cbn. lra.
  - intros Hw; injection Hw as <-. unfold _handle_routing_update.
    destruct (decode _); cbn; lra.
Qed.

Lemma process_clock w p n : clock w <= clock (fst (process_packet w p n)).
Proof.
  unfold Protocol.process_packet.
  destruct (is_valid p) as [[|]|]; [|cbn; lra ..].
  pose proof (is_duplicate_clock w p) as H1.
  destruct (_is_duplicate w p) as [w1 dup]. cbn [fst] in H1.
  rewrite <- H1.
  destruct dup; [cbn; lra|].
  match goal with
  | |- context [Protocol.dispatch _ _ _ _ w1 ?q] =>
      pose proof (dispatch_clock w1 q) as Hd;
      destruct (dispatch w1 q) as [w2|]
  end.
  - specialize (Hd w2 eq_refl). cbn. lra.
  - cbn. lra.
Qed.

Lemma receive_clock w data : clock (fst (receive_packet w data)) = clock w.
Proof.
  destruct (receive_packet_returns_none w data) as [-> | ->]; reflexivity.
Qed.

(** Time never runs backwards. *)
Lemma step_clock w ev w' : step w ev = Some w' -> clock w <= clock w'.
Proof.
  destruct ev as [destination data ty prio|data|p n|pid|pid|pid|d];
    cbn [Protocol.step].
  - intros [= <-]. apply send_clock.
  - intros [= <-]. rewrite receive_clock. lra.
  - intros [= <-]. apply process_clock.
  - destruct (take_task _ _) as [[t rest]|]; cbn [mbind option_bind];
      [|discriminate].
    intros [= <-]. cbn. lra.
  - destruct (take_task _ _) as [[t rest]|]; cbn [mbind option_bind];
      [|discriminate].
    intros [= <-]. unfold ack_timeout_expired. cbn.
    destruct (pending_acks (proto w) !! pid) as [packet|]; [|cbn; lra].
    destruct (_ <? _)%Z; cbn; lra.
  - destruct (take_task _ _) as [[t rest]|]; cbn [mbind option_bind];
      [|discriminate].
    destruct t as [| |wake pid' packet retries]; try discriminate.
    intros [= <-]. unfold Protocol.backoff_done.
    pose proof (route_clock (set_tasks w rest) packet) as Hr.
    destruct (_route_packet (set_tasks w rest) packet) as [w1 ok].
    cbn in *. exact Hr.
  - destruct (Qle_bool 0 d) eqn:Ed; [|discriminate].
    intros [= <-]. apply Qle_bool_iff in Ed. cbn. lra.
Qed.

Lemma run_clock evs : forall w w', run w evs = Some w' -> clock w <= clock w'.
Proof.
  induction evs as [|ev evs IH]; intros w w'; cbn [Protocol.run].
  - intros [= <-]. lra.
  - destruct (step w ev) as [w1|] eqn:Es; cbn [mbind option_bind];
      [|discriminate].
    intros Hrun. pose proof (step_clock _ _ _ Es). specialize (IH _ _ Hrun).
    lra.
Qed.

(** *** The ack-timeout handler of one packet *)

Section Handler.

(** The packet whose handler is followed. *)
Variable pid : string.

(** The effects of the ack-timeout handler of [pid]: its sleeps, the
    retransmissions it logs and the failure it reports. *)
Definition handler_effect (e : Effect) : bool :=
  match e with
  | Slept (CoAckTimeout pid') _ => bool_decide (pid' = pid)
  | Logged _ (MsgRetransmitting pid' _) => bool_decide (pid' = pid)
  | Logged _ (MsgDeliveryFailed pid' _) => bool_decide (pid' = pid)
  | _ => false
  end.

Definition handler_trace (w : World) : list Effect :=
  List.filter handler_effect (trace w).



















(** **** Taking a task out of the task list *)













(** **** The handlers of other packets *)





(** **** The handler of [pid], from the creation of its task *)

(** [M] is [max_retries], [T] is [ack_timeout], [v0] is what the
    trace held of the handler before its task was created, and [c0]
    is the time at which it was created. *)
Variable M : Z.
Variable T : Q.
Variable v0 : list Effect.
Variable c0 : Q.




Inductive Phase := Created | Sleeping | Backing | Finished.






(** The state that follows [(k, ph)] when the event happens: the
    events of the handler of [pid] move it along the chain, every
    other event leaves it where it is. *)
Definition after (k : nat) (ph : Phase) (ev : Event) : nat * Phase :=
  match ev, ph with
  | EvStart pid', Created =>
      if decide (pid' = pid) then (k, Sleeping) else (k, ph)
  | EvAckTimeout pid', Sleeping =>
      if decide (pid' = pid)
      then if (Z.of_nat k <? M)%Z then (k, Backing) else (k, Finished)
      else (k, ph)
  | EvBackoffDone pid', Backing =>
      if decide (pid' = pid) then (S k, Created) else (k, ph)
  | _, _ => (k, ph)
  end.







(** The retransmissions the handler of [pid] has logged. *)
Definition is_retransmission (e : Effect) : bool :=
  match e with
  | Logged _ (MsgRetransmitting pid' _) => bool_decide (pid' = pid)
  | _ => false
  end.

Definition retransmissions (w : World) : nat :=
  length (List.filter is_retransmission (handler_trace w)).


(** **** The handler runs to its end *)






(** **** After an acknowledgement *)







(** **** Retransmissions and acknowledgement *)





End Handler.



End Engine.

(** *** The protocol at concrete inputs *)

(** Stand-ins for the library functions, to run the definitions on
    concrete inputs: a multiplicative hash written in decimal for the
    digest, the integer part for the bytes and for the text of a float,
    and the mean for every random draw.  The properties above hold
    for any functions in their place. *)
Definition sample_digest (data : list byte) : string :=
  str_int
    (fold_left (fun h b => ((h * 31 + Z_of_byte b) mod 2 ^ 32)%Z) data 7%Z).

Definition sample_pack_d (x : Q) : list byte :=
  le_bytes 8 (Qnum x / Z.pos (Qden x)).

Definition sample_unpack_d (b : list byte) : Q :=
  inject_Z (be_uint (rev b)).

Definition sample_str_float (x : Q) : string :=
  (str_int (Qnum x / Z.pos (Qden x)) ++ ".0")%string.

Definition sample_exponential (n : nat) : Q := 0.05.

Abbreviation sample_send :=
  (Protocol.send_packet sample_digest sample_pack_d sample_str_float
     sample_exponential).
Abbreviation sample_process :=
  (Protocol.process_packet sample_digest sample_pack_d sample_str_float
     sample_exponential).
Abbreviation sample_receive :=
  (Protocol.receive_packet sample_digest sample_pack_d sample_unpack_d
     sample_str_float sample_exponential).
Abbreviation sample_run :=
  (Protocol.run sample_digest sample_pack_d sample_unpack_d
     sample_str_float sample_exponential).
Abbreviation sample_packet :=
  (Protocol.new_packet sample_digest sample_pack_d).
Abbreviation sample_valid := (Protocol.is_valid sample_digest sample_pack_d).

(** Node A as [DeepSpaceProtocol("A")] makes it, at time 0. *)
Definition node_a : World := init_world "A" 5 300 0.

Definition hello : list byte := encode "hello".

Example next_packet_id_node_a :
  next_packet_id sample_str_float node_a = "A_0_0.0"%string.
Proof. vm_compute. reflexivity. Qed.

Lemma checksum_excludes_route_history_witness :
  let digest :=
    sample_digest
      (encode "A_0_0.0" ++ encode "A" ++ encode "B"
       ++ [byte_of_Z (packet_type_value DATA)]
       ++ [byte_of_Z (Priority.value Priority.NORMAL)]
       ++ hello ++ le_bytes 4 0 ++ sample_pack_d 0) in
  (0 <= 0 < 2 ^ 32)%Z /\
  (exists p,
     sample_packet "A_0_0.0" "A" "B" DATA Priority.NORMAL hello 0 0 86400 []
       None = Some p /\
     checksum p = digest /\ sample_valid p = Some true) /\
  (forall p node,
     checksum_fields p
       = ("A_0_0.0"%string, "A"%string, "B"%string, DATA, Priority.NORMAL,
          hello, 0%Z, 0) ->
     sample_valid p = Some true ->
     sample_valid (set_route_history p (route_history p ++ [node]))
       = Some true).
Proof.
  assert (Hseq : (0 <= 0 < 2 ^ 32)%Z) by lia.
  destruct (checksum_excludes_route_history sample_digest sample_pack_d
              sample_str_float sample_exponential
              "A_0_0.0" "A" "B" DATA Priority.NORMAL hello 0 0 86400 [] Hseq)
    as [Hnew Hany].
  split; [exact Hseq|]. split; [exact Hnew|].
  intros p node Hp. destruct (Hany p Hp) as (_ & _ & Happend & _).
  apply Happend.
Defined.

(** A payload of 65537 bytes. *)
Definition oversized : list byte := repeat x00 (S (2 ^ 16)).

Lemma send_packet_oversized_witness :
  let res := sample_send node_a "B" oversized DATA Priority.NORMAL in
  (max_packet_size (proto node_a) < Z.of_nat (length oversized))%Z /\
  snd res = false /\
  proto (fst res) = proto node_a /\
  tasks (fst res) = tasks node_a /\
  clock (fst res) = clock node_a /\
  rng (fst res) = rng node_a /\
  trace (fst res) =
    trace node_a
    ++ [Logged ERROR (MsgPayloadTooLarge (Z.of_nat (length oversized)))].
Proof.
  assert (Hlen : (max_packet_size (proto node_a)
                  < Z.of_nat (length oversized))%Z).
  { unfold oversized. rewrite repeat_length. vm_compute. reflexivity. }
  split; [exact Hlen|].
  exact (send_packet_oversized sample_digest sample_pack_d sample_str_float
           sample_exponential node_a "B" oversized DATA Priority.NORMAL Hlen).
Defined.

Lemma node_a_no_route : no_route node_a "B".
Proof. split; [reflexivity | left; reflexivity]. Qed.

Lemma send_packet_no_route_witness :
  let res := sample_send node_a "B" hello DATA Priority.NORMAL in
  (Z.of_nat (length hello) <= max_packet_size (proto node_a))%Z /\
  (0 <= sequence_counter (proto node_a) < 2 ^ 32)%Z /\
  no_route node_a "B" /\
  snd res = false /\
  sequence_counter (proto (fst res)) = 1%Z /\
  packets_sent (proto (fst res)) = 0%Z /\
  bytes_transmitted (proto (fst res)) = 0%Z /\
  is_Some (pending_acks (proto (fst res)) !! "A_0_0.0"%string) /\
  tasks (fst res) = [TaskCreated "A_0_0.0"].
Proof.
  assert (Hlen : (Z.of_nat (length hello)
                  <= max_packet_size (proto node_a))%Z)
    by (vm_compute; discriminate).
  assert (Hseq : (0 <= sequence_counter (proto node_a) < 2 ^ 32)%Z)
    by (cbn; lia).
  destruct (send_packet_no_route sample_digest sample_pack_d sample_str_float
              sample_exponential node_a "B" hello DATA Priority.NORMAL
              Hlen Hseq node_a_no_route)
    as (Hres & Hcounter & Hsent & Hbytes & Hdata & _).
  destruct (Hdata eq_refl) as [(packet & _ & Hpending) Htasks].
  split; [exact Hlen|]. split; [exact Hseq|]. split; [exact node_a_no_route|].
  split; [exact Hres|]. split; [exact Hcounter|]. split; [exact Hsent|].
  split; [exact Hbytes|]. split; [|exact Htasks].
  rewrite Hpending. exists packet. apply lookup_insert_eq.
Defined.

(** A packet with every field empty, for the constructor calls that
    cannot fail. *)
Definition blank_packet : DeepSpacePacket :=
  {| packet_id := ""; source_id := ""; destination_id := "";
     packet_type := DATA; priority := Priority.NORMAL; payload := [];
     sequence_number := 0; timestamp := 0; ttl := 86400;
     route_history := []; checksum := ""; retry_count := None |}.

(** Node B at time 10, with C among its neighbours. *)
Definition node_b : World :=
  upd_proto (fun p => set_neighbor_nodes p (<["C"%string := 9]> ∅))
    (init_world "B" 5 300 10).

(** A DATA packet from A for C, created at time 5; A has put itself
    into the route history. *)
Definition packet_for_c : DeepSpacePacket :=
  Eval vm_compute in
  default blank_packet
    (sample_packet "A_7_5.0" "A" "C" DATA Priority.NORMAL hello 7 5 86400
       ["A"%string] None).

Lemma forwarding_always_drops_witness :
  let res := sample_process node_b packet_for_c 216 in
  sample_valid packet_for_c = Some true /\
  snd (_is_duplicate node_b packet_for_c) = false /\
  packet_type packet_for_c = DATA /\
  destination_id packet_for_c = "C"%string /\
  route_history packet_for_c = ["A"%string] /\
  is_Some (neighbor_nodes (proto node_b) !! "C"%string) /\
  snd res = Some (with_local_node node_b packet_for_c) /\
  packets_dropped (proto (fst res)) = 1%Z /\
  link_qualities (proto (fst res)) = ∅ /\
  clock (fst res) = 10 /\
  trace (fst res) =
    [Logged INFO (MsgInitialized "B");
     Logged WARNING (MsgLoop "A_7_5.0")].
Proof.
  assert (Hvalid : sample_valid packet_for_c = Some true)
    by (vm_compute; reflexivity).
  assert (Hdup : snd (_is_duplicate node_b packet_for_c) = false)
    by (vm_compute; reflexivity).
  assert (Hty : packet_type packet_for_c
                  ∉ [ACK; NACK; HEARTBEAT; ROUTING_UPDATE]).
  { intros Hin. apply list_elem_of_In in Hin. cbn in Hin.
    intuition discriminate. }
  assert (Hdst : destination_id packet_for_c <> node_id (proto node_b))
    by (vm_compute; discriminate).
  pose proof (forwarding_always_drops sample_digest sample_pack_d
                sample_str_float sample_exponential node_b packet_for_c 216
                Hvalid Hdup Hty Hdst) as H.
  cbv zeta in H. destruct H as (Hres & Hdropped & Hlq & Hclock & Htrace).
  cbv zeta.
  split; [exact Hvalid|]. split; [exact Hdup|].
  split; [reflexivity|]. split; [reflexivity|]. split; [reflexivity|].
  split; [eexists; vm_compute; reflexivity|].
  split; [exact Hres|]. split; [exact Hdropped|]. split; [exact Hlq|].
  split; [exact Hclock | exact Htrace].
Defined.

(** The bytes [serialize] makes of a valid packet for B; they are not
    deserialized. *)
Definition packet_for_b : DeepSpacePacket :=
  Eval vm_compute in
  default blank_packet
    (sample_packet "A_7_5.0" "A" "B" DATA Priority.NORMAL hello 7 5 86400
       [] None).

Definition wire_for_b : list byte :=
  Eval vm_compute in
  default [] (serialize sample_pack_d packet_for_b).

Example wire_for_b_received_twice :
  sample_valid packet_for_b = Some true /\
  serialize sample_pack_d packet_for_b = Some wire_for_b /\
  length wire_for_b = 184%nat /\
  let w := init_world "B" 5 300 10 in
  let r1 := sample_receive w wire_for_b in
  let r2 := sample_receive (fst r1) wire_for_b in
  snd r1 = None /\ snd r2 = None /\
  received_packets (proto (fst r2)) = ∅ /\
  packets_received (proto (fst r2)) = 0%Z /\
  trace (fst r2) =
    [Logged INFO (MsgInitialized "B");
     Logged ERROR MsgDeserializeFailed;
     Logged ERROR MsgDeserializeFailed].
Proof. vm_compute. repeat split; reflexivity. Qed.

(** Node A with B among its neighbours, and after it has sent a DATA
    packet to B: the packet ["A_0_0.0"] has been transmitted, it is
    pending, and the task of its handler is created. *)
Definition node_a_linked : World :=
  upd_proto (fun p => set_neighbor_nodes p (<["B"%string := 0]> ∅)) node_a.

Definition node_a_sent : World :=
  Eval vm_compute in
  fst (sample_send node_a_linked "B" hello DATA Priority.NORMAL).

Example node_a_sent_transmitted :
  sample_send node_a_linked "B" hello DATA Priority.NORMAL
    = (node_a_sent, true) /\
  packets_sent (proto node_a_sent) = 1%Z /\
  is_Some (pending_acks (proto node_a_sent) !! "A_0_0.0"%string) /\
  tasks node_a_sent = [TaskCreated "A_0_0.0"] /\
  trace node_a_sent =
    [Logged INFO (MsgInitialized "A");
     Slept (CoTransmit "B") (0.1 + 0.05);
     Logged DEBUG (MsgTransmitted "A_0_0.0" "B");
     Logged DEBUG (MsgSent "A_0_0.0" "B")].
Proof.
  split; [vm_compute; reflexivity|].
  split; [reflexivity|]. split; [eexists; vm_compute; reflexivity|].
  split; vm_compute; reflexivity.
Qed.



(** The ACK of B for the packet, created at time 1. *)
Definition ack_of_b : DeepSpacePacket :=
  Eval vm_compute in
  default blank_packet
    (sample_packet "B_0_1.0" "B" "A" ACK Priority.HIGH
       (ljust 64 (encode "A_0_0.0")) 0 1 86400 [] None).


(** The ACK is processed one second into the first backoff sleep; the
    retransmission is made all the same when the sleep is over. *)
Definition until_backoff : list Event :=
  [EvStart "A_0_0.0"; EvElapse 300; EvAckTimeout "A_0_0.0"].

Definition after_ack_events : list Event :=
  [EvElapse 1; EvBackoffDone "A_0_0.0"].

Definition node_a_backing : World :=
  Eval vm_compute in default node_a_sent (sample_run node_a_sent until_backoff).

Definition node_a_acked : World :=
  Eval vm_compute in fst (sample_process node_a_backing ack_of_b 248).

Definition node_a_resent : World :=
  Eval vm_compute in
  default node_a_acked (sample_run node_a_acked after_ack_events).


Example node_a_resent_after_ack :
  sample_run node_a_sent until_backoff = Some node_a_backing /\
  sample_process node_a_backing ack_of_b 248
    = (node_a_acked, Some (with_local_node node_a_backing ack_of_b)) /\
  sample_run node_a_acked after_ack_events = Some node_a_resent /\
  is_Some (pending_acks (proto node_a_backing) !! "A_0_0.0"%string) /\
  pending_acks (proto node_a_acked) !! "A_0_0.0"%string = None /\
  trace node_a_resent =
    [Logged INFO (MsgInitialized "A");
     Slept (CoTransmit "B") (0.1 + 0.05);
     Logged DEBUG (MsgTransmitted "A_0_0.0" "B");
     Logged DEBUG (MsgSent "A_0_0.0" "B");
     Slept (CoAckTimeout "A_0_0.0") 300;
     Slept (CoAckTimeout "A_0_0.0") (inject_Z 1);
     Logged DEBUG (MsgAckReceived "A_0_0.0");
     Slept (CoTransmit "B") (0.1 + 0.05);
     Logged DEBUG (MsgTransmitted "A_0_0.0" "B");
     Logged DEBUG (MsgRetransmitting "A_0_0.0" 1)] /\
  tasks node_a_resent = [TaskCreated "A_0_0.0"].
Proof.
  split; [vm_compute; reflexivity|]. split; [vm_compute; reflexivity|].
  split; [vm_compute; reflexivity|]. split; [eexists; vm_compute; reflexivity|].
  vm_compute. repeat split; reflexivity.
Qed.

(** One round of the handler: it starts, the ack timeout passes, the
    backoff of [d] seconds passes. *)
Definition round_events (pid : string) (timeout d : Q) : list Event :=
  [EvStart pid; EvElapse timeout; EvAckTimeout pid;
   EvElapse d; EvBackoffDone pid].

Example node_a_gives_up :
  let evs :=
    round_events "A_0_0.0" 300 1 ++ round_events "A_0_0.0" 300 2
    ++ round_events "A_0_0.0" 300 4 ++ round_events "A_0_0.0" 300 8
    ++ round_events "A_0_0.0" 300 16
    ++ [EvStart "A_0_0.0"; EvElapse 300; EvAckTimeout "A_0_0.0"] in
  exists w,
    sample_run node_a_sent evs = Some w /\
    retransmissions "A_0_0.0" w = 5%nat /\
    pending_acks (proto w) !! "A_0_0.0"%string = None /\
    tasks w = [] /\
    last (trace w) = Some (Logged ERROR (MsgDeliveryFailed "A_0_0.0" 5)) /\
    clock w == 1831.9.
Proof.
  eexists. split; [vm_compute; reflexivity|].
  vm_compute. repeat split; reflexivity.
Qed.

End ProtocolSpec.

(** ** More of the transport protocol engine

    The functions of [deep_space_protocol.py] beside the ones above,
    and what the engine does when its operations are combined. *)

Module ProtocolOps.
Import Protocol.
Import ProtocolSpec.

(** *** Bytes *)

Lemma length_ljust (n : nat) (b : list byte) :
  (length b <= n)%nat -> length (ljust n b) = n.
Proof. intros H. unfold ljust. rewrite length_app, repeat_length. lia. Qed.

Lemma length_pack_32s (b : list byte) : length (pack_32s b) = 32%nat.
Proof. unfold pack_32s. apply length_ljust. rewrite length_take. lia. Qed.

Lemma length_le_bytes (n : nat) (v : Z) : length (le_bytes n v) = n.
Proof. revert v. induction n as [|n IH]; intros v; cbn; [|rewrite IH]; reflexivity. Qed.

Lemma length_route_data (history : list string) :
  length (concat (map (fun node => ljust 32 (take 32 (encode node))) history))
    = (32 * length history)%nat.
Proof.
  induction history as [|node history IH]; [reflexivity|].
  cbn [map concat]. rewrite length_app, IH, length_ljust.
  - cbn [length]. lia.
  - rewrite length_take. lia.
Qed.

Lemma pack_I_be_in_range (v : Z) :
  (0 <= v < 2 ^ 32)%Z -> pack_I_be v = Some (rev (le_bytes 4 v)).
Proof. intros H. unfold pack_I_be. rewrite pack_I_in_range by exact H. reflexivity. Qed.

Lemma pack_I_be_out_of_range (v : Z) :
  ~ (0 <= v < 2 ^ 32)%Z -> pack_I_be v = None.
Proof. intros H. unfold pack_I_be. rewrite pack_I_out_of_range by exact H. reflexivity. Qed.

Lemma pack_B_in_range (v : Z) :
  (0 <= v < 256)%Z -> pack_B v = Some [byte_of_Z v].
Proof.
  intros H. unfold pack_B.
  destruct (Z.leb_spec 0 v); [|lia]. destruct (Z.ltb_spec v 256); [|lia].
  reflexivity.
Qed.

Lemma pack_B_out_of_range (v : Z) : ~ (0 <= v < 256)%Z -> pack_B v = None.
Proof.
  intros H. unfold pack_B.
  destruct (Z.leb_spec 0 v); destruct (Z.ltb_spec v 256); try reflexivity; lia.
Qed.

Section Wire.

Variable pack_d : Q -> list byte.

(** [struct.pack('d', x)] has eight bytes. *)
Hypothesis pack_d_length : forall x, length (pack_d x) = 8%nat.

Abbreviation serialize := (serialize pack_d).

(** X1.  [serialize] raises exactly when the sequence number or the
    payload length does not fit an unsigned 32-bit field or the route
    history has more than 255 entries.  Otherwise the packet takes 179
    bytes, 32 bytes for each of its first ten hops, and its payload;
    the byte after the header holds the full number of hops, also when
    more than ten were recorded and only ten are written. *)
Theorem serialize_length (p : DeepSpacePacket) :
  let hops := length (route_history p) in
  (serialize p = None <->
     ~ (0 <= sequence_number p < 2 ^ 32)%Z \/
     (2 ^ 32 <= Z.of_nat (length (payload p)))%Z \/
     (255 < hops)%nat) /\
  (forall wire,
     serialize p = Some wire ->
     length wire = (179 + 32 * Nat.min 10 hops + length (payload p))%nat /\
     wire !! 114%nat = Some (byte_of_Z (Z.of_nat hops)) /\
     drop (179 + 32 * Nat.min 10 hops) wire = payload p).
Proof.
  cbv zeta. unfold Protocol.serialize.
  rewrite pack_B_type, pack_B_priority. cbn [mbind option_bind].
  destruct (decide (0 <= sequence_number p < 2 ^ 32)%Z) as [Hseq|Hseq].
  2:{ rewrite (pack_I_be_out_of_range (sequence_number p)) by exact Hseq. cbn.
      split; [split; [intros _; left; exact Hseq | reflexivity]|].
      intros wire [=]. }
  rewrite (pack_I_be_in_range (sequence_number p)) by exact Hseq.
  cbn [mbind option_bind].
  destruct (decide (Z.of_nat (length (payload p)) < 2 ^ 32)%Z) as [Hlen|Hlen].
  2:{ rewrite pack_I_be_out_of_range by lia. cbn.
      split; [split; [intros _; right; left; lia | reflexivity]|].
      intros wire [=]. }
  rewrite pack_I_be_in_range by lia. cbn [mbind option_bind].
  destruct (decide (length (route_history p) <= 255)%nat) as [Hhops|Hhops].
  2:{ rewrite pack_B_out_of_range by lia. cbn.
      split; [split; [intros _; right; right; lia | reflexivity]|].
      intros wire [=]. }
  rewrite pack_B_in_range by lia. cbn [mbind option_bind].
  split.
  { split; [discriminate|]. intros [H|[H|H]]; [contradiction | lia | lia]. }
  intros wire [= <-].
  set (header := pack_32s _ ++ _).
  assert (Hheader : length header = 114%nat).
  { subst header.
    rewrite !length_app, !length_pack_32s. cbn [length].
    rewrite length_rev, pack_d_length. reflexivity. }
  set (routes := concat _).
  assert (Hroutes : length routes = (32 * Nat.min 10 (length (route_history p)))%nat).
  { subst routes. rewrite length_route_data, length_take. reflexivity. }
  set (sum := ljust 64 _).
  assert (Hsum : length sum = 64%nat).
  { subst sum. apply length_ljust. rewrite length_take. lia. }
  split; [|split].
  - rewrite length_app, Hheader. cbn [length].
    rewrite !length_app, Hroutes, Hsum. lia.
  - rewrite lookup_app_r by lia. rewrite Hheader. reflexivity.
  - match goal with
    | |- drop _ (header ++ ?b :: routes ++ sum ++ ?rest) = _ =>
        change (header ++ b :: routes ++ sum ++ rest)
          with (header ++ [b] ++ routes ++ sum ++ rest)
    end.
    rewrite !app_assoc.
    rewrite drop_app_length'; [reflexivity|].
    rewrite !length_app, Hheader, Hroutes, Hsum. cbn [length]. lia.
Qed.

End Wire.

(** *** Text in byte fields *)

Lemma utf8_valid_app (a b : list N) :
  utf8_valid a = true -> utf8_valid (a ++ b) = utf8_valid b.
Proof.
  remember (length a) as n eqn:Hn.
  revert a Hn. induction n as [n IH] using lt_wf_ind. intros a Hn Hvalid.
  destruct a as [|b0 r0]; [reflexivity|].
  cbn [app utf8_valid] in *.
  destruct (b0 <? 128)%N.
  { apply (IH (length r0)); [subst n; cbn; lia | reflexivity | exact Hvalid]. }
  destruct r0 as [|b1 r1]; [discriminate|].
  cbn [app] in *.
  destruct (in_range 194 223 b0).
  { apply andb_true_iff in Hvalid as [H1 H2]. rewrite H1. cbn.
    apply (IH (length r1)); [subst n; cbn; lia | reflexivity | exact H2]. }
  destruct r1 as [|b2 r2]; [discriminate|].
  cbn [app] in *.
  destruct (_ || _).
  { apply andb_true_iff in Hvalid as [H1 H2]. rewrite H1. cbn.
    apply (IH (length r2)); [subst n; cbn; lia | reflexivity | exact H2]. }
  destruct r2 as [|b3 r3]; [discriminate|].
  cbn [app] in *.
  destruct (_ || _); [|discriminate].
  apply andb_true_iff in Hvalid as [H1 H2]. rewrite H1. cbn.
  apply (IH (length r3)); [subst n; cbn; lia | reflexivity | exact H2].
Qed.

Lemma utf8_valid_nuls (k : nat) :
  utf8_valid (map Byte.to_N (repeat x00 k)) = true.
Proof. induction k as [|k IH]; [reflexivity | exact IH]. Qed.

Lemma lstrip_nul_nuls (k : nat) (b : list byte) :
  lstrip_nul (repeat x00 k ++ b) = lstrip_nul b.
Proof. induction k as [|k IH]; [reflexivity | exact IH]. Qed.

Lemma rev_nuls (k : nat) : rev (repeat x00 k) = repeat x00 k.
Proof.
  induction k as [|k IH]; [reflexivity|].
  cbn [repeat rev]. rewrite IH.
  change [x00] with (repeat x00 1). rewrite <- repeat_app.
  replace (k + 1)%nat with (S k) by lia. reflexivity.
Qed.

Lemma rstrip_nul_nuls (k : nat) (b : list byte) :
  rstrip_nul (b ++ repeat x00 k) = rstrip_nul b.
Proof.
  unfold rstrip_nul. rewrite rev_app_distr, rev_nuls, lstrip_nul_nuls.
  reflexivity.
Qed.

Lemma length_lstrip_nul (b : list byte) :
  (length (lstrip_nul b) <= length b)%nat.
Proof.
  induction b as [|x b IH]; [reflexivity|].
  cbn [lstrip_nul]. destruct (Byte.eqb x x00); cbn [length]; lia.
Qed.

Lemma length_rstrip_nul (b : list byte) :
  (length (rstrip_nul b) <= length b)%nat.
Proof.
  unfold rstrip_nul. rewrite length_rev.
  pose proof (length_lstrip_nul (rev b)) as H. rewrite length_rev in H.
  exact H.
Qed.

Lemma length_str_strip_nul (s : string) :
  (length (encode (str_strip_nul s)) <= length (encode s))%nat.
Proof.
  unfold str_strip_nul, encode.
  rewrite list_byte_of_string_of_list_byte.
  pose proof (length_lstrip_nul (rstrip_nul (list_byte_of_string s))).
  pose proof (length_rstrip_nul (list_byte_of_string s)). lia.
Qed.

(** A text that [encode] can come from and that [strip('\x00')]
    leaves as it is. *)
Definition plain_text (s : string) : Prop :=
  utf8_valid (map Byte.to_N (encode s)) = true /\ str_strip_nul s = s.

(** The identifier is read back from the 64-byte field it was padded
    into, when it fits. *)
Lemma referenced_id_padded (pid : string) :
  plain_text pid -> (length (encode pid) <= 64)%nat ->
  referenced_id (ljust 64 (encode pid)) = Some pid.
Proof.
  intros [Hutf Hstrip] Hlen. unfold referenced_id.
  rewrite take_ge by (rewrite length_ljust; [reflexivity | exact Hlen]).
  unfold decode, ljust.
  rewrite map_app, utf8_valid_app by exact Hutf.
  rewrite utf8_valid_nuls. cbn [fmap option_fmap option_map].
  f_equal. unfold str_strip_nul.
  rewrite list_byte_of_string_of_list_byte, rstrip_nul_nuls.
  exact Hstrip.
Qed.

(** An identifier of more than 64 bytes is not read back. *)
Lemma referenced_id_too_long (pid : string) :
  (64 < length (encode pid))%nat ->
  referenced_id (ljust 64 (encode pid)) <> Some pid.
Proof.
  intros Hlen Href. unfold referenced_id, decode in Href.
  destruct (utf8_valid _); [|discriminate].
  cbn in Href. injection Href as Href.
  pose proof (length_str_strip_nul
                (string_of_list_byte (take 64 (ljust 64 (encode pid))))) as H.
  rewrite Href in H. unfold encode at 2 in H.
  rewrite list_byte_of_string_of_list_byte, length_take in H. lia.
Qed.

(** *** Acknowledgements *)

Section Engine.

Variable sha256_hexdigest : list byte -> string.
Variable pack_d : Q -> list byte.
Variable unpack_d : list byte -> Q.
Variable str_float : Q -> string.
Variable random_exponential : nat -> Q.

Abbreviation is_valid := (is_valid sha256_hexdigest pack_d).
Abbreviation new_packet := (new_packet sha256_hexdigest pack_d).
Abbreviation send_packet :=
  (send_packet sha256_hexdigest pack_d str_float random_exponential).
Abbreviation process_packet :=
  (process_packet sha256_hexdigest pack_d str_float random_exponential).
Abbreviation _route_packet := (_route_packet random_exponential).
Abbreviation _transmit_to_neighbor :=
  (_transmit_to_neighbor random_exponential).
Abbreviation _handle_received_packet :=
  (_handle_received_packet sha256_hexdigest pack_d str_float
     random_exponential).
Abbreviation _handle_nack := (_handle_nack random_exponential).
Abbreviation dispatch :=
  (dispatch sha256_hexdigest pack_d str_float random_exponential).
Abbreviation step :=
  (step sha256_hexdigest pack_d unpack_d str_float random_exponential).
Abbreviation run :=
  (run sha256_hexdigest pack_d unpack_d str_float random_exponential).

(** What [_is_duplicate] leaves alone. *)
Lemma is_duplicate_frame w p :
  let w' := fst (_is_duplicate w p) in
  pending_acks (proto w') = pending_acks (proto w) /\
  tasks w' = tasks w /\ trace w' = trace w /\ clock w' = clock w /\
  node_id (proto w') = node_id (proto w).
Proof.
  cbv zeta. unfold _is_duplicate. destruct (_ !! _); cbn; repeat split.
Qed.

(** A valid and new ACK whose payload names [pid] in its first 64
    bytes. *)
Lemma process_ack_naming w ack n pid :
  is_valid ack = Some true ->
  snd (_is_duplicate w ack) = false ->
  packet_type ack = ACK ->
  (64 <= length (payload ack))%nat ->
  referenced_id (payload ack) = Some pid ->
  let res := process_packet w ack n in
  pending_acks (proto (fst res)) = delete pid (pending_acks (proto w)) /\
  tasks (fst res) = tasks w /\
  is_Some (snd res).
Proof.
  intros Hvalid Hdup Hty Hlen Href. cbv zeta.
  unfold Protocol.process_packet. rewrite Hvalid.
  pose proof (is_duplicate_frame w ack) as (Hp & Hts & _).
  destruct (_is_duplicate w ack) as [w1 dup]. cbn [fst snd] in *. subst dup.
  match goal with
  | |- context [Protocol.dispatch _ _ _ _ w1 ?q] => set (p1 := q)
  end.
  assert (Hty1 : packet_type p1 = ACK)
    by (subst p1; destruct (bool_decide _); exact Hty).
  assert (Hpay : payload p1 = payload ack)
    by (subst p1; destruct (bool_decide _); reflexivity).
  clearbody p1.
  unfold Protocol.dispatch. rewrite Hty1. unfold _handle_ack.
  rewrite Hpay, Href. cbn [mbind option_bind].
  destruct (Nat.leb_spec 64 (length (payload ack))); [|lia].
  destruct (pending_acks (proto w1) !! pid) eqn:Epid; cbn.
  - rewrite Hp. split; [reflexivity|]. split; [exact Hts | eauto].
  - rewrite Hp. split; [|split; [exact Hts | eauto]].
    symmetry. apply delete_id. rewrite <- Hp. exact Epid.
Qed.

(** X2.  The acknowledgement round trip.  [_handle_received_packet]
    pads the identifier of the packet it acknowledges to 64 bytes;
    when the identifier is plain text of at most 64 bytes,
    [_handle_ack] reads the same identifier back, and a node that
    processes a valid, new ACK with this payload removes the
    identifier from its pending acknowledgements (and nothing else),
    creates no task and returns the packet. *)
Theorem acknowledgement_round_trip w ack n pid :
  plain_text pid -> (length (encode pid) <= 64)%nat ->
  is_valid ack = Some true ->
  snd (_is_duplicate w ack) = false ->
  packet_type ack = ACK ->
  payload ack = ljust 64 (encode pid) ->
  let res := process_packet w ack n in
  referenced_id (payload ack) = Some pid /\
  pending_acks (proto (fst res)) = delete pid (pending_acks (proto w)) /\
  tasks (fst res) = tasks w /\
  is_Some (snd res).
Proof.
  intros Hplain Hlen Hvalid Hdup Hty Hpay.
  assert (Href : referenced_id (payload ack) = Some pid).
  { rewrite Hpay. apply referenced_id_padded; assumption. }
  split; [exact Href|].
  apply process_ack_naming; try assumption.
  rewrite Hpay, length_ljust; [reflexivity | exact Hlen].
Qed.

(** X3.  An identifier of more than 64 bytes cannot be acknowledged:
    the ACK made for it carries the identifier unpadded, [_handle_ack]
    reads only its first 64 bytes, and whatever these decode to, the
    pending entry of the identifier stays. *)
Theorem long_id_never_acknowledged w ack n pid :
  (64 < length (encode pid))%nat ->
  is_valid ack = Some true ->
  snd (_is_duplicate w ack) = false ->
  packet_type ack = ACK ->
  payload ack = ljust 64 (encode pid) ->
  let res := process_packet w ack n in
  payload ack = encode pid /\
  pending_acks (proto (fst res)) !! pid = pending_acks (proto w) !! pid.
Proof.
  intros Hlen Hvalid Hdup Hty Hpay. cbv zeta.
  assert (Hraw : payload ack = encode pid).
  { rewrite Hpay. unfold ljust.
    replace (64 - length (encode pid))%nat with 0%nat by lia.
    apply app_nil_r. }
  split; [exact Hraw|].
  pose proof (referenced_id_too_long pid Hlen) as Hne. rewrite <- Hpay in Hne.
  destruct (referenced_id (payload ack)) as [other|] eqn:Href.
  - destruct (process_ack_naming w ack n other Hvalid Hdup Hty
                ltac:(rewrite Hraw; lia) Href) as (Hp & _).
    rewrite Hp. apply lookup_delete_ne. congruence.
  - unfold Protocol.process_packet. rewrite Hvalid.
    pose proof (is_duplicate_frame w ack) as (Hp & _).
    destruct (_is_duplicate w ack) as [w1 dup]. cbn [fst snd] in *. subst dup.
    match goal with
    | |- context [Protocol.dispatch _ _ _ _ w1 ?q] => set (p1 := q)
    end.
    assert (Hty1 : packet_type p1 = ACK)
      by (subst p1; destruct (bool_decide _); exact Hty).
    assert (Hpay1 : payload p1 = payload ack)
      by (subst p1; destruct (bool_decide _); reflexivity).
    clearbody p1.
    unfold Protocol.dispatch. rewrite Hty1. unfold _handle_ack.
    rewrite Hpay1, Href.
    destruct (Nat.leb_spec 64 (length (payload ack))) as [_|Hshort];
      [|rewrite Hraw in Hshort; lia].
    cbn. rewrite Hp. reflexivity.
Qed.

(** *** What routing and sending leave alone *)

Lemma set_link_qualities_same p :
  set_link_qualities p (link_qualities p) = p.
Proof. destruct p. reflexivity. Qed.

(** Transmitting and routing change the link qualities and nothing
    else of the protocol object; no task is created. *)
Lemma transmit_frame w neighbor packet :
  let w' := fst (_transmit_to_neighbor w neighbor packet) in
  proto w' = set_link_qualities (proto w) (link_qualities (proto w')) /\
  tasks w' = tasks w.
Proof. cbv zeta. unfold Protocol._transmit_to_neighbor. cbn. split; reflexivity. Qed.

Lemma route_frame w packet :
  let w' := fst (_route_packet w packet) in
  proto w' = set_link_qualities (proto w) (link_qualities (proto w')) /\
  tasks w' = tasks w.
Proof.
  cbv zeta. unfold Protocol._route_packet.
  destruct (neighbor_nodes (proto w) !! destination_id packet).
  { apply transmit_frame. }
  destruct (routing_table (proto w) !! destination_id packet) as [hop|];
    [destruct (bool_decide (hop = ""%string))|];
    try apply transmit_frame;
    cbn; rewrite set_link_qualities_same; split; reflexivity.
Qed.

(** The fields of the protocol object that concern reception. *)
Definition reception_state (p : DeepSpaceProtocol) :=
  (node_id p, received_packets p, duplicate_filter p, packets_received p,
   packets_dropped p, bytes_received p, neighbor_nodes p, routing_table p).

(** The fields that configure the engine. *)
Definition configuration (p : DeepSpaceProtocol) :=
  (node_id p, max_retries p, ack_timeout p, packet_cache_duration p,
   neighbor_timeout p, max_packet_size p).

Lemma send_frame w destination data ty prio :
  let w' := fst (send_packet w destination data ty prio) in
  reception_state (proto w') = reception_state (proto w) /\
  configuration (proto w') = configuration (proto w) /\
  (ty <> DATA ->
     pending_acks (proto w') = pending_acks (proto w) /\
     tasks w' = tasks w).
Proof.
  cbv zeta. unfold Protocol.send_packet.
  destruct (_ <? _)%Z; [cbn; repeat split|].
  destruct (Protocol.new_packet _ _ _ _ _ _ _ _ _ _ _ _ _) as [packet|];
    [|cbn; repeat split].
  match goal with
  | |- context [Protocol._route_packet _ ?w0 packet] => set (w1 := w0)
  end.
  assert (H1 : reception_state (proto w1) = reception_state (proto w) /\
               configuration (proto w1) = configuration (proto w) /\
               (ty <> DATA ->
                  pending_acks (proto w1) = pending_acks (proto w) /\
                  tasks w1 = tasks w)).
  { subst w1. destruct (bool_decide (ty = DATA)) eqn:E.
    - apply bool_decide_eq_true in E. cbn. repeat split; contradiction.
    - cbn. repeat split. }
  clearbody w1.
  pose proof (route_frame w1 packet) as [Hp Hts].
  destruct (_route_packet w1 packet) as [w2 ok]. cbn [fst] in *.
  destruct H1 as (Hr & Hc & Hnd).
  assert (H2 : reception_state (proto w2) = reception_state (proto w) /\
               configuration (proto w2) = configuration (proto w) /\
               (ty <> DATA ->
                  pending_acks (proto w2) = pending_acks (proto w) /\
                  tasks w2 = tasks w)).
  { rewrite Hp. split; [exact Hr|]. split; [exact Hc|].
    intros Hty. destruct (Hnd Hty) as [Ha Hb].
    split; [exact Ha | congruence]. }
  destruct ok; [|exact H2].
  destruct (serialize pack_d packet); cbn [fst]; exact H2.
Qed.

(** *** Delivery *)

Lemma is_duplicate_proto w p :
  let w' := fst (_is_duplicate w p) in
  proto w' = set_duplicate_filter (proto w) (duplicate_filter (proto w')) /\
  tasks w' = tasks w /\ trace w' = trace w /\ clock w' = clock w.
Proof.
  cbv zeta. unfold _is_duplicate. destruct (_ !! _); cbn; repeat split.
Qed.

(** A call of [send_packet] that gets past the size check and the
    constructor consumes one sequence number. *)
Lemma send_consumes_sequence_number w destination data ty prio :
  (Z.of_nat (length data) <= max_packet_size (proto w))%Z ->
  (0 <= sequence_counter (proto w) < 2 ^ 32)%Z ->
  sequence_counter (proto (fst (send_packet w destination data ty prio)))
    = (sequence_counter (proto w) + 1)%Z.
Proof.
  intros Hlen Hseq. unfold Protocol.send_packet.
  destruct (Z.ltb_spec (max_packet_size (proto w)) (Z.of_nat (length data)));
    [lia|].
  rewrite new_packet_computed by exact Hseq.
  match goal with
  | |- context [Protocol._route_packet _ ?w0 ?q] =>
      set (w1 := w0); set (packet := q)
  end.
  assert (H1 : sequence_counter (proto w1)
               = (sequence_counter (proto w) + 1)%Z)
    by (subst w1; destruct (bool_decide _); reflexivity).
  clearbody w1.
  pose proof (route_frame w1 packet) as [Hp _].
  destruct (_route_packet w1 packet) as [w2 ok]. cbn [fst] in *.
  assert (H2 : sequence_counter (proto w2)
               = (sequence_counter (proto w) + 1)%Z)
    by (rewrite Hp; exact H1).
  destruct ok; [|exact H2].
  destruct (serialize pack_d packet); cbn [fst]; exact H2.
Qed.

(** X4.  A packet that has passed the integrity and the duplicate
    check, is not an ACK, NACK, HEARTBEAT or ROUTING_UPDATE and is
    addressed to the local node is delivered: it is returned and
    stored in [received_packets] under its identifier, with the local
    node in its route history, and counted as received, whether or not
    the acknowledgement can be routed.  Nothing is dropped, the pending
    acknowledgements stay, and no timer is started: an ACK is not
    tracked.  For a DATA packet the ACK consumes a sequence number;
    for other types none is sent. *)
Theorem local_packet_delivered w p n :
  is_valid p = Some true ->
  snd (_is_duplicate w p) = false ->
  packet_type p ∉ [ACK; NACK; HEARTBEAT; ROUTING_UPDATE] ->
  destination_id p = node_id (proto w) ->
  let res := process_packet w p n in
  let p1 := with_local_node w p in
  snd res = Some p1 /\
  received_packets (proto (fst res))
    = <[packet_id p := p1]> (received_packets (proto w)) /\
  packets_received (proto (fst res)) = (packets_received (proto w) + 1)%Z /\
  bytes_received (proto (fst res))
    = (bytes_received (proto w) + Z.of_nat n)%Z /\
  packets_dropped (proto (fst res)) = packets_dropped (proto w) /\
  pending_acks (proto (fst res)) = pending_acks (proto w) /\
  tasks (fst res) = tasks w /\
  (packet_type p <> DATA ->
     sequence_counter (proto (fst res)) = sequence_counter (proto w)) /\
  (packet_type p = DATA ->
     (Z.of_nat (length (ljust 64 (encode (packet_id p))))
      <= max_packet_size (proto w))%Z ->
     (0 <= sequence_counter (proto w) < 2 ^ 32)%Z ->
     sequence_counter (proto (fst res))
       = (sequence_counter (proto w) + 1)%Z).
Proof.
  intros Hvalid Hdup Hty Hdst. cbv zeta.
  unfold Protocol.process_packet. rewrite Hvalid.
  pose proof (is_duplicate_proto w p) as (Hp1 & Hts1 & _).
  destruct (_is_duplicate w p) as [w1 dup]. cbn [fst snd] in *. subst dup.
  assert (Hnode : node_id (proto w1) = node_id (proto w))
    by (rewrite Hp1; reflexivity).
  rewrite Hnode. fold (with_local_node w p).
  set (p1 := with_local_node w p).
  assert (Ht1 : packet_type p1 = packet_type p).
  { subst p1. unfold with_local_node. destruct (bool_decide _); reflexivity. }
  assert (Hd1 : destination_id p1 = destination_id p).
  { subst p1. unfold with_local_node. destruct (bool_decide _); reflexivity. }
  assert (Hi1 : packet_id p1 = packet_id p).
  { subst p1. unfold with_local_node. destruct (bool_decide _); reflexivity. }
  assert (Hdisp : dispatch w1 p1 = Some (_handle_received_packet w1 p1)).
  { unfold Protocol.dispatch. rewrite Ht1, Hd1, Hnode.
    rewrite bool_decide_eq_true_2 by exact Hdst.
    destruct (packet_type p); try reflexivity; exfalso; apply Hty; set_solver. }
  rewrite Hdisp. clear Hdisp. clearbody p1.
  unfold Protocol._handle_received_packet. rewrite Ht1, Hi1.
  destruct (bool_decide (packet_type p = DATA)) eqn:Edata;
    [apply bool_decide_eq_true in Edata | apply bool_decide_eq_false in Edata].
  - set (payload_ack := ljust 64 (encode (packet_id p))).
    pose proof (send_frame w1 (source_id p1) payload_ack ACK Priority.HIGH)
      as (Hr & _ & Hnd).
    destruct (Hnd ltac:(discriminate)) as [Hpend Htasks].
    pose proof (send_consumes_sequence_number w1 (source_id p1) payload_ack
                  ACK Priority.HIGH) as Hseq.
    destruct (send_packet w1 (source_id p1) payload_ack ACK Priority.HIGH)
      as [w2 ok]. cbn [fst snd] in *.
    unfold reception_state in Hr. injection Hr as _ Hrp _ Hpr Hpd Hbr _ _.
    rewrite Hp1 in Hrp, Hpr, Hpd, Hbr, Hpend. cbn in Hrp, Hpr, Hpd, Hbr, Hpend.
    assert (Hseq1 : sequence_counter (proto w1) = sequence_counter (proto w))
      by (rewrite Hp1; reflexivity).
    assert (Hmax1 : max_packet_size (proto w1) = max_packet_size (proto w))
      by (rewrite Hp1; reflexivity).
    cbn. rewrite Hrp, Hpr, Hpd, Hbr, Hpend.
    split; [reflexivity|]. split; [reflexivity|]. split; [reflexivity|].
    split; [reflexivity|]. split; [reflexivity|]. split; [reflexivity|].
    split; [congruence|]. split; [contradiction|].
    intros _ Hmax Hcounter. rewrite <- Hseq1. apply Hseq.
    + rewrite Hmax1. exact Hmax.
    + rewrite Hseq1. exact Hcounter.
  - assert (Hrp : received_packets (proto w1) = received_packets (proto w))
      by (rewrite Hp1; reflexivity).
    assert (Hpr : packets_received (proto w1) = packets_received (proto w))
      by (rewrite Hp1; reflexivity).
    assert (Hpd : packets_dropped (proto w1) = packets_dropped (proto w))
      by (rewrite Hp1; reflexivity).
    assert (Hbr : bytes_received (proto w1) = bytes_received (proto w))
      by (rewrite Hp1; reflexivity).
    assert (Hpend : pending_acks (proto w1) = pending_acks (proto w))
      by (rewrite Hp1; reflexivity).
    assert (Hseq1 : sequence_counter (proto w1) = sequence_counter (proto w))
      by (rewrite Hp1; reflexivity).
    cbn. rewrite Hrp, Hpr, Hpd, Hbr, Hpend, Hseq1.
    split; [reflexivity|]. split; [reflexivity|]. split; [reflexivity|].
    split; [reflexivity|]. split; [reflexivity|]. split; [reflexivity|].
    split; [exact Hts1|]. split; [reflexivity|]. contradiction.
Qed.

(** *** The duplicate filter *)

(** X5.  [_is_duplicate] answers true exactly when the key of the
    packet, source and sequence number, was filed no longer ago than
    the cache duration.  A duplicate does not renew the entry, so the
    window runs from the first reception; a packet that is not a
    duplicate is filed with the current time, also when an expired
    entry of the same key was there.  Of the other entries exactly
    those within the window are kept, and nothing else of the node
    changes. *)
Theorem duplicate_filter_window w p :
  let key := packet_key p in
  let window := packet_cache_duration (proto w) in
  let before := duplicate_filter (proto w) in
  let res := _is_duplicate w p in
  let after := duplicate_filter (proto (fst res)) in
  (snd res = true <->
     exists t, before !! key = Some t /\ clock w - t <= window) /\
  (snd res = true -> after !! key = before !! key) /\
  (snd res = false -> after !! key = Some (clock w)) /\
  (forall k t, k <> key ->
     (after !! k = Some t <-> before !! k = Some t /\ clock w - t <= window)) /\
  proto (fst res) = set_duplicate_filter (proto w) after /\
  tasks (fst res) = tasks w /\ trace (fst res) = trace w /\
  clock (fst res) = clock w.
Proof.
  cbv zeta. unfold _is_duplicate. fold (packet_key p).
  set (kept := filter _ (duplicate_filter (proto w))).
  assert (Hkept : forall k t,
            kept !! k = Some t <->
            duplicate_filter (proto w) !! k = Some t /\
            clock w - t <= packet_cache_duration (proto w)).
  { intros k t. subst kept. rewrite map_lookup_filter_Some. cbn.
    rewrite Qle_bool_iff. reflexivity. }
  destruct (kept !! packet_key p) as [t0|] eqn:Ekey; cbn.
  - apply Hkept in Ekey as Hold. destruct Hold as [Hold Hw].
    split; [split; [intros _; exists t0; auto | reflexivity]|].
    split; [intros _; congruence|]. split; [discriminate|].
    split; [intros k t _; apply Hkept|]. repeat split.
  - split.
    { split; [discriminate|]. intros (t & Ht & Hw).
      assert (Hsome : kept !! packet_key p = Some t) by (apply Hkept; auto).
      congruence. }
    split; [discriminate|].
    split; [intros _; apply lookup_insert_eq|].
    split; [|repeat split].
    intros k t Hk. rewrite lookup_insert_ne by congruence. apply Hkept.
Qed.

(** *** Sending over a route *)

(** The node [_route_packet] transmits to: the destination itself
    when it is a neighbour, otherwise the next hop of the routing
    table, unless it is missing or empty. *)
Definition route_target (w : World) (destination : string) : option string :=
  match neighbor_nodes (proto w) !! destination with
  | Some _ => Some destination
  | None =>
      match routing_table (proto w) !! destination with
      | Some hop => if bool_decide (hop = ""%string) then None else Some hop
      | None => None
      end
  end.

Lemma route_packet_target w packet hop :
  route_target w (destination_id packet) = Some hop ->
  _route_packet w packet = _transmit_to_neighbor w hop packet.
Proof.
  unfold route_target, Protocol._route_packet.
  destruct (neighbor_nodes (proto w) !! destination_id packet).
  { intros [= <-]. reflexivity. }
  destruct (routing_table (proto w) !! destination_id packet) as [h|];
    [|discriminate].
  destruct (bool_decide (h = ""%string)); [discriminate|].
  intros [= <-]. reflexivity.
Qed.

(** X6.  With a payload within the size limit and a route, a
    neighbour entry or else a non-empty next hop, [send_packet]
    returns true: one sequence number is consumed, the packet is
    counted as sent with the 179 bytes of header, hop count and
    checksum plus its payload, the time of the transmission delay
    passes, and the quality of the link to the node transmitted to
    goes up by 0.01, capped at 1.  A DATA packet is left pending with
    the task of its handler created; another packet leaves no trace in
    the pending acknowledgements. *)
Theorem send_packet_over_route w destination data ty prio hop :
  (forall x, length (pack_d x) = 8%nat) ->
  (Z.of_nat (length data) <= max_packet_size (proto w))%Z ->
  (Z.of_nat (length data) < 2 ^ 32)%Z ->
  (0 <= sequence_counter (proto w) < 2 ^ 32)%Z ->
  route_target w destination = Some hop ->
  let res := send_packet w destination data ty prio in
  let pid := next_packet_id str_float w in
  let link := (node_id (proto w) ++ "-" ++ hop)%string in
  let quality := Py.get (link_qualities (proto w)) link 1 in
  snd res = true /\
  sequence_counter (proto (fst res)) = (sequence_counter (proto w) + 1)%Z /\
  packets_sent (proto (fst res)) = (packets_sent (proto w) + 1)%Z /\
  bytes_transmitted (proto (fst res))
    = (bytes_transmitted (proto w) + Z.of_nat (179 + length data))%Z /\
  clock (fst res) = clock w + Qmax 0 (0.1 + random_exponential (rng w)) /\
  rng (fst res) = S (rng w) /\
  link_qualities (proto (fst res))
    = <[link := Py.min 1 (quality + 0.01)]> (link_qualities (proto w)) /\
  (ty = DATA ->
     is_Some (pending_acks (proto (fst res)) !! pid) /\
     tasks (fst res) = tasks w ++ [TaskCreated pid]) /\
  (ty <> DATA ->
     pending_acks (proto (fst res)) = pending_acks (proto w) /\
     tasks (fst res) = tasks w).
Proof.
  intros Hd Hlen Hlen32 Hseq Hroute. cbv zeta.
  unfold Protocol.send_packet.
  destruct (Z.ltb_spec (max_packet_size (proto w)) (Z.of_nat (length data)));
    [lia|].
  fold (next_packet_id str_float w).
  rewrite new_packet_computed by exact Hseq.
  match goal with
  | |- context [Protocol._route_packet _ ?w0 ?q] =>
      set (w1 := w0); set (packet := q)
  end.
  assert (Hwire : exists wire,
            serialize pack_d packet = Some wire /\
            length wire = (179 + length data)%nat).
  { destruct (serialize_length pack_d Hd packet) as [Hnone Hsome].
    destruct (serialize pack_d packet) as [wire|] eqn:E.
    - exists wire. split; [reflexivity|].
      destruct (Hsome wire eq_refl) as (Hl & _). rewrite Hl. reflexivity.
    - exfalso. destruct Hnone as [Hnone _].
      destruct (Hnone eq_refl) as [H1|[H1|H1]]; cbn in H1; lia. }
  destruct Hwire as (wire & Hwire & Hwlen).
  assert (Hroute1 : route_target w1 (destination_id packet) = Some hop).
  { subst w1. destruct (bool_decide (ty = DATA)); exact Hroute. }
  rewrite (route_packet_target w1 packet hop Hroute1).
  unfold Protocol._transmit_to_neighbor, _calculate_transmission_delay.
  cbn [fst snd]. rewrite Hwire.
  subst w1. destruct (bool_decide (ty = DATA)) eqn:Ety;
    [apply bool_decide_eq_true in Ety | apply bool_decide_eq_false in Ety];
    cbn; rewrite Hwlen.
  - repeat (split; [reflexivity|]). split; [|intros; contradiction].
    intros _. split; [|reflexivity].
    rewrite lookup_insert_eq. eauto.
  - repeat (split; [reflexivity|]). split; [contradiction|].
    intros _. split; reflexivity.
Qed.

(** *** Heartbeats and negative acknowledgements *)

Lemma transmit_returns_true w hop packet :
  snd (_transmit_to_neighbor w hop packet) = true.
Proof. reflexivity. Qed.

(** X7.  Processing a valid, new HEARTBEAT registers its source as a
    neighbour seen at the current time, and from then on
    [_route_packet] transmits a packet for that node to the node
    itself, whatever the routing table holds, and returns true. *)
Theorem heartbeat_opens_route w p n q :
  is_valid p = Some true ->
  snd (_is_duplicate w p) = false ->
  packet_type p = HEARTBEAT ->
  destination_id q = source_id p ->
  let res := process_packet w p n in
  is_Some (snd res) /\
  neighbor_nodes (proto (fst res))
    = <[source_id p := clock w]> (neighbor_nodes (proto w)) /\
  route_target (fst res) (source_id p) = Some (source_id p) /\
  _route_packet (fst res) q = _transmit_to_neighbor (fst res) (source_id p) q /\
  snd (_route_packet (fst res) q) = true.
Proof.
  intros Hvalid Hdup Hty Hdst. cbv zeta.
  assert (Hgoal :
    is_Some (snd (process_packet w p n)) /\
    neighbor_nodes (proto (fst (process_packet w p n)))
      = <[source_id p := clock w]> (neighbor_nodes (proto w))).
  { unfold Protocol.process_packet. rewrite Hvalid.
    pose proof (is_duplicate_proto w p) as (Hp1 & _ & _ & Hclock).
    destruct (_is_duplicate w p) as [w1 dup]. cbn [fst snd] in *. subst dup.
    match goal with
    | |- context [Protocol.dispatch _ _ _ _ w1 ?x] => set (p1 := x)
    end.
    assert (Hty1 : packet_type p1 = HEARTBEAT)
      by (subst p1; destruct (bool_decide _); exact Hty).
    assert (Hsrc : source_id p1 = source_id p)
      by (subst p1; destruct (bool_decide _); reflexivity).
    clearbody p1.
    unfold Protocol.dispatch. rewrite Hty1. unfold _handle_heartbeat.
    cbn. rewrite Hsrc, Hclock, Hp1. cbn. split; [eauto | reflexivity]. }
  destruct Hgoal as [Hsome Hneighbors].
  assert (Htarget : route_target (fst (process_packet w p n)) (source_id p)
                    = Some (source_id p)).
  { unfold route_target. rewrite Hneighbors, lookup_insert_eq. reflexivity. }
  split; [exact Hsome|]. split; [exact Hneighbors|]. split; [exact Htarget|].
  rewrite <- Hdst in Htarget at 1.
  rewrite (route_packet_target _ q _ Htarget).
  split; [reflexivity | apply transmit_returns_true].
Qed.

(** X8.  A valid, new NACK that names a pending packet has the stored
    packet routed once more and leaves the books as they are: the
    pending entry with its retry count, the tasks, the sequence counter
    and the count of packets sent.  A NACK for a packet that is not
    pending has no effect beyond the reception counters. *)
Theorem nack_resends_pending w nack n pid :
  is_valid nack = Some true ->
  snd (_is_duplicate w nack) = false ->
  packet_type nack = NACK ->
  (64 <= length (payload nack))%nat ->
  referenced_id (payload nack) = Some pid ->
  let res := process_packet w nack n in
  let w1 := fst (_is_duplicate w nack) in
  is_Some (snd res) /\
  pending_acks (proto (fst res)) = pending_acks (proto w) /\
  tasks (fst res) = tasks w /\
  sequence_counter (proto (fst res)) = sequence_counter (proto w) /\
  packets_sent (proto (fst res)) = packets_sent (proto w) /\
  packets_received (proto (fst res)) = (packets_received (proto w) + 1)%Z /\
  (forall original,
     pending_acks (proto w) !! pid = Some original ->
     trace (fst res) =
       trace (fst (_route_packet w1 original))
       ++ [Logged DEBUG (MsgNackRetransmitted pid)] /\
     link_qualities (proto (fst res))
       = link_qualities (proto (fst (_route_packet w1 original)))) /\
  (pending_acks (proto w) !! pid = None ->
     trace (fst res) = trace w /\
     link_qualities (proto (fst res)) = link_qualities (proto w)).
Proof.
  intros Hvalid Hdup Hty Hlen Href. cbv zeta.
  unfold Protocol.process_packet. rewrite Hvalid.
  pose proof (is_duplicate_proto w nack) as (Hp1 & Hts1 & Htr1 & _).
  destruct (_is_duplicate w nack) as [w1 dup]. cbn [fst snd] in *. subst dup.
  match goal with
  | |- context [Protocol.dispatch _ _ _ _ w1 ?x] => set (p1 := x)
  end.
  assert (Hty1 : packet_type p1 = NACK)
    by (subst p1; destruct (bool_decide _); exact Hty).
  assert (Hpay : payload p1 = payload nack)
    by (subst p1; destruct (bool_decide _); reflexivity).
  clearbody p1.
  unfold Protocol.dispatch. rewrite Hty1. unfold Protocol._handle_nack.
  rewrite Hpay, Href. cbn [mbind option_bind].
  destruct (Nat.leb_spec 64 (length (payload nack))); [|lia].
  assert (Hpend : pending_acks (proto w1) = pending_acks (proto w))
    by (rewrite Hp1; reflexivity).
  rewrite Hpend.
  destruct (pending_acks (proto w) !! pid) as [original|] eqn:Epid.
  - pose proof (route_frame w1 original) as [Hp2 Hts2].
    destruct (_route_packet w1 original) as [w2 ok] eqn:Er. cbn [fst] in *.
    cbn. rewrite Hp2. cbn. rewrite Hp1. cbn.
    split; [eauto|]. split; [reflexivity|]. split; [congruence|].
    split; [reflexivity|]. split; [reflexivity|]. split; [reflexivity|].
    split; [|discriminate].
    intros original' [= <-]. rewrite Er. cbn. rewrite Hp2. split; reflexivity.
  - cbn. rewrite Hp1. cbn.
    split; [eauto|]. split; [reflexivity|]. split; [exact Hts1|].
    split; [reflexivity|]. split; [reflexivity|]. split; [reflexivity|].
    split; [discriminate|]. intros _. split; [exact Htr1 | reflexivity].
Qed.

(** *** Counters along a run *)

(** From [p] to [p'] the configuration is the same, no counter has
    gone down, and no more packets were counted as sent than sequence
    numbers were consumed. *)
Definition counters_grow (p p' : DeepSpaceProtocol) : Prop :=
  configuration p' = configuration p /\
  (sequence_counter p <= sequence_counter p')%Z /\
  (packets_sent p <= packets_sent p')%Z /\
  (packets_received p <= packets_received p')%Z /\
  (packets_dropped p <= packets_dropped p')%Z /\
  (bytes_transmitted p <= bytes_transmitted p')%Z /\
  (bytes_received p <= bytes_received p')%Z /\
  (packets_sent p' - packets_sent p
   <= sequence_counter p' - sequence_counter p)%Z.

Lemma counters_grow_refl p : counters_grow p p.
Proof. unfold counters_grow. repeat split; lia. Qed.

Lemma counters_grow_trans p1 p2 p3 :
  counters_grow p1 p2 -> counters_grow p2 p3 -> counters_grow p1 p3.
Proof.
  unfold counters_grow.
  intros (Hc1 & ?) (Hc2 & ?). split; [congruence|]. lia.
Qed.

Lemma counters_grow_links p lq : counters_grow p (set_link_qualities p lq).
Proof. unfold counters_grow. cbn. repeat split; lia. Qed.

Lemma counters_grow_filter p d : counters_grow p (set_duplicate_filter p d).
Proof. unfold counters_grow. cbn. repeat split; lia. Qed.

Lemma route_counters w packet :
  counters_grow (proto w) (proto (fst (_route_packet w packet))).
Proof.
  destruct (route_frame w packet) as [-> _]. apply counters_grow_links.
Qed.

Lemma send_counters w destination data ty prio :
  counters_grow (proto w)
    (proto (fst (send_packet w destination data ty prio))).
Proof.
  unfold Protocol.send_packet.
  destruct (_ <? _)%Z; [apply counters_grow_refl|].
  destruct (Protocol.new_packet _ _ _ _ _ _ _ _ _ _ _ _ _) as [packet|];
    [|apply counters_grow_refl].
  match goal with
  | |- context [Protocol._route_packet _ ?w0 packet] => set (w1 := w0)
  end.
  assert (H1 : configuration (proto w1) = configuration (proto w) /\
               sequence_counter (proto w1)
                 = (sequence_counter (proto w) + 1)%Z /\
               packets_sent (proto w1) = packets_sent (proto w) /\
               packets_received (proto w1) = packets_received (proto w) /\
               packets_dropped (proto w1) = packets_dropped (proto w) /\
               bytes_transmitted (proto w1) = bytes_transmitted (proto w) /\
               bytes_received (proto w1) = bytes_received (proto w)).
  { subst w1. destruct (bool_decide (ty = DATA)); cbn; repeat split. }
  clearbody w1. destruct H1 as (Hc & Hs & Hps & Hpr & Hpd & Hbt & Hbr).
  pose proof (route_frame w1 packet) as [Hp _].
  destruct (_route_packet w1 packet) as [w2 ok]. cbn [fst] in *.
  destruct ok; [destruct (serialize pack_d packet)|]; cbn [fst];
    unfold counters_grow; cbn; rewrite Hp; cbn;
    rewrite Hs, Hps, Hpr, Hpd, Hbt, Hbr;
    (split; [exact Hc | lia]).
Qed.

Lemma process_counters w p n :
  counters_grow (proto w) (proto (fst (process_packet w p n))).
Proof.
  unfold Protocol.process_packet.
  destruct (is_valid p) as [[|]|]; cbn [fst].
  2:{ unfold counters_grow. cbn. repeat split; lia. }
  2:{ apply counters_grow_refl. }
  pose proof (is_duplicate_proto w p) as (Hp1 & _).
  destruct (_is_duplicate w p) as [w1 dup]. cbn [fst] in *.
  assert (H1 : counters_grow (proto w) (proto w1))
    by (rewrite Hp1; apply counters_grow_filter).
  destruct dup; [exact H1|].
  match goal with
  | |- context [Protocol.dispatch _ _ _ _ w1 ?x] => set (p1 := x)
  end.
  clearbody p1.
  assert (Hdisp : forall w2, dispatch w1 p1 = Some w2 ->
            counters_grow (proto w1) (proto w2)).
  { unfold Protocol.dispatch. intros w2.
    destruct (packet_type p1).
    - (* DATA *)
      destruct (bool_decide _); intros [= <-].
      + unfold Protocol._handle_received_packet.
        destruct (bool_decide _); cbn.
        * eapply counters_grow_trans; [apply send_counters|].
          unfold counters_grow. cbn. repeat split; lia.
        * unfold counters_grow. cbn. repeat split; lia.
      + unfold Protocol._forward_packet.
        destruct (negb _); [unfold counters_grow; cbn; repeat split; lia|].
        destruct (bool_decide _); [unfold counters_grow; cbn; repeat split; lia|].
        apply route_counters.
    - (* ACK *)
      unfold _handle_ack. destruct (64 <=? _)%nat; [|intros [= <-]; apply counters_grow_refl].
      destruct (referenced_id _); cbn; [|discriminate].
      destruct (_ !! _); intros [= <-];
        unfold counters_grow; cbn; repeat split; lia.
    - (* NACK *)
      unfold Protocol._handle_nack.
      destruct (64 <=? _)%nat; [|intros [= <-]; apply counters_grow_refl].
      destruct (referenced_id _); cbn; [|discriminate].
      destruct (_ !! _) as [original|]; [|intros [= <-]; apply counters_grow_refl].
      pose proof (route_counters w1 original) as Hr.
      destruct (_route_packet w1 original) as [w3 ok]. intros [= <-]. exact Hr.
    - intros [= <-]. unfold counters_grow. cbn. repeat split; lia.
    - (* EMERGENCY *)
      destruct (bool_decide _); intros [= <-].
      + unfold Protocol._handle_received_packet.
        destruct (bool_decide _); cbn.
        * eapply counters_grow_trans; [apply send_counters|].
          unfold counters_grow. cbn. repeat split; lia.
        * unfold counters_grow. cbn. repeat split; lia.
      + unfold Protocol._forward_packet.
        destruct (negb _); [unfold counters_grow; cbn; repeat split; lia|].
        destruct (bool_decide _); [unfold counters_grow; cbn; repeat split; lia|].
        apply route_counters.
    - intros [= <-]. unfold _handle_routing_update.
      destruct (decode _); apply counters_grow_refl.
    - (* TIME_SYNC *)
      destruct (bool_decide _); intros [= <-].
      + unfold Protocol._handle_received_packet.
        destruct (bool_decide _); cbn.
        * eapply counters_grow_trans; [apply send_counters|].
          unfold counters_grow. cbn. repeat split; lia.
        * unfold counters_grow. cbn. repeat split; lia.
      + unfold Protocol._forward_packet.
        destruct (negb _); [unfold counters_grow; cbn; repeat split; lia|].
        destruct (bool_decide _); [unfold counters_grow; cbn; repeat split; lia|].
        apply route_counters. }
  destruct (dispatch w1 p1) as [w2|] eqn:Ed; cbn [fst].
  - eapply counters_grow_trans; [exact H1|].
    eapply counters_grow_trans; [apply (Hdisp w2 eq_refl)|].
    unfold counters_grow. cbn. repeat split; lia.
  - exact H1.
Qed.

Lemma step_counters w ev w' :
  step w ev = Some w' -> counters_grow (proto w) (proto w').
Proof.
  destruct ev as [destination data ty prio|data|p n|pid|pid|pid|d];
    cbn [Protocol.step].
  - intros [= <-]. apply send_counters.
  - intros [= <-].
    destruct (receive_packet_returns_none sha256_hexdigest pack_d unpack_d
                str_float random_exponential w data) as [-> | ->];
      apply counters_grow_refl.
  - intros [= <-]. apply process_counters.
  - destruct (take_task _ _) as [[t rest]|]; cbn; [|discriminate].
    intros [= <-]. apply counters_grow_refl.
  - destruct (take_task _ _) as [[t rest]|]; cbn; [|discriminate].
    intros [= <-]. unfold ack_timeout_expired. cbn.
    destruct (_ !! _); [|apply counters_grow_refl].
    destruct (_ <? _)%Z; unfold counters_grow; cbn; repeat split; lia.
  - destruct (take_task _ _) as [[t rest]|]; cbn; [|discriminate].
    destruct t as [| |wake pid' packet retries]; try discriminate.
    intros [= <-]. unfold Protocol.backoff_done.
    pose proof (route_counters (set_tasks w rest) packet) as Hr.
    destruct (_route_packet (set_tasks w rest) packet) as [w1 ok].
    exact Hr.
  - destruct (Qle_bool 0 d); [|discriminate].
    intros [= <-]. apply counters_grow_refl.
Qed.

(** X9.  Along every run of sends, receptions, handler steps and
    passing time, the configuration of the node stays as it is, none
    of the six counters goes down, and the packets counted as sent
    grow by no more than the sequence numbers consumed: a
    retransmission, by the handler or after a NACK, is not counted as
    sent. *)
Theorem counters_never_decrease evs : forall w w',
  run w evs = Some w' -> counters_grow (proto w) (proto w').
Proof.
  induction evs as [|ev evs IH]; intros w w'; cbn [Protocol.run].
  - intros [= <-]. apply counters_grow_refl.
  - destruct (step w ev) as [w1|] eqn:Es; cbn; [|discriminate].
    intros Hrun. eapply counters_grow_trans.
    + exact (step_counters w ev w1 Es).
    + exact (IH w1 w' Hrun).
Qed.

(** *** The pending acknowledgements along a run *)

(** Every pending packet is a DATA packet filed under its own
    identifier, with a retry count between 0 and [max_retries]. *)
Definition pending_ok (p : DeepSpaceProtocol) : Prop :=
  forall pid packet,
    pending_acks p !! pid = Some packet ->
    packet_id packet = pid /\ packet_type packet = DATA /\
    (0 <= get_retry_count packet <= max_retries p)%Z.

(** A step leaves the pending acknowledgements as they are, removes
    one, files a new DATA packet without retries, or raises the retry
    count of one that is below [max_retries]. *)
Definition pending_evolves (p p' : DeepSpaceProtocol) : Prop :=
  max_retries p' = max_retries p /\
  forall pid packet,
    pending_acks p' !! pid = Some packet ->
    pending_acks p !! pid = Some packet \/
    (packet_id packet = pid /\ packet_type packet = DATA /\
     get_retry_count packet = 0%Z) \/
    (exists old,
       pending_acks p !! pid = Some old /\
       packet = set_retry_count old (Some (get_retry_count old + 1)%Z) /\
       (get_retry_count old < max_retries p)%Z).

Lemma pending_evolves_same p p' :
  max_retries p' = max_retries p -> pending_acks p' = pending_acks p ->
  pending_evolves p p'.
Proof. intros Hm Hp. split; [exact Hm|]. intros pid packet. rewrite Hp. auto. Qed.

Lemma pending_evolves_delete p p' x :
  max_retries p' = max_retries p ->
  pending_acks p' = delete x (pending_acks p) ->
  pending_evolves p p'.
Proof.
  intros Hm Hp. split; [exact Hm|]. intros pid packet. rewrite Hp.
  intros H. apply lookup_delete_Some in H as [_ H]. auto.
Qed.

Lemma pending_evolves_trans p1 p2 p3 :
  pending_acks p2 = pending_acks p1 -> max_retries p2 = max_retries p1 ->
  pending_evolves p2 p3 -> pending_evolves p1 p3.
Proof.
  intros Hp Hm [Hm3 H]. split; [congruence|].
  intros pid packet Hl. rewrite <- Hp, <- Hm. exact (H pid packet Hl).
Qed.

Lemma pending_ok_evolves p p' :
  (0 <= max_retries p)%Z -> pending_ok p -> pending_evolves p p' ->
  pending_ok p'.
Proof.
  intros Hmax Hok [Hm Hev] pid packet Hl. rewrite Hm.
  destruct (Hev pid packet Hl) as [Hold|[(Hid & Hty & Hrc)|(old & Hold & -> & Hlt)]].
  - exact (Hok pid packet Hold).
  - rewrite Hrc. repeat split; (assumption || lia).
  - destruct (Hok pid old Hold) as (Hid & Hty & Hrc).
    cbn. repeat split; (assumption || lia).
Qed.

Lemma route_pending w packet :
  pending_acks (proto (fst (_route_packet w packet))) = pending_acks (proto w) /\
  max_retries (proto (fst (_route_packet w packet))) = max_retries (proto w).
Proof. destruct (route_frame w packet) as [-> _]. split; reflexivity. Qed.

Lemma send_pending w destination data ty prio :
  pending_evolves (proto w)
    (proto (fst (send_packet w destination data ty prio))).
Proof.
  unfold Protocol.send_packet.
  destruct (_ <? _)%Z; [apply pending_evolves_same; reflexivity|].
  destruct (Protocol.new_packet _ _ _ _ _ _ _ _ _ _ _ _ _) as [packet|] eqn:Hnew;
    [|apply pending_evolves_same; reflexivity].
  assert (Hfresh : packet_type packet = ty /\ get_retry_count packet = 0%Z).
  { unfold Protocol.new_packet in Hnew.
    destruct (Protocol._calculate_checksum _ _ _); [|discriminate].
    injection Hnew as <-. split; reflexivity. }
  match goal with
  | |- context [Protocol._route_packet _ ?w0 packet] => set (w1 := w0)
  end.
  assert (H1 : pending_evolves (proto w) (proto w1)).
  { subst w1. destruct (bool_decide (ty = DATA)) eqn:E.
    - apply bool_decide_eq_true in E. split; [reflexivity|].
      intros pid pkt. cbn.
      destruct (decide (pid = packet_id packet)) as [->|Hne].
      + rewrite lookup_insert_eq. intros [= <-]. right. left.
        destruct Hfresh as [Hty Hrc]. repeat split; congruence.
      + rewrite lookup_insert_ne by congruence. auto.
    - apply pending_evolves_same; reflexivity. }
  clearbody w1.
  pose proof (route_pending w1 packet) as [Hp Hm].
  destruct (_route_packet w1 packet) as [w2 ok]. cbn [fst] in *.
  assert (H2 : pending_evolves (proto w) (proto w2)).
  { destruct H1 as [Hm1 H1]. split; [congruence|].
    intros pid pkt. rewrite Hp. apply H1. }
  destruct ok; [|exact H2].
  destruct (serialize pack_d packet); cbn [fst]; exact H2.
Qed.

Lemma received_pending w p :
  pending_acks (proto (_handle_received_packet w p)) = pending_acks (proto w) /\
  max_retries (proto (_handle_received_packet w p)) = max_retries (proto w).
Proof.
  unfold Protocol._handle_received_packet.
  destruct (bool_decide _); cbn; [|split; reflexivity].
  pose proof (send_frame w (source_id p) (ljust 64 (encode (packet_id p)))
                ACK Priority.HIGH) as (_ & Hc & Hnd).
  destruct (Hnd ltac:(discriminate)) as [Hp _].
  unfold configuration in Hc. injection Hc as _ Hm _ _ _ _.
  split; assumption.
Qed.

Lemma forward_pending w p :
  pending_acks (proto (_forward_packet random_exponential w p))
    = pending_acks (proto w) /\
  max_retries (proto (_forward_packet random_exponential w p))
    = max_retries (proto w).
Proof.
  unfold Protocol._forward_packet.
  destruct (negb _); [split; reflexivity|].
  destruct (bool_decide _); [split; reflexivity|].
  apply route_pending.
Qed.

Lemma dispatch_pending w p w' :
  dispatch w p = Some w' -> pending_evolves (proto w) (proto w').
Proof.
  unfold Protocol.dispatch.
  destruct (packet_type p).
  - destruct (bool_decide _); intros [= <-];
      apply pending_evolves_same;
      first [apply received_pending | apply forward_pending].
  - unfold _handle_ack.
    destruct (64 <=? _)%nat;
      [|intros [= <-]; apply pending_evolves_same; reflexivity].
    destruct (referenced_id _) as [x|]; cbn; [|discriminate].
    destruct (_ !! _); intros [= <-].
    + apply (pending_evolves_delete _ _ x); reflexivity.
    + apply pending_evolves_same; reflexivity.
  - unfold Protocol._handle_nack.
    destruct (64 <=? _)%nat;
      [|intros [= <-]; apply pending_evolves_same; reflexivity].
    destruct (referenced_id _) as [x|]; cbn; [|discriminate].
    destruct (_ !! _) as [original|];
      [|intros [= <-]; apply pending_evolves_same; reflexivity].
    pose proof (route_pending w original) as [Hp Hm].
    destruct (_route_packet w original) as [w3 ok]. intros [= <-].
    apply pending_evolves_same; assumption.
  - intros [= <-]. apply pending_evolves_same; reflexivity.
  - destruct (bool_decide _); intros [= <-];
      apply pending_evolves_same;
      first [apply received_pending | apply forward_pending].
  - intros [= <-]. unfold _handle_routing_update.
    destruct (decode _); apply pending_evolves_same; reflexivity.
  - destruct (bool_decide _); intros [= <-];
      apply pending_evolves_same;
      first [apply received_pending | apply forward_pending].
Qed.

Lemma process_pending w p n :
  pending_evolves (proto w) (proto (fst (process_packet w p n))).
Proof.
  unfold Protocol.process_packet.
  destruct (is_valid p) as [[|]|]; cbn [fst];
    [|apply pending_evolves_same; reflexivity
     |apply pending_evolves_same; reflexivity].
  pose proof (is_duplicate_proto w p) as (Hp1 & _).
  destruct (_is_duplicate w p) as [w1 dup]. cbn [fst] in *.
  assert (Hp : pending_acks (proto w1) = pending_acks (proto w))
    by (rewrite Hp1; reflexivity).
  assert (Hm : max_retries (proto w1) = max_retries (proto w))
    by (rewrite Hp1; reflexivity).
  destruct dup; [apply pending_evolves_same; assumption|].
  match goal with
  | |- context [Protocol.dispatch _ _ _ _ w1 ?x] => set (p1 := x)
  end.
  clearbody p1.
  destruct (dispatch w1 p1) as [w2|] eqn:Ed; cbn [fst].
  - apply (pending_evolves_trans _ (proto w1)); [exact Hp | exact Hm|].
    destruct (dispatch_pending w1 p1 w2 Ed) as [Hm2 H2].
    split; [exact Hm2 | exact H2].
  - apply pending_evolves_same; assumption.
Qed.

Lemma step_pending w ev w' :
  step w ev = Some w' -> pending_evolves (proto w) (proto w').
Proof.
  destruct ev as [destination data ty prio|data|p n|pid|pid|pid|d];
    cbn [Protocol.step].
  - intros [= <-]. apply send_pending.
  - intros [= <-].
    destruct (receive_packet_returns_none sha256_hexdigest pack_d unpack_d
                str_float random_exponential w data) as [-> | ->];
      apply pending_evolves_same; reflexivity.
  - intros [= <-]. apply process_pending.
  - destruct (take_task _ _) as [[t rest]|]; cbn; [|discriminate].
    intros [= <-]. apply pending_evolves_same; reflexivity.
  - destruct (take_task _ _) as [[t rest]|]; cbn; [|discriminate].
    intros [= <-]. unfold ack_timeout_expired. cbn [proto set_tasks].
    destruct (pending_acks (proto w) !! pid) as [old|] eqn:Eold;
      [|apply pending_evolves_same; reflexivity].
    destruct (Z.ltb_spec (get_retry_count old) (max_retries (proto w))).
    + split; [reflexivity|]. intros k pkt. cbn.
      destruct (decide (k = pid)) as [->|Hne].
      * rewrite lookup_insert_eq. intros [= <-]. right. right.
        exists old. auto.
      * rewrite lookup_insert_ne by congruence. auto.
    + apply (pending_evolves_delete _ _ pid); reflexivity.
  - destruct (take_task _ _) as [[t rest]|]; cbn; [|discriminate].
    destruct t as [| |wake pid' packet retries]; try discriminate.
    intros [= <-]. unfold Protocol.backoff_done.
    pose proof (route_pending (set_tasks w rest) packet) as [Hp Hm].
    destruct (_route_packet (set_tasks w rest) packet) as [w1 ok].
    apply pending_evolves_same; assumption.
  - destruct (Qle_bool 0 d); [|discriminate].
    intros [= <-]. apply pending_evolves_same; reflexivity.
Qed.

(** X10.  On a node whose [max_retries] is not negative, along every
    run, each packet in the pending acknowledgements is a DATA packet
    filed under its own identifier, and its retry count stays between
    0 and [max_retries]. *)
Theorem pending_entries_bounded evs : forall w w',
  (0 <= max_retries (proto w))%Z ->
  pending_ok (proto w) ->
  run w evs = Some w' ->
  pending_ok (proto w') /\ max_retries (proto w') = max_retries (proto w).
Proof.
  induction evs as [|ev evs IH]; intros w w' Hmax Hok; cbn [Protocol.run].
  - intros [= <-]. split; [exact Hok | reflexivity].
  - destruct (step w ev) as [w1|] eqn:Es; cbn; [|discriminate].
    intros Hrun.
    pose proof (step_pending w ev w1 Es) as Hev.
    pose proof (pending_ok_evolves _ _ Hmax Hok Hev) as Hok1.
    destruct Hev as [Hm1 _].
    destruct (IH w1 w' ltac:(lia) Hok1 Hrun) as [Hok' Hm'].
    split; [exact Hok' | congruence].
Qed.

(** *** [update_routing_table] *)

(** The topology data [update_routing_table] reads: the list under
    ['neighbors'] and the items of the dictionary under ['routes'],
    each destination with the ['next_hop'] of its route information
    ([None] when the key is missing or holds [None]); a missing
    ['neighbors'] or ['routes'] is the empty list. *)
Record Topology := {
  topology_neighbors : list string;
  topology_routes : list (string * option string)
}.

Definition add_neighbor_route (table : gmap string string) (neighbor : string)
    : gmap string string :=
  <[neighbor := neighbor]> table.

Definition add_route (self : string) (table : gmap string string)
    (item : string * option string) : gmap string string :=
  let '(destination, next_hop) := item in
  if bool_decide (destination <> self) then
    match next_hop with
    | Some hop =>
        if bool_decide (hop = ""%string) then table
        else <[destination := hop]> table
    | None => table
    end
  else table.

(** [update_routing_table]; the number is the table size its debug
    message reports.  With data of these types nothing in its [try]
    block raises. *)
Definition update_routing_table (w : World) (topology : Topology)
    : World * nat :=
  let table :=
    foldl (add_route (node_id (proto w)))
      (foldl add_neighbor_route ∅ (topology_neighbors topology))
      (topology_routes topology) in
  (upd_proto (fun p => set_routing_table p table) w, size table).

Lemma neighbor_routes_lookup (neighbors : list string) :
  forall (table : gmap string string) d,
    foldl add_neighbor_route table neighbors !! d
    = if decide (d ∈ neighbors) then Some d else table !! d.
Proof.
  induction neighbors as [|nb neighbors IH]; intros table d; cbn [foldl].
  - destruct (decide (d ∈ [])) as [H|_]; [inversion H | reflexivity].
  - rewrite IH. unfold add_neighbor_route.
    destruct (decide (d ∈ neighbors)) as [Hin|Hnin].
    + rewrite decide_True by (right; exact Hin). reflexivity.
    + destruct (decide (d = nb)) as [->|Hne].
      * rewrite decide_True by left. apply lookup_insert_eq.
      * rewrite lookup_insert_ne by congruence.
        rewrite decide_False; [reflexivity|].
        intros H. apply elem_of_cons in H as [H|H]; contradiction.
Qed.

(** A destination is routable through the data when its route
    information names a non-empty next hop and it is not the node
    itself. *)
Definition usable (self : string) (item : string * option string)
    (d hop : string) : Prop :=
  item = (d, Some hop) /\ d <> self /\ hop <> ""%string.

Lemma routes_keep self (routes : list (string * option string)) d :
  forall table,
    (forall item hop, item ∈ routes -> ~ usable self item d hop) ->
    foldl (add_route self) table routes !! d = table !! d.
Proof.
  induction routes as [|[d0 h0] routes IH]; intros table Hnone; cbn [foldl];
    [reflexivity|].
  rewrite IH by (intros item hop Hin; apply Hnone; right; exact Hin).
  unfold add_route.
  destruct (bool_decide (d0 <> self)) eqn:E1; [|reflexivity].
  apply bool_decide_eq_true in E1.
  destruct h0 as [hop|]; [|reflexivity].
  destruct (bool_decide (hop = ""%string)) eqn:E2; [reflexivity|].
  apply bool_decide_eq_false in E2.
  apply lookup_insert_ne. intros ->.
  apply (Hnone (d, Some hop) hop); [left|]. repeat split; assumption.
Qed.

Lemma routes_set self (routes : list (string * option string)) d hop :
  forall table,
    NoDup (routes.*1) ->
    (d, Some hop) ∈ routes -> d <> self -> hop <> ""%string ->
    foldl (add_route self) table routes !! d = Some hop.
Proof.
  induction routes as [|[d0 h0] routes IH]; intros table Hnodup Hin Hd Hhop.
  { inversion Hin. }
  cbn [fmap list_fmap fst] in Hnodup. apply NoDup_cons in Hnodup as [Hfresh Hnodup].
  cbn [foldl]. apply elem_of_cons in Hin as [Heq|Hin].
  - injection Heq as <- <-.
    rewrite routes_keep.
    + unfold add_route.
      rewrite bool_decide_eq_true_2 by exact Hd.
      rewrite bool_decide_eq_false_2 by exact Hhop.
      apply lookup_insert_eq.
    + intros item hop' Hitem (-> & _). apply Hfresh.
      apply (list_elem_of_fmap_2 fst) in Hitem. exact Hitem.
  - apply IH; assumption.
Qed.

(** X11.  [update_routing_table] discards the old table.  Afterwards a
    destination other than the node itself whose route information
    names a non-empty next hop is routed through that hop; any other
    destination is routed to itself when it is listed as a neighbour
    and has no entry otherwise; the size of the new table is reported.
    [_route_packet] then transmits to the next hop of the new table
    for every destination that is not a heartbeat neighbour, and finds
    no route where the table has none. *)
Theorem routing_table_replaced w topology :
  NoDup ((topology_routes topology).*1) ->
  let res := update_routing_table w topology in
  let table := routing_table (proto (fst res)) in
  let self := node_id (proto w) in
  (forall d hop,
     (d, Some hop) ∈ topology_routes topology ->
     d <> self -> hop <> ""%string -> table !! d = Some hop) /\
  (forall d,
     (forall hop, (d, Some hop) ∈ topology_routes topology ->
                  d = self \/ hop = ""%string) ->
     table !! d
     = if decide (d ∈ topology_neighbors topology) then Some d else None) /\
  snd res = size table /\
  proto (fst res) = set_routing_table (proto w) table /\
  (forall d,
     neighbor_nodes (proto w) !! d = None ->
     route_target (fst res) d
     = match table !! d with
       | Some hop => if bool_decide (hop = ""%string) then None else Some hop
       | None => None
       end).
Proof.
  intros Hnodup. cbv zeta. unfold update_routing_table. cbn [fst snd].
  set (table := foldl _ _ _).
  assert (Htable : routing_table
            (proto (upd_proto (fun p => set_routing_table p table) w)) = table)
    by reflexivity.
  rewrite Htable.
  split; [|split; [|split; [reflexivity|split; [reflexivity|]]]].
  - intros d hop Hin Hd Hhop. subst table. apply routes_set; assumption.
  - intros d Hnone. subst table. rewrite routes_keep.
    + rewrite neighbor_routes_lookup. rewrite lookup_empty. reflexivity.
    + intros item hop Hin (-> & Hd & Hhop).
      destruct (Hnone hop Hin); contradiction.
  - intros d Hnb. unfold route_target. cbn. rewrite Hnb. reflexivity.
Qed.

(** An effect that is a message of the log. *)
Definition is_logged (e : Effect) : Prop := exists level msg, e = Logged level msg.

(** X28.  An ACK, a HEARTBEAT or a ROUTING_UPDATE that passed the
    integrity and duplicate checks is consumed by the node that
    receives it, whatever its destination: it is never forwarded.
    Nothing is transmitted or dropped, no route is looked up, and the
    clock, the tasks, the routing table, the link qualities, the
    received packets and the counters of sent packets stay as they
    are; only a HEARTBEAT changes the neighbours, only an ACK the
    pending packets, and a ROUTING_UPDATE changes neither. *)
Theorem control_packets_not_forwarded w p n :
  is_valid p = Some true ->
  snd (_is_duplicate w p) = false ->
  packet_type p ∈ [ACK; HEARTBEAT; ROUTING_UPDATE] ->
  let res := process_packet w p n in
  clock (fst res) = clock w /\ tasks (fst res) = tasks w /\
  rng (fst res) = rng w /\
  (exists logs,
     trace (fst res) = trace w ++ logs /\ (length logs <= 1)%nat /\
     Forall is_logged logs) /\
  routing_table (proto (fst res)) = routing_table (proto w) /\
  link_qualities (proto (fst res)) = link_qualities (proto w) /\
  received_packets (proto (fst res)) = received_packets (proto w) /\
  sequence_counter (proto (fst res)) = sequence_counter (proto w) /\
  packets_sent (proto (fst res)) = packets_sent (proto w) /\
  bytes_transmitted (proto (fst res)) = bytes_transmitted (proto w) /\
  packets_dropped (proto (fst res)) = packets_dropped (proto w) /\
  (packet_type p <> HEARTBEAT ->
   neighbor_nodes (proto (fst res)) = neighbor_nodes (proto w)) /\
  (packet_type p <> ACK ->
   pending_acks (proto (fst res)) = pending_acks (proto w)) /\
  (forall q, snd res = Some q ->
     destination_id q = destination_id p /\
     packets_received (proto (fst res))
       = (packets_received (proto w) + 1)%Z).
Proof.
  intros Hvalid Hdup Hty. cbv zeta.
  unfold Protocol.process_packet. rewrite Hvalid.
  pose proof (is_duplicate_proto w p) as (Hp & Hts & Htr & Hck).
  assert (Hrng : rng (fst (_is_duplicate w p)) = rng w).
  { unfold _is_duplicate. destruct (_ !! _); reflexivity. }
  destruct (_is_duplicate w p) as [w1 dup]. cbn [fst snd] in *. subst dup.
  set (q := if bool_decide (node_id (proto w1) ∈ route_history p) then p
            else set_route_history p
                   (route_history p ++ [node_id (proto w1)])).
  assert (Hq : packet_type q = packet_type p /\ payload q = payload p /\
               source_id q = source_id p /\
               destination_id q = destination_id p).
  { unfold q. destruct (bool_decide _); repeat split. }
  destruct Hq as (Hqt & Hqp & Hqs & Hqd).
  assert (Hlog : forall logs,
            (length logs <= 1)%nat -> Forall is_logged logs ->
            exists logs',
              trace w1 ++ logs = trace w ++ logs' /\
              (length logs' <= 1)%nat /\ Forall is_logged logs').
  { intros logs H1 H2. exists logs. rewrite Htr. auto. }
  assert (Hone : forall level msg, Forall is_logged [Logged level msg]).
  { intros level msg. constructor; [|constructor]. eexists _, _. reflexivity. }
  unfold Protocol.dispatch. rewrite Hqt.
  repeat (apply elem_of_cons in Hty as [Hty|Hty]); [| | |inversion Hty];
    rewrite Hty.
  - (* ACK *)
    unfold _handle_ack. rewrite Hqp.
    destruct (Nat.leb 64 (length (payload p))).
    + destruct (referenced_id (payload p)) as [pid|]; cbn [mbind option_bind].
      * destruct (pending_acks (proto w1) !! pid); cbn; rewrite Hp;
          cbn; rewrite ?Hck, ?Hts, ?Hrng.
        -- repeat split; try congruence.
           apply (Hlog [_]); [cbn; lia | apply Hone].
        -- repeat split; try congruence.
           rewrite <- (app_nil_r (trace w1)). apply (Hlog []); [cbn; lia|].
           constructor.
      * cbn. rewrite Hp. cbn. rewrite ?Hck, ?Hts, ?Hrng.
        repeat split; try congruence; try discriminate.
        apply (Hlog [_]); [cbn; lia | apply Hone].
    + cbn. rewrite Hp. cbn. rewrite ?Hck, ?Hts, ?Hrng.
      repeat split; try congruence.
      rewrite <- (app_nil_r (trace w1)). apply (Hlog []); [cbn; lia|].
      constructor.
  - (* HEARTBEAT *)
    cbn. rewrite Hp. cbn. rewrite ?Hck, ?Hts, ?Hrng.
    repeat split; try congruence.
    apply (Hlog [_]); [cbn; lia | apply Hone].
  - (* ROUTING_UPDATE *)
    unfold _handle_routing_update.
    destruct (decode (payload q)); cbn; rewrite Hp; cbn;
      rewrite ?Hck, ?Hts, ?Hrng; repeat split; try congruence;
      apply (Hlog [_]); (cbn; lia) || apply Hone.
Qed.
End Engine.

(** *** The operations at concrete inputs *)

Lemma sample_pack_d_length (x : Q) : length (sample_pack_d x) = 8%nat.
Proof. apply length_le_bytes. Qed.

Lemma serialize_length_witness :
  (forall x, length (sample_pack_d x) = 8%nat) /\
  (Protocol.serialize sample_pack_d packet_for_c <> None) /\
  (forall wire,
     Protocol.serialize sample_pack_d packet_for_c = Some wire ->
     length wire = 216%nat /\
     wire !! 114%nat = Some (byte_of_Z 1) /\
     drop 211 wire = hello).
Proof.
  destruct (serialize_length sample_pack_d sample_pack_d_length packet_for_c)
    as [Hnone Hsome].
  split; [exact sample_pack_d_length|]. split.
  - intros H. apply Hnone in H. cbn in H. destruct H as [H|[H|H]]; lia.
  - intros wire Hwire. exact (Hsome wire Hwire).
Defined.

Lemma plain_text_sample_id : plain_text "A_0_0.0".
Proof. split; vm_compute; reflexivity. Qed.

Lemma acknowledgement_round_trip_witness :
  let res := sample_process node_a_sent ack_of_b 248 in
  plain_text "A_0_0.0" /\
  is_Some (pending_acks (proto node_a_sent) !! "A_0_0.0"%string) /\
  referenced_id (payload ack_of_b) = Some "A_0_0.0"%string /\
  pending_acks (proto (fst res))
    = delete "A_0_0.0"%string (pending_acks (proto node_a_sent)) /\
  tasks (fst res) = tasks node_a_sent /\
  is_Some (snd res).
Proof.
  split; [exact plain_text_sample_id|].
  split; [eexists; vm_compute; reflexivity|].
  apply (acknowledgement_round_trip sample_digest sample_pack_d
           sample_str_float sample_exponential node_a_sent ack_of_b 248
           "A_0_0.0").
  - exact plain_text_sample_id.
  - vm_compute. lia.
  - vm_compute. reflexivity.
  - vm_compute. reflexivity.
  - reflexivity.
  - vm_compute. reflexivity.
Defined.

(** A node whose name makes its packet identifiers longer than 64
    bytes, after it has sent a DATA packet, and the ACK made for that
    packet. *)
Definition long_name : string :=
  "deep-space-relay-station-in-halo-orbit-around-the-second-lagrange-point".

Definition long_node_sent : World :=
  Eval vm_compute in
  fst (sample_send (init_world long_name 5 300 0) "B" hello DATA
         Priority.NORMAL).

Definition long_id : string :=
  Eval vm_compute in
  next_packet_id sample_str_float (init_world long_name 5 300 0).

Definition ack_of_long_id : DeepSpacePacket :=
  Eval vm_compute in
  default blank_packet
    (sample_packet "B_0_1.0" "B" long_name ACK Priority.HIGH
       (ljust 64 (encode long_id)) 0 1 86400 [] None).

Lemma long_id_never_acknowledged_witness :
  let res := sample_process long_node_sent ack_of_long_id 260 in
  length (encode long_id) = 77%nat /\
  is_Some (pending_acks (proto long_node_sent) !! long_id) /\
  pending_acks (proto (fst res)) !! long_id
    = pending_acks (proto long_node_sent) !! long_id.
Proof.
  split; [vm_compute; reflexivity|].
  split; [eexists; vm_compute; reflexivity|].
  apply (long_id_never_acknowledged sample_digest sample_pack_d
           sample_str_float sample_exponential long_node_sent ack_of_long_id
           260 long_id).
  - vm_compute. lia.
  - vm_compute. reflexivity.
  - vm_compute. reflexivity.
  - reflexivity.
  - vm_compute. reflexivity.
Defined.

Lemma local_packet_delivered_witness :
  let res := sample_process node_b packet_for_b 184 in
  sample_valid packet_for_b = Some true /\
  route_target node_b "A" = None /\
  snd res = Some (with_local_node node_b packet_for_b) /\
  received_packets (proto (fst res)) !! "A_7_5.0"%string
    = Some (with_local_node node_b packet_for_b) /\
  packets_received (proto (fst res)) = 1%Z /\
  bytes_received (proto (fst res)) = 184%Z /\
  packets_dropped (proto (fst res)) = 0%Z /\
  pending_acks (proto (fst res)) = ∅ /\
  tasks (fst res) = [] /\
  sequence_counter (proto (fst res)) = 1%Z.
Proof.
  assert (Hvalid : sample_valid packet_for_b = Some true)
    by (vm_compute; reflexivity).
  assert (Hty : packet_type packet_for_b
                  ∉ [ACK; NACK; HEARTBEAT; ROUTING_UPDATE]).
  { intros Hin. apply list_elem_of_In in Hin. cbn in Hin.
    intuition discriminate. }
  destruct (local_packet_delivered sample_digest sample_pack_d
              sample_str_float sample_exponential node_b packet_for_b 184
              Hvalid ltac:(vm_compute; reflexivity) Hty eq_refl)
    as (H1 & H2 & H3 & H4 & H5 & H6 & H7 & _ & H9).
  split; [exact Hvalid|]. split; [vm_compute; reflexivity|].
  split; [exact H1|]. split; [rewrite H2; apply lookup_insert_eq|].
  split; [exact H3|]. split; [exact H4|]. split; [exact H5|].
  split; [exact H6|]. split; [exact H7|].
  apply (H9 eq_refl); [vm_compute; discriminate | cbn; lia].
Defined.

Lemma send_packet_over_route_witness :
  let res := sample_send node_a_linked "B" hello DATA Priority.NORMAL in
  route_target node_a_linked "B" = Some "B"%string /\
  snd res = true /\
  sequence_counter (proto (fst res)) = 1%Z /\
  packets_sent (proto (fst res)) = 1%Z /\
  bytes_transmitted (proto (fst res)) = 184%Z /\
  clock (fst res) == 0.15 /\
  link_qualities (proto (fst res)) !! "A-B"%string = Some 1 /\
  tasks (fst res) = [TaskCreated "A_0_0.0"].
Proof.
  assert (Hroute : route_target node_a_linked "B" = Some "B"%string)
    by (vm_compute; reflexivity).
  destruct (send_packet_over_route sample_digest sample_pack_d
              sample_str_float sample_exponential node_a_linked "B" hello
              DATA Priority.NORMAL "B" sample_pack_d_length
              ltac:(vm_compute; discriminate) ltac:(vm_compute; reflexivity)
              ltac:(cbn; lia) Hroute)
    as (H1 & H2 & H3 & H4 & H5 & _ & H7 & H8 & _).
  split; [exact Hroute|]. split; [exact H1|]. split; [exact H2|].
  split; [exact H3|]. split; [exact H4|].
  split; [rewrite H5; vm_compute; reflexivity|].
  split; [rewrite H7; vm_compute; reflexivity|].
  destruct (H8 eq_refl) as [_ Htasks]. exact Htasks.
Defined.

(** A heartbeat of C for B, created at time 9. *)
Definition heartbeat_of_c : DeepSpacePacket :=
  Eval vm_compute in
  default blank_packet
    (sample_packet "C_3_9.0" "C" "B" HEARTBEAT Priority.LOW
       (rev (sample_pack_d 9)) 3 9 86400 [] None).

Lemma heartbeat_opens_route_witness :
  let w := init_world "B" 5 300 10 in
  let res := sample_process w heartbeat_of_c 187 in
  route_target w "C" = None /\
  neighbor_nodes (proto (fst res)) = <["C"%string := 10]> ∅ /\
  route_target (fst res) "C" = Some "C"%string /\
  snd (Protocol._route_packet sample_exponential (fst res) packet_for_c)
    = true.
Proof.
  destruct (heartbeat_opens_route sample_digest sample_pack_d
              sample_str_float sample_exponential (init_world "B" 5 300 10)
              heartbeat_of_c 187 packet_for_c
              ltac:(vm_compute; reflexivity) ltac:(vm_compute; reflexivity)
              eq_refl eq_refl)
    as (_ & H2 & H3 & _ & H5).
  split; [vm_compute; reflexivity|]. split; [exact H2|].
  split; [exact H3 | exact H5].
Defined.

(** A NACK of B for the packet of A, created at time 2. *)
Definition nack_of_b : DeepSpacePacket :=
  Eval vm_compute in
  default blank_packet
    (sample_packet "B_1_2.0" "B" "A" NACK Priority.HIGH
       (ljust 64 (encode "A_0_0.0")) 1 2 86400 [] None).

Lemma nack_resends_pending_witness :
  let res := sample_process node_a_sent nack_of_b 248 in
  is_Some (pending_acks (proto node_a_sent) !! "A_0_0.0"%string) /\
  pending_acks (proto (fst res)) = pending_acks (proto node_a_sent) /\
  tasks (fst res) = tasks node_a_sent /\
  sequence_counter (proto (fst res)) = 1%Z /\
  packets_sent (proto (fst res)) = 1%Z /\
  packets_received (proto (fst res)) = 1%Z /\
  trace (fst res) =
    trace node_a_sent
    ++ [Slept (CoTransmit "B") (0.1 + 0.05);
        Logged DEBUG (MsgTransmitted "A_0_0.0" "B");
        Logged DEBUG (MsgNackRetransmitted "A_0_0.0")].
Proof.
  destruct (nack_resends_pending sample_digest sample_pack_d
              sample_str_float sample_exponential node_a_sent nack_of_b 248
              "A_0_0.0"
              ltac:(vm_compute; reflexivity) ltac:(vm_compute; reflexivity)
              eq_refl ltac:(vm_compute; lia) ltac:(vm_compute; reflexivity))
    as (_ & H2 & H3 & H4 & H5 & H6 & H7 & _).
  split; [eexists; vm_compute; reflexivity|].
  split; [exact H2|]. split; [exact H3|]. split; [exact H4|].
  split; [exact H5|]. split; [exact H6|].
  destruct (pending_acks (proto node_a_sent) !! "A_0_0.0"%string)
    as [original|] eqn:E; [|vm_compute in E; discriminate].
  destruct (H7 original eq_refl) as [Htrace _].
  rewrite Htrace. vm_compute in E. injection E as <-.
  vm_compute. reflexivity.
Defined.

(** Node A sends, the handler of the packet runs up to its first
    backoff sleep. *)
Definition first_timeout : list Event :=
  EvSend "B" hello DATA Priority.NORMAL :: until_backoff.

Lemma first_timeout_run :
  sample_run node_a_linked first_timeout = Some node_a_backing.
Proof. vm_compute. reflexivity. Qed.

Lemma counters_never_decrease_witness :
  sample_run node_a_linked first_timeout = Some node_a_backing /\
  counters_grow (proto node_a_linked) (proto node_a_backing).
Proof.
  split; [exact first_timeout_run|].
  exact (counters_never_decrease sample_digest sample_pack_d sample_unpack_d
           sample_str_float sample_exponential first_timeout node_a_linked
           node_a_backing first_timeout_run).
Defined.

Lemma pending_entries_bounded_witness :
  (0 <= max_retries (proto node_a_linked))%Z /\
  pending_ok (proto node_a_linked) /\
  sample_run node_a_linked first_timeout = Some node_a_backing /\
  pending_ok (proto node_a_backing) /\
  (exists packet,
     pending_acks (proto node_a_backing) !! "A_0_0.0"%string = Some packet /\
     get_retry_count packet = 1%Z).
Proof.
  assert (Hmax : (0 <= max_retries (proto node_a_linked))%Z) by (cbn; lia).
  assert (Hok : pending_ok (proto node_a_linked)).
  { intros pid packet H. cbn in H. rewrite lookup_empty in H. discriminate. }
  destruct (pending_entries_bounded sample_digest sample_pack_d
              sample_unpack_d sample_str_float sample_exponential
              first_timeout node_a_linked node_a_backing Hmax Hok
              first_timeout_run) as [Hok' _].
  split; [exact Hmax|]. split; [exact Hok|].
  split; [exact first_timeout_run|]. split; [exact Hok'|].
  eexists. split; vm_compute; reflexivity.
Defined.

Definition sample_topology : Topology :=
  {| topology_neighbors := ["B"%string; "C"%string];
     topology_routes :=
       [("D"%string, Some "B"%string); ("E"%string, None);
        ("A"%string, Some "B"%string); ("F"%string, Some ""%string);
        ("C"%string, Some "B"%string)] |}.

Lemma sample_topology_keys : NoDup ((topology_routes sample_topology).*1).
Proof.
  cbn. repeat (apply NoDup_cons_2; [set_solver|]). apply NoDup_nil_2.
Qed.

Lemma routing_table_replaced_witness :
  let res := update_routing_table node_a sample_topology in
  let table := routing_table (proto (fst res)) in
  NoDup ((topology_routes sample_topology).*1) /\
  table !! "D"%string = Some "B"%string /\
  table !! "C"%string = Some "B"%string /\
  table !! "B"%string = Some "B"%string /\
  table !! "A"%string = None /\
  table !! "E"%string = None /\
  table !! "F"%string = None /\
  snd res = 3%nat /\
  route_target (fst res) "D" = Some "B"%string.
Proof.
  destruct (routing_table_replaced node_a sample_topology
              sample_topology_keys) as (Hset & Hkeep & Hsize & _ & Hroute).
  split; [exact sample_topology_keys|].
  split; [apply Hset; [set_solver | discriminate | discriminate]|].
  split; [apply Hset; [set_solver | discriminate | discriminate]|].
  assert (Hrest : forall d,
            d ∈ ["B"; "A"; "E"; "F"]%string ->
            forall hop, (d, Some hop) ∈ topology_routes sample_topology ->
            d = "A"%string \/ hop = ""%string).
  { intros d Hd hop Hin. apply list_elem_of_In in Hin. cbn in Hin.
    apply list_elem_of_In in Hd. cbn in Hd.
    intuition (try congruence). }
  split; [rewrite (Hkeep "B"%string) by (apply Hrest; set_solver);
          reflexivity|].
  split; [rewrite (Hkeep "A"%string) by (apply Hrest; set_solver);
          reflexivity|].
  split; [rewrite (Hkeep "E"%string) by (apply Hrest; set_solver);
          reflexivity|].
  split; [rewrite (Hkeep "F"%string) by (apply Hrest; set_solver);
          reflexivity|].
  split; [rewrite Hsize; vm_compute; reflexivity|].
  rewrite (Hroute "D"%string) by reflexivity.
  rewrite (Hset "D"%string "B"%string); [reflexivity | set_solver | discriminate | discriminate].
Defined.

Lemma control_packets_not_forwarded_witness :
  let w := init_world "C" 5 300 10 in
  let res := sample_process w ack_of_b 243 in
  destination_id ack_of_b = "A"%string /\
  node_id (proto w) = "C"%string /\
  clock (fst res) = 10 /\ tasks (fst res) = [] /\
  packets_sent (proto (fst res)) = 0%Z /\
  packets_dropped (proto (fst res)) = 0%Z /\
  pending_acks (proto (fst res)) = ∅ /\
  forall q, snd res = Some q ->
    packets_received (proto (fst res)) = 1%Z.
Proof.
  destruct (control_packets_not_forwarded sample_digest sample_pack_d
              sample_str_float sample_exponential (init_world "C" 5 300 10)
              ack_of_b 243
              ltac:(vm_compute; reflexivity) ltac:(vm_compute; reflexivity)
              ltac:(left))
    as (H1 & H2 & _ & _ & _ & _ & _ & _ & H9 & _ & H11 & _ & _ & H14).
  split; [reflexivity|]. split; [reflexivity|].
  split; [exact H1|]. split; [exact H2|]. split; [exact H9|].
  split; [exact H11|]. split; [vm_compute; reflexivity|].
  intros q Hq. apply (H14 q Hq).
Defined.
End ProtocolOps.

(** ** More of the adaptive radio

    The transmission, adaptation and interference mitigation of
    [multiband_radio.py].  As above, the random draws are inputs, and
    the log messages, which the radio does not keep, are left out. *)

Module RadioOps.
Import Radio.

(** [int(x)] of a float: the fraction is cut off, towards zero. *)
Definition py_int (x : Q) : Z := Z.quot (Qnum x) (Z.pos (Qden x)).

(** [_calculate_optimal_chunk_size]. *)
Definition _calculate_optimal_chunk_size (conditions : ChannelConditions) : Z :=
  let base_chunk_size := 1024%Z in
  let quality_factor := link_quality_score conditions in
  let optimal_size := py_int (inject_Z base_chunk_size * quality_factor) in
  Z.max 64 optimal_size.

Definition set_data_rate (l : CommunicationLink) (v : Q) : CommunicationLink :=
  {| link_id := link_id l;
     source_node := source_node l;
     destination_node := destination_node l;
     frequency_band := frequency_band l;
     modulation := modulation l;
     data_rate := v;
     power_level := power_level l;
     antenna_gain := antenna_gain l;
     is_active := is_active l;
     channel_conditions := channel_conditions l;
     quality_history := quality_history l;
     established_at := established_at l |}.

Definition set_power_level (l : CommunicationLink) (v : Q) : CommunicationLink :=
  {| link_id := link_id l;
     source_node := source_node l;
     destination_node := destination_node l;
     frequency_band := frequency_band l;
     modulation := modulation l;
     data_rate := data_rate l;
     power_level := v;
     antenna_gain := antenna_gain l;
     is_active := is_active l;
     channel_conditions := channel_conditions l;
     quality_history := quality_history l;
     established_at := established_at l |}.

Definition set_modulation (l : CommunicationLink) (v : ModulationType)
    : CommunicationLink :=
  {| link_id := link_id l;
     source_node := source_node l;
     destination_node := destination_node l;
     frequency_band := frequency_band l;
     modulation := v;
     data_rate := data_rate l;
     power_level := power_level l;
     antenna_gain := antenna_gain l;
     is_active := is_active l;
     channel_conditions := channel_conditions l;
     quality_history := quality_history l;
     established_at := established_at l |}.

Definition set_frequency_band (l : CommunicationLink) (v : FrequencyBand)
    : CommunicationLink :=
  {| link_id := link_id l;
     source_node := source_node l;
     destination_node := destination_node l;
     frequency_band := v;
     modulation := modulation l;
     data_rate := data_rate l;
     power_level := power_level l;
     antenna_gain := antenna_gain l;
     is_active := is_active l;
     channel_conditions := channel_conditions l;
     quality_history := quality_history l;
     established_at := established_at l |}.

Definition set_throughput_history (r : MultibandRadio) (v : list Q)
    : MultibandRadio :=
  {| radio_id := radio_id r;
     supported_bands := supported_bands r;
     active_links := active_links r;
     spectrum_sensing_data := spectrum_sensing_data r;
     cognitive_engine_enabled := cognitive_engine_enabled r;
     throughput_history := v;
     error_rate_history := error_rate_history r;
     power_consumption := power_consumption r;
     min_snr_threshold := min_snr_threshold r;
     max_acceptable_ber := max_acceptable_ber r;
     link_quality_threshold := link_quality_threshold r |}.

Definition set_spectrum_sensing_data (r : MultibandRadio)
    (v : gmap string (list Q)) : MultibandRadio :=
  {| radio_id := radio_id r;
     supported_bands := supported_bands r;
     active_links := active_links r;
     spectrum_sensing_data := v;
     cognitive_engine_enabled := cognitive_engine_enabled r;
     throughput_history := throughput_history r;
     error_rate_history := error_rate_history r;
     power_consumption := power_consumption r;
     min_snr_threshold := min_snr_threshold r;
     max_acceptable_ber := max_acceptable_ber r;
     link_quality_threshold := link_quality_threshold r |}.

(** The step down of the modulation in poor conditions. *)
Definition step_down (m : ModulationType) : ModulationType :=
  match m with
  | QAM64 => QAM16
  | QAM16 => QPSK
  | QPSK => BPSK
  | other => other
  end.

(** [_adapt_transmission_parameters]: the link as it is left. *)
Definition _adapt_transmission_parameters (r : MultibandRadio)
    (link : CommunicationLink) (conditions : ChannelConditions)
    : CommunicationLink :=
  (* Reduce data rate if BER is too high *)
  let link :=
    if negb (Qle_bool (bit_error_rate conditions) (max_acceptable_ber r))
    then set_data_rate link (data_rate link * 0.8) else link in
  (* Increase power if SNR is too low *)
  let link :=
    if negb (Qle_bool (min_snr_threshold r) (signal_to_noise_ratio conditions))
    then set_power_level link (power_level link + 3) else link in
  (* Switch modulation if conditions are poor *)
  if negb (Qle_bool 0.5 (link_quality_score conditions))
  then set_modulation link (step_down (modulation link))
  else link.

(** The dictionary [_transmit_chunk] returns. *)
Record ChunkResult := {
  chunk_success : bool;
  chunk_size : Z;
  chunk_transmission_time : Q;
  chunk_data_rate : Q
}.

(** [_transmit_chunk]; [u] is the draw of [random.random()], and
    [None] the [ZeroDivisionError] of a link without data rate. *)
Definition _transmit_chunk (link : CommunicationLink) (data_chunk : list byte)
    (u : Q) : option ChunkResult :=
  let size := Z.of_nat (length data_chunk) in
  transmission_time ← Py.div (inject_Z size * 8) (data_rate link);
  let success_probability :=
    match channel_conditions link with
    | Some cc => link_quality_score cc
    | None => 0.8
    end in
  let success := negb (Qle_bool success_probability u) in
  rate ←
    (if negb (Qle_bool transmission_time 0)
     then Py.div (inject_Z size * 8) transmission_time else Some 0);
  Some {| chunk_success := success;
          chunk_size := size;
          chunk_transmission_time := transmission_time;
          chunk_data_rate := rate |}.

(** The dictionary [adaptive_transmission] returns. *)
Record TransmissionResult := {
  success : bool;
  bytes_transmitted : Z;
  transmission_time : Q;
  effective_data_rate : Q;
  retransmissions : Z;
  final_ber : Q
}.

Definition initial_result : TransmissionResult :=
  {| success := false; bytes_transmitted := 0; transmission_time := 0;
     effective_data_rate := 0; retransmissions := 0; final_ber := 0 |}.

(** The variables of the loop of [adaptive_transmission]. *)
Record LoopState := {
  st_radio : MultibandRadio;
  st_link : CommunicationLink;
  st_bytes : Z;
  st_retransmissions : Z
}.

(** How the loop is left: its condition is false or [break] was
    reached, an exception was raised, or the fuel of the model ran
    out. *)
Inductive LoopEnd :=
  | Done (st : LoopState)
  | Raised (st : LoopState)
  | OutOfFuel.

(** [data[i:j]]. *)
Definition bytes_slice (i j : Z) (data : list byte) : list byte :=
  take (Z.to_nat (j - i)) (drop (Z.to_nat i) data).

(** The [while] loop of [adaptive_transmission]; [draws k] are the
    random draws of its [k]-th pass, those of the channel assessment
    and the one of [_transmit_chunk], and [now] the time of the
    assessments. *)
Fixpoint transmission_loop (fuel : nat) (data : list byte) (now : Q)
    (draws : nat -> ChannelDraws * Q) (k : nat) (st : LoopState) : LoopEnd :=
  let data_size := Z.of_nat (length data) in
  if (st_bytes st <? data_size)%Z then
    match fuel with
    | O => OutOfFuel
    | S fuel' =>
        (* Monitor channel conditions *)
        match _assess_channel_conditions (st_link st) now (fst (draws k)) with
        | None => Raised st
        | Some current_conditions =>
            let link :=
              set_channel_conditions (st_link st) (Some current_conditions) in
            (* Adapt transmission parameters if needed *)
            let link :=
              if negb (Qle_bool (link_quality_threshold (st_radio st))
                         (link_quality_score current_conditions))
              then _adapt_transmission_parameters (st_radio st) link
                     current_conditions
              else link in
            (* Calculate chunk size based on conditions *)
            let size :=
              Z.min (data_size - st_bytes st)
                (_calculate_optimal_chunk_size current_conditions) in
            let st :=
              {| st_radio := st_radio st; st_link := link;
                 st_bytes := st_bytes st;
                 st_retransmissions := st_retransmissions st |} in
            (* Transmit data chunk *)
            match _transmit_chunk link
                    (bytes_slice (st_bytes st) (st_bytes st + size) data)
                    (snd (draws k)) with
            | None => Raised st
            | Some chunk_result =>
                if chunk_success chunk_result then
                  let radio :=
                    set_throughput_history (st_radio st)
                      (throughput_history (st_radio st)
                       ++ [chunk_data_rate chunk_result]) in
                  transmission_loop fuel' data now draws (S k)
                    {| st_radio := radio; st_link := link;
                       st_bytes := (st_bytes st + size)%Z;
                       st_retransmissions := st_retransmissions st |}
                else
                  let retransmissions := (st_retransmissions st + 1)%Z in
                  let st :=
                    {| st_radio := st_radio st; st_link := link;
                       st_bytes := st_bytes st;
                       st_retransmissions := retransmissions |} in
                  if (5 <? retransmissions)%Z then Done st
                  else transmission_loop fuel' data now draws (S k) st
            end
        end
    end
  else Done st.

(** [adaptive_transmission]: the radio and the link as they are left,
    and the result; [elapsed] is the time measured between the two
    calls of [datetime.utcnow()].  [None] only when the fuel of the
    model runs out. *)
Definition adaptive_transmission (fuel : nat) (r : MultibandRadio)
    (link : CommunicationLink) (data : list byte) (now elapsed : Q)
    (draws : nat -> ChannelDraws * Q)
    : option (MultibandRadio * CommunicationLink * TransmissionResult) :=
  let data_size := Z.of_nat (length data) in
  match transmission_loop fuel data now draws 0
          {| st_radio := r; st_link := link; st_bytes := 0;
             st_retransmissions := 0 |} with
  | OutOfFuel => None
  | Raised st => Some (st_radio st, st_link st, initial_result)
  | Done st =>
      let rate :=
        if negb (Qle_bool elapsed 0)
        then Py.div (inject_Z (st_bytes st * 8)) elapsed else Some 0 in
      match rate with
      | None => Some (st_radio st, st_link st, initial_result)
      | Some rate =>
          Some (st_radio st, st_link st,
                {| success := bool_decide (st_bytes st = data_size);
                   bytes_transmitted := st_bytes st;
                   transmission_time := elapsed;
                   effective_data_rate := rate;
                   retransmissions := st_retransmissions st;
                   final_ber :=
                     match channel_conditions (st_link st) with
                     | Some cc => bit_error_rate cc
                     | None => 0
                     end |})
      end
  end.

(** *** Chunk size *)

Lemma py_int_mono (x y : Q) : x <= y -> (py_int x <= py_int y)%Z.
Proof.
  unfold py_int, Qle. destruct x as [a b], y as [c d]. cbn. intros H.
  rewrite <- (Z.quot_mul_cancel_r a (Z.pos b) (Z.pos d)) by lia.
  rewrite <- (Z.quot_mul_cancel_r c (Z.pos d) (Z.pos b)) by lia.
  rewrite (Z.mul_comm (Z.pos d) (Z.pos b)).
  apply Z.quot_le_mono; lia.
Qed.

Lemma py_int_inject (z : Z) : py_int (inject_Z z) = z.
Proof. unfold py_int. cbn. apply Z.quot_1_r. Qed.

(** X12.  The chunk size is never below 64 bytes, it is 64 for every
    quality score up to 1/16 (also a negative one), it does not exceed
    1024 bytes for a score of at most 1, and a better score never
    gives a smaller chunk. *)
Theorem chunk_size_bounds (cc cc' : ChannelConditions) :
  (64 <= _calculate_optimal_chunk_size cc)%Z /\
  (link_quality_score cc <= 0.0625 ->
     _calculate_optimal_chunk_size cc = 64%Z) /\
  (link_quality_score cc <= 1 ->
     (_calculate_optimal_chunk_size cc <= 1024)%Z) /\
  (link_quality_score cc <= link_quality_score cc' ->
     (_calculate_optimal_chunk_size cc
      <= _calculate_optimal_chunk_size cc')%Z).
Proof.
  unfold _calculate_optimal_chunk_size. cbv zeta.
  split; [lia|]. split; [|split].
  - intros H.
    assert (Hle : (py_int (inject_Z 1024 * link_quality_score cc)
                   <= py_int (inject_Z 64))%Z).
    { apply py_int_mono. change (inject_Z 1024) with 1024.
      change (inject_Z 64) with 64. lra. }
    rewrite py_int_inject in Hle. lia.
  - intros H.
    assert (Hle : (py_int (inject_Z 1024 * link_quality_score cc)
                   <= py_int (inject_Z 1024))%Z).
    { apply py_int_mono. change (inject_Z 1024) with 1024. lra. }
    rewrite py_int_inject in Hle. lia.
  - intros H.
    assert (Hle : (py_int (inject_Z 1024 * link_quality_score cc)
                   <= py_int (inject_Z 1024 * link_quality_score cc'))%Z).
    { apply py_int_mono. change (inject_Z 1024) with 1024. lra. }
    lia.
Qed.

(** *** Adaptation *)

Lemma step_down_efficiency (m : ModulationType) :
  _get_spectral_efficiency (step_down m) <= _get_spectral_efficiency m /\
  snr_requirement (step_down m) <= snr_requirement m.
Proof. destruct m; cbn; split; lra. Qed.

(** What never changes about a link once it is created. *)
Definition link_identity (l : CommunicationLink) :=
  (link_id l, source_node l, destination_node l, antenna_gain l,
   is_active l, quality_history l, established_at l).

(** X13.  [_adapt_transmission_parameters] only ever backs off: the
    data rate stays positive and does not go up (it is cut to 80% when
    the bit error rate is above the limit), the power goes up by 3 dB
    or stays, the modulation steps down one scheme or stays, so that
    neither its spectral efficiency nor the SNR it needs goes up; the
    band, the stored channel conditions and the identity of the link
    stay.  In conditions that are within all three limits the link is
    left as it is. *)
Theorem adaptation_backs_off (r : MultibandRadio) (link : CommunicationLink)
    (cc : ChannelConditions) :
  0 < data_rate link ->
  let link' := _adapt_transmission_parameters r link cc in
  0 < data_rate link' /\ data_rate link' <= data_rate link /\
  (max_acceptable_ber r < bit_error_rate cc ->
     data_rate link' == data_rate link * 0.8) /\
  power_level link <= power_level link' /\
  power_level link' <= power_level link + 3 /\
  (modulation link' = modulation link \/
   modulation link' = step_down (modulation link)) /\
  _get_spectral_efficiency (modulation link')
    <= _get_spectral_efficiency (modulation link) /\
  snr_requirement (modulation link') <= snr_requirement (modulation link) /\
  frequency_band link' = frequency_band link /\
  channel_conditions link' = channel_conditions link /\
  link_identity link' = link_identity link /\
  (bit_error_rate cc <= max_acceptable_ber r ->
   min_snr_threshold r <= signal_to_noise_ratio cc ->
   0.5 <= link_quality_score cc ->
   link' = link).
Proof.
  intros Hrate. cbv zeta. unfold _adapt_transmission_parameters.
  pose proof (step_down_efficiency (modulation link)) as [He Hs].
  destruct (Qle_bool (bit_error_rate cc) (max_acceptable_ber r)) eqn:E1;
    destruct (Qle_bool (min_snr_threshold r) (signal_to_noise_ratio cc)) eqn:E2;
    destruct (Qle_bool 0.5 (link_quality_score cc)) eqn:E3;
    cbn;
    try (apply Qle_bool_iff in E1);
    try (apply Qle_bool_iff in E2);
    try (apply Qle_bool_iff in E3);
    try (assert (~ bit_error_rate cc <= max_acceptable_ber r)
           by (rewrite <- Qle_bool_iff; congruence));
    try (assert (~ min_snr_threshold r <= signal_to_noise_ratio cc)
           by (rewrite <- Qle_bool_iff; congruence));
    try (assert (~ 0.5 <= link_quality_score cc)
           by (rewrite <- Qle_bool_iff; congruence));
    repeat (split; [first [reflexivity | lra | tauto | intros; lra
                          | intros; reflexivity | assumption]|]);
    intros; first [reflexivity | contradiction | lra].
Qed.

(** *** [adaptive_transmission] *)

Lemma adapt_keeps (r : MultibandRadio) (link : CommunicationLink)
    (cc : ChannelConditions) :
  0 < data_rate link ->
  let link' := _adapt_transmission_parameters r link cc in
  0 < data_rate link' /\ data_rate link' <= data_rate link /\
  power_level link <= power_level link' /\
  frequency_band link' = frequency_band link /\
  channel_conditions link' = channel_conditions link /\
  link_identity link' = link_identity link.
Proof.
  intros Hrate. cbv zeta. unfold _adapt_transmission_parameters.
  destruct (Qle_bool (bit_error_rate cc) (max_acceptable_ber r));
    destruct (Qle_bool (min_snr_threshold r) (signal_to_noise_ratio cc));
    destruct (Qle_bool 0.5 (link_quality_score cc));
    cbn; repeat split; lra.
Qed.

Lemma py_div_nonzero (a b : Q) : ~ b == 0 -> Py.div a b = Some (a / b).
Proof.
  intros H. unfold Py.div. destruct (Qeq_bool b 0) eqn:E; [|reflexivity].
  apply Qeq_bool_iff in E. contradiction.
Qed.

(** With a positive data rate [_transmit_chunk] does not raise, and
    the data rate it reports for a chunk that is not empty is the one
    of the link. *)
Lemma transmit_chunk_total (link : CommunicationLink) (chunk : list byte)
    (u : Q) :
  0 < data_rate link ->
  exists res,
    _transmit_chunk link chunk u = Some res /\
    (chunk <> [] -> chunk_data_rate res == data_rate link).
Proof.
  intros Hrate. unfold _transmit_chunk.
  rewrite py_div_nonzero by lra. cbn [mbind option_bind].
  set (s := inject_Z (Z.of_nat (length chunk)) * 8).
  destruct (Qle_bool (s / data_rate link) 0) eqn:E; cbn.
  - eexists. split; [reflexivity|]. cbn. intros Hne. exfalso.
    apply Qle_bool_iff in E.
    assert (Hs : 0 < s).
    { subst s. destruct chunk as [|b chunk]; [contradiction|].
      assert (0 < inject_Z (Z.of_nat (length (b :: chunk)))).
      { change 0 with (inject_Z 0). rewrite <- Zlt_Qlt. cbn [length]. lia. }
      lra. }
    assert (0 < s / data_rate link).
    { apply Qlt_shift_div_l; lra. }
    lra.
  - assert (Hpos : ~ s / data_rate link <= 0)
      by (rewrite <- Qle_bool_iff; congruence).
    rewrite py_div_nonzero by lra. cbn.
    eexists. split; [reflexivity|]. cbn. intros _.
    assert (Hs : ~ s == 0).
    { intros Hs. apply Hpos. rewrite Hs. unfold Qdiv. lra. }
    field. split; lra.
Qed.

Lemma length_bytes_slice (i n : Z) (data : list byte) :
  (0 <= i)%Z -> (0 <= n)%Z -> (i + n <= Z.of_nat (length data))%Z ->
  Z.of_nat (length (bytes_slice i (i + n) data)) = n.
Proof.
  intros Hi Hn Hlen. unfold bytes_slice.
  rewrite length_take, length_drop. lia.
Qed.

(** The state [st'] in which the loop, started in [st], is left. *)
Definition loop_result (size : Z) (st st' : LoopState) : Prop :=
  (st_bytes st <= st_bytes st' <= size)%Z /\
  (st_retransmissions st <= st_retransmissions st' <= 6)%Z /\
  ((st_bytes st' < size)%Z -> st_retransmissions st' = 6%Z) /\
  (st_bytes st' = size -> (st_retransmissions st' <= 5)%Z) /\
  0 < data_rate (st_link st') /\
  data_rate (st_link st') <= data_rate (st_link st) /\
  power_level (st_link st) <= power_level (st_link st') /\
  link_identity (st_link st') = link_identity (st_link st) /\
  frequency_band (st_link st') = frequency_band (st_link st) /\
  exists rates,
    st_radio st'
    = set_throughput_history (st_radio st)
        (throughput_history (st_radio st) ++ rates) /\
    Forall (fun x => 0 < x /\ x <= data_rate (st_link st)) rates /\
    (Z.of_nat (length rates) <= st_bytes st' - st_bytes st)%Z.

Lemma set_throughput_history_same r :
  set_throughput_history r (throughput_history r ++ []) = r.
Proof. rewrite app_nil_r. destruct r. reflexivity. Qed.

Section Loop.

Variable data : list byte.
Variable now : Q.
Variable draws : nat -> ChannelDraws * Q.

Hypothesis draws_ok : forall k, draws_in_range (fst (draws k)).

Lemma loop_terminates (m : nat) : forall k st,
  (0 <= st_bytes st <= Z.of_nat (length data))%Z ->
  (0 <= st_retransmissions st <= 5)%Z ->
  0 < data_rate (st_link st) ->
  (Z.of_nat (length data) - st_bytes st + (6 - st_retransmissions st)
   <= Z.of_nat m)%Z ->
  exists st',
    (forall fuel, (m <= fuel)%nat ->
       transmission_loop fuel data now draws k st = Done st') /\
    loop_result (Z.of_nat (length data)) st st' /\
    (st_bytes st = Z.of_nat (length data) -> st' = st).
Proof.
  induction m as [|m IH]; intros k st Hb Hr Hrate Hm; [lia|].
  destruct (Z.ltb_spec (st_bytes st) (Z.of_nat (length data))) as [Hlt|Hge].
  2:{ exists st. split; [|split; [|reflexivity]].
      - intros fuel _. destruct fuel; cbn [transmission_loop];
          destruct (Z.ltb_spec (st_bytes st) (Z.of_nat (length data)));
          try lia; reflexivity.
      - unfold loop_result. repeat (split; [lia || lra || reflexivity|]).
        exists []. split; [symmetry; apply set_throughput_history_same|].
        split; [constructor | cbn; lia]. }
  destruct (RadioSpec.assess_total (st_link st) now (fst (draws k))
              (draws_ok k)) as (cc & Hcc).
  set (link1 := set_channel_conditions (st_link st) (Some cc)).
  set (link2 :=
         if negb (Qle_bool (link_quality_threshold (st_radio st))
                    (link_quality_score cc))
         then _adapt_transmission_parameters (st_radio st) link1 cc
         else link1).
  assert (H2 : 0 < data_rate link2 /\ data_rate link2 <= data_rate (st_link st)
               /\ power_level (st_link st) <= power_level link2
               /\ frequency_band link2 = frequency_band (st_link st)
               /\ link_identity link2 = link_identity (st_link st)).
  { subst link2. destruct (negb _).
    - destruct (adapt_keeps (st_radio st) link1 cc Hrate)
        as (Ha & Hb' & Hc & Hd & _ & Hf).
      repeat split; assumption.
    - subst link1. cbn. repeat split; lra. }
  destruct H2 as (Hr2 & Hle2 & Hp2 & Hband2 & Hid2).
  set (size := Z.min (Z.of_nat (length data) - st_bytes st)
                 (_calculate_optimal_chunk_size cc)).
  assert (Hsize : (1 <= size <= Z.of_nat (length data) - st_bytes st)%Z).
  { subst size. unfold _calculate_optimal_chunk_size. lia. }
  set (chunk := bytes_slice (st_bytes st) (st_bytes st + size) data).
  assert (Hchunk : chunk <> []).
  { intros Hnil.
    pose proof (length_bytes_slice (st_bytes st) size data
                  ltac:(lia) ltac:(lia) ltac:(lia)) as Hl.
    fold chunk in Hl. rewrite Hnil in Hl. cbn in Hl. lia. }
  destruct (transmit_chunk_total link2 chunk (snd (draws k)) Hr2)
    as (res & Hres & Hres_rate).
  specialize (Hres_rate Hchunk).
  destruct (chunk_success res) eqn:Esuccess.
  - (* the chunk went through *)
    set (st1 := {| st_radio :=
                     set_throughput_history (st_radio st)
                       (throughput_history (st_radio st)
                        ++ [chunk_data_rate res]);
                   st_link := link2;
                   st_bytes := (st_bytes st + size)%Z;
                   st_retransmissions := st_retransmissions st |}).
    destruct (IH (S k) st1) as (st' & Hrun & Hfin & _);
      [cbn; lia | cbn; lia | exact Hr2 | cbn; lia |].
    exists st'. split; [|split; [|lia]].
    + intros fuel Hfuel. destruct fuel as [|fuel]; [lia|].
      cbn [transmission_loop].
      destruct (Z.ltb_spec (st_bytes st) (Z.of_nat (length data))); [|lia].
      rewrite Hcc. cbn [st_radio st_link st_bytes st_retransmissions].
      fold link1. fold link2. fold size. fold chunk.
      rewrite Hres, Esuccess. apply Hrun. lia.
    + destruct Hfin as (F1 & F2 & F3 & F4 & F5 & F6 & F7 & F8 & F9
                          & rates & F10 & F11 & F12).
      cbn [st1 st_radio st_link st_bytes st_retransmissions] in *.
      unfold loop_result.
      split; [lia|]. split; [lia|]. split; [exact F3|]. split; [exact F4|].
      split; [exact F5|]. split; [lra|]. split; [lra|].
      split; [congruence|]. split; [congruence|].
      exists (chunk_data_rate res :: rates).
      split; [|split].
      * rewrite F10. cbn. rewrite <- app_assoc. reflexivity.
      * constructor; [rewrite Hres_rate; split; lra|].
        eapply Forall_impl; [exact F11|]. cbn. intros x [Hx1 Hx2].
        split; lra.
      * cbn [length]. lia.
  - (* the chunk is lost *)
    set (st1 := {| st_radio := st_radio st; st_link := link2;
                   st_bytes := st_bytes st;
                   st_retransmissions := (st_retransmissions st + 1)%Z |}).
    destruct (Z.ltb_spec 5 (st_retransmissions st + 1)) as [Hmax|Hmore].
    + exists st1. split; [|split; [|lia]].
      * intros fuel Hfuel. destruct fuel as [|fuel]; [lia|].
        cbn [transmission_loop].
        destruct (Z.ltb_spec (st_bytes st) (Z.of_nat (length data))); [|lia].
        rewrite Hcc. cbn [st_radio st_link st_bytes st_retransmissions].
        fold link1. fold link2. fold size. fold chunk.
        rewrite Hres, Esuccess.
        destruct (Z.ltb_spec 5 (st_retransmissions st + 1)); [|lia].
        reflexivity.
      * unfold loop_result.
        cbn [st1 st_radio st_link st_bytes st_retransmissions].
        split; [lia|]. split; [lia|]. split; [lia|]. split; [lia|].
        split; [exact Hr2|]. split; [exact Hle2|]. split; [exact Hp2|].
        split; [exact Hid2|]. split; [exact Hband2|].
        exists []. split; [symmetry; apply set_throughput_history_same|].
        split; [constructor | cbn; lia].
    + destruct (IH (S k) st1) as (st' & Hrun & Hfin & _);
        [cbn; lia | cbn; lia | exact Hr2 | cbn; lia |].
      exists st'. split; [|split; [|lia]].
      * intros fuel Hfuel. destruct fuel as [|fuel]; [lia|].
        cbn [transmission_loop].
        destruct (Z.ltb_spec (st_bytes st) (Z.of_nat (length data))); [|lia].
        rewrite Hcc. cbn [st_radio st_link st_bytes st_retransmissions].
        fold link1. fold link2. fold size. fold chunk.
        rewrite Hres, Esuccess.
        destruct (Z.ltb_spec 5 (st_retransmissions st + 1)); [lia|].
        apply Hrun. lia.
      * destruct Hfin as (F1 & F2 & F3 & F4 & F5 & F6 & F7 & F8 & F9
                            & rates & F10 & F11 & F12).
        cbn [st1 st_radio st_link st_bytes st_retransmissions] in *.
        unfold loop_result.
        split; [lia|]. split; [lia|]. split; [exact F3|]. split; [exact F4|].
        split; [exact F5|]. split; [lra|]. split; [lra|].
        split; [congruence|]. split; [congruence|].
        exists rates. split; [exact F10|]. split; [|exact F12].
        eapply Forall_impl; [exact F11|]. cbn. intros x [Hx1 Hx2].
        split; lra.
Qed.

End Loop.

(** X14.  With channel draws in their sampled ranges and a link whose
    data rate is positive, [adaptive_transmission] ends after at most
    [len(data) + 6] passes of its loop without raising.  It reports
    between 0 and [len(data)] bytes, success exactly when all bytes
    went through, and at most 6 retransmissions: 6 when it gave up,
    at most 5 when it succeeded.  The data rate of the link stays
    positive and does not go up, its power does not go down, and the
    radio is as before but for one throughput entry, positive and no
    larger than the initial data rate, for each chunk that went
    through.  Empty data succeeds at once and touches nothing. *)
Theorem adaptive_transmission_ends (r : MultibandRadio)
    (link : CommunicationLink) (data : list byte) (now elapsed : Q)
    (draws : nat -> ChannelDraws * Q) :
  (forall k, draws_in_range (fst (draws k))) ->
  0 < data_rate link ->
  exists r' link' res,
    (forall fuel, (length data + 6 <= fuel)%nat ->
       adaptive_transmission fuel r link data now elapsed draws
       = Some (r', link', res)) /\
    (0 <= bytes_transmitted res <= Z.of_nat (length data))%Z /\
    (success res = true <->
     bytes_transmitted res = Z.of_nat (length data)) /\
    (0 <= retransmissions res <= 6)%Z /\
    (success res = false -> retransmissions res = 6%Z) /\
    (success res = true -> (retransmissions res <= 5)%Z) /\
    transmission_time res = elapsed /\
    (0 < elapsed ->
     effective_data_rate res
     == inject_Z (bytes_transmitted res * 8) / elapsed) /\
    (elapsed <= 0 -> effective_data_rate res = 0) /\
    0 < data_rate link' /\ data_rate link' <= data_rate link /\
    power_level link <= power_level link' /\
    link_identity link' = link_identity link /\
    frequency_band link' = frequency_band link /\
    (exists rates,
       r' = set_throughput_history r (throughput_history r ++ rates) /\
       Forall (fun x => 0 < x /\ x <= data_rate link) rates /\
       (Z.of_nat (length rates) <= bytes_transmitted res)%Z) /\
    (data = [] -> r' = r /\ link' = link /\ success res = true).
Proof.
  intros Hdraws Hrate.
  set (st0 := {| st_radio := r; st_link := link; st_bytes := 0;
                 st_retransmissions := 0 |}).
  destruct (loop_terminates data now draws Hdraws (length data + 6) 0 st0)
    as (st' & Hrun & Hfin & Hempty);
    [cbn; lia | cbn; lia | exact Hrate | cbn; lia |].
  destruct Hfin as (F1 & F2 & F3 & F4 & F5 & F6 & F7 & F8 & F9
                      & rates & F10 & F11 & F12).
  cbn [st0 st_radio st_link st_bytes st_retransmissions] in *.
  assert (Hrateq : exists rate,
            (if negb (Qle_bool elapsed 0)
             then Py.div (inject_Z (st_bytes st' * 8)) elapsed else Some 0)
            = Some rate /\
            (0 < elapsed -> rate == inject_Z (st_bytes st' * 8) / elapsed) /\
            (elapsed <= 0 -> rate = 0)).
  { destruct (Qle_bool elapsed 0) eqn:E; cbn.
    - apply Qle_bool_iff in E. exists 0.
      split; [reflexivity|]. split; [intros; lra | reflexivity].
    - assert (~ elapsed <= 0) by (rewrite <- Qle_bool_iff; congruence).
      rewrite py_div_nonzero by lra. eexists. split; [reflexivity|].
      split; [reflexivity | intros; lra]. }
  destruct Hrateq as (rate & Hdiv & Hpos & Hzero).
  eexists (st_radio st'), (st_link st'), _.
  split.
  { intros fuel Hfuel. unfold adaptive_transmission. fold st0.
    rewrite (Hrun fuel Hfuel). rewrite Hdiv. reflexivity. }
  cbn [success bytes_transmitted transmission_time effective_data_rate
       retransmissions final_ber].
  split; [lia|]. split.
  { rewrite bool_decide_eq_true. reflexivity. }
  split; [lia|]. split.
  { intros H. apply bool_decide_eq_false in H. apply F3. lia. }
  split.
  { intros H. apply bool_decide_eq_true in H. apply F4. exact H. }
  split; [reflexivity|]. split; [exact Hpos|]. split; [exact Hzero|].
  split; [exact F5|]. split; [exact F6|]. split; [exact F7|].
  split; [exact F8|]. split; [exact F9|]. split.
  { exists rates. split; [exact F10|]. split; [exact F11 | lia]. }
  intros ->. cbn [length] in *.
  rewrite (Hempty eq_refl). cbn.
  split; [reflexivity|]. split; [reflexivity|].
  apply bool_decide_eq_true_2. reflexivity.
Qed.

(** *** New links *)

Section Budget.

Variable np_log10 : Q -> Q.

Abbreviation establish_link := (establish_link np_log10).

Lemma select_modulation_cases (band : FrequencyBand) (qos : gmap string Q) :
  _select_modulation band qos ∈ [BPSK; QPSK; QAM16; QAM64] /\
  (band = MICROWAVE -> _select_modulation band qos ∈ [BPSK; QPSK]) /\
  (band <> MICROWAVE -> _select_modulation band qos <> BPSK).
Proof.
  unfold _select_modulation.
  destruct band; cbn;
    destruct (Qle_bool 0.000000001 _); cbn;
    try destruct (Qle_bool _ 100000000); cbn;
    repeat split; intros; try congruence; set_solver.
Qed.

(** X15.  A link that [establish_link] creates carries the modulation
    chosen for its band, never OFDM or ADAPTIVE, BPSK or QPSK on
    microwave and never BPSK on the higher bands; its data rate is the
    bandwidth of the band times the spectral efficiency of the
    modulation, between 100 Mbit/s and 600 Gbit/s, so that it is
    positive.  The link is stored under its identifier, and from then
    on [establish_link] for the same source, destination and band
    returns this link and changes nothing, whatever the requirements
    and the channel. *)
Theorem new_link_budget (r r' : MultibandRadio) (src dst : string)
    (band : FrequencyBand) (qos : gmap string Q) (now : Q)
    (d : ChannelDraws) (l : CommunicationLink) :
  active_links r !! make_link_id src dst band = None ->
  establish_link r src dst band qos now d = (r', Some l) ->
  modulation l = _select_modulation band qos /\
  modulation l ∈ [BPSK; QPSK; QAM16; QAM64] /\
  (band = MICROWAVE -> modulation l ∈ [BPSK; QPSK]) /\
  (band <> MICROWAVE -> modulation l <> BPSK) /\
  data_rate l
    = _get_band_bandwidth band * _get_spectral_efficiency (modulation l) /\
  100000000 <= data_rate l /\ data_rate l <= 600000000000 /\
  antenna_gain l = _get_antenna_gain band /\
  frequency_band l = band /\
  link_id l = make_link_id src dst band /\
  active_links r' = <[make_link_id src dst band := l]> (active_links r) /\
  (forall qos' now' d',
     establish_link r' src dst band qos' now' d' = (r', Some l)).
Proof.
  intros Hnew. unfold Radio.establish_link. rewrite Hnew.
  destruct (_assess_channel_conditions _ now d) as [cc|]; [|discriminate].
  destruct (Qlt_le_dec _ _); [|discriminate].
  intros [= <- <-]. cbn.
  pose proof (select_modulation_cases band qos) as (H1 & H2 & H3).
  split; [reflexivity|]. split; [exact H1|]. split; [exact H2|].
  split; [exact H3|]. split; [reflexivity|].
  assert (Hrate : 100000000 <= _get_band_bandwidth band
                                 * _get_spectral_efficiency
                                     (_select_modulation band qos)
                  <= 600000000000).
  { destruct band; cbn in *;
      destruct (_select_modulation _ qos) eqn:E; cbn;
      try lra;
      try (exfalso; apply list_elem_of_In in H1; cbn in H1;
           intuition discriminate);
      try (exfalso; specialize (H2 eq_refl); apply list_elem_of_In in H2;
           cbn in H2; intuition discriminate). }
  split; [lra|]. split; [lra|].
  split; [reflexivity|]. split; [reflexivity|]. split; [reflexivity|].
  split; [reflexivity|].
  intros qos' now' d'. rewrite lookup_insert_eq. reflexivity.
Qed.

End Budget.

(** *** Interference mitigation *)

(** [_identify_interference]. *)
Definition _identify_interference (link : CommunicationLink) : list string :=
  match channel_conditions link with
  | Some cc =>
      (if negb (Qle_bool (interference_level cc) 0.2)
       then ["co_channel_interference"%string] else [])
      ++ (if negb (Qle_bool (multipath_fading cc) 2)
          then ["multipath_interference"%string] else [])
      ++ (if negb (Qle_bool (Qabs (doppler_shift cc)) 500)
          then ["frequency_hopping"%string] else [])
      ++ (if bool_decide (frequency_band link ∈ [TERAHERTZ; OPTICAL])
          then ["spatial_interference"%string] else [])
  | None => []
  end.

(** [_apply_frequency_hopping]: a sleep, and [True]. *)
Definition _apply_frequency_hopping (link : CommunicationLink)
    : CommunicationLink * bool :=
  (link, true).

(** [_apply_power_control]. *)
Definition _apply_power_control (link : CommunicationLink)
    : CommunicationLink * bool :=
  (set_power_level link (power_level link + 2), true).

(** [_apply_beamforming]. *)
Definition _apply_beamforming (link : CommunicationLink)
    : CommunicationLink * bool :=
  if bool_decide (frequency_band link ∈ [TERAHERTZ; OPTICAL])
  then (link, true) else (link, false).

(** [_switch_frequency_band]: the first supported band that differs
    from the one of the link. *)
Fixpoint first_other_band (bands : list FrequencyBand)
    (current : FrequencyBand) : option FrequencyBand :=
  match bands with
  | [] => None
  | band :: rest =>
      if bool_decide (band <> current) then Some band
      else first_other_band rest current
  end.

Definition _switch_frequency_band (r : MultibandRadio)
    (link : CommunicationLink) : CommunicationLink * bool :=
  match first_other_band (supported_bands r) (frequency_band link) with
  | Some band => (set_frequency_band link band, true)
  | None => (link, false)
  end.

(** The body of the [try] block of [cognitive_interference_mitigation]
    for one link. *)
Definition mitigate (r : MultibandRadio) (link : CommunicationLink)
    : CommunicationLink * bool :=
  let interference_sources := _identify_interference link in
  let mitigation_success := false in
  (* Strategy 1: Frequency hopping *)
  let '(link, mitigation_success) :=
    if Py.str_in "frequency_hopping" interference_sources then
      let '(link, success) := _apply_frequency_hopping link in
      (link, mitigation_success || success)
    else (link, mitigation_success) in
  (* Strategy 2: Power control *)
  let '(link, mitigation_success) :=
    if Py.str_in "co_channel_interference" interference_sources then
      let '(link, success) := _apply_power_control link in
      (link, mitigation_success || success)
    else (link, mitigation_success) in
  (* Strategy 3: Beamforming *)
  let '(link, mitigation_success) :=
    if Py.str_in "spatial_interference" interference_sources then
      let '(link, success) := _apply_beamforming link in
      (link, mitigation_success || success)
    else (link, mitigation_success) in
  (* Strategy 4: Band switching *)
  if negb mitigation_success then _switch_frequency_band r link
  else (link, mitigation_success).

(** One pass of the loop of [cognitive_interference_mitigation]; the
    link that is mitigated is the object stored in [active_links]. *)
Definition mitigation_pass (acc : MultibandRadio * gmap string bool)
    (lid : string) : MultibandRadio * gmap string bool :=
  let '(r, mitigation_results) := acc in
  match active_links r !! lid with
  | None => (r, <[lid := false]> mitigation_results)
  | Some link =>
      let '(link, mitigation_success) := mitigate r link in
      (set_active_links r (<[lid := link]> (active_links r)),
       <[lid := mitigation_success]> mitigation_results)
  end.

(** [cognitive_interference_mitigation]. *)
Definition cognitive_interference_mitigation (r : MultibandRadio)
    (interfered_links : list string) : MultibandRadio * gmap string bool :=
  foldl mitigation_pass (r, ∅) interfered_links.

(** The conditions under which the strategies are applied. *)
Definition hops (link : CommunicationLink) : bool :=
  match channel_conditions link with
  | Some cc => negb (Qle_bool (Qabs (doppler_shift cc)) 500)
  | None => false
  end.

Definition raises_power (link : CommunicationLink) : bool :=
  match channel_conditions link with
  | Some cc => negb (Qle_bool (interference_level cc) 0.2)
  | None => false
  end.

Definition forms_beam (link : CommunicationLink) : bool :=
  match channel_conditions link with
  | Some cc => bool_decide (frequency_band link ∈ [TERAHERTZ; OPTICAL])
  | None => false
  end.

Lemma identified_sources (link : CommunicationLink) :
  Py.str_in "frequency_hopping" (_identify_interference link) = hops link /\
  Py.str_in "co_channel_interference" (_identify_interference link)
    = raises_power link /\
  Py.str_in "spatial_interference" (_identify_interference link)
    = forms_beam link.
Proof.
  unfold _identify_interference, hops, raises_power, forms_beam.
  destruct (channel_conditions link) as [cc|]; [|repeat split].
  destruct (Qle_bool (interference_level cc) 0.2);
    destruct (Qle_bool (multipath_fading cc) 2);
    destruct (Qle_bool (Qabs (doppler_shift cc)) 500);
    destruct (bool_decide (frequency_band link ∈ [TERAHERTZ; OPTICAL]));
    repeat split.
Qed.

Lemma first_other_band_spec (bands : list FrequencyBand)
    (current : FrequencyBand) :
  match first_other_band bands current with
  | Some band => band ∈ bands /\ band <> current
  | None => forall band, band ∈ bands -> band = current
  end.
Proof.
  induction bands as [|b bands IH]; cbn.
  - intros band H. inversion H.
  - destruct (bool_decide (b <> current)) eqn:E.
    + apply bool_decide_eq_true in E. split; [left | exact E].
    + apply bool_decide_eq_false in E.
      destruct (first_other_band bands current) as [band|].
      * destruct IH as [Hin Hne]. split; [right; exact Hin | exact Hne].
      * intros band Hin. apply elem_of_cons in Hin as [->|Hin].
        -- destruct (decide (b = current)); [assumption | contradiction].
        -- apply IH. exact Hin.
Qed.

(** What [mitigate] does to one link. *)
Lemma mitigate_spec (r : MultibandRadio) (link : CommunicationLink) :
  let applied := hops link || raises_power link || forms_beam link in
  let other := first_other_band (supported_bands r) (frequency_band link) in
  let link1 :=
    if raises_power link
    then set_power_level link (power_level link + 2) else link in
  mitigate r link =
    if applied then (link1, true)
    else match other with
         | Some band => (set_frequency_band link band, true)
         | None => (link, false)
         end.
Proof.
  cbv zeta. unfold mitigate.
  destruct (identified_sources link) as (-> & -> & ->).
  unfold _apply_frequency_hopping, _apply_power_control, _apply_beamforming,
    _switch_frequency_band, forms_beam.
  destruct (hops link); destruct (raises_power link);
    destruct (channel_conditions link) as [cc|]; cbn;
    try destruct (bool_decide (frequency_band link ∈ [TERAHERTZ; OPTICAL]));
    cbn; try reflexivity;
    destruct (first_other_band _ _); reflexivity.
Qed.

Lemma mitigation_fold (ids : list string) :
  forall r results,
    let res := foldl mitigation_pass (r, results) ids in
    dom (active_links (fst res)) = dom (active_links r) /\
    dom (snd res) = dom results ∪ list_to_set ids /\
    supported_bands (fst res) = supported_bands r /\
    (forall lid, active_links r !! lid = None ->
       active_links (fst res) !! lid = None /\
       (lid ∈ ids -> snd res !! lid = Some false)) /\
    (forall lid, lid ∉ ids ->
       active_links (fst res) !! lid = active_links r !! lid /\
       snd res !! lid = results !! lid).
Proof.
  induction ids as [|lid0 ids IH]; intros r results; cbn [foldl].
  - cbn. split; [reflexivity|]. split; [set_solver|]. split; [reflexivity|].
    split; [|auto]. intros lid H. split; [exact H|]. intros Hin. inversion Hin.
  - set (acc := mitigation_pass (r, results) lid0).
    specialize (IH (fst acc) (snd acc)). cbv zeta in IH.
    replace (foldl mitigation_pass acc ids)
      with (foldl mitigation_pass (fst acc, snd acc) ids)
      by (destruct acc; reflexivity).
    destruct IH as (Hdom & Hres & Hsup & Hunknown & Hother).
    assert (Hacc : dom (active_links (fst acc)) = dom (active_links r) /\
                   snd acc = <[lid0 := default false (snd acc !! lid0)]> results /\
                   is_Some (snd acc !! lid0) /\
                   supported_bands (fst acc) = supported_bands r /\
                   (forall lid, active_links r !! lid = None ->
                      active_links (fst acc) !! lid = None) /\
                   (active_links r !! lid0 = None ->
                      snd acc !! lid0 = Some false) /\
                   (forall lid, lid <> lid0 ->
                      active_links (fst acc) !! lid = active_links r !! lid)).
    { subst acc. unfold mitigation_pass.
      destruct (active_links r !! lid0) as [link|] eqn:E.
      - destruct (mitigate r link) as [link' ok]. cbn.
        rewrite lookup_insert_eq. cbn.
        split; [|split; [reflexivity|split; [eauto|split; [reflexivity|]]]].
        + rewrite dom_insert_L.
          assert (lid0 ∈ dom (active_links r)) by (apply elem_of_dom; eauto).
          set_solver.
        + split; [|split; [discriminate|]].
          * intros lid Hl. rewrite lookup_insert_ne by congruence. exact Hl.
          * intros lid Hl. apply lookup_insert_ne. congruence.
      - cbn. rewrite lookup_insert_eq. cbn.
        repeat split; eauto. }
    destruct Hacc as (Hd0 & Hs0 & Hsome0 & Hsup0 & Hu0 & Hf0 & Ho0).
    split; [congruence|]. split.
    { rewrite Hres, Hs0, dom_insert_L. set_solver. }
    split; [congruence|]. split.
    + intros lid Hl. destruct (Hunknown lid (Hu0 lid Hl)) as [H1 H2].
      split; [exact H1|]. intros Hin.
      destruct (decide (lid ∈ ids)) as [Hin'|Hnin]; [exact (H2 Hin')|].
      apply elem_of_cons in Hin as [->|Hin]; [|contradiction].
      destruct (Hother lid0 Hnin) as [_ ->]. exact (Hf0 Hl).
    + intros lid Hnin.
      apply not_elem_of_cons in Hnin as [Hne Hnin].
      destruct (Hother lid Hnin) as [-> ->].
      split; [apply Ho0; exact Hne|].
      rewrite Hs0. apply lookup_insert_ne. congruence.
Qed.

(** X16.  [cognitive_interference_mitigation] reports exactly the
    given identifiers, and false for every one that is not an active
    link; it neither adds nor removes a link.  For a single active
    link the mitigation succeeds exactly when the link hops (Doppler
    shift over 500 Hz), raises its power (interference over 0.2), forms
    a beam (terahertz or optical band; each with channel conditions
    known) or the radio supports another band.  Power control adds
    2 dB; the band is switched, to the first other supported band, only
    when no other strategy applied, and the link then stays filed
    under the identifier that names its old band. *)
Theorem mitigation_outcome (r : MultibandRadio) (ids : list string)
    (lid : string) (link : CommunicationLink) :
  active_links r !! lid = Some link ->
  let all := cognitive_interference_mitigation r ids in
  let one := cognitive_interference_mitigation r [lid] in
  let applied := hops link || raises_power link || forms_beam link in
  let other := first_other_band (supported_bands r) (frequency_band link) in
  dom (snd all) = list_to_set ids /\
  dom (active_links (fst all)) = dom (active_links r) /\
  (forall unknown,
     unknown ∈ ids -> active_links r !! unknown = None ->
     snd all !! unknown = Some false) /\
  snd one = {[ lid := applied || bool_decide (is_Some other) ]} /\
  (snd one !! lid = Some false <->
     applied = false /\
     forall band, band ∈ supported_bands r -> band = frequency_band link) /\
  (exists link',
     active_links (fst one) = <[lid := link']> (active_links r) /\
     power_level link'
       = (if raises_power link then power_level link + 2
          else power_level link) /\
     frequency_band link'
       = (if applied then frequency_band link
          else default (frequency_band link) other) /\
     link_id link' = link_id link /\
     data_rate link' = data_rate link /\
     modulation link' = modulation link /\
     channel_conditions link' = channel_conditions link).
Proof.
  intros Hlink. cbv zeta.
  destruct (mitigation_fold ids r ∅) as (Hdom & Hres & _ & Hunknown & _).
  split; [unfold cognitive_interference_mitigation; rewrite Hres; set_solver|].
  split; [exact Hdom|]. split.
  { intros unknown Hin Hnone. exact (proj2 (Hunknown unknown Hnone) Hin). }
  unfold cognitive_interference_mitigation. cbn [foldl].
  unfold mitigation_pass. rewrite Hlink.
  rewrite (mitigate_spec r link). cbv zeta.
  pose proof (first_other_band_spec (supported_bands r) (frequency_band link))
    as Hother.
  destruct (hops link || raises_power link || forms_beam link) eqn:Eapplied.
  - cbn [fst snd orb]. split; [reflexivity|]. split.
    { rewrite lookup_insert_eq. split; [discriminate|]. intros [H _].
      discriminate. }
    eexists. split; [reflexivity|].
    destruct (raises_power link); cbn; repeat split.
  - destruct (first_other_band _ _) as [band|]; cbn [fst snd orb].
    + split; [reflexivity|]. split.
      { rewrite lookup_insert_eq. split; [discriminate|].
        intros [_ H]. destruct Hother as [Hin Hne].
        exfalso. apply Hne. apply H. exact Hin. }
      eexists. split; [reflexivity|].
      assert (Hp : raises_power link = false).
      { destruct (hops link); destruct (raises_power link);
          try discriminate; reflexivity. }
      rewrite Hp. cbn. repeat split.
    + split; [reflexivity|]. split.
      { rewrite lookup_insert_eq. split; [|reflexivity].
        intros _. split; [reflexivity | exact Hother]. }
      eexists. split; [reflexivity|].
      assert (Hp : raises_power link = false).
      { destruct (hops link); destruct (raises_power link);
          try discriminate; reflexivity. }
      rewrite Hp. cbn. repeat split.
Qed.

(** *** Spectrum sensing *)

#[global] Instance FrequencyBand_countable : Countable FrequencyBand.
Proof.
  refine (inj_countable'
    (fun b => match b with
              | MICROWAVE => 0 | MILLIMETER_WAVE => 1
              | TERAHERTZ => 2 | OPTICAL => 3
              end)%nat
    (fun n => match n with
              | 0 => MICROWAVE | 1 => MILLIMETER_WAVE
              | 2 => TERAHERTZ | _ => OPTICAL
              end)%nat _).
  intros []; reflexivity.
Defined.

(** The values drawn by one call of [_measure_spectrum_occupancy]. *)
Record SpectrumDraws := {
  draw_occupancy : Q;            (* random.uniform(0.1, 0.8) *)
  draw_interference_level : Q;   (* random.uniform(0.0, 0.3) *)
  draw_signal_quality : Q        (* random.uniform(0.6, 1.0) *)
}.

Definition spectrum_draws_in_range (d : SpectrumDraws) : Prop :=
  0.1 <= draw_occupancy d <= 0.8 /\
  0 <= draw_interference_level d <= 0.3 /\
  0.6 <= draw_signal_quality d <= 1.

(** [_measure_spectrum_occupancy]. *)
Definition _measure_spectrum_occupancy (band : FrequencyBand)
    (duration : Q) (d : SpectrumDraws) : gmap string Q :=
  let base_occupancy := draw_occupancy d in
  let interference_level := draw_interference_level d in
  let signal_quality := draw_signal_quality d in
  <["available_bandwidth"%string := (1 - base_occupancy) * 100]>
    (<["signal_quality"%string := signal_quality]>
       (<["interference"%string := interference_level]>
          (<["occupancy"%string := base_occupancy]> ∅))).

(** The history of a band after one more measurement. *)
Definition record_occupancy (r : MultibandRadio) (band : FrequencyBand)
    (occupancy : Q) : MultibandRadio :=
  let name := band_name band in
  let history := default [] (spectrum_sensing_data r !! name) in
  let history := history ++ [occupancy] in
  (* Keep only recent history *)
  let history :=
    if (100 <? length history)%nat then drop 1 history else history in
  set_spectrum_sensing_data r (<[name := history]> (spectrum_sensing_data r)).

(** The loop of [sense_spectrum] over the remaining bands; the
    [k]-th measurement uses [draws k]. *)
Fixpoint sense_bands (bands : list FrequencyBand) (duration : Q)
    (draws : nat -> SpectrumDraws) (k : nat) (r : MultibandRadio)
    (spectrum_data : gmap FrequencyBand (gmap string Q))
    : MultibandRadio * gmap FrequencyBand (gmap string Q) :=
  match bands with
  | [] => (r, spectrum_data)
  | band :: rest =>
      let spectrum_info := _measure_spectrum_occupancy band duration (draws k) in
      let spectrum_data := <[band := spectrum_info]> spectrum_data in
      let r := record_occupancy r band
                 (default 0 (spectrum_info !! "occupancy"%string)) in
      sense_bands rest duration draws (S k) r spectrum_data
  end.

(** [sense_spectrum]. *)
Definition sense_spectrum (r : MultibandRadio) (duration : Q)
    (draws : nat -> SpectrumDraws)
    : MultibandRadio * gmap FrequencyBand (gmap string Q) :=
  sense_bands (supported_bands r) duration draws 0 r ∅.

(** No history is longer than the hundred entries kept. *)
Definition histories_bounded (r : MultibandRadio) : Prop :=
  forall name history,
    spectrum_sensing_data r !! name = Some history ->
    (length history <= 100)%nat.

Lemma band_name_inj (a b : FrequencyBand) : band_name a = band_name b -> a = b.
Proof. destruct a, b; cbn; congruence. Qed.

Lemma measured_occupancy band duration d :
  _measure_spectrum_occupancy band duration d !! "occupancy"%string
  = Some (draw_occupancy d).
Proof. reflexivity. Qed.

Lemma recent_history (old : list Q) (occupancy : Q) :
  let history := old ++ [occupancy] in
  let history :=
    if (100 <? length history)%nat then drop 1 history else history in
  last history = Some occupancy /\
  ((length old <= 100)%nat -> (length history <= 100)%nat).
Proof.
  cbn zeta.
  destruct (Nat.ltb_spec 100 (length (old ++ [occupancy]))) as [E|E].
  - split.
    + rewrite length_app in E. cbn [length] in E.
      destruct old as [|x old]; [cbn [length] in E; lia|].
      cbn [app drop]. apply last_snoc.
    + intros H. rewrite length_drop, length_app. cbn [length]. lia.
  - split; [apply last_snoc|]. intros _. exact E.
Qed.

Lemma record_occupancy_history r band occupancy :
  exists history,
    spectrum_sensing_data (record_occupancy r band occupancy)
      !! band_name band = Some history /\
    last history = Some occupancy /\
    ((length (default [] (spectrum_sensing_data r !! band_name band))
      <= 100)%nat -> (length history <= 100)%nat).
Proof.
  eexists. split.
  - unfold record_occupancy, set_spectrum_sensing_data.
    cbn [spectrum_sensing_data]. apply lookup_insert_eq.
  - apply recent_history.
Qed.

Lemma record_occupancy_other r band occupancy name :
  name <> band_name band ->
  spectrum_sensing_data (record_occupancy r band occupancy) !! name
  = spectrum_sensing_data r !! name.
Proof.
  intros H. unfold record_occupancy, set_spectrum_sensing_data.
  cbn [spectrum_sensing_data]. apply lookup_insert_ne. congruence.
Qed.

Lemma record_occupancy_bounded r band occupancy :
  histories_bounded r ->
  histories_bounded (record_occupancy r band occupancy).
Proof.
  intros Hb name history Hl.
  destruct (decide (name = band_name band)) as [->|Hn].
  - destruct (record_occupancy_history r band occupancy)
      as (h & Hh & _ & Hlen).
    rewrite Hh in Hl. injection Hl as <-. apply Hlen.
    destruct (spectrum_sensing_data r !! band_name band) as [old|] eqn:E;
      cbn; [eapply Hb; exact E | lia].
  - rewrite record_occupancy_other in Hl by exact Hn. eapply Hb; exact Hl.
Qed.

Lemma record_occupancy_frame r band occupancy :
  record_occupancy r band occupancy
  = set_spectrum_sensing_data r
      (spectrum_sensing_data (record_occupancy r band occupancy)).
Proof. reflexivity. Qed.

Lemma sense_bands_spec duration draws bands :
  forall k r data,
    histories_bounded r ->
    let res := sense_bands bands duration draws k r data in
    histories_bounded (fst res) /\
    dom (snd res) = list_to_set bands ∪ dom data /\
    (forall i band,
       bands !! i = Some band ->
       (forall j, (i < j)%nat -> bands !! j <> Some band) ->
       snd res !! band
       = Some (_measure_spectrum_occupancy band duration (draws (k + i)%nat)) /\
       exists history,
         spectrum_sensing_data (fst res) !! band_name band = Some history /\
         last history = Some (draw_occupancy (draws (k + i)%nat))) /\
    (forall band, band ∉ bands -> snd res !! band = data !! band) /\
    (forall name,
       (forall band, band ∈ bands -> band_name band <> name) ->
       spectrum_sensing_data (fst res) !! name
       = spectrum_sensing_data r !! name) /\
    fst res = set_spectrum_sensing_data r (spectrum_sensing_data (fst res)).
Proof.
  induction bands as [|band rest IH]; intros k r data Hb; cbn zeta.
  - cbn. repeat split; try done.
    + set_solver.
    + destruct r; reflexivity.
  - cbn [sense_bands]. rewrite measured_occupancy. cbn [default from_option]. unfold id.
    set (info := _measure_spectrum_occupancy band duration (draws k)).
    set (r1 := record_occupancy r band (draw_occupancy (draws k))).
    specialize (IH (S k) r1 (<[band := info]> data)
                  (record_occupancy_bounded _ _ _ Hb)).
    cbn zeta in IH.
    destruct IH as (Hb' & Hdom & Hmeas & Hdata & Hhist & Hframe).
    split; [exact Hb'|].
    split; [rewrite Hdom, dom_insert_L; set_solver|].
    split; [|split; [|split]].
    + intros [|i] b Hi Hlast.
      * cbn in Hi. injection Hi as <-.
        assert (Hnot : band ∉ rest).
        { intros Hin. apply list_elem_of_lookup_1 in Hin as [j Hj].
          apply (Hlast (S j)); [lia | exact Hj]. }
        rewrite Nat.add_0_r. split.
        -- rewrite Hdata by exact Hnot. apply lookup_insert_eq.
        -- destruct (record_occupancy_history r band
                       (draw_occupancy (draws k))) as (h & Hh & Hl & _).
           exists h. split; [|exact Hl].
           rewrite Hhist; [exact Hh|].
           intros b Hin Heq. apply band_name_inj in Heq. congruence.
      * cbn in Hi.
        replace (k + S i)%nat with (S k + i)%nat by lia.
        apply Hmeas; [exact Hi|].
        intros j Hj. apply (Hlast (S j)). lia.
    + intros b Hn. apply not_elem_of_cons in Hn as [Hne Hn].
      rewrite Hdata by exact Hn. apply lookup_insert_ne. congruence.
    + intros name Hname. rewrite Hhist.
      * apply record_occupancy_other. intros ->.
        apply (Hname band); [left | reflexivity].
      * intros b Hin. apply Hname. right. exact Hin.
    + rewrite Hframe at 1. reflexivity.
Qed.

(** X17.  [sense_spectrum] measures every supported band once, in
    order: the returned dictionary has exactly the supported bands as
    keys and holds, for each band, its last measurement, whose
    occupancy is also the newest entry of that band's history.  The
    histories of all other names and every other field of the radio
    are untouched, and no history grows beyond one hundred entries. *)
Theorem sense_spectrum_history (r : MultibandRadio) (duration : Q)
    (draws : nat -> SpectrumDraws) :
  histories_bounded r ->
  let r' := fst (sense_spectrum r duration draws) in
  let spectrum_data := snd (sense_spectrum r duration draws) in
  histories_bounded r' /\
  dom spectrum_data = list_to_set (supported_bands r) /\
  (forall k band,
     supported_bands r !! k = Some band ->
     (forall j, (k < j)%nat -> supported_bands r !! j <> Some band) ->
     spectrum_data !! band
     = Some (_measure_spectrum_occupancy band duration (draws k)) /\
     exists history,
       spectrum_sensing_data r' !! band_name band = Some history /\
       last history = Some (draw_occupancy (draws k))) /\
  (forall name,
     (forall band, band ∈ supported_bands r -> band_name band <> name) ->
     spectrum_sensing_data r' !! name = spectrum_sensing_data r !! name) /\
  r' = set_spectrum_sensing_data r (spectrum_sensing_data r').
Proof.
  intros Hb. cbn zeta. unfold sense_spectrum.
  destruct (sense_bands_spec duration draws (supported_bands r) 0 r ∅ Hb)
    as (H1 & H2 & H3 & _ & H5 & H6).
  split; [exact H1|].
  split; [rewrite H2; set_solver|].
  split; [exact H3|].
  split; [exact H5 | exact H6].
Qed.

(** *** Band selection *)

(** [d[key] = value] on a dictionary whose iteration order matters: a
    known key keeps its place, a new key goes last. *)
Fixpoint dict_set {K V} `{EqDecision K} (d : list (K * V)) (key : K)
    (value : V) : list (K * V) :=
  match d with
  | [] => [(key, value)]
  | (k, v) :: rest =>
      if decide (k = key) then (k, value) :: rest
      else (k, v) :: dict_set rest key value
  end.

(** [max(items, key=...)] of a non-empty sequence: the first item
    whose key no later item exceeds. *)
Definition max_by {A} (key : A -> Q) (first : A) (rest : list A) : A :=
  foldl (fun best item =>
           if negb (Qle_bool (key item) (key best)) then item else best)
        first rest.

(** The test of the scoring loop of [select_optimal_band]. *)
Definition acceptable (transmission_req : TransmissionRequest)
    (band : FrequencyBand) : bool :=
  bool_decide (band ∈ preferred_bands transmission_req)
  || bool_decide (preferred_bands transmission_req = []).

(** [select_optimal_band]; the radio it returns is the one left by the
    spectrum sensing. *)
Definition select_optimal_band (r : MultibandRadio)
    (transmission_req : TransmissionRequest)
    (channel_conditions : gmap string ChannelConditions)
    (draws : nat -> SpectrumDraws)
    : MultibandRadio * option FrequencyBand :=
  (* Get current spectrum conditions *)
  let '(r, spectrum_data) := sense_spectrum r 1 draws in
  (* Score each available band *)
  let band_scores :=
    foldl (fun band_scores band =>
             if acceptable transmission_req band then
               let score :=
                 _calculate_band_score band transmission_req
                   (default ∅ (spectrum_data !! band))
                   (channel_conditions !! destination transmission_req) in
               dict_set band_scores band score
             else band_scores)
          [] (supported_bands r) in
  match band_scores with
  | [] => (r, None)
  | first :: rest =>
      (* Select band with highest score *)
      (r, Some (fst (max_by snd first rest)))
  end.

Lemma dict_set_known {K V} `{EqDecision K} (d : list (K * V)) key value :
  (key, value) ∈ d -> NoDup d.*1 -> dict_set d key value = d.
Proof.
  induction d as [|[k v] d IH]; intros Hin Hnd; [inversion Hin|].
  cbn. apply NoDup_cons in Hnd as [Hk Hnd]. destruct (decide (k = key)) as [->|Hne].
  - apply elem_of_cons in Hin as [Heq|Hin]; [congruence|].
    exfalso. apply Hk. apply (list_elem_of_fmap_2 fst) in Hin. exact Hin.
  - apply elem_of_cons in Hin as [Heq|Hin]; [congruence|].
    rewrite IH; auto.
Qed.

Lemma dict_set_new {K V} `{EqDecision K} (d : list (K * V)) key value :
  key ∉ d.*1 -> dict_set d key value = d ++ [(key, value)].
Proof.
  induction d as [|[k v] d IH]; intros Hn; [reflexivity|].
  cbn in *. apply not_elem_of_cons in Hn as [Hne Hn].
  destruct (decide (k = key)); [congruence|]. rewrite IH; auto.
Qed.

(** What [max] with a key returns. *)
Lemma max_by_spec {A} (key : A -> Q) (rest : list A) :
  forall first,
    exists before after,
      first :: rest = before ++ max_by key first rest :: after /\
      (forall x, x ∈ before -> key x < key (max_by key first rest)) /\
      (forall x, x ∈ after -> key x <= key (max_by key first rest)).
Proof.
  unfold max_by.
  induction rest as [|y rest IH] using rev_ind; intros first.
  - exists [], []. cbn. split; [reflexivity|]. split; intros x Hx; inversion Hx.
  - rewrite foldl_snoc.
    destruct (IH first) as (before & after & Heq & Hb & Ha).
    set (best := foldl _ first rest) in *.
    destruct (Qle_bool (key y) (key best)) eqn:E; cbn [negb].
    + apply Qle_bool_iff in E.
      exists before, (after ++ [y]). split; [|split; [exact Hb|]].
      * rewrite app_comm_cons, Heq, <- app_assoc. reflexivity.
      * intros x Hx. apply elem_of_app in Hx as [Hx|Hx]; [auto|].
        apply list_elem_of_singleton in Hx as ->. exact E.
    + assert (Hlt : key best < key y).
      { apply Qnot_le_lt. intros H. apply Qle_bool_iff in H. congruence. }
      exists (first :: rest), []. split; [|split].
      * rewrite app_comm_cons. reflexivity.
      * intros x Hx. rewrite Heq in Hx.
        apply elem_of_app in Hx as [Hx|Hx].
        -- specialize (Hb x Hx). lra.
        -- apply elem_of_cons in Hx as [->|Hx]; [exact Hlt|].
           specialize (Ha x Hx). lra.
      * intros x Hx. inversion Hx.
Qed.

Section Scoring.

Variable ok : FrequencyBand -> bool.
Variable score : FrequencyBand -> Q.

Definition score_band (band_scores : list (FrequencyBand * Q))
    (band : FrequencyBand) : list (FrequencyBand * Q) :=
  if ok band then dict_set band_scores band (score band) else band_scores.

(** The dictionary of scores after the loop: one entry for every
    acceptable band, in the order of the first occurrences. *)
Lemma scoring_spec (bands : list FrequencyBand) :
  let band_scores := foldl score_band [] bands in
  NoDup band_scores.*1 /\
  (forall b s, (b, s) ∈ band_scores ->
     s = score b /\ b ∈ bands /\ ok b = true) /\
  (forall b, b ∈ bands -> ok b = true -> b ∈ band_scores.*1) /\
  (forall sc1 x sc2, band_scores = sc1 ++ x :: sc2 ->
     exists p1 p2, bands = p1 ++ x.1 :: p2 /\
       forall b, b ∈ p1 -> ok b = true -> b ∈ sc1.*1).
Proof.
  induction bands as [|band bands IH] using rev_ind; cbn zeta.
  - cbn. split; [constructor|]. split; [intros b s H; inversion H|].
    split; [intros b H; inversion H|].
    intros [|] ? ? H; discriminate.
  - rewrite foldl_snoc. cbn zeta in IH.
    set (d := foldl score_band [] bands) in *.
    destruct IH as (Hnd & Hval & Hall & Hord).
    assert (Hstep : score_band d band
                    = if ok band then dict_set d band (score band) else d)
      by reflexivity.
    rewrite Hstep. clear Hstep. destruct (ok band) eqn:Eok.
    + destruct (decide (band ∈ d.*1)) as [Hin|Hnin].
      * assert (Hd : dict_set d band (score band) = d).
        { apply dict_set_known; [|exact Hnd].
          apply list_elem_of_fmap in Hin as ([b s] & -> & Hbs).
          destruct (Hval _ _ Hbs) as (-> & _). exact Hbs. }
        rewrite Hd. split; [exact Hnd|]. split; [|split].
        -- intros b s Hbs. destruct (Hval _ _ Hbs) as (? & ? & ?).
           split; [auto|]. split; [|auto]. apply elem_of_app. auto.
        -- intros b Hb Hok. apply elem_of_app in Hb as [Hb|Hb]; [auto|].
           apply list_elem_of_singleton in Hb as ->. exact Hin.
        -- intros sc1 x sc2 Heq.
           destruct (Hord _ _ _ Heq) as (p1 & p2 & -> & Hp).
           exists p1, (p2 ++ [band]). split; [|exact Hp].
           rewrite <- app_assoc. reflexivity.
      * rewrite dict_set_new by exact Hnin.
        split; [|split; [|split]].
        -- rewrite fmap_app. cbn. apply NoDup_app. split; [exact Hnd|].
           split; [|apply NoDup_singleton].
           intros b Hb Hb'. apply list_elem_of_singleton in Hb' as ->. auto.
        -- intros b s Hbs. apply elem_of_app in Hbs as [Hbs|Hbs].
           ++ destruct (Hval _ _ Hbs) as (? & ? & ?).
              split; [auto|]. split; [|auto]. apply elem_of_app. auto.
           ++ apply list_elem_of_singleton in Hbs. injection Hbs as -> ->.
              split; [reflexivity|]. split; [|exact Eok].
              apply elem_of_app. right. apply list_elem_of_singleton.
              reflexivity.
        -- intros b Hb Hok. rewrite fmap_app. apply elem_of_app.
           apply elem_of_app in Hb as [Hb|Hb]; [left; auto|].
           right. exact Hb.
        -- intros sc1 x sc2 Heq.
           destruct sc2 as [|y sc2 _] using rev_ind.
           ++ apply app_inj_tail in Heq as [<- <-].
              exists bands, []. split; [reflexivity|]. exact Hall.
           ++ rewrite app_comm_cons, app_assoc in Heq.
              apply app_inj_tail in Heq as [Heq _].
              destruct (Hord _ _ _ Heq) as (p1 & p2 & -> & Hp).
              exists p1, (p2 ++ [band]). split; [|exact Hp].
              rewrite <- app_assoc. reflexivity.
    + split; [exact Hnd|]. split; [|split].
      * intros b s Hbs. destruct (Hval _ _ Hbs) as (? & ? & ?).
        split; [auto|]. split; [|auto]. apply elem_of_app. auto.
      * intros b Hb Hok. apply elem_of_app in Hb as [Hb|Hb]; [auto|].
        apply list_elem_of_singleton in Hb as ->. congruence.
      * intros sc1 x sc2 Heq.
        destruct (Hord _ _ _ Heq) as (p1 & p2 & -> & Hp).
        exists p1, (p2 ++ [band]). split; [|exact Hp].
        rewrite <- app_assoc. reflexivity.
Qed.

End Scoring.

Lemma sense_spectrum_bands r duration draws :
  supported_bands (fst (sense_spectrum r duration draws)) = supported_bands r.
Proof.
  unfold sense_spectrum.
  generalize 0%nat (∅ : gmap FrequencyBand (gmap string Q)).
  generalize (supported_bands r) at 1.
  intros bands. revert r.
  induction bands as [|band bands IH]; intros r k data; [reflexivity|].
  cbn [sense_bands]. rewrite IH. reflexivity.
Qed.

(** X18.  [select_optimal_band] returns nothing exactly when no
    supported band passes the preference test.  Otherwise it returns a
    supported band that passes the test and whose score, computed from
    the measurements just taken, is not exceeded by any other such
    band; among equal scores the band listed first wins.  The radio is
    left as the spectrum sensing leaves it. *)
Theorem optimal_band_selected (r : MultibandRadio)
    (transmission_req : TransmissionRequest)
    (channel_conditions : gmap string ChannelConditions)
    (draws : nat -> SpectrumDraws) :
  let res := select_optimal_band r transmission_req channel_conditions draws in
  let spectrum_data := snd (sense_spectrum r 1 draws) in
  let score band :=
    _calculate_band_score band transmission_req
      (default ∅ (spectrum_data !! band))
      (channel_conditions !! destination transmission_req) in
  fst res = fst (sense_spectrum r 1 draws) /\
  (snd res = None <->
     forall band, band ∈ supported_bands r ->
       acceptable transmission_req band = false) /\
  (forall best, snd res = Some best ->
     acceptable transmission_req best = true /\
     (forall band, band ∈ supported_bands r ->
        acceptable transmission_req band = true -> score band <= score best) /\
     exists before after,
       supported_bands r = before ++ best :: after /\
       forall band, band ∈ before ->
         acceptable transmission_req band = true -> score band < score best).
Proof.
  cbn zeta. unfold select_optimal_band.
  pose proof (sense_spectrum_bands r 1 draws) as Hbands.
  destruct (sense_spectrum r 1 draws) as [r' spectrum_data] eqn:Es.
  cbn [fst snd] in *. rewrite Hbands.
  set (score := fun band =>
    _calculate_band_score band transmission_req
      (default ∅ (spectrum_data !! band))
      (channel_conditions !! destination transmission_req)).
  change (foldl _ [] (supported_bands r))
    with (foldl (score_band (acceptable transmission_req) score) []
            (supported_bands r)).
  destruct (scoring_spec (acceptable transmission_req) score
              (supported_bands r)) as (Hnd & Hval & Hall & Hord).
  cbn zeta in *.
  destruct (foldl _ [] (supported_bands r)) as [|first rest] eqn:Ed.
  - cbn [fst snd]. split; [reflexivity|]. split.
    + split; [|reflexivity]. intros _ band Hb.
      destruct (acceptable transmission_req band) eqn:E; [|reflexivity].
      specialize (Hall band Hb E). inversion Hall.
    + intros best H. discriminate.
  - cbn [fst snd]. split; [reflexivity|].
    destruct (max_by_spec snd rest first) as (sc1 & sc2 & Heq & Hlt & Hle).
    set (best := max_by snd first rest) in *.
    assert (Hbest : best ∈ first :: rest).
    { rewrite Heq. apply elem_of_app. right. left. }
    destruct best as [b s] eqn:Eb. cbn [fst snd] in *.
    destruct (Hval _ _ Hbest) as (-> & Hsup & Hok).
    split.
    + split; [discriminate|]. intros H. rewrite H in Hok by exact Hsup.
      discriminate.
    + intros best' H. injection H as <-.
      split; [exact Hok|]. split.
      * intros band Hb Hacc. specialize (Hall band Hb Hacc).
        apply list_elem_of_fmap in Hall as ([b' s'] & -> & Hin).
        destruct (Hval _ _ Hin) as (-> & _). cbn [fst].
        rewrite Heq in Hin. apply elem_of_app in Hin as [Hin|Hin].
        -- specialize (Hlt _ Hin). apply Qlt_le_weak. exact Hlt.
        -- apply elem_of_cons in Hin as [Hin|Hin].
           ++ injection Hin as ->. apply Qle_refl.
           ++ specialize (Hle _ Hin). exact Hle.
      * destruct (Hord _ _ _ Heq) as (p1 & p2 & Hp & Hpre).
        exists p1, p2. split; [exact Hp|].
        intros band Hb Hacc. specialize (Hpre band Hb Hacc).
        apply list_elem_of_fmap in Hpre as ([b' s'] & -> & Hin).
        assert (Hin' : (b', s') ∈ first :: rest).
        { rewrite Heq. apply elem_of_app. left. exact Hin. }
        destruct (Hval _ _ Hin') as (-> & _). cbn [fst].
        specialize (Hlt _ Hin). exact Hlt.
Qed.

(** *** The properties at concrete radios *)

(** Conditions outside all three limits of the adaptation. *)
Definition noisy_conditions : ChannelConditions :=
  {| signal_to_noise_ratio := 5; bit_error_rate := 0.001;
     atmospheric_loss := 1; multipath_fading := 0; doppler_shift := 0;
     interference_level := 0.1; weather_impact := "clear";
     link_quality_score := 0.3; cc_timestamp := 0 |}.

Lemma adaptation_backs_off_witness :
  let link' := _adapt_transmission_parameters RadioSpec.busy_radio
                 RadioSpec.microwave_link noisy_conditions in
  0 < data_rate link' /\
  data_rate link' == 160000000 /\
  power_level link' == 3 /\
  modulation link' = BPSK /\
  frequency_band link' = MICROWAVE.
Proof.
  destruct (adaptation_backs_off RadioSpec.busy_radio RadioSpec.microwave_link
              noisy_conditions ltac:(reflexivity))
    as (H1 & _ & H3 & _ & _ & _ & _ & _ & H9 & _).
  split; [exact H1|].
  split; [rewrite H3; [reflexivity | reflexivity]|].
  split; [reflexivity|]. split; [reflexivity | exact H9].
Defined.

(** Favourable draws in clear weather; the chunk draw is 0.5. *)
Definition clear_draws : ChannelDraws :=
  {| draw_snr := 30; draw_ber := 0.000000001; draw_atmospheric_loss := 0.1;
     draw_weather := "clear"; draw_multipath := 0; draw_doppler := 0;
     draw_interference := 0 |}.

Lemma clear_draws_in_range : draws_in_range clear_draws.
Proof.
  unfold draws_in_range, clear_draws, weather_conditions. simpl.
  repeat split; try lra. set_solver.
Qed.

Definition three_bytes : list byte := ["a"; "b"; "c"]%byte.

Lemma adaptive_transmission_ends_witness :
  exists r' link' res,
    adaptive_transmission 9 RadioSpec.busy_radio RadioSpec.microwave_link
      three_bytes 0 1 (fun _ => (clear_draws, 0.5)) = Some (r', link', res) /\
    (0 <= bytes_transmitted res <= 3)%Z /\
    (0 <= retransmissions res <= 6)%Z /\
    0 < data_rate link' /\ data_rate link' <= 200000000.
Proof.
  destruct (adaptive_transmission_ends RadioSpec.busy_radio
              RadioSpec.microwave_link three_bytes 0 1
              (fun _ => (clear_draws, 0.5))
              (fun _ => clear_draws_in_range) ltac:(reflexivity))
    as (r' & link' & res & Hrun & Hb & _ & Hre & _ & _ & _ & _ & _
          & Hpos & Hle & _).
  exists r', link', res.
  split; [apply Hrun; cbn; lia|].
  split; [exact Hb|]. split; [exact Hre|]. split; [exact Hpos | exact Hle].
Defined.

Lemma new_link_budget_witness :
  let res := Radio.establish_link (fun _ => 0)
               (init "radio-1" [MICROWAVE]) "sat-a" "sat-b" MICROWAVE ∅ 0
               clear_draws in
  exists l,
    snd res = Some l /\
    modulation l ∈ [BPSK; QPSK] /\
    100000000 <= data_rate l /\
    active_links (fst res) = <["sat-a-sat-b-MICROWAVE"%string := l]> ∅ /\
    Radio.establish_link (fun _ => 0) (fst res) "sat-a" "sat-b" MICROWAVE ∅ 5
      RadioSpec.poor_draws = (fst res, Some l).
Proof.
  cbn zeta.
  set (res := Radio.establish_link (fun _ => 0)
                (init "radio-1" [MICROWAVE]) "sat-a" "sat-b" MICROWAVE ∅ 0
                clear_draws).
  assert (Hres : res = (fst res, Some (default RadioSpec.microwave_link
                                         (snd res))))
    by (vm_compute; reflexivity).
  destruct (new_link_budget (fun _ => 0) (init "radio-1" [MICROWAVE]) (fst res)
              "sat-a" "sat-b" MICROWAVE ∅ 0 clear_draws
              (default RadioSpec.microwave_link (snd res))
              ltac:(reflexivity) Hres)
    as (_ & _ & H3 & _ & _ & H6 & _ & _ & _ & _ & H11 & H12).
  exists (default RadioSpec.microwave_link (snd res)).
  split; [vm_compute; reflexivity|].
  split; [apply H3; reflexivity|]. split; [exact H6|].
  split; [exact H11|]. exact (H12 ∅ 5 RadioSpec.poor_draws).
Defined.

(** A radio with a second band to switch to. *)
Definition dual_radio : MultibandRadio :=
  set_active_links (init "radio-2" [MICROWAVE; OPTICAL])
    (<["sat-a-sat-b-MICROWAVE"%string := RadioSpec.microwave_link]> ∅).

Lemma mitigation_outcome_witness :
  let lid := "sat-a-sat-b-MICROWAVE"%string in
  let all := cognitive_interference_mitigation dual_radio [lid; "ghost"%string] in
  let one := cognitive_interference_mitigation dual_radio [lid] in
  snd all !! "ghost"%string = Some false /\
  snd one = {[ lid := true ]} /\
  exists link',
    active_links (fst one) = <[lid := link']> (active_links dual_radio) /\
    frequency_band link' = OPTICAL /\
    link_id link' = lid.
Proof.
  cbn zeta.
  destruct (mitigation_outcome dual_radio
              ["sat-a-sat-b-MICROWAVE"; "ghost"]%string
              "sat-a-sat-b-MICROWAVE" RadioSpec.microwave_link
              ltac:(reflexivity))
    as (_ & _ & H3 & H4 & _ & link' & H6 & _ & H8 & H9 & _).
  split; [apply H3; [set_solver | reflexivity]|].
  split; [exact H4|].
  exists link'. split; [exact H6|]. split; [exact H8 | exact H9].
Defined.

(** A radio that has not sensed yet, and the draws of a quiet band. *)
Definition quiet_draws : SpectrumDraws :=
  {| draw_occupancy := 0.2; draw_interference_level := 0.1;
     draw_signal_quality := 0.9 |}.

Lemma init_histories_bounded rid bands : histories_bounded (init rid bands).
Proof. intros name history H. cbn in H. rewrite lookup_empty in H. discriminate. Qed.

Lemma sense_spectrum_history_witness :
  let r := init "radio-2" [MICROWAVE; OPTICAL] in
  let res := sense_spectrum r 1 (fun _ => quiet_draws) in
  histories_bounded (fst res) /\
  dom (snd res) = {[ MICROWAVE; OPTICAL ]} /\
  snd res !! OPTICAL
    = Some (_measure_spectrum_occupancy OPTICAL 1 quiet_draws) /\
  exists history,
    spectrum_sensing_data (fst res) !! "OPTICAL"%string = Some history /\
    last history = Some 0.2.
Proof.
  cbn zeta.
  destruct (sense_spectrum_history (init "radio-2" [MICROWAVE; OPTICAL]) 1
              (fun _ => quiet_draws) (init_histories_bounded _ _))
    as (H1 & H2 & H3 & _).
  split; [exact H1|].
  split; [rewrite H2; cbn; set_solver|].
  destruct (H3 1%nat OPTICAL eq_refl) as [H4 H5].
  { intros [|[|j]] Hj; [lia | lia | discriminate]. }
  split; [exact H4 | exact H5].
Defined.

(** *** A link requested again after a transmission *)


End RadioOps.

(** ** More of the network manager

    The routes of [find_optimal_route] as [transmit_data] uses them,
    the emergency protocol, the health report and the routing table of
    [space_network.py]. *)

Module NetworkOps.
Import Network.
Import NetworkSpec.

(** *** The shape of a route *)

(** The reconstruction loop along a chain of predecessors visits no
    node twice. *)
Lemma walk_back_chain (P : gmap string string) (vs : list string) :
  chain_ok P vs -> NoDup vs ->
  forall v fuel acc, v ∈ vs -> (length vs <= fuel)%nat ->
  exists path,
    walk_back fuel P (Some v) acc = Some (acc ++ path) /\
    NoDup path /\ (forall x, x ∈ path -> x ∈ vs).
Proof.
  induction vs as [|v0 vs IH]; intros Hchain Hnd v fuel acc Hv Hfuel.
  { inversion Hv. }
  cbn [chain_ok] in Hchain. destruct Hchain as [Hhead Hchain].
  apply NoDup_cons in Hnd as [Hv0 Hnd].
  destruct (decide (v ∈ vs)) as [Hin|Hnin].
  { destruct (IH Hchain Hnd v fuel acc Hin) as (path & H1 & H2 & H3).
    { cbn in Hfuel. lia. }
    exists path. split; [exact H1|]. split; [exact H2|].
    intros x Hx. right. auto. }
  apply elem_of_cons in Hv as [->|Hv]; [|contradiction].
  destruct fuel as [|fuel]; [cbn in Hfuel; lia|].
  cbn in Hfuel. cbn [walk_back].
  destruct (P !! v0) as [u|] eqn:EP.
  - destruct (IH Hchain Hnd u fuel (acc ++ [v0]) (Hhead u eq_refl))
      as (path & H1 & H2 & H3); [lia|].
    exists (v0 :: path). split; [|split].
    + rewrite H1, <- app_assoc. reflexivity.
    + apply NoDup_cons. split; [|exact H2]. intros Hx. apply Hv0. auto.
    + intros x Hx. apply elem_of_cons in Hx as [->|Hx]; [left|right; auto].
  - exists [v0]. split; [|split].
    + destruct fuel; reflexivity.
    + apply NoDup_singleton.
    + intros x Hx. apply list_elem_of_singleton in Hx as ->. left.
Qed.

Lemma walk_nodes_last a b links ls :
  is_walk links a b ls -> last (walk_nodes a ls) = Some b.
Proof.
  revert a. induction ls as [|l ls IH]; intros a; cbn [is_walk].
  - intros ->. reflexivity.
  - intros (_ & _ & Hrest). specialize (IH _ Hrest).
    unfold walk_nodes in *. cbn [map] in *.
    rewrite last_cons, IH. reflexivity.
Qed.

Lemma walk_nodes_registered (N : gset string) links a b ls :
  (forall l, l ∈ links -> source_node l ∈ N /\ target_node l ∈ N) ->
  a ∈ N -> is_walk links a b ls ->
  forall x, x ∈ walk_nodes a ls -> x ∈ N.
Proof.
  intros Hwf Ha Hw x Hx. unfold walk_nodes in Hx.
  apply elem_of_cons in Hx as [->|Hx]; [exact Ha|].
  revert a Ha Hw. induction ls as [|l ls IH]; intros a Ha Hw.
  { inversion Hx. }
  cbn [is_walk] in Hw. destruct Hw as (Hl & _ & Hrest).
  cbn [map] in Hx. apply elem_of_cons in Hx as [->|Hx].
  - apply (Hwf l Hl).
  - apply (IH Hx (target_node l)); [apply (Hwf l Hl) | exact Hrest].
Qed.

(** A route: nothing, or the nodes of a walk along the links from the
    source to the target that visits no node twice. *)
Definition is_route (net : SpaceNetwork) (src tgt : string)
    (route : list string) : Prop :=
  route = [] \/
  exists ls,
    is_walk (dict_values (links net)) src tgt ls /\
    route = walk_nodes src ls /\ NoDup route.

Section Routes.

Variable set_iter : gset string -> list string.
Hypothesis set_iter_spec : forall X x, x ∈ set_iter X <-> x ∈ X.

Lemma route_shape net src tgt :
  network_wf net ->
  exists route,
    find_optimal_route set_iter net src tgt = Some route /\
    is_route net src tgt route /\
    (src ∉ dom (nodes net) \/ tgt ∉ dom (nodes net) -> route = []) /\
    (src ∈ dom (nodes net) -> src = tgt -> route = [src]).
Proof.
  intros Hwf. unfold find_optimal_route.
  destruct (bool_decide (src ∈ dom (nodes net))) eqn:Es; cbn [negb orb].
  2:{ exists []. split; [reflexivity|]. split; [left; reflexivity|].
      split; [reflexivity|]. intros H. apply bool_decide_eq_false in Es.
      contradiction. }
  destruct (bool_decide (tgt ∈ dom (nodes net))) eqn:Et; cbn [negb].
  2:{ exists []. split; [reflexivity|]. split; [left; reflexivity|].
      split; [reflexivity|]. intros _ <-. congruence. }
  apply bool_decide_eq_true in Es, Et.
  destruct (bool_decide (src = tgt)) eqn:Eeq.
  { apply bool_decide_eq_true in Eeq. subst tgt. exists [src].
    split; [reflexivity|]. split; [|split; [tauto | reflexivity]].
    right. exists []. split; [reflexivity|]. split; [reflexivity|].
    apply NoDup_singleton. }
  apply bool_decide_eq_false in Eeq.
  set (links0 := dict_values (links net)).
  pose proof (initial_inv links0 (dom (nodes net)) src Hwf) as Hinit.
  destruct (loop_spec set_iter set_iter_spec links0 (dom (nodes net)) src Hwf
              Es tgt Et (S (size (dom (nodes net)))) _ _ _ _ Hinit)
    as (D & P & U & vis & Hloop & HI & Hset); [lia|].
  rewrite Hloop.
  destruct (route_spec links0 (dom (nodes net)) src tgt Et
              D P U vis HI Hset) as (route & Hroute & Hres); [congruence|].
  exists route. split; [exact Hroute|].
  split; [|split; [tauto | intros; contradiction]].
  destruct Hres as [[_ ->]|(ls & Hw & -> & _)]; [left; reflexivity|].
  right. exists ls. split; [exact Hw|]. split; [reflexivity|].
  destruct (bool_decide (P !! tgt = None)) eqn:EP; cbn [andb] in Hroute.
  { rewrite bool_decide_eq_false_2 in Hroute by congruence.
    cbn in Hroute. discriminate. }
  apply bool_decide_eq_false in EP.
  destruct (P !! tgt) as [u|] eqn:EPt; [|contradiction].
  assert (Hu : u ∈ vis).
  { destruct (dist_of D tgt) as [q|] eqn:Ed.
    - destruct (inv_prev _ _ _ _ _ _ _ HI tgt q Ed)
        as (u' & l & qu & HPt & HuN & HuU & _); [congruence|].
      rewrite EPt in HPt. injection HPt as <-.
      apply (inv_vis _ _ _ _ _ _ _ HI). auto.
    - rewrite (inv_inf _ _ _ _ _ _ _ HI tgt Ed) in EPt. discriminate. }
  pose proof (vis_length links0 (dom (nodes net)) src D P U vis HI) as Hlen.
  assert (Hpath : exists path,
            walk_back (S (size (dom (nodes net)))) P (Some tgt) []
              = Some path /\ NoDup path).
  { destruct (decide (tgt ∈ vis)) as [Ht|Ht].
    - destruct (walk_back_chain P vis (inv_chain _ _ _ _ _ _ _ HI)
                  (inv_nodup _ _ _ _ _ _ _ HI) tgt
                  (S (size (dom (nodes net)))) [] Ht)
        as (path & H1 & H2 & _); [lia|].
      exists path. split; [exact H1 | exact H2].
    - cbn [walk_back]. rewrite EPt.
      destruct (walk_back_chain P vis (inv_chain _ _ _ _ _ _ _ HI)
                  (inv_nodup _ _ _ _ _ _ _ HI) u
                  (size (dom (nodes net))) ([] ++ [tgt]) Hu)
        as (path & H1 & H2 & H3); [lia|].
      exists (tgt :: path). split; [rewrite H1; reflexivity|].
      apply NoDup_cons. split; [|exact H2]. intros Hx. apply Ht. auto. }
  destruct Hpath as (path & Hback & Hnd).
  rewrite Hback in Hroute. cbn in Hroute. injection Hroute as <-.
  apply NoDup_ListNoDup, NoDup_rev, NoDup_ListNoDup. exact Hnd.
Qed.

End Routes.

(** *** [transmit_data] *)

Definition set_packet_loss (l : CommunicationLink) (v : Q)
    : CommunicationLink :=
  {| link_id := link_id l; source_node := source_node l;
     target_node := target_node l; link_type := link_type l;
     established_at := established_at l;
     signal_strength := signal_strength l; bandwidth := bandwidth l;
     latency := latency l; packet_loss := v;
     is_encrypted := is_encrypted l; quality_score := quality_score l |}.

Definition set_current_load (n : NetworkNode) (v : Q) : NetworkNode :=
  {| node_id := node_id n; name := name n; node_type := node_type n;
     position := position n; velocity := velocity n; status := status n;
     communication_modes := communication_modes n;
     last_contact := last_contact n;
     node_signal_strength := node_signal_strength n;
     bandwidth_capacity := bandwidth_capacity n;
     current_load := v; priority_level := priority_level n |}.

Definition set_links (net : SpaceNetwork)
    (v : list (string * CommunicationLink)) : SpaceNetwork :=
  {| network_name := network_name net; nodes := nodes net; links := v;
     network_status := network_status net;
     emergency_protocols_active := emergency_protocols_active net;
     total_data_transmitted := total_data_transmitted net |}.

Definition set_nodes (net : SpaceNetwork) (v : gmap string NetworkNode)
    : SpaceNetwork :=
  {| network_name := network_name net; nodes := v; links := links net;
     network_status := network_status net;
     emergency_protocols_active := emergency_protocols_active net;
     total_data_transmitted := total_data_transmitted net |}.

Definition set_total_data_transmitted (net : SpaceNetwork) (v : Q)
    : SpaceNetwork :=
  {| network_name := network_name net; nodes := nodes net;
     links := links net; network_status := network_status net;
     emergency_protocols_active := emergency_protocols_active net;
     total_data_transmitted := v |}.

(** The test of the search for the link of a hop. *)
Definition joins (current_node next_node : string)
    (entry : string * CommunicationLink) : Prop :=
  source_node entry.2 = current_node /\ target_node entry.2 = next_node.

#[global] Instance joins_dec a b entry : Decision (joins a b entry).
Proof. unfold joins. apply _. Defined.

(** The slight degradation of a link that carried data. *)
Definition degrade (link : CommunicationLink) : CommunicationLink :=
  set_packet_loss link (Py.min (packet_loss link + 0.001) 0.1).

Definition add_load (data_size : Q) (node : NetworkNode) : NetworkNode :=
  set_current_load node (current_load node + data_size).

(** The loop [for i in range(len(route) - 1)]; the flag is false when
    the loop is left by [return False]. *)
Fixpoint transmit_hops (net : SpaceNetwork) (route : list string)
    (data_size : Q) : SpaceNetwork * bool :=
  match route with
  | current_node :: ((next_node :: _) as rest) =>
      (* Find link between nodes *)
      match list_find (joins current_node next_node) (links net) with
      | None => (net, false)
      | Some (i, (key, link)) =>
          (* Update link statistics *)
          let net := set_links net (<[i := (key, degrade link)]> (links net)) in
          (* Update node load *)
          let net :=
            match nodes net !! current_node with
            | Some node =>
                set_nodes net
                  (<[current_node := add_load data_size node]> (nodes net))
            | None => net
            end in
          transmit_hops net rest data_size
      end
  | _ => (net, true)
  end.

(** [len(json.dumps(data).encode()) / (1024 * 1024)]. *)
Definition megabytes (encoded : list byte) : Q :=
  inject_Z (Z.of_nat (length encoded)) / (1024 * 1024).

Section Transmit.

Variable set_iter : gset string -> list string.

(** [transmit_data]; [encoded] is [json.dumps(data).encode()], [None]
    when the data cannot be serialized and [json.dumps] raises.  The
    result is [None] only if the route search of the model runs out of
    fuel. *)
Definition transmit_data (net : SpaceNetwork) (source_id target_id : string)
    (encoded : option (list byte)) : option (SpaceNetwork * bool) :=
  route ← find_optimal_route set_iter net source_id target_id;
  if bool_decide (route = []) then Some (net, false)
  else
    match encoded with
    | None => Some (net, false)
    | Some encoded =>
        let data_size := megabytes encoded in
        let '(net, sent) := transmit_hops net route data_size in
        if sent then
          Some (set_total_data_transmitted net
                  (total_data_transmitted net + data_size), true)
        else Some (net, false)
    end.

End Transmit.

(** Two link tables that route alike: the same endpoints and weights,
    link by link. *)
Definition routes_alike (l l' : CommunicationLink) : Prop :=
  source_node l = source_node l' /\ target_node l = target_node l' /\
  weight l = weight l'.

Lemma relax_link_alike current unvisited st l l' :
  routes_alike l l' ->
  relax_link current unvisited st l = relax_link current unvisited st l'.
Proof.
  intros (Hs & Ht & Hw). unfold relax_link. destruct st as [D P].
  rewrite Hs, Ht, Hw. reflexivity.
Qed.

Lemma relax_links_alike ls ls' current unvisited :
  Forall2 routes_alike ls ls' ->
  forall st, relax_links ls current unvisited st
             = relax_links ls' current unvisited st.
Proof.
  unfold relax_links. induction 1 as [|l l' ls ls' Hl _ IH]; intros st.
  - reflexivity.
  - cbn [fold_left]. rewrite (relax_link_alike _ _ _ l l' Hl). apply IH.
Qed.

Lemma dijkstra_loop_alike set_iter ls ls' tgt :
  Forall2 routes_alike ls ls' ->
  forall fuel D P U,
    dijkstra_loop set_iter fuel ls tgt D P U
    = dijkstra_loop set_iter fuel ls' tgt D P U.
Proof.
  intros Hl. induction fuel as [|fuel IH]; intros D P U; [reflexivity|].
  cbn [dijkstra_loop].
  destruct (bool_decide (U = ∅)); [reflexivity|].
  destruct (py_min_key _ _) as [c|]; [|reflexivity].
  destruct (dist_of D c); [|reflexivity].
  destruct (bool_decide (c = tgt)); [reflexivity|].
  rewrite (relax_links_alike ls ls' c _ Hl).
  destruct (relax_links ls' c (U ∖ {[c]}) (D, P)) as [D1 P1]. apply IH.
Qed.

(** The route search reads the registered identifiers, the endpoints
    and the weights of the links, and nothing else. *)
Lemma find_optimal_route_alike set_iter net net' src tgt :
  dom (nodes net) = dom (nodes net') ->
  Forall2 routes_alike (dict_values (links net)) (dict_values (links net')) ->
  find_optimal_route set_iter net src tgt
  = find_optimal_route set_iter net' src tgt.
Proof.
  intros Hdom Hl. unfold find_optimal_route. rewrite <- Hdom.
  rewrite (dijkstra_loop_alike set_iter _ _ tgt Hl). reflexivity.
Qed.

(** [a] hands the data to [b] somewhere on the route. *)
Definition hop (route : list string) (a b : string) : Prop :=
  exists i, route !! i = Some a /\ route !! S i = Some b.

(** The link at position [j] of the table is the one the loop of
    [transmit_data] finds for a hop of the route: the first, in the
    order of the dictionary, from the one node to the other. *)
Definition carries (table : list (string * CommunicationLink))
    (route : list string) (j : nat) : Prop :=
  exists a b entry,
    hop route a b /\ list_find (joins a b) table = Some (j, entry).

(** The same entry but for the packet loss of the link. *)
Definition same_but_loss (e e' : string * CommunicationLink) : Prop :=
  e.1 = e'.1 /\ set_packet_loss e.2 0 = set_packet_loss e'.2 0.

Lemma same_but_loss_ends e e' :
  same_but_loss e e' ->
  source_node e.2 = source_node e'.2 /\ target_node e.2 = target_node e'.2.
Proof.
  intros [_ H]. split.
  - exact (f_equal source_node H).
  - exact (f_equal target_node H).
Qed.

Lemma same_but_loss_alike e e' : same_but_loss e e' -> routes_alike e.2 e'.2.
Proof.
  intros [_ H]. split; [|split].
  - exact (f_equal source_node H).
  - exact (f_equal target_node H).
  - exact (f_equal weight H).
Qed.

Lemma same_but_loss_refl table : Forall2 same_but_loss table table.
Proof. apply Forall_Forall2_diag, Forall_forall. intros e _. split; reflexivity. Qed.

Lemma same_but_loss_sym table table' :
  Forall2 same_but_loss table table' -> Forall2 same_but_loss table' table.
Proof.
  intros H. apply Forall2_flip. eapply Forall2_impl; [exact H|].
  intros e e' [H1 H2]. split; symmetry; assumption.
Qed.

Lemma same_but_loss_trans t1 t2 t3 :
  Forall2 same_but_loss t1 t2 -> Forall2 same_but_loss t2 t3 ->
  Forall2 same_but_loss t1 t3.
Proof.
  intros H. revert t3.
  induction H as [|x y l1 l2 [H1 H2] _ IH]; intros t3 H3;
    inversion H3 as [|? z ? l3 [H4 H5] Hrest]; subst; constructor.
  - split; congruence.
  - apply IH. exact Hrest.
Qed.

Lemma list_find_same_but_loss a b table table' j entry :
  Forall2 same_but_loss table table' ->
  list_find (joins a b) table = Some (j, entry) ->
  exists entry', list_find (joins a b) table' = Some (j, entry').
Proof.
  intros HR Hfind. apply list_find_Some in Hfind as (Hj & Hjoin & Hfirst).
  destruct (Forall2_lookup_l _ _ _ _ _ HR Hj) as (entry' & Hj' & Hse).
  apply same_but_loss_ends in Hse as [Hs Ht].
  exists entry'. apply list_find_Some. split; [exact Hj'|]. split.
  - destruct Hjoin as [H1 H2]. split; congruence.
  - intros i y' Hi Hlt [H1 H2].
    destruct (Forall2_lookup_r _ _ _ _ _ HR Hi) as (y & Hy & Hse).
    apply same_but_loss_ends in Hse as [Hs' Ht'].
    apply (Hfirst i y Hy Hlt). split; congruence.
Qed.

Lemma carries_same_but_loss table table' route j :
  Forall2 same_but_loss table table' ->
  carries table route j -> carries table' route j.
Proof.
  intros HR (a & b & entry & Hhop & Hfind).
  destruct (list_find_same_but_loss a b _ _ j entry HR Hfind) as (entry' & H').
  exists a, b, entry'. split; [exact Hhop | exact H'].
Qed.

Lemma hop_cons route x a b : hop route a b -> hop (x :: route) a b.
Proof. intros (i & H1 & H2). exists (S i). split; assumption. Qed.

Lemma hop_inv x y route a b :
  hop (x :: y :: route) a b ->
  (a = x /\ b = y) \/ hop (y :: route) a b.
Proof.
  intros ([|i] & H1 & H2).
  - left. cbn in H1, H2. split; congruence.
  - right. exists i. split; assumption.
Qed.

Lemma hop_sender route a b : hop route a b -> a ∈ route.
Proof. intros (i & H1 & _). eapply list_elem_of_lookup_2. exact H1. Qed.

Lemma hop_single x a b : ~ hop [x] a b.
Proof. intros ([|i] & H1 & H2); cbn in H2; discriminate. Qed.

Lemma hop_nil a b : ~ hop [] a b.
Proof. intros (i & H1 & _). discriminate. Qed.

(** What the loop of [transmit_data] does on a route without
    repetition whose hops are all linked. *)
Lemma transmit_hops_spec (data_size : Q) (route : list string) :
  forall net,
    NoDup route ->
    (forall a b, hop route a b ->
       exists entry, entry ∈ links net /\ joins a b entry) ->
    exists net',
      transmit_hops net route data_size = (net', true) /\
      net' = set_nodes (set_links net (links net')) (nodes net') /\
      Forall2 same_but_loss (links net) (links net') /\
      (forall j entry, links net !! j = Some entry ->
         carries (links net) route j ->
         links net' !! j = Some (entry.1, degrade entry.2)) /\
      (forall j entry, links net !! j = Some entry ->
         ~ carries (links net) route j ->
         links net' !! j = Some entry) /\
      (forall id, (exists b, hop route id b) ->
         nodes net' !! id = add_load data_size <$> nodes net !! id) /\
      (forall id, ~ (exists b, hop route id b) ->
         nodes net' !! id = nodes net !! id) /\
      dom (nodes net') = dom (nodes net).
Proof.
  induction route as [|a [|b rest] IH]; intros net Hnd Hlinked.
  - exists net. cbn. split; [reflexivity|].
    split; [destruct net; reflexivity|].
    split; [apply same_but_loss_refl|].
    split; [intros j e _ (x & y & ? & H & _); destruct (hop_nil _ _ H)|].
    split; [auto|].
    split; [intros id (y & H); destruct (hop_nil _ _ H)|].
    split; [auto | reflexivity].
  - exists net. cbn. split; [reflexivity|].
    split; [destruct net; reflexivity|].
    split; [apply same_but_loss_refl|].
    split; [intros j e _ (x & y & ? & H & _); destruct (hop_single _ _ _ H)|].
    split; [auto|].
    split; [intros id (y & H); destruct (hop_single _ _ _ H)|].
    split; [auto | reflexivity].
  - cbn [transmit_hops].
    apply NoDup_cons in Hnd as [Ha Hnd].
    destruct (Hlinked a b) as (e0 & He0 & Hjoin0).
    { exists 0%nat. split; reflexivity. }
    destruct (list_find_elem_of (joins a b) (links net) e0 He0 Hjoin0)
      as [[j0 [k0 l0]] Hfind].
    rewrite Hfind.
    pose proof Hfind as Hfind0.
    apply list_find_Some in Hfind as (Hj0 & Hjoin & Hfirst).
    set (table1 := <[j0 := (k0, degrade l0)]> (links net)).
    set (net1 := match nodes (set_links net table1) !! a with
                 | Some node =>
                     set_nodes (set_links net table1)
                       (<[a := add_load data_size node]>
                          (nodes (set_links net table1)))
                 | None => set_links net table1
                 end).
    assert (Hlinks1 : links net1 = table1).
    { unfold net1. destruct (nodes (set_links net table1) !! a); reflexivity. }
    assert (Hnodes1 : forall id,
              nodes net1 !! id
              = if decide (id = a) then add_load data_size <$> nodes net !! id
                else nodes net !! id).
    { intros id. unfold net1. cbn [nodes set_links].
      destruct (nodes net !! a) as [node|] eqn:En; cbn [nodes set_nodes set_links].
      - destruct (decide (id = a)) as [->|Hne].
        + rewrite lookup_insert_eq, En. reflexivity.
        + rewrite lookup_insert_ne by congruence. reflexivity.
      - destruct (decide (id = a)) as [->|Hne]; [rewrite En|]; reflexivity. }
    assert (Hframe1 : net1 = set_nodes (set_links net table1) (nodes net1)).
    { unfold net1. destruct (nodes (set_links net table1) !! a); 
        destruct net; reflexivity. }
    assert (Hends1 : Forall2 same_but_loss (links net) table1).
    { unfold table1. apply Forall2_same_length_lookup. split.
      - rewrite length_insert. reflexivity.
      - intros j e e' He He'.
        destruct (decide (j = j0)) as [->|Hne].
        + rewrite list_lookup_insert_eq in He'
            by (eapply lookup_lt_Some; exact Hj0).
          injection He' as <-. rewrite Hj0 in He. injection He as <-.
          split; reflexivity.
        + rewrite list_lookup_insert_ne in He' by congruence.
          rewrite He in He'. injection He' as <-. split; reflexivity. }
    assert (Hdom1 : dom (nodes net1) = dom (nodes net)).
    { unfold net1. cbn [nodes set_links].
      destruct (nodes net !! a) as [node|] eqn:En;
        cbn [nodes set_nodes set_links]; [|reflexivity].
      rewrite dom_insert_L. apply (elem_of_dom_2 (nodes net)) in En.
      set_solver. }
    destruct (IH net1 Hnd) as (net' & Hrun & Hframe & Hends & Hdeg & Hkeep
                                 & Hload & Hsame & Hdom).
    { intros x y Hxy. destruct (Hlinked x y (hop_cons _ a _ _ Hxy))
        as (e & He & Hj).
      rewrite Hlinks1.
      apply list_elem_of_lookup_1 in He as [i Hi].
      destruct (Forall2_lookup_l _ _ _ _ _ Hends1 Hi) as (e' & Hi' & Hse).
      apply same_but_loss_ends in Hse as [Hs Ht].
      exists e'. split; [eapply list_elem_of_lookup_2; exact Hi'|].
      destruct Hj as [H1 H2]. split; congruence. }
    rewrite Hlinks1 in Hends, Hdeg, Hkeep.
    assert (Hnot0 : ~ carries table1 (b :: rest) j0).
    { intros (x & y & e & Hxy & Hf).
      apply list_find_Some in Hf as (Hl & [Hs _] & _).
      unfold table1 in Hl.
      rewrite list_lookup_insert_eq in Hl by (eapply lookup_lt_Some; exact Hj0).
      injection Hl as <-. cbn in Hs. destruct Hjoin as [Hs0 _].
      cbn in Hs0. apply Ha. rewrite <- Hs0, Hs.
      eapply hop_sender. exact Hxy. }
    exists net'. split; [exact Hrun|].
    split; [rewrite Hframe at 1; rewrite Hframe1; destruct net; reflexivity|].
    split; [exact (same_but_loss_trans _ _ _ Hends1 Hends)|].
    split; [|split; [|split; [|split]]].
    5:{ rewrite Hdom. exact Hdom1. }
    + intros j e He (x & y & e' & Hxy & Hf).
      apply hop_inv in Hxy as [[-> ->]|Hxy].
      * rewrite Hfind0 in Hf. injection Hf as <- <-.
        rewrite Hj0 in He. injection He as <-.
        rewrite (Hkeep j0 (k0, degrade l0)); [reflexivity| |exact Hnot0].
        unfold table1. apply list_lookup_insert_eq.
        eapply lookup_lt_Some. exact Hj0.
      * assert (Hne : j <> j0).
        { intros ->. apply Hnot0.
          apply (carries_same_but_loss (links net)); [exact Hends1|].
          exists x, y, e'. split; [exact Hxy | exact Hf]. }
        apply Hdeg.
        -- unfold table1. rewrite list_lookup_insert_ne by congruence. exact He.
        -- apply (carries_same_but_loss (links net)); [exact Hends1|].
           exists x, y, e'. split; [exact Hxy | exact Hf].
    + intros j e He Hnc.
      assert (Hne : j <> j0).
      { intros ->. apply Hnc. exists a, b, (k0, l0).
        split; [exists 0%nat; split; reflexivity | exact Hfind0]. }
      apply Hkeep.
      * unfold table1. rewrite list_lookup_insert_ne by congruence. exact He.
      * intros Hc. apply Hnc.
        apply (carries_same_but_loss table1 (links net)) in Hc;
          [|apply same_but_loss_sym; exact Hends1].
        destruct Hc as (x & y & e' & Hxy & Hf).
        exists x, y, e'. split; [apply hop_cons; exact Hxy | exact Hf].
    + intros id (y & Hxy). apply hop_inv in Hxy as [[-> ->]|Hxy].
      * rewrite Hsame.
        -- rewrite Hnodes1. destruct (decide (a = a)); [reflexivity|congruence].
        -- intros (y & Hy). apply Ha. eapply hop_sender. exact Hy.
      * rewrite Hload by (exists y; exact Hxy).
        rewrite Hnodes1. destruct (decide (id = a)) as [->|]; [|reflexivity].
        exfalso. apply Ha. eapply hop_sender. exact Hxy.
    + intros id Hno. rewrite Hsame.
      * rewrite Hnodes1. destruct (decide (id = a)) as [->|]; [|reflexivity].
        exfalso. apply Hno. exists b. exists 0%nat. split; reflexivity.
      * intros (y & Hy). apply Hno. exists y. apply hop_cons. exact Hy.
Qed.

Lemma walk_hops links0 ls :
  forall a b x y,
    is_walk links0 a b ls -> hop (walk_nodes a ls) x y ->
    exists l, l ∈ links0 /\ source_node l = x /\ target_node l = y.
Proof.
  induction ls as [|l ls IH]; intros a b x y Hw Hxy.
  - destruct (hop_single _ _ _ Hxy).
  - cbn [is_walk] in Hw. destruct Hw as (Hl & Hs & Hrest).
    change (walk_nodes a (l :: ls))
      with (a :: target_node l :: map target_node ls) in Hxy.
    apply hop_inv in Hxy as [[-> ->]|Hxy].
    + exists l. auto.
    + exact (IH _ _ _ _ Hrest Hxy).
Qed.

Lemma dict_values_elem {V : Type} (d : list (string * V)) (v : V) :
  v ∈ dict_values d <-> exists entry, entry ∈ d /\ entry.2 = v.
Proof.
  unfold dict_values. induction d as [|e d IH]; cbn [map].
  - split; [intros H; inversion H | intros (? & H & _); inversion H].
  - rewrite elem_of_cons, IH. split.
    + intros [->|(entry & H1 & H2)].
      * exists e. split; [left | reflexivity].
      * exists entry. split; [right; exact H1 | exact H2].
    + intros (entry & H1 & H2). apply elem_of_cons in H1 as [->|H1]; [auto|].
      right. exists entry. auto.
Qed.

Lemma dict_values_Forall2 {V : Type} (R : V -> V -> Prop)
    (d d' : list (string * V)) :
  Forall2 (fun e e' => R e.2 e'.2) d d' ->
  Forall2 R (dict_values d) (dict_values d').
Proof. induction 1; cbn; constructor; auto. Qed.

Lemma degrade_capped (link : CommunicationLink) :
  packet_loss (degrade link) <= 0.1 /\
  (packet_loss link + 0.001 <= 0.1 ->
   packet_loss (degrade link) = packet_loss link + 0.001) /\
  (0.1 <= packet_loss link + 0.001 -> packet_loss (degrade link) == 0.1).
Proof.
  unfold degrade, Py.min. cbn [packet_loss set_packet_loss].
  destruct (Qlt_le_dec 0.1 (packet_loss link + 0.001)).
  - split; [lra|]. split; [intros; lra | reflexivity].
  - split; [lra|]. split; [reflexivity | intros; lra].
Qed.

(** X19.  For every pair of identifiers [find_optimal_route] returns
    a route of a well-formed network that visits no node twice, so
    that it has no more nodes than the network; its nodes are
    registered, it starts at the source and ends at the target unless
    it is empty, every node on it has a link to the next one, and it
    is empty whenever the source or the target is not registered. *)
Theorem route_loop_free (set_iter : gset string -> list string)
    (net : SpaceNetwork) (src tgt : string) :
  (forall X x, x ∈ set_iter X <-> x ∈ X) ->
  network_wf net ->
  exists route,
    find_optimal_route set_iter net src tgt = Some route /\
    NoDup route /\
    (forall x, x ∈ route -> x ∈ dom (nodes net)) /\
    (length route <= size (dom (nodes net)))%nat /\
    (src ∉ dom (nodes net) \/ tgt ∉ dom (nodes net) -> route = []) /\
    (route <> [] -> head route = Some src /\ last route = Some tgt) /\
    (forall a b, hop route a b ->
       exists l, l ∈ dict_values (links net) /\
         source_node l = a /\ target_node l = b).
Proof.
  intros Hiter Hwf.
  destruct (route_shape set_iter Hiter net src tgt Hwf)
    as (route & Hroute & Hshape & Hunreg & _).
  exists route. split; [exact Hroute|].
  assert (Hfacts : NoDup route /\
            (forall x, x ∈ route -> x ∈ dom (nodes net)) /\
            (route <> [] -> head route = Some src /\ last route = Some tgt) /\
            (forall a b, hop route a b ->
               exists l, l ∈ dict_values (links net) /\
                 source_node l = a /\ target_node l = b)).
  { destruct Hshape as [->|(ls & Hw & Heq & Hnd)].
    - split; [constructor|]. split; [intros x Hx; inversion Hx|].
      split; [congruence|]. intros a b H. destruct (hop_nil _ _ H).
    - split; [exact Hnd|].
      assert (Hsrc : src ∈ dom (nodes net)).
      { destruct (decide (src ∈ dom (nodes net))) as [H|H]; [exact H|].
        rewrite Hunreg in Heq by (left; exact H). discriminate. }
      split; [|split].
      + intros x Hx. rewrite Heq in Hx.
        apply (walk_nodes_registered (dom (nodes net))
                 (dict_values (links net)) src tgt ls); try assumption.
        intros l Hl. destruct (Hwf l Hl) as (H1 & H2 & _). auto.
      + intros _. rewrite Heq. split; [reflexivity|].
        eapply walk_nodes_last. exact Hw.
      + intros a b Hab. rewrite Heq in Hab.
        exact (walk_hops _ _ _ _ _ _ Hw Hab). }
  destruct Hfacts as (Hnd & Hreg & Hends & Hhops).
  split; [exact Hnd|]. split; [exact Hreg|].
  split; [|split; [exact Hunreg|split; [exact Hends | exact Hhops]]].
  rewrite <- (size_list_to_set (C := gset string) route) by exact Hnd.
  apply subseteq_size. intros x Hx. apply elem_of_list_to_set in Hx. auto.
Qed.

(** X20.  [transmit_data] on a well-formed network reports success
    exactly when the route is not empty and the data can be
    serialized, and a failed call leaves the network as it was: the
    search for the link of a hop never fails.  A successful call adds
    the size of the data to the total and to the load of every node of
    the route but the last, and raises the packet loss, by 0.001 and
    to no more than 0.1, of exactly the first link of the dictionary
    from each node of the route to the next; it changes nothing else,
    and no route of the network. *)
Theorem transmit_data_effect (set_iter : gset string -> list string)
    (net : SpaceNetwork) (source_id target_id : string)
    (encoded : option (list byte)) :
  (forall X x, x ∈ set_iter X <-> x ∈ X) ->
  network_wf net ->
  exists route net' sent,
    find_optimal_route set_iter net source_id target_id = Some route /\
    transmit_data set_iter net source_id target_id encoded
      = Some (net', sent) /\
    (sent = true <-> route <> [] /\ is_Some encoded) /\
    (sent = false -> net' = net) /\
    (forall bytes, encoded = Some bytes -> route <> [] ->
       total_data_transmitted net'
         = total_data_transmitted net + megabytes bytes /\
       (forall j entry, links net !! j = Some entry ->
          carries (links net) route j ->
          links net' !! j = Some (entry.1, degrade entry.2) /\
          packet_loss (degrade entry.2) <= 0.1 /\
          (packet_loss entry.2 + 0.001 <= 0.1 ->
           packet_loss (degrade entry.2) = packet_loss entry.2 + 0.001)) /\
       (forall j entry, links net !! j = Some entry ->
          ~ carries (links net) route j -> links net' !! j = Some entry) /\
       length (links net') = length (links net) /\
       (forall id, (exists b, hop route id b) ->
          nodes net' !! id = add_load (megabytes bytes) <$> nodes net !! id) /\
       (forall id, ~ (exists b, hop route id b) ->
          nodes net' !! id = nodes net !! id) /\
       net' = set_total_data_transmitted
                (set_nodes (set_links net (links net')) (nodes net'))
                (total_data_transmitted net') /\
       network_wf net' /\
       forall a b,
         find_optimal_route set_iter net' a b
         = find_optimal_route set_iter net a b).
Proof.
  intros Hiter Hwf.
  destruct (route_shape set_iter Hiter net source_id target_id Hwf)
    as (route & Hroute & Hshape & _ & _).
  exists route. unfold transmit_data. rewrite Hroute. cbn [mbind option_bind].
  destruct (bool_decide (route = [])) eqn:Eempty.
  { apply bool_decide_eq_true in Eempty.
    exists net, false. split; [reflexivity|]. split; [reflexivity|].
    split; [split; [discriminate | tauto]|]. split; [reflexivity|].
    intros; contradiction. }
  apply bool_decide_eq_false in Eempty.
  destruct encoded as [bytes|].
  2:{ exists net, false. split; [reflexivity|]. split; [reflexivity|].
      split; [split; [discriminate | intros [_ [? H]]; discriminate]|].
      split; [reflexivity|]. intros; discriminate. }
  destruct Hshape as [->|(ls & Hw & Heq & Hnd)]; [contradiction|].
  destruct (transmit_hops_spec (megabytes bytes) route net Hnd)
    as (net1 & Hrun & Hframe & Hends & Hdeg & Hkeep & Hload & Hsame & Hdom).
  { intros a b Hab. rewrite Heq in Hab.
    destruct (walk_hops _ _ _ _ _ _ Hw Hab) as (l & Hl & Hs & Ht).
    apply dict_values_elem in Hl as (entry & Hentry & <-).
    exists entry. split; [exact Hentry | split; assumption]. }
  rewrite Hrun.
  exists (set_total_data_transmitted net1
            (total_data_transmitted net1 + megabytes bytes)), true.
  split; [reflexivity|]. split; [reflexivity|].
  split; [split; [intros _; split; [exact Eempty | eexists; reflexivity]
                 | reflexivity]|].
  split; [discriminate|].
  intros bytes' [= <-] _.
  assert (Htotal : total_data_transmitted net1 = total_data_transmitted net)
    by (rewrite Hframe; reflexivity).
  cbn [total_data_transmitted links nodes set_total_data_transmitted].
  assert (Halike : Forall2 routes_alike (dict_values (links net))
                     (dict_values (links net1))).
  { apply dict_values_Forall2. eapply Forall2_impl; [exact Hends|].
    intros e e' H. apply same_but_loss_alike. exact H. }
  split; [rewrite Htotal; reflexivity|].
  split; [intros j entry Hj Hc; split; [exact (Hdeg j entry Hj Hc)|];
          destruct (degrade_capped entry.2) as (H1 & H2 & _); auto|].
  split; [exact Hkeep|].
  split; [symmetry; eapply Forall2_length; exact Hends|].
  split; [exact Hload|]. split; [exact Hsame|].
  split; [rewrite Hframe at 1; destruct net; reflexivity|].
  split.
  - intros l' Hl'. cbn [links nodes set_total_data_transmitted] in *.
    apply list_elem_of_lookup_1 in Hl' as [i Hi].
    destruct (Forall2_lookup_r _ _ _ _ _ Halike Hi) as (l & Hl & Hs & Ht & Hwt).
    apply list_elem_of_lookup_2 in Hl.
    destruct (Hwf l Hl) as (H1 & H2 & H3).
    rewrite Hdom, <- Hs, <- Ht, <- Hwt. auto.
  - intros a b. symmetry.
    apply find_optimal_route_alike; [symmetry; exact Hdom | exact Halike].
Qed.

(** *** [establish_link] and the table of links *)

(** [d.get(k)] on an insertion-ordered dictionary. *)
Fixpoint dict_get {V : Type} (k : string) (d : list (string * V)) : option V :=
  match d with
  | [] => None
  | (k', v') :: d' => if decide (k = k') then Some v' else dict_get k d'
  end.

(** [list(d.keys())]. *)
Definition dict_keys {V : Type} (d : list (string * V)) : list string :=
  map fst d.

Lemma dict_get_set_eq {V : Type} k (v : V) d :
  dict_get k (dict_set k v d) = Some v.
Proof.
  induction d as [|[k' v'] d IH]; cbn.
  - destruct (decide (k = k)); [reflexivity | congruence].
  - destruct (decide (k = k')) as [->|Hne]; cbn.
    + destruct (decide (k' = k')); [reflexivity | congruence].
    + destruct (decide (k = k')); [congruence | exact IH].
Qed.

Lemma dict_get_set_ne {V : Type} k k' (v : V) d :
  k <> k' -> dict_get k' (dict_set k v d) = dict_get k' d.
Proof.
  intros Hne. induction d as [|[k0 v0] d IH]; cbn.
  - destruct (decide (k' = k)); [congruence | reflexivity].
  - destruct (decide (k = k0)) as [->|Hne0]; cbn.
    + destruct (decide (k' = k0)); [congruence | reflexivity].
    + destruct (decide (k' = k0)); [reflexivity | exact IH].
Qed.

Lemma dict_keys_set {V : Type} k (v : V) d :
  dict_keys (dict_set k v d)
  = if decide (k ∈ dict_keys d) then dict_keys d else dict_keys d ++ [k].
Proof.
  unfold dict_keys. induction d as [|[k0 v0] d IH]; cbn.
  - destruct (decide (k ∈ [])) as [H|_]; [inversion H | reflexivity].
  - destruct (decide (k = k0)) as [->|Hne]; cbn.
    + destruct (decide (k0 ∈ k0 :: map fst d)) as [_|H]; [reflexivity|].
      exfalso. apply H. left.
    + rewrite IH. destruct (decide (k ∈ map fst d)) as [Hin|Hnin].
      * destruct (decide (k ∈ k0 :: map fst d)) as [_|H]; [reflexivity|].
        exfalso. apply H. right. exact Hin.
      * destruct (decide (k ∈ k0 :: map fst d)) as [H|_]; [|reflexivity].
        apply elem_of_cons in H as [H|H]; contradiction.
Qed.

Lemma dict_get_Some {V : Type} k (v : V) d :
  dict_get k d = Some v -> (k, v) ∈ d.
Proof.
  induction d as [|[k0 v0] d IH]; cbn; [discriminate|].
  destruct (decide (k = k0)) as [->|Hne].
  - intros [= ->]. left.
  - intros H. right. auto.
Qed.

Lemma dict_get_elem {V : Type} k (v : V) d :
  NoDup (dict_keys d) -> (k, v) ∈ d -> dict_get k d = Some v.
Proof.
  unfold dict_keys. induction d as [|[k0 v0] d IH]; cbn; intros Hnd Hin.
  - inversion Hin.
  - apply NoDup_cons in Hnd as [Hk Hnd].
    apply elem_of_cons in Hin as [[= -> ->]|Hin].
    + destruct (decide (k0 = k0)); [reflexivity | congruence].
    + destruct (decide (k = k0)) as [->|Hne]; [|auto].
      exfalso. apply Hk. apply list_elem_of_In, in_map_iff.
      exists (k0, v). split; [reflexivity|]. apply list_elem_of_In. exact Hin.
Qed.

Lemma dict_keys_set_NoDup {V : Type} k (v : V) d :
  NoDup (dict_keys d) -> NoDup (dict_keys (dict_set k v d)).
Proof.
  intros Hnd. rewrite dict_keys_set.
  destruct (decide (k ∈ dict_keys d)) as [Hin|Hnin]; [exact Hnd|].
  apply NoDup_app. split; [exact Hnd|].
  split; [|apply NoDup_singleton].
  intros x Hx Hx'. apply list_elem_of_singleton in Hx' as ->. contradiction.
Qed.

Lemma dict_set_elem {V : Type} k (v : V) d k' v' :
  NoDup (dict_keys d) ->
  (k', v') ∈ dict_set k v d ->
  (k' = k /\ v' = v) \/ (k' <> k /\ (k', v') ∈ d).
Proof.
  intros Hnd Hin.
  apply dict_get_elem in Hin; [|apply dict_keys_set_NoDup; exact Hnd].
  destruct (decide (k' = k)) as [->|Hne].
  - rewrite dict_get_set_eq in Hin. injection Hin as <-. auto.
  - rewrite dict_get_set_ne in Hin by congruence.
    right. split; [exact Hne|]. apply dict_get_Some. exact Hin.
Qed.

(** The identifier [establish_link] files a link under. *)
Definition link_name (source_id target_id : string)
    (link_type : CommunicationMode) : string :=
  (source_id ++ "-" ++ target_id ++ "-" ++ mode_value link_type)%string.

(** The table of links is a dictionary, and every link is filed under
    its own identifier, the one made of its endpoints and its type. *)
Definition links_keyed (net : SpaceNetwork) : Prop :=
  NoDup (dict_keys (links net)) /\
  forall k l, (k, l) ∈ links net ->
    link_id l = k /\
    k = link_name (source_node l) (target_node l) (link_type l).

Section Links.

Variable np_linalg_norm : Q * Q * Q -> Q.
Variable np_log10 : Q -> Q.
Variable pow10 : Q -> Q.

Abbreviation establish_link :=
  (Network.establish_link np_linalg_norm np_log10 pow10).

Lemma establish_link_result net source_id target_id link_type now :
  let res := establish_link net source_id target_id link_type now in
  match nodes net !! source_id, nodes net !! target_id with
  | Some s, Some t =>
      exists link,
        res = (set_links net (dict_set (link_name source_id target_id link_type)
                                link (links net)), Some link) /\
        link_id link = link_name source_id target_id link_type /\
        source_node link = source_id /\ target_node link = target_id /\
        Network.link_type link = link_type /\
        established_at link = now /\ packet_loss link = 0 /\
        is_encrypted link = true /\
        signal_strength link
          = _calculate_signal_strength np_log10 pow10
              (np_linalg_norm (vec_sub (position s) (position t))) link_type /\
        quality_score link = signal_strength link /\
        bandwidth link = max_bandwidth link_type * signal_strength link /\
        latency link
          = _calculate_latency
              (np_linalg_norm (vec_sub (position s) (position t))) link_type
  | _, _ => res = (net, None)
  end.
Proof.
  cbn zeta. unfold Network.establish_link.
  destruct (nodes net !! source_id) as [s|]; [|reflexivity].
  destruct (nodes net !! target_id) as [t|]; [|reflexivity].
  eexists. split; [reflexivity|]. cbn. repeat split; reflexivity.
Qed.

(** X21.  [establish_link] returns nothing, and changes nothing,
    exactly when an endpoint is not registered.  Otherwise the link
    it returns joins the two nodes with a signal strength, also its
    quality score, between 0.1 and 1, a bandwidth that is this
    fraction of the maximum of the link type, no packet loss, and a
    latency of at least the processing delay of the type when the
    distance is not negative.  The link is filed under
    source-target-type, where it replaces, in place, whatever link
    was filed under that identifier; no other entry of the table and
    nothing else of the network changes. *)
Theorem establish_link_stores (net : SpaceNetwork)
    (source_id target_id : string) (link_type : CommunicationMode) (now : Q) :
  let res := establish_link net source_id target_id link_type now in
  let key := link_name source_id target_id link_type in
  (snd res = None <->
     source_id ∉ dom (nodes net) \/ target_id ∉ dom (nodes net)) /\
  (snd res = None -> fst res = net) /\
  (forall link, snd res = Some link ->
     link_id link = key /\
     source_node link = source_id /\ target_node link = target_id /\
     Network.link_type link = link_type /\
     established_at link = now /\ packet_loss link = 0 /\
     is_encrypted link = true /\
     0.1 <= signal_strength link <= 1 /\
     quality_score link = signal_strength link /\
     bandwidth link = max_bandwidth link_type * signal_strength link /\
     0 < bandwidth link <= max_bandwidth link_type /\
     (forall s t,
        nodes net !! source_id = Some s -> nodes net !! target_id = Some t ->
        0 <= np_linalg_norm (vec_sub (position s) (position t)) ->
        processing_delay link_type <= latency link /\ 0 < weight link) /\
     dict_get key (links (fst res)) = Some link /\
     (forall other, other <> key ->
        dict_get other (links (fst res)) = dict_get other (links net)) /\
     dict_keys (links (fst res))
       = (if decide (key ∈ dict_keys (links net)) then dict_keys (links net)
          else dict_keys (links net) ++ [key]) /\
     fst res = set_links net (links (fst res))).
Proof.
  cbn zeta.
  pose proof (establish_link_result net source_id target_id link_type now)
    as Hres. cbn zeta in Hres.
  destruct (nodes net !! source_id) as [s|] eqn:Es.
  2:{ rewrite Hres. cbn [fst snd].
      split; [split; [intros _; left; apply not_elem_of_dom; exact Es
                     | reflexivity]|].
      split; [reflexivity | discriminate]. }
  destruct (nodes net !! target_id) as [t|] eqn:Et.
  2:{ rewrite Hres. cbn [fst snd].
      split; [split; [intros _; right; apply not_elem_of_dom; exact Et
                     | reflexivity]|].
      split; [reflexivity | discriminate]. }
  destruct Hres as (link & -> & H1 & H2 & H3 & H4 & H5 & H6 & H7 & H8 & H9
                      & H10 & H11).
  cbn [fst snd].
  split.
  { split; [discriminate|].
    intros [H|H]; exfalso; apply H; apply elem_of_dom; eauto. }
  split; [discriminate|].
  intros link' [= <-].
  assert (Hrange : 0.1 <= signal_strength link <= 1).
  { rewrite H8. apply signal_strength_range. }
  split; [exact H1|]. split; [exact H2|]. split; [exact H3|].
  split; [exact H4|]. split; [exact H5|]. split; [exact H6|].
  split; [exact H7|]. split; [exact Hrange|]. split; [exact H9|].
  split; [exact H10|].
  split.
  { rewrite H10. destruct link_type; cbn [max_bandwidth]; lra. }
  split.
  { intros s' t' [= <-] [= <-] Hd.
    pose proof (latency_pos _ link_type Hd) as Hlat.
    unfold weight. rewrite H9, H11. split.
    - unfold _calculate_latency.
      assert (0 <= np_linalg_norm (vec_sub (position s) (position t))
                   / 300000000 * 1000).
      { apply Qmult_le_0_compat; [|lra]. apply Qle_shift_div_l; lra. }
      lra.
    - apply Qmult_lt_0_compat; lra. }
  cbn [links set_links].
  split; [apply dict_get_set_eq|].
  split; [intros other Hne; apply dict_get_set_ne; congruence|].
  split; [apply dict_keys_set | reflexivity].
Qed.

Lemma establish_link_keyed net source_id target_id link_type now :
  links_keyed net ->
  links_keyed (fst (establish_link net source_id target_id link_type now)).
Proof.
  intros [Hnd Hkey].
  pose proof (establish_link_result net source_id target_id link_type now)
    as Hres. cbn zeta in Hres.
  destruct (nodes net !! source_id) as [s|];
    [|rewrite Hres; split; assumption].
  destruct (nodes net !! target_id) as [t|];
    [|rewrite Hres; split; assumption].
  destruct Hres as (link & -> & H1 & H2 & H3 & H4 & _).
  cbn [fst]. split; cbn [links set_links].
  - apply dict_keys_set_NoDup. exact Hnd.
  - intros k l Hin. apply dict_set_elem in Hin as [[-> ->]|[_ Hin]];
      [|exact (Hkey k l Hin)|exact Hnd].
    split; [exact H1|]. rewrite H2, H3, H4. reflexivity.
Qed.

(** X22.  The identifier source-target-type does not determine the
    endpoints: when a second request yields the identifier of an
    earlier one, its link takes the place of the earlier link, the
    table has the same keys as before, and, in a table that files
    every link under its identifier, no link of the endpoints and type
    of the first request is left. *)
Theorem link_name_collision (net : SpaceNetwork)
    (s t s' t' : string) (m m' : CommunicationMode) (now now' : Q)
    (link link' : CommunicationLink) :
  let net1 := fst (establish_link net s t m now) in
  let net2 := fst (establish_link net1 s' t' m' now') in
  snd (establish_link net s t m now) = Some link ->
  snd (establish_link net1 s' t' m' now') = Some link' ->
  link_name s t m = link_name s' t' m' ->
  dict_get (link_id link) (links net1) = Some link /\
  dict_get (link_id link) (links net2) = Some link' /\
  dict_keys (links net2) = dict_keys (links net1) /\
  (links_keyed net -> (s, t, m) <> (s', t', m') ->
   forall l, l ∈ dict_values (links net2) ->
     ~ (source_node l = s /\ target_node l = t /\ Network.link_type l = m)).
Proof.
  cbn zeta. intros Hfirst Hsecond Hname.
  pose proof (establish_link_result net s t m now) as Hres. cbn zeta in Hres.
  destruct (nodes net !! s) as [ns|];
    [|rewrite Hres in Hfirst; discriminate].
  destruct (nodes net !! t) as [nt|];
    [|rewrite Hres in Hfirst; discriminate].
  destruct Hres as (l1 & Hres1 & H1 & _).
  rewrite Hres1 in Hfirst, Hsecond |- *. cbn [fst snd] in *.
  injection Hfirst as ->.
  set (net1 := set_links net (dict_set (link_name s t m) link (links net)))
    in *.
  pose proof (establish_link_result net1 s' t' m' now') as Hres.
  cbn zeta in Hres.
  destruct (nodes net1 !! s') as [ns'|];
    [|rewrite Hres in Hsecond; discriminate].
  destruct (nodes net1 !! t') as [nt'|];
    [|rewrite Hres in Hsecond; discriminate].
  destruct Hres as (l2 & Hres2 & H1' & H2' & H3' & H4' & _).
  rewrite Hres2 in Hsecond |- *. cbn [fst snd] in *. injection Hsecond as ->.
  cbn [links set_links net1]. rewrite H1, <- Hname.
  split; [apply dict_get_set_eq|].
  split; [apply dict_get_set_eq|].
  split.
  { rewrite !dict_keys_set.
    destruct (decide (link_name s t m ∈ dict_keys (links net))) as [Hin|Hnin].
    - destruct (decide (link_name s t m ∈ dict_keys (links net)));
        [reflexivity | contradiction].
    - destruct (decide (link_name s t m ∈ dict_keys (links net) ++ [_]))
        as [_|Hn]; [reflexivity|].
      exfalso. apply Hn. apply elem_of_app. right. left. }
  intros [Hnd Hkey] Hdiff l Hl (Hs & Ht & Hm).
  apply dict_values_elem in Hl as ([k l0] & Hin & Heq). cbn in Heq. subst l0.
  apply dict_set_elem in Hin as [[-> ->]|[Hne Hin]];
    [| |apply dict_keys_set_NoDup; exact Hnd].
  - apply Hdiff. congruence.
  - apply dict_set_elem in Hin as [[-> ->]|[_ Hin]]; [congruence| |exact Hnd].
    destruct (Hkey k l Hin) as [_ Hk]. apply Hne.
    rewrite Hk, Hs, Ht, Hm. reflexivity.
Qed.

End Links.

(** *** [activate_emergency_protocol] *)

Definition set_priority_level (n : NetworkNode) (v : Z) : NetworkNode :=
  {| node_id := node_id n; name := name n; node_type := node_type n;
     position := position n; velocity := velocity n; status := status n;
     communication_modes := communication_modes n;
     last_contact := last_contact n;
     node_signal_strength := node_signal_strength n;
     bandwidth_capacity := bandwidth_capacity n;
     current_load := current_load n; priority_level := v |}.

Definition set_emergency (net : SpaceNetwork) : SpaceNetwork :=
  {| network_name := network_name net; nodes := nodes net;
     links := links net; network_status := EMERGENCY;
     emergency_protocols_active := true;
     total_data_transmitted := total_data_transmitted net |}.

(** One pass of the loop that prioritizes the affected nodes. *)
Definition prioritize (net : SpaceNetwork) (node_id : string) : SpaceNetwork :=
  match nodes net !! node_id with
  | Some node =>
      set_nodes net (<[node_id := set_priority_level node 10]> (nodes net))
  | None => net
  end.

Section Emergency.

Variable np_linalg_norm : Q * Q * Q -> Q.
Variable np_log10 : Q -> Q.
Variable pow10 : Q -> Q.

(** The order in which the dictionary of nodes is iterated, and the
    clock as the successive calls of [establish_link] read it. *)
Variable nodes_iter : gmap string NetworkNode -> list string.
Variable clock : nat -> Q.

Abbreviation establish_link :=
  (Network.establish_link np_linalg_norm np_log10 pow10).

(** The body of the inner loop; the number counts the calls of
    [establish_link]. *)
Definition beacon (affected_nodes : list string) (node_id : string)
    (st : SpaceNetwork * nat) (other_id : string) : SpaceNetwork * nat :=
  if bool_decide (other_id <> node_id)
     && negb (bool_decide (other_id ∈ affected_nodes))
  then
    (fst (establish_link st.1 node_id other_id EMERGENCY_BEACON (clock st.2)),
     S st.2)
  else st.

(** [activate_emergency_protocol]. *)
Definition activate_emergency_protocol (net : SpaceNetwork)
    (emergency_type : string) (affected_nodes : list string) : SpaceNetwork :=
  let net := set_emergency net in
  (* Prioritize emergency communications *)
  let net := foldl prioritize net affected_nodes in
  (* Establish emergency beacon links *)
  fst (foldl (fun st node_id =>
                foldl (beacon affected_nodes node_id) st
                  (nodes_iter (nodes st.1)))
         (net, 0%nat) affected_nodes).

End Emergency.

(** Identifiers without a dash make link identifiers unambiguous. *)
Fixpoint no_dash (s : string) : bool :=
  match s with
  | EmptyString => true
  | String c s' => negb (Ascii.eqb c "-") && no_dash s'
  end.

Lemma app_dash_inj (a a' r r' : string) :
  no_dash a = true -> no_dash a' = true ->
  (a ++ String "-" r)%string = (a' ++ String "-" r')%string ->
  a = a' /\ r = r'.
Proof.
  revert a'. induction a as [|c a IH]; intros [|c' a'] Ha Ha' Heq; cbn in *.
  - injection Heq as <-. auto.
  - injection Heq as <- _. cbn in Ha'. discriminate.
  - injection Heq as -> _. cbn in Ha. discriminate.
  - injection Heq as <- Heq.
    apply andb_true_iff in Ha as [_ Ha], Ha' as [_ Ha'].
    destruct (IH a' Ha Ha' Heq) as [-> ->]. auto.
Qed.

Lemma link_name_inj a b m a' b' m' :
  no_dash a = true -> no_dash a' = true ->
  no_dash b = true -> no_dash b' = true ->
  link_name a b m = link_name a' b' m' -> a = a' /\ b = b'.
Proof.
  intros Ha Ha' Hb Hb' Heq. unfold link_name in Heq.
  cbn [String.append] in Heq.
  apply (app_dash_inj a a') in Heq as [-> Heq]; [|assumption..].
  apply (app_dash_inj b b') in Heq as [-> _]; [|assumption..]. auto.
Qed.

Lemma prioritize_fold (affected_nodes : list string) (net : SpaceNetwork) :
  let net' := foldl prioritize net affected_nodes in
  net' = set_nodes net (nodes net') /\
  forall id,
    nodes net' !! id
    = if bool_decide (id ∈ affected_nodes)
      then (fun n => set_priority_level n 10) <$> nodes net !! id
      else nodes net !! id.
Proof.
  induction affected_nodes as [|x l IH] using rev_ind; cbn zeta.
  - cbn. split; [destruct net; reflexivity|]. intros id.
    rewrite bool_decide_eq_false_2; [reflexivity|]. intros H. inversion H.
  - rewrite foldl_snoc. cbn zeta in IH. destruct IH as [Hframe Hnodes].
    set (net1 := foldl prioritize net l) in *.
    assert (Hstep : forall id,
              nodes (prioritize net1 x) !! id
              = if decide (id = x)
                then (fun n => set_priority_level n 10) <$> nodes net1 !! id
                else nodes net1 !! id).
    { intros id. unfold prioritize.
      destruct (nodes net1 !! x) as [n|] eqn:En; cbn [nodes set_nodes].
      - destruct (decide (id = x)) as [->|Hne].
        + rewrite lookup_insert_eq, En. reflexivity.
        + rewrite lookup_insert_ne by congruence. reflexivity.
      - destruct (decide (id = x)) as [->|Hne]; [rewrite En|]; reflexivity. }
    split.
    { unfold prioritize. destruct (nodes net1 !! x); [|exact Hframe].
      rewrite Hframe at 1. reflexivity. }
    intros id. rewrite Hstep, Hnodes.
    destruct (decide (id = x)) as [->|Hne].
    + rewrite (bool_decide_eq_true_2 (x ∈ l ++ [x]))
        by (apply elem_of_app; right; left).
      destruct (bool_decide (x ∈ l)); [|reflexivity].
      destruct (nodes net !! x); reflexivity.
    + destruct (bool_decide (id ∈ l)) eqn:E.
      * apply bool_decide_eq_true in E.
        rewrite bool_decide_eq_true_2 by (apply elem_of_app; auto).
        reflexivity.
      * apply bool_decide_eq_false in E.
        rewrite bool_decide_eq_false_2; [reflexivity|].
        intros H. apply elem_of_app in H as [H|H]; [contradiction|].
        apply list_elem_of_singleton in H. contradiction.
Qed.

Section EmergencyProof.

Variable np_linalg_norm : Q * Q * Q -> Q.
Variable np_log10 : Q -> Q.
Variable pow10 : Q -> Q.
Variable nodes_iter : gmap string NetworkNode -> list string.
Variable clock : nat -> Q.

Hypothesis nodes_iter_spec : forall m x, x ∈ nodes_iter m <-> x ∈ dom m.

Abbreviation establish_link :=
  (Network.establish_link np_linalg_norm np_log10 pow10).

(** The calls of [establish_link] one after the other. *)
Definition establish_all (st : SpaceNetwork * nat)
    (pairs : list (string * string)) : SpaceNetwork * nat :=
  foldl (fun st p =>
           (fst (establish_link st.1 p.1 p.2 EMERGENCY_BEACON (clock st.2)),
            S st.2))
        st pairs.

Definition wanted (affected_nodes : list string) (node_id other_id : string)
    : bool :=
  bool_decide (other_id <> node_id)
  && negb (bool_decide (other_id ∈ affected_nodes)).

Lemma inner_loop affected_nodes node_id others :
  forall st,
    foldl (beacon np_linalg_norm np_log10 pow10 clock affected_nodes node_id)
      st others
    = establish_all st
        (map (pair node_id) (List.filter (wanted affected_nodes node_id) others)).
Proof.
  induction others as [|b others IH]; intros st; [reflexivity|].
  cbn [foldl List.filter]. unfold beacon at 2. fold (wanted affected_nodes node_id b).
  destruct (wanted affected_nodes node_id b); [|apply IH].
  cbn [map]. unfold establish_all. cbn [foldl]. apply IH.
Qed.

Lemma establish_all_frame pairs :
  forall st,
    (establish_all st pairs).1
    = set_links st.1 (links (establish_all st pairs).1).
Proof.
  induction pairs as [|[a b] pairs IH] using rev_ind; intros st.
  - cbn. destruct st as [[] ?]. reflexivity.
  - unfold establish_all in *. rewrite foldl_snoc. cbn [fst snd].
    pose proof (IH st) as Hst.
    set (st1 := foldl _ st pairs) in *.
    pose proof (establish_link_result np_linalg_norm np_log10 pow10 st1.1 a b
                  EMERGENCY_BEACON (clock st1.2)) as Hres.
    cbn zeta in Hres.
    destruct (nodes st1.1 !! a); [|rewrite Hres; exact Hst].
    destruct (nodes st1.1 !! b); [|rewrite Hres; exact Hst].
    destruct Hres as (l & -> & _). cbn [fst links set_links].
    rewrite Hst at 1. reflexivity.
Qed.

Lemma establish_all_nodes pairs st :
  nodes (establish_all st pairs).1 = nodes st.1.
Proof. rewrite establish_all_frame. reflexivity. Qed.

Lemma outer_loop affected_nodes remaining :
  forall st,
    foldl (fun st node_id =>
             foldl (beacon np_linalg_norm np_log10 pow10 clock
                      affected_nodes node_id) st (nodes_iter (nodes st.1)))
      st remaining
    = establish_all st
        (flat_map (fun node_id =>
                     map (pair node_id)
                       (List.filter (wanted affected_nodes node_id)
                          (nodes_iter (nodes st.1))))
           remaining).
Proof.
  induction remaining as [|a remaining IH]; intros st; [reflexivity|].
  cbn [foldl flat_map]. rewrite inner_loop, IH.
  rewrite establish_all_nodes.
  unfold establish_all. rewrite foldl_app. reflexivity.
Qed.

(** A beacon link from [a] to [b] as [establish_link] makes it. *)
Definition beacon_link (a b : string) (l : CommunicationLink) : Prop :=
  source_node l = a /\ target_node l = b /\
  link_type l = EMERGENCY_BEACON /\ packet_loss l = 0 /\
  0.1 <= signal_strength l <= 1.

Lemma establish_all_spec pairs :
  forall st,
    (forall id, id ∈ dom (nodes st.1) -> no_dash id = true) ->
    let st' := establish_all st pairs in
    (forall a b, (a, b) ∈ pairs ->
       a ∈ dom (nodes st.1) -> b ∈ dom (nodes st.1) ->
       exists l,
         dict_get (link_name a b EMERGENCY_BEACON) (links st'.1) = Some l /\
         beacon_link a b l) /\
    (forall key,
       (forall a b, (a, b) ∈ pairs ->
          a ∈ dom (nodes st.1) -> b ∈ dom (nodes st.1) ->
          key <> link_name a b EMERGENCY_BEACON) ->
       dict_get key (links st'.1) = dict_get key (links st.1)) /\
    (exists new, dict_keys (links st'.1) = dict_keys (links st.1) ++ new).
Proof.
  induction pairs as [|[a b] pairs IH] using rev_ind; intros st Hdash;
    cbn zeta.
  - cbn. split; [intros a b H; inversion H|]. split; [reflexivity|].
    exists []. rewrite app_nil_r. reflexivity.
  - specialize (IH st Hdash). cbn zeta in IH.
    destruct IH as (Hlinks & Hother & new & Hkeys).
    pose proof (establish_all_nodes pairs st) as Hnodes.
    unfold establish_all in *. rewrite foldl_snoc. cbn [fst snd].
    set (st1 := foldl _ st pairs) in *.
    pose proof (establish_link_result np_linalg_norm np_log10 pow10 st1.1 a b
                  EMERGENCY_BEACON (clock st1.2)) as Hres.
    cbn zeta in Hres. rewrite Hnodes in Hres.
    assert (Hskip : establish_link st1.1 a b EMERGENCY_BEACON (clock st1.2)
                    = (st1.1, None) ->
                    a ∉ dom (nodes st.1) \/ b ∉ dom (nodes st.1) ->
                    (forall x y, (x, y) ∈ pairs ++ [(a, b)] ->
                       x ∈ dom (nodes st.1) -> y ∈ dom (nodes st.1) ->
                       exists l,
                         dict_get (link_name x y EMERGENCY_BEACON)
                           (links (establish_link st1.1 a b EMERGENCY_BEACON
                                     (clock st1.2)).1) = Some l /\
                         beacon_link x y l) /\
                    (forall key,
                       (forall x y, (x, y) ∈ pairs ++ [(a, b)] ->
                          x ∈ dom (nodes st.1) -> y ∈ dom (nodes st.1) ->
                          key <> link_name x y EMERGENCY_BEACON) ->
                       dict_get key
                         (links (establish_link st1.1 a b EMERGENCY_BEACON
                                   (clock st1.2)).1)
                       = dict_get key (links st.1)) /\
                    (exists new,
                       dict_keys
                         (links (establish_link st1.1 a b EMERGENCY_BEACON
                                   (clock st1.2)).1)
                       = dict_keys (links st.1) ++ new)).
    { intros -> Hunreg. cbn [fst]. split; [|split].
      - intros x y Hxy Hx Hy. apply elem_of_app in Hxy as [Hxy|Hxy]; [auto|].
        apply list_elem_of_singleton in Hxy as [= -> ->]. tauto.
      - intros key Hkey. apply Hother. intros x y Hxy. apply Hkey.
        apply elem_of_app. auto.
      - exists new. exact Hkeys. }
    destruct (nodes st.1 !! a) as [na|] eqn:Ea.
    2:{ apply Hskip; [exact Hres|]. left. apply not_elem_of_dom. exact Ea. }
    destruct (nodes st.1 !! b) as [nb|] eqn:Eb.
    2:{ apply Hskip; [exact Hres|]. right. apply not_elem_of_dom. exact Eb. }
    clear Hskip.
    destruct Hres as (l & -> & H1 & H2 & H3 & H4 & _ & H6 & _ & H8 & _).
    cbn [fst links set_links].
    assert (Hbeacon : beacon_link a b l).
    { split; [exact H2|]. split; [exact H3|]. split; [exact H4|].
      split; [exact H6|]. rewrite H8. apply signal_strength_range. }
    assert (Ha : a ∈ dom (nodes st.1)) by (apply elem_of_dom; eauto).
    assert (Hb : b ∈ dom (nodes st.1)) by (apply elem_of_dom; eauto).
    split; [|split].
    + intros x y Hxy Hx Hy.
      destruct (decide (link_name x y EMERGENCY_BEACON
                        = link_name a b EMERGENCY_BEACON)) as [Heq|Hne].
      * rewrite Heq, dict_get_set_eq.
        apply link_name_inj in Heq as [-> ->]; auto.
        exists l. split; [reflexivity | exact Hbeacon].
      * rewrite dict_get_set_ne by congruence.
        apply elem_of_app in Hxy as [Hxy|Hxy]; [auto|].
        apply list_elem_of_singleton in Hxy as [= -> ->]. congruence.
    + intros key Hkey. rewrite dict_get_set_ne.
      * apply Hother. intros x y Hxy. apply Hkey. apply elem_of_app. auto.
      * intros Heq. apply (Hkey a b); auto.
        apply elem_of_app. right. left.
    + rewrite dict_keys_set, Hkeys.
      destruct (decide (_ ∈ _)); [exists new; reflexivity|].
      exists (new ++ [link_name a b EMERGENCY_BEACON]).
      rewrite app_assoc. reflexivity.
Qed.

Lemma calls_elem affected_nodes (nodes_list : list string) a b :
  (a, b) ∈ flat_map (fun node_id =>
                       map (pair node_id)
                         (List.filter (wanted affected_nodes node_id)
                            nodes_list))
             affected_nodes
  <-> a ∈ affected_nodes /\ b ∈ nodes_list /\ b ∉ affected_nodes.
Proof.
  rewrite list_elem_of_In, in_flat_map. split.
  - intros (x & Hx & Hin). apply in_map_iff in Hin as (y & [= -> ->] & Hy).
    apply filter_In in Hy as [Hy Hw]. unfold wanted in Hw.
    apply andb_true_iff in Hw as [_ Hw]. apply negb_true_iff in Hw.
    apply bool_decide_eq_false in Hw.
    split; [apply list_elem_of_In; exact Hx|].
    split; [apply list_elem_of_In; exact Hy | exact Hw].
  - intros (Ha & Hb & Hn). exists a. split; [apply list_elem_of_In; exact Ha|].
    apply in_map_iff. exists b. split; [reflexivity|].
    apply filter_In. split; [apply list_elem_of_In; exact Hb|].
    unfold wanted. apply andb_true_iff. split.
    + apply bool_decide_eq_true. intros ->. contradiction.
    + apply negb_true_iff. apply bool_decide_eq_false. exact Hn.
Qed.

(** X23.  [activate_emergency_protocol] puts the network in the
    emergency state and gives every registered affected node priority
    10, leaving all other nodes as they are.  When no registered
    identifier contains a dash, there is afterwards a beacon link,
    without packet loss and with a signal strength between 0.1 and 1,
    from every registered affected node to every registered node that
    is not affected; links filed under any other identifier are as
    before and keep their places in the table.  When every registered
    node is affected, no link is established at all. *)
Theorem emergency_beacons (net : SpaceNetwork) (emergency_type : string)
    (affected_nodes : list string) :
  (forall id, id ∈ dom (nodes net) -> no_dash id = true) ->
  let net' := activate_emergency_protocol np_linalg_norm np_log10 pow10
                nodes_iter clock net emergency_type affected_nodes in
  network_status net' = EMERGENCY /\
  emergency_protocols_active net' = true /\
  network_name net' = network_name net /\
  total_data_transmitted net' = total_data_transmitted net /\
  (forall id,
     nodes net' !! id
     = if bool_decide (id ∈ affected_nodes)
       then (fun n => set_priority_level n 10) <$> nodes net !! id
       else nodes net !! id) /\
  (forall a b,
     a ∈ affected_nodes -> b ∉ affected_nodes ->
     a ∈ dom (nodes net) -> b ∈ dom (nodes net) ->
     exists l,
       dict_get (link_name a b EMERGENCY_BEACON) (links net') = Some l /\
       beacon_link a b l) /\
  (forall key,
     (forall a b,
        a ∈ affected_nodes -> b ∉ affected_nodes ->
        a ∈ dom (nodes net) -> b ∈ dom (nodes net) ->
        key <> link_name a b EMERGENCY_BEACON) ->
     dict_get key (links net') = dict_get key (links net)) /\
  (exists new, dict_keys (links net') = dict_keys (links net) ++ new) /\
  ((forall b, b ∈ dom (nodes net) -> b ∈ affected_nodes) ->
   links net' = links net).
Proof.
  intros Hdash. cbn zeta. unfold activate_emergency_protocol.
  destruct (prioritize_fold affected_nodes (set_emergency net))
    as [Hframe Hnodes]. cbn zeta in Hframe, Hnodes.
  set (net0 := foldl prioritize (set_emergency net) affected_nodes) in *.
  assert (Hdom : dom (nodes net0) = dom (nodes net)).
  { apply set_eq. intros id. rewrite !elem_of_dom, Hnodes.
    cbn [nodes set_emergency].
    destruct (bool_decide (id ∈ affected_nodes)); [|reflexivity].
    rewrite fmap_is_Some. reflexivity. }
  assert (Hlinks0 : links net0 = links net) by (rewrite Hframe; reflexivity).
  rewrite outer_loop. cbn [fst].
  set (pairs := flat_map _ affected_nodes).
  pose proof (establish_all_frame pairs (net0, 0%nat)) as Hf.
  destruct (establish_all_spec pairs (net0, 0%nat)) as (Hmade & Hother & Hkeys).
  { cbn [fst]. rewrite Hdom. exact Hdash. }
  cbn [fst] in *. rewrite Hdom, Hlinks0 in *.
  set (st' := establish_all (net0, 0%nat) pairs) in *.
  split; [rewrite Hf, Hframe; reflexivity|].
  split; [rewrite Hf, Hframe; reflexivity|].
  split; [rewrite Hf, Hframe; reflexivity|].
  split; [rewrite Hf, Hframe; reflexivity|].
  split; [intros id; rewrite Hf; exact (Hnodes id)|].
  split; [|split; [|split]].
  - intros a b Ha Hb Hra Hrb. apply Hmade; [|exact Hra|exact Hrb].
    apply calls_elem. split; [exact Ha|]. split; [|exact Hb].
    apply nodes_iter_spec. rewrite Hdom. exact Hrb.
  - intros key Hkey. apply Hother. intros a b Hab Hra Hrb.
    apply calls_elem in Hab as (Ha & _ & Hb). auto.
  - exact Hkeys.
  - intros Hall. assert (Hnil : pairs = []).
    { destruct pairs as [|[a b] rest] eqn:E; [reflexivity|].
      assert (Hin : (a, b) ∈ pairs) by (rewrite E; left).
      apply calls_elem in Hin as (_ & Hb & Hn).
      apply nodes_iter_spec in Hb. rewrite Hdom in Hb.
      destruct (Hn (Hall b Hb)). }
    unfold st'. rewrite Hnil. exact Hlinks0.
Qed.

End EmergencyProof.

(** *** What every operation keeps *)

(** A link as [establish_link] makes it and [transmit_data] wears it. *)
Definition link_ok (l : CommunicationLink) : Prop :=
  0.1 <= signal_strength l <= 1 /\
  quality_score l = signal_strength l /\
  bandwidth l = max_bandwidth (link_type l) * signal_strength l /\
  0 <= packet_loss l <= 0.1 /\
  processing_delay (link_type l) <= latency l /\
  is_encrypted l = true.

(** The state of a network that the operations keep: links join
    registered nodes, every link and every node is filed under its own
    identifier, and the figures of the links are within their
    ranges. *)
Record sound (net : SpaceNetwork) : Prop := {
  sound_wf : network_wf net;
  sound_keyed : links_keyed net;
  sound_nodes : forall id n, nodes net !! id = Some n -> node_id n = id;
  sound_links : forall l, l ∈ dict_values (links net) -> link_ok l
}.

(** What no operation undoes. *)
Record grows (net net' : SpaceNetwork) : Prop := {
  grows_nodes : dom (nodes net) ⊆ dom (nodes net');
  grows_links : forall k, k ∈ dict_keys (links net) ->
                  k ∈ dict_keys (links net');
  grows_total : total_data_transmitted net <= total_data_transmitted net';
  grows_emergency :
    emergency_protocols_active net = true ->
    emergency_protocols_active net' = true;
  grows_status :
    network_status net = EMERGENCY -> network_status net' = EMERGENCY;
  grows_name : network_name net' = network_name net
}.

Lemma grows_refl net : grows net net.
Proof. constructor; auto. lra. Qed.

Lemma grows_trans net1 net2 net3 :
  grows net1 net2 -> grows net2 net3 -> grows net1 net3.
Proof.
  intros [] []. constructor; auto.
  - set_solver.
  - lra.
  - congruence.
Qed.

Lemma init_sound nm : sound (init nm).
Proof.
  constructor.
  - apply init_wf.
  - split; [constructor|]. intros k l H. inversion H.
  - intros id n H. cbn in H. rewrite lookup_empty in H. discriminate.
  - intros l H. inversion H.
Qed.

Lemma add_node_sound net node now :
  sound net -> sound (add_node net node now).1.
Proof.
  intros [Hwf Hkey Hnodes Hlinks]. constructor.
  - apply add_node_wf. exact Hwf.
  - unfold add_node. destruct (nodes net !! node_id node); exact Hkey.
  - unfold add_node. destruct (nodes net !! node_id node) eqn:E;
      [exact Hnodes|]. cbn [fst nodes]. intros id n Hn.
    destruct (decide (id = node_id node)) as [->|Hne].
    + rewrite lookup_insert_eq in Hn. injection Hn as <-. reflexivity.
    + rewrite lookup_insert_ne in Hn by congruence. eauto.
  - unfold add_node. destruct (nodes net !! node_id node); exact Hlinks.
Qed.

Lemma add_node_grows net node now : grows net (add_node net node now).1.
Proof.
  unfold add_node. destruct (nodes net !! node_id node);
    [apply grows_refl|].
  constructor; cbn; auto; [|lra]. rewrite dom_insert_L. set_solver.
Qed.

Lemma dict_keys_set_mono {V : Type} k (v : V) d x :
  x ∈ dict_keys d -> x ∈ dict_keys (dict_set k v d).
Proof.
  intros Hx. rewrite dict_keys_set.
  destruct (decide (k ∈ dict_keys d)); [exact Hx|].
  apply elem_of_app. auto.
Qed.

Section Operations.

Variable np_linalg_norm : Q * Q * Q -> Q.
Variable np_log10 : Q -> Q.
Variable pow10 : Q -> Q.
Hypothesis norm_nonneg : forall v, 0 <= np_linalg_norm v.

Abbreviation establish_link :=
  (Network.establish_link np_linalg_norm np_log10 pow10).

Lemma establish_link_sound net source_id target_id link_type now :
  sound net ->
  sound (establish_link net source_id target_id link_type now).1.
Proof.
  intros [Hwf Hkey Hnodes Hlinks]. constructor.
  - apply establish_link_wf; assumption.
  - apply establish_link_keyed. exact Hkey.
  - pose proof (establish_link_result np_linalg_norm np_log10 pow10 net
                  source_id target_id link_type now) as Hres.
    cbn zeta in Hres.
    destruct (nodes net !! source_id); [|rewrite Hres; exact Hnodes].
    destruct (nodes net !! target_id); [|rewrite Hres; exact Hnodes].
    destruct Hres as (l & -> & _). exact Hnodes.
  - pose proof (establish_link_result np_linalg_norm np_log10 pow10 net
                  source_id target_id link_type now) as Hres.
    cbn zeta in Hres.
    destruct (nodes net !! source_id) as [s|]; [|rewrite Hres; exact Hlinks].
    destruct (nodes net !! target_id) as [t|]; [|rewrite Hres; exact Hlinks].
    destruct Hres as (l & -> & H1 & H2 & H3 & H4 & H5 & H6 & H7 & H8 & H9
                        & H10 & H11).
    cbn [fst links set_links]. intros l' Hl'.
    apply dict_values_set in Hl' as [->|Hl']; [|auto].
    unfold link_ok. rewrite H4, H6, H7, H9, H10, H11.
    pose proof (signal_strength_range np_log10 pow10
                  (np_linalg_norm (vec_sub (position s) (position t)))
                  link_type) as Hr. rewrite <- H8 in Hr.
    split; [exact Hr|]. split; [reflexivity|]. split; [reflexivity|].
    split; [lra|]. split; [|reflexivity].
    unfold _calculate_latency.
    assert (0 <= np_linalg_norm (vec_sub (position s) (position t))
                 / 300000000 * 1000).
    { apply Qmult_le_0_compat; [|lra].
      apply Qle_shift_div_l; [lra|]. pose proof (norm_nonneg
        (vec_sub (position s) (position t))). lra. }
    lra.
Qed.

Lemma establish_link_grows net source_id target_id link_type now :
  grows net (establish_link net source_id target_id link_type now).1.
Proof.
  pose proof (establish_link_result np_linalg_norm np_log10 pow10 net
                source_id target_id link_type now) as Hres.
  cbn zeta in Hres.
  destruct (nodes net !! source_id); [|rewrite Hres; apply grows_refl].
  destruct (nodes net !! target_id); [|rewrite Hres; apply grows_refl].
  destruct Hres as (l & -> & _). constructor; cbn; auto; [|lra].
  intros k. apply dict_keys_set_mono.
Qed.

End Operations.

(** The wear of an entry of the table by [transmit_data]. *)
Definition wear (e e' : string * CommunicationLink) : Prop :=
  same_but_loss e e' /\
  (0 <= packet_loss e.2 <= 0.1 -> 0 <= packet_loss e'.2 <= 0.1).

Lemma wear_refl table : Forall2 wear table table.
Proof.
  apply Forall_Forall2_diag, Forall_forall. intros e _.
  split; [split; reflexivity | auto].
Qed.

Lemma wear_trans t1 t2 t3 :
  Forall2 wear t1 t2 -> Forall2 wear t2 t3 -> Forall2 wear t1 t3.
Proof.
  intros H. revert t3.
  induction H as [|x y l1 l2 [[H1 H2] H3] _ IH]; intros t3 H';
    inversion H' as [|? z ? l3 [[H4 H5] H6] Hrest]; subst; constructor.
  - split; [split; congruence | auto].
  - apply IH. exact Hrest.
Qed.

Lemma transmit_hops_cons net a b rest data_size :
  transmit_hops net (a :: b :: rest) data_size
  = match list_find (joins a b) (links net) with
    | None => (net, false)
    | Some (i, (key, link)) =>
        let net := set_links net (<[i := (key, degrade link)]> (links net)) in
        let net :=
          match nodes net !! a with
          | Some node =>
              set_nodes net (<[a := add_load data_size node]> (nodes net))
          | None => net
          end in
        transmit_hops net (b :: rest) data_size
    end.
Proof. reflexivity. Qed.

Lemma transmit_hops_wear (data_size : Q) (route : list string) :
  forall net,
    let net' := (transmit_hops net route data_size).1 in
    Forall2 wear (links net) (links net') /\
    dom (nodes net') = dom (nodes net) /\
    (forall id n', nodes net' !! id = Some n' ->
       exists n, nodes net !! id = Some n /\ node_id n' = node_id n) /\
    net' = set_nodes (set_links net (links net')) (nodes net').
Proof.
  induction route as [|a [|b rest] IH]; intros net; cbn zeta.
  - cbn. split; [apply wear_refl|]. split; [reflexivity|].
    split; [eauto | destruct net; reflexivity].
  - cbn. split; [apply wear_refl|]. split; [reflexivity|].
    split; [eauto | destruct net; reflexivity].
  - rewrite transmit_hops_cons.
    destruct (list_find (joins a b) (links net)) as [[j0 [k0 l0]]|] eqn:Hfind.
    2:{ cbn [fst]. split; [apply wear_refl|]. split; [reflexivity|].
        split; [eauto | destruct net; reflexivity]. }
    apply list_find_Some in Hfind as (Hj0 & _ & _). cbn zeta.
    set (table1 := <[j0 := (k0, degrade l0)]> (links net)).
    set (net1 := match nodes (set_links net table1) !! a with
                 | Some node =>
                     set_nodes (set_links net table1)
                       (<[a := add_load data_size node]>
                          (nodes (set_links net table1)))
                 | None => set_links net table1
                 end).
    specialize (IH net1). cbn zeta in IH.
    destruct IH as (Hw & Hdom & Hid & Hframe).
    assert (Hlinks1 : links net1 = table1).
    { unfold net1. destruct (nodes (set_links net table1) !! a); reflexivity. }
    assert (Hw1 : Forall2 wear (links net) table1).
    { unfold table1. apply Forall2_same_length_lookup. split.
      - rewrite length_insert. reflexivity.
      - intros j e e' He He'.
        destruct (decide (j = j0)) as [->|Hne].
        + rewrite list_lookup_insert_eq in He'
            by (eapply lookup_lt_Some; exact Hj0).
          injection He' as <-. rewrite Hj0 in He. injection He as <-.
          split; [split; reflexivity|]. cbn [snd]. intros Hb.
          unfold degrade, Py.min. cbn [packet_loss set_packet_loss].
          destruct (Qlt_le_dec _ _); lra.
        + rewrite list_lookup_insert_ne in He' by congruence.
          rewrite He in He'. injection He' as <-.
          split; [split; reflexivity | auto]. }
    assert (Hnodes1 : dom (nodes net1) = dom (nodes net) /\
              forall id n', nodes net1 !! id = Some n' ->
                exists n, nodes net !! id = Some n /\ node_id n' = node_id n).
    { unfold net1. cbn [nodes set_links].
      destruct (nodes net !! a) as [node|] eqn:En;
        cbn [nodes set_nodes set_links]; [|split; eauto].
      split.
      - rewrite dom_insert_L. apply (elem_of_dom_2 (nodes net)) in En.
        set_solver.
      - intros id n' Hn'. destruct (decide (id = a)) as [->|Hne].
        + rewrite lookup_insert_eq in Hn'. injection Hn' as <-.
          exists node. split; [exact En | reflexivity].
        + rewrite lookup_insert_ne in Hn' by congruence. eauto. }
    destruct Hnodes1 as [Hdom1 Hid1].
    split; [rewrite Hlinks1 in Hw; exact (wear_trans _ _ _ Hw1 Hw)|].
    split; [rewrite Hdom; exact Hdom1|].
    split.
    + intros id n' Hn'. destruct (Hid id n' Hn') as (n1 & Hn1 & Heq).
      destruct (Hid1 id n1 Hn1) as (n & Hn & Heq1).
      exists n. split; [exact Hn | congruence].
    + rewrite Hframe at 1. unfold net1.
      destruct (nodes (set_links net table1) !! a); destruct net; reflexivity.
Qed.

Lemma wear_sound net table nds :
  sound net ->
  Forall2 wear (links net) table ->
  dom nds = dom (nodes net) ->
  (forall id n', nds !! id = Some n' ->
     exists n, nodes net !! id = Some n /\ node_id n' = node_id n) ->
  sound (set_nodes (set_links net table) nds).
Proof.
  intros [Hwf [Hnd Hkey] Hnodes Hlinks] Hw Hdom Hid.
  assert (Hentry : forall k' l', (k', l') ∈ table ->
            exists l, (k', l) ∈ links net /\
              set_packet_loss l 0 = set_packet_loss l' 0 /\
              (0 <= packet_loss l <= 0.1 -> 0 <= packet_loss l' <= 0.1)).
  { intros k' l' Hin. apply list_elem_of_lookup_1 in Hin as [i Hi].
    destruct (Forall2_lookup_r _ _ _ _ _ Hw Hi)
      as ([k l] & Hl & [[H1 H2] H3]).
    cbn in H1, H2, H3. subst k'. exists l.
    split; [eapply list_elem_of_lookup_2; exact Hl | auto]. }
  constructor.
  - intros l' Hl'. cbn [links nodes set_nodes set_links] in *.
    apply dict_values_elem in Hl' as ([k' l0] & Hin & Heq). cbn in Heq.
    subst l0. destruct (Hentry k' l' Hin) as (l & Hl & Hsame & _).
    destruct (Hwf l) as (H1 & H2 & H3).
    { apply dict_values_elem. exists (k', l). auto. }
    rewrite Hdom.
    rewrite <- (f_equal source_node Hsame : source_node l = source_node l').
    rewrite <- (f_equal target_node Hsame : target_node l = target_node l').
    rewrite <- (f_equal weight Hsame : weight l = weight l'). auto.
  - split; cbn [links set_nodes set_links].
    + replace (dict_keys table) with (dict_keys (links net)); [exact Hnd|].
      unfold dict_keys. clear -Hw.
      induction Hw as [|e e' t t' [[H _] _] _ IH]; cbn; congruence.
    + intros k' l' Hin. destruct (Hentry k' l' Hin) as (l & Hl & Hsame & _).
      destruct (Hkey k' l Hl) as [H1 H2].
      rewrite <- (f_equal link_id Hsame : link_id l = link_id l').
      rewrite <- (f_equal source_node Hsame : source_node l = source_node l').
      rewrite <- (f_equal target_node Hsame : target_node l = target_node l').
      rewrite <- (f_equal link_type Hsame : link_type l = link_type l').
      auto.
  - cbn [nodes set_nodes]. intros id n' Hn'.
    destruct (Hid id n' Hn') as (n & Hn & ->). eauto.
  - cbn [links set_nodes set_links]. intros l' Hl'.
    apply dict_values_elem in Hl' as ([k' l0] & Hin & Heq). cbn in Heq.
    subst l0. destruct (Hentry k' l' Hin) as (l & Hl & Hsame & Hloss).
    destruct (Hlinks l) as (H1 & H2 & H3 & H4 & H5 & H6).
    { apply dict_values_elem. exists (k', l). auto. }
    unfold link_ok.
    rewrite <- (f_equal signal_strength Hsame
                : signal_strength l = signal_strength l').
    rewrite <- (f_equal quality_score Hsame
                : quality_score l = quality_score l').
    rewrite <- (f_equal bandwidth Hsame : bandwidth l = bandwidth l').
    rewrite <- (f_equal link_type Hsame : link_type l = link_type l').
    rewrite <- (f_equal latency Hsame : latency l = latency l').
    rewrite <- (f_equal is_encrypted Hsame
                : is_encrypted l = is_encrypted l').
    auto 10.
Qed.

Lemma sound_ext net net' :
  nodes net' = nodes net -> links net' = links net ->
  sound net -> sound net'.
Proof.
  intros Hn Hl [Hwf [Hnd Hkey] Hnodes Hlinks]. constructor.
  - intros l. unfold network_wf in Hwf. rewrite Hl, Hn. apply Hwf.
  - split; rewrite Hl; assumption.
  - rewrite Hn. exact Hnodes.
  - rewrite Hl. exact Hlinks.
Qed.

Lemma megabytes_nonneg encoded : 0 <= megabytes encoded.
Proof.
  unfold megabytes. apply Qle_shift_div_l; [reflexivity|].
  rewrite Qmult_0_l. change 0 with (inject_Z 0).
  rewrite <- Zle_Qle. lia.
Qed.

Lemma wear_keys table table' :
  Forall2 wear table table' -> dict_keys table' = dict_keys table.
Proof.
  unfold dict_keys.
  induction 1 as [|e e' t t' [[H _] _] _ IH]; cbn; congruence.
Qed.

Section Runs.

Variable np_linalg_norm : Q * Q * Q -> Q.
Variable np_log10 : Q -> Q.
Variable pow10 : Q -> Q.
Variable set_iter : gset string -> list string.
Variable nodes_iter : gmap string NetworkNode -> list string.

Hypothesis norm_nonneg : forall v, 0 <= np_linalg_norm v.
Hypothesis set_iter_spec : forall X x, x ∈ set_iter X <-> x ∈ X.

Abbreviation establish_link :=
  (Network.establish_link np_linalg_norm np_log10 pow10).
Abbreviation activate_emergency_protocol :=
  (NetworkOps.activate_emergency_protocol np_linalg_norm np_log10 pow10
     nodes_iter).

Lemma transmit_data_sound net source_id target_id encoded :
  sound net ->
  exists net' sent,
    transmit_data set_iter net source_id target_id encoded
      = Some (net', sent) /\
    sound net' /\ grows net net'.
Proof.
  intros Hsound.
  destruct (route_shape set_iter set_iter_spec net source_id target_id
              (sound_wf _ Hsound)) as (route & Hroute & _).
  unfold transmit_data. rewrite Hroute. cbn [mbind option_bind].
  destruct (bool_decide (route = [])).
  { exists net, false. split; [reflexivity|].
    split; [exact Hsound | apply grows_refl]. }
  destruct encoded as [bytes|].
  2:{ exists net, false. split; [reflexivity|].
      split; [exact Hsound | apply grows_refl]. }
  destruct (transmit_hops_wear (megabytes bytes) route net)
    as (Hw & Hdom & Hid & Hframe).
  destruct (transmit_hops net route (megabytes bytes)) as [net1 ok].
  cbn [fst] in *.
  assert (Hs1 : sound net1).
  { rewrite Hframe. apply wear_sound; assumption. }
  assert (Hg1 : grows net net1).
  { constructor.
    - rewrite Hdom. reflexivity.
    - rewrite (wear_keys _ _ Hw). auto.
    - rewrite Hframe. cbn. lra.
    - rewrite Hframe. auto.
    - rewrite Hframe. auto.
    - rewrite Hframe. reflexivity. }
  destruct ok.
  - eexists _, true. split; [reflexivity|]. split.
    + eapply sound_ext; [| |exact Hs1]; reflexivity.
    + eapply grows_trans; [exact Hg1|].
      constructor; cbn; auto.
      pose proof (megabytes_nonneg bytes). lra.
  - exists net1, false. split; [reflexivity|]. split; assumption.
Qed.

Lemma establish_all_sound clock pairs :
  forall st,
    sound st.1 ->
    sound (establish_all np_linalg_norm np_log10 pow10 clock st pairs).1 /\
    grows st.1 (establish_all np_linalg_norm np_log10 pow10 clock st pairs).1.
Proof.
  induction pairs as [|[a b] pairs IH] using rev_ind; intros st Hs.
  - split; [exact Hs | apply grows_refl].
  - unfold establish_all in *. rewrite foldl_snoc. cbn [fst snd].
    destruct (IH st Hs) as [Hs1 Hg1]. split.
    + apply establish_link_sound; assumption.
    + eapply grows_trans; [exact Hg1|]. apply establish_link_grows.
Qed.

Lemma activate_emergency_sound clock net emergency_type affected_nodes :
  sound net ->
  sound (activate_emergency_protocol clock net emergency_type affected_nodes)
  /\ grows net
       (activate_emergency_protocol clock net emergency_type affected_nodes)
  /\ emergency_protocols_active
       (activate_emergency_protocol clock net emergency_type affected_nodes)
     = true.
Proof.
  intros Hs. unfold NetworkOps.activate_emergency_protocol.
  destruct (prioritize_fold affected_nodes (set_emergency net))
    as [Hframe Hnodes]. cbn zeta in Hframe, Hnodes.
  set (net0 := foldl prioritize (set_emergency net) affected_nodes) in *.
  assert (Hdom : dom (nodes net0) = dom (nodes net)).
  { apply set_eq. intros id. rewrite !elem_of_dom, Hnodes.
    cbn [nodes set_emergency].
    destruct (bool_decide (id ∈ affected_nodes)); [|reflexivity].
    rewrite fmap_is_Some. reflexivity. }
  assert (Hs0 : sound net0).
  { rewrite Hframe.
    apply (sound_ext (set_nodes (set_links net (links net)) (nodes net0)));
      [reflexivity | reflexivity|].
    apply wear_sound; [exact Hs | apply wear_refl | exact Hdom|].
    intros id n' Hn'. rewrite Hnodes in Hn'. cbn [nodes set_emergency] in Hn'.
    destruct (bool_decide (id ∈ affected_nodes)); [|eauto].
    destruct (nodes net !! id) as [n|]; [|discriminate].
    injection Hn' as <-. exists n. split; reflexivity. }
  assert (Hg0 : grows net net0).
  { rewrite Hframe. constructor; cbn; auto; [|lra].
    rewrite Hdom. reflexivity. }
  rewrite outer_loop.
  destruct (establish_all_sound clock
              (flat_map (fun node_id =>
                 map (pair node_id)
                   (List.filter (wanted affected_nodes node_id)
                      (nodes_iter (nodes (net0, 0%nat).1)))) affected_nodes)
              (net0, 0%nat) Hs0) as [Hs1 Hg1].
  split; [exact Hs1|]. split; [exact (grows_trans _ _ _ Hg0 Hg1)|].
  apply (grows_emergency _ _ Hg1). rewrite Hframe. reflexivity.
Qed.

(** The operations of the network manager. *)
Inductive Command :=
| AddNode (node : NetworkNode) (now : Q)
| EstablishLink (source_id target_id : string)
    (link_type : CommunicationMode) (now : Q)
| TransmitData (source_id target_id : string) (encoded : option (list byte))
| ActivateEmergency (emergency_type : string) (affected_nodes : list string)
    (clock : nat -> Q).

(** One operation; [None] only if the route search of the model runs
    out of fuel. *)
Definition exec (net : SpaceNetwork) (c : Command) : option SpaceNetwork :=
  match c with
  | AddNode node now => Some (add_node net node now).1
  | EstablishLink source_id target_id link_type now =>
      Some (establish_link net source_id target_id link_type now).1
  | TransmitData source_id target_id encoded =>
      fst <$> transmit_data set_iter net source_id target_id encoded
  | ActivateEmergency emergency_type affected_nodes clock =>
      Some (activate_emergency_protocol clock net emergency_type
              affected_nodes)
  end.

Fixpoint run (net : SpaceNetwork) (cs : list Command) : option SpaceNetwork :=
  match cs with
  | [] => Some net
  | c :: cs' =>
      match exec net c with
      | Some net' => run net' cs'
      | None => None
      end
  end.

Lemma exec_sound net c :
  sound net ->
  exists net', exec net c = Some net' /\ sound net' /\ grows net net'.
Proof.
  intros Hs. destruct c as [node now|s t m now|s t e|ty aff clock];
    cbn [exec].
  - eexists. split; [reflexivity|].
    split; [apply add_node_sound; exact Hs | apply add_node_grows].
  - eexists. split; [reflexivity|].
    split; [apply establish_link_sound; assumption
           | apply establish_link_grows].
  - destruct (transmit_data_sound net s t e Hs) as (net' & sent & -> & H1 & H2).
    exists net'. split; [reflexivity|]. split; assumption.
  - eexists. split; [reflexivity|].
    destruct (activate_emergency_sound clock net ty aff Hs) as (H1 & H2 & _).
    split; assumption.
Qed.

Lemma run_sound cs :
  forall net,
    sound net ->
    exists net', run net cs = Some net' /\ sound net' /\ grows net net'.
Proof.
  induction cs as [|c cs IH]; intros net Hs.
  - exists net. split; [reflexivity|]. split; [exact Hs | apply grows_refl].
  - cbn [run]. destruct (exec_sound net c Hs) as (net1 & -> & Hs1 & Hg1).
    destruct (IH net1 Hs1) as (net' & Hrun & Hs' & Hg').
    exists net'. split; [exact Hrun|]. split; [exact Hs'|].
    exact (grows_trans _ _ _ Hg1 Hg').
Qed.

End Runs.

(** X24.  Whatever nodes are added, links established, data
    transmitted and emergencies declared on a new network, every
    operation returns, and in the network reached every link joins
    two registered nodes and is filed, once, under its own identifier
    source-target-type, every node is filed under its own identifier,
    the signal strength of a link, also its quality score, is between
    0.1 and 1, its packet loss between 0 and 0.1, its latency at
    least the processing delay of its type, and its routing weight
    positive. *)
Theorem network_stays_sound (np_linalg_norm : Q * Q * Q -> Q)
    (np_log10 pow10 : Q -> Q) (set_iter : gset string -> list string)
    (nodes_iter : gmap string NetworkNode -> list string)
    (network_name : string) (cs : list Command) :
  (forall v, 0 <= np_linalg_norm v) ->
  (forall X x, x ∈ set_iter X <-> x ∈ X) ->
  exists net,
    run np_linalg_norm np_log10 pow10 set_iter nodes_iter
      (init network_name) cs = Some net /\
    sound net /\
    forall l, l ∈ dict_values (links net) ->
      source_node l ∈ dom (nodes net) /\ target_node l ∈ dom (nodes net) /\
      dict_get (link_id l) (links net) = Some l /\
      link_id l = link_name (source_node l) (target_node l) (link_type l) /\
      0 < weight l.
Proof.
  intros Hnorm Hiter.
  destruct (run_sound np_linalg_norm np_log10 pow10 set_iter nodes_iter
              Hnorm Hiter cs (init network_name) (init_sound _))
    as (net & Hrun & Hs & _).
  exists net. split; [exact Hrun|]. split; [exact Hs|].
  intros l Hl. destruct Hs as [Hwf [Hnd Hkey] _ Hlinks].
  destruct (Hwf l Hl) as (H1 & H2 & _).
  destruct (Hlinks l Hl) as (H3 & H4 & _ & _ & H5 & _).
  apply dict_values_elem in Hl as ([k l0] & Hin & Heq). cbn in Heq. subst l0.
  destruct (Hkey k l Hin) as [H6 H7].
  split; [exact H1|]. split; [exact H2|].
  split; [rewrite H6; apply dict_get_elem; assumption|].
  split; [congruence|].
  unfold weight. rewrite H4. apply Qmult_lt_0_compat; [|lra].
  destruct (link_type l); cbn [processing_delay] in H5; lra.
Qed.

(** X25.  No operation undoes another: along every run from a sound
    network no registered node and no link identifier is ever removed
    (the link timeout is never applied), the total of the data
    transmitted never goes down, the name stays, and once an emergency
    is declared, the network stays in the emergency state. *)
Theorem nothing_undone (np_linalg_norm : Q * Q * Q -> Q)
    (np_log10 pow10 : Q -> Q) (set_iter : gset string -> list string)
    (nodes_iter : gmap string NetworkNode -> list string)
    (net : SpaceNetwork) (before after : list Command)
    (emergency_type : string) (affected_nodes : list string)
    (clock : nat -> Q) :
  (forall v, 0 <= np_linalg_norm v) ->
  (forall X x, x ∈ set_iter X <-> x ∈ X) ->
  sound net ->
  exists net1 net2,
    run np_linalg_norm np_log10 pow10 set_iter nodes_iter net before
      = Some net1 /\
    run np_linalg_norm np_log10 pow10 set_iter nodes_iter net1
      (ActivateEmergency emergency_type affected_nodes clock :: after)
      = Some net2 /\
    dom (nodes net) ⊆ dom (nodes net1) /\
    dom (nodes net1) ⊆ dom (nodes net2) /\
    (forall k, k ∈ dict_keys (links net) -> k ∈ dict_keys (links net1)) /\
    (forall k, k ∈ dict_keys (links net1) -> k ∈ dict_keys (links net2)) /\
    total_data_transmitted net <= total_data_transmitted net1 /\
    total_data_transmitted net1 <= total_data_transmitted net2 /\
    network_name net2 = network_name net /\
    emergency_protocols_active net2 = true /\
    network_status net2 = EMERGENCY.
Proof.
  intros Hnorm Hiter Hs.
  destruct (run_sound np_linalg_norm np_log10 pow10 set_iter nodes_iter
              Hnorm Hiter before net Hs) as (net1 & Hrun1 & Hs1 & Hg1).
  exists net1. cbn [run exec].
  destruct (activate_emergency_sound np_linalg_norm np_log10 pow10 nodes_iter
              Hnorm clock net1 emergency_type affected_nodes Hs1)
    as (Hs2 & Hg2 & Hflag).
  set (net2 := activate_emergency_protocol _ _ _ _ _ _ _ _) in *.
  assert (Hstatus : network_status net2 = EMERGENCY).
  { unfold net2, activate_emergency_protocol.
    rewrite outer_loop, establish_all_frame. cbn [fst network_status set_links].
    destruct (prioritize_fold affected_nodes (set_emergency net1)) as [-> _].
    reflexivity. }
  destruct (run_sound np_linalg_norm np_log10 pow10 set_iter nodes_iter
              Hnorm Hiter after net2 Hs2) as (net3 & Hrun3 & _ & Hg3).
  exists net3. split; [exact Hrun1|]. split; [exact Hrun3|].
  pose proof (grows_trans _ _ _ Hg2 Hg3) as Hg.
  destruct Hg1, Hg. repeat split; auto; try congruence.
  - apply (grows_emergency _ _ Hg3). exact Hflag.
  - apply (grows_status _ _ Hg3). exact Hstatus.
Qed.

(** *** [_update_routing_table] *)

(** A list of lists used as a matrix; all the indices of the loops
    below are within [range(n)]. *)
Definition mat_new {A : Type} (n : nat) (v : A) : list (list A) :=
  replicate n (replicate n v).

Definition mat_get {A : Type} (d : A) (m : list (list A)) (i j : nat) : A :=
  default d (m !! i ≫= fun row => row !! j).

Definition mat_set {A : Type} (m : list (list A)) (i j : nat) (v : A)
    : list (list A) :=
  alter (fun row => <[j := v]> row) i m.

(** [enumerate(l)]. *)
Definition enumerate {A : Type} (l : list A) : list (nat * A) :=
  imap (fun i x => (i, x)) l.

(** [a + b] on distances. *)
Definition dist_plus (a b : dist) : dist :=
  match a, b with
  | Fin x, Fin y => Fin (x + y)
  | _, _ => Inf
  end.

(** The matrices [dist] and [next_hop]. *)
Definition Tables : Type := list (list dist) * list (list (option string)).

(** The body of [for link in self.links.values()]. *)
Definition init_link (i j : nat) (node_i node_j : string) (st : Tables)
    (link : CommunicationLink) : Tables :=
  if bool_decide (source_node link = node_i)
     && bool_decide (target_node link = node_j)
  then
    let weight := latency link * (2 - quality_score link) in
    if dist_lt (Fin weight) (mat_get Inf st.1 i j)
    then (mat_set st.1 i j (Fin weight), mat_set st.2 i j (Some node_j))
    else st
  else st.

(** The body of [for j, node_j in enumerate(nodes)]. *)
Definition init_cell (links : list CommunicationLink) (i : nat)
    (node_i : string) (st : Tables) (jn : nat * string) : Tables :=
  if bool_decide (i <> jn.1)
  then foldl (init_link i jn.1 node_i jn.2) st links
  else st.

(** The body of [for i, node_i in enumerate(nodes)]. *)
Definition init_row (links : list CommunicationLink) (nodes : list string)
    (st : Tables) (en : nat * string) : Tables :=
  let st := (mat_set st.1 en.1 en.1 (Fin 0), st.2) in
  foldl (init_cell links en.1 en.2) st (enumerate nodes).

(** The body of the innermost loop of the main algorithm. *)
Definition relax (k i : nat) (st : Tables) (j : nat) : Tables :=
  let through :=
    dist_plus (mat_get Inf st.1 i k) (mat_get Inf st.1 k j) in
  if dist_lt through (mat_get Inf st.1 i j)
  then (mat_set st.1 i j through, mat_set st.2 i j (mat_get None st.2 i k))
  else st.

Definition floyd_warshall (n : nat) (st : Tables) : Tables :=
  foldl (fun st k =>
           foldl (fun st i => foldl (relax k i) st (seq 0 n)) st (seq 0 n))
        st (seq 0 n).

(** The body of the loops that fill the routing table. *)
Definition fill_cell (next_hop : list (list (option string))) (i : nat)
    (source : string) (table : gmap string (gmap string string))
    (jt : nat * string) : gmap string (gmap string string) :=
  if bool_decide (i <> jt.1) then
    match mat_get None next_hop i jt.1 with
    | Some hop =>
        <[source := <[jt.2 := hop]> (default ∅ (table !! source))]> table
    | None => table
    end
  else table.

Section RoutingTable.

(** The order of [list(self.nodes.keys())]. *)
Variable nodes_iter : gmap string NetworkNode -> list string.

(** [_update_routing_table]: the table it leaves in
    [self.routing_table]. *)
Definition _update_routing_table (net : SpaceNetwork)
    : gmap string (gmap string string) :=
  (* Clear existing routing table *)
  let routing_table : gmap string (gmap string string) :=
    gset_to_gmap ∅ (dom (nodes net)) in
  let nodes := nodes_iter (nodes net) in
  let n := length nodes in
  let links := dict_values (links net) in
  (* Initialize distance matrix *)
  let st : Tables := (mat_new n Inf, mat_new n None) in
  (* Set distances for direct links *)
  let st := foldl (init_row links nodes) st (enumerate nodes) in
  (* Floyd-Warshall main algorithm *)
  let st := floyd_warshall n st in
  (* Update routing table *)
  foldl (fun table en =>
           foldl (fill_cell st.2 en.1 en.2) table (enumerate nodes))
        routing_table (enumerate nodes).

End RoutingTable.

(** **** Matrices *)

Definition square {A : Type} (n : nat) (m : list (list A)) : Prop :=
  length m = n /\ Forall (fun row => length row = n) m.

Lemma square_new {A : Type} n (v : A) : square n (mat_new n v).
Proof.
  split; [apply length_replicate|].
  apply Forall_replicate. apply length_replicate.
Qed.

Lemma square_set {A : Type} n (m : list (list A)) i j v :
  square n m -> square n (mat_set m i j v).
Proof.
  intros [Hl Hr]. split.
  - unfold mat_set. rewrite length_alter. exact Hl.
  - unfold mat_set. apply Forall_alter; [exact Hr|].
    intros row _ Hrow. rewrite length_insert. exact Hrow.
Qed.

Lemma mat_get_new {A : Type} (d : A) n i j : mat_get d (mat_new n d) i j = d.
Proof.
  unfold mat_get, mat_new.
  destruct (replicate n (replicate n d) !! i) as [row|] eqn:E; [|reflexivity].
  apply lookup_replicate in E as [-> _]. cbn.
  destruct (replicate n d !! j) as [x|] eqn:E'; [|reflexivity].
  apply lookup_replicate in E' as [-> _]. reflexivity.
Qed.

Lemma mat_get_set_eq {A : Type} (d : A) n (m : list (list A)) i j v :
  square n m -> (i < n)%nat -> (j < n)%nat ->
  mat_get d (mat_set m i j v) i j = v.
Proof.
  intros [Hl Hr] Hi Hj. unfold mat_get, mat_set.
  rewrite list_lookup_alter_eq.
  destruct (lookup_lt_is_Some_2 m i) as [row Hrow]; [lia|].
  rewrite Hrow. cbn.
  rewrite list_lookup_insert_eq; [reflexivity|].
  rewrite Forall_forall in Hr. rewrite (Hr row); [exact Hj|].
  eapply list_elem_of_lookup_2. exact Hrow.
Qed.

Lemma mat_get_set_ne {A : Type} (d : A) (m : list (list A)) i j i' j' v :
  (i, j) <> (i', j') ->
  mat_get d (mat_set m i j v) i' j' = mat_get d m i' j'.
Proof.
  intros Hne. unfold mat_get, mat_set.
  destruct (decide (i = i')) as [->|Hi].
  - rewrite list_lookup_alter_eq. destruct (m !! i') as [row|]; [|reflexivity].
    cbn. rewrite list_lookup_insert_ne; [reflexivity|]. congruence.
  - rewrite list_lookup_alter_ne by exact Hi. reflexivity.
Qed.

(** **** Loops *)

Lemma foldl_keeps {A B : Type} (I : A -> Prop) (f : A -> B -> A) (l : list B) :
  (forall st x, x ∈ l -> I st -> I (f st x)) ->
  forall st, I st -> I (foldl f st l).
Proof.
  induction l as [|x l IH]; intros Hstep st Hst; [exact Hst|].
  cbn. apply IH.
  - intros st' y Hy. apply Hstep. right. exact Hy.
  - apply Hstep; [left | exact Hst].
Qed.

(** An invariant [I] of the loop, and a property [Q] that the pass
    for [x] establishes and the other passes keep. *)
Lemma foldl_hits {A B : Type} (I Q : A -> Prop) (f : A -> B -> A)
    (l : list B) (x : B) :
  x ∈ l ->
  (forall st y, y ∈ l -> I st -> I (f st y)) ->
  (forall st, I st -> Q (f st x)) ->
  (forall st y, y ∈ l -> I st -> Q st -> Q (f st y)) ->
  forall st, I st -> Q (foldl f st l).
Proof.
  intros Hx HI Hhit Hkeep st Hst.
  apply list_elem_of_split in Hx as (l1 & l2 & ->).
  rewrite foldl_app. cbn [foldl].
  assert (H1 : I (foldl f st l1)).
  { apply foldl_keeps; [|exact Hst].
    intros st' y Hy. apply HI. apply elem_of_app. auto. }
  assert (H2 : I (f (foldl f st l1) x) /\ Q (f (foldl f st l1) x)).
  { split; [apply HI; [apply elem_of_app; right; left | exact H1]|].
    apply Hhit. exact H1. }
  apply (foldl_keeps (fun s => I s /\ Q s)); [|exact H2].
  intros st' y Hy [H3 H4]. split.
  - apply HI; [|exact H3]. apply elem_of_app. right. right. exact Hy.
  - apply Hkeep; [|exact H3|exact H4].
    apply elem_of_app. right. right. exact Hy.
Qed.

Lemma enumerate_elem {A : Type} (l : list A) i x :
  (i, x) ∈ enumerate l <-> l !! i = Some x.
Proof.
  unfold enumerate. rewrite elem_of_lookup_imap. split.
  - intros (i' & y & [= -> ->] & H). exact H.
  - intros H. exists i, x. auto.
Qed.

Lemma is_walk_app links a b c ls1 ls2 :
  is_walk links a b ls1 -> is_walk links b c ls2 ->
  is_walk links a c (ls1 ++ ls2).
Proof.
  revert a. induction ls1 as [|l ls1 IH]; intros a; cbn [is_walk app].
  - intros ->. auto.
  - intros (Hl & Hs & Hrest) H2. auto.
Qed.

Lemma walk_weight_app ls1 ls2 :
  walk_weight (ls1 ++ ls2) == walk_weight ls1 + walk_weight ls2.
Proof.
  unfold walk_weight. induction ls1 as [|l ls1 IH]; cbn.
  - ring.
  - rewrite IH. ring.
Qed.

(** The node a walk goes to first. *)
Definition first_hop (ls : list CommunicationLink) : option string :=
  target_node <$> head ls.

Lemma dist_plus_mono a a' b b' :
  dle a a' -> dle b b' -> dle (dist_plus a b) (dist_plus a' b').
Proof.
  destruct a, a', b, b'; cbn; try tauto. intros. lra.
Qed.

Lemma dle_lt_total a b : dist_lt a b = true -> dle a b.
Proof.
  intros H. apply dist_lt_true in H.
  destruct (dle_total a b); [assumption | contradiction].
Qed.

Section FloydWarshall.

Variable links : list CommunicationLink.
Variable nodes : list string.

Hypothesis nodes_nodup : NoDup nodes.
Hypothesis links_wf : forall l, l ∈ links ->
  source_node l ∈ nodes /\ target_node l ∈ nodes /\ 0 <= weight l.

Abbreviation n := (length nodes).

Lemma index_lt i (a : string) : nodes !! i = Some a -> (i < n)%nat.
Proof. apply lookup_lt_Some. Qed.

Lemma index_inj i j (a : string) :
  nodes !! i = Some a -> nodes !! j = Some a -> i = j.
Proof. intros Hi Hj. eapply NoDup_lookup; eassumption. Qed.

(** What the two matrices hold for the nodes [a] and [b] at the
    indices [i] and [j]: no distance and no hop, or the weight of a
    walk along the links and, off the diagonal, the node the walk
    goes to first. *)
Definition cell_ok (st : Tables) (i j : nat) (a b : string) : Prop :=
  match mat_get Inf st.1 i j with
  | Inf => mat_get None st.2 i j = None
  | Fin q =>
      if decide (i = j) then q == 0 /\ mat_get None st.2 i j = None
      else
        exists h ls,
          mat_get None st.2 i j = Some h /\ is_walk links a b ls /\
          walk_weight ls == q /\ first_hop ls = Some h
  end.

Record consistent (st : Tables) : Prop := {
  consistent_dist : square n st.1;
  consistent_hop : square n st.2;
  consistent_cell : forall i j a b,
    nodes !! i = Some a -> nodes !! j = Some b -> cell_ok st i j a b
}.

(** No distance of [st] is larger than in [st0]. *)
Definition below (st0 st : Tables) : Prop :=
  forall i j, dle (mat_get Inf st.1 i j) (mat_get Inf st0.1 i j).

Lemma below_refl st : below st st.
Proof. intros i j. apply dle_refl. Qed.

Lemma below_trans st1 st2 st3 :
  below st1 st2 -> below st2 st3 -> below st1 st3.
Proof. intros H1 H2 i j. eapply dle_trans; [apply H2 | apply H1]. Qed.

Lemma cell_nonneg st i j a b q :
  consistent st -> nodes !! i = Some a -> nodes !! j = Some b ->
  mat_get Inf st.1 i j = Fin q -> 0 <= q.
Proof.
  intros Hc Hi Hj Hq. pose proof (consistent_cell st Hc i j a b Hi Hj) as H.
  unfold cell_ok in H. rewrite Hq in H.
  destruct (decide (i = j)).
  - destruct H as [H _]. lra.
  - destruct H as (h & ls & _ & Hw & Hww & _). rewrite <- Hww.
    eapply walk_weight_nonneg; [|exact Hw]. intros l Hl. apply links_wf, Hl.
Qed.

Lemma cell_ok_frame st st' i j a b :
  mat_get Inf st'.1 i j = mat_get Inf st.1 i j ->
  mat_get None st'.2 i j = mat_get None st.2 i j ->
  cell_ok st i j a b -> cell_ok st' i j a b.
Proof. unfold cell_ok. intros -> ->. auto. Qed.

(** [dist[i][i] = 0]. *)
Lemma diag_step st i a :
  consistent st -> nodes !! i = Some a ->
  let st' : Tables := (mat_set st.1 i i (Fin 0), st.2) in
  consistent st' /\ below st st' /\ mat_get Inf st'.1 i i = Fin 0.
Proof.
  intros Hc Hi. cbn zeta. pose proof (index_lt _ _ Hi) as Hlt.
  destruct Hc as [Hd Hh Hcell].
  assert (Hget : mat_get Inf (mat_set st.1 i i (Fin 0)) i i = Fin 0)
    by (eapply mat_get_set_eq; eassumption).
  split; [|split; [|exact Hget]].
  - constructor; cbn [fst snd].
    + apply square_set. exact Hd.
    + exact Hh.
    + intros i' j' a' b' Hi' Hj'.
      destruct (decide ((i, i) = (i', j'))) as [[= <- <-]|Hne].
      * unfold cell_ok. cbn [fst snd]. rewrite Hget.
        destruct (decide (i = i)); [|congruence].
        split; [reflexivity|].
        specialize (Hcell i i a' b' Hi' Hj'). unfold cell_ok in Hcell.
        destruct (mat_get Inf st.1 i i); [|exact Hcell].
        destruct (decide (i = i)); [tauto | congruence].
      * eapply cell_ok_frame; [| |apply Hcell; eassumption]; cbn [fst snd].
        -- apply mat_get_set_ne. exact Hne.
        -- reflexivity.
  - intros i' j'. cbn [fst].
    destruct (decide ((i, i) = (i', j'))) as [[= <- <-]|Hne].
    + rewrite Hget. specialize (Hcell i i a a Hi Hi). unfold cell_ok in Hcell.
      destruct (mat_get Inf st.1 i i) as [q|]; [|exact I].
      destruct (decide (i = i)); [|congruence]. cbn. destruct Hcell. lra.
    + rewrite mat_get_set_ne by exact Hne. apply dle_refl.
Qed.

(** One link looked at for the cell of [a] and [b]. *)
Lemma init_link_step st i j a b l :
  consistent st -> nodes !! i = Some a -> nodes !! j = Some b -> i <> j ->
  l ∈ links ->
  let st' := init_link i j a b st l in
  consistent st' /\ below st st' /\
  (source_node l = a -> target_node l = b ->
   dle (mat_get Inf st'.1 i j) (Fin (weight l))).
Proof.
  intros Hc Hi Hj Hne Hl. cbn zeta. unfold init_link.
  pose proof (index_lt _ _ Hi) as Hilt. pose proof (index_lt _ _ Hj) as Hjlt.
  destruct (bool_decide (source_node l = a)) eqn:Es; cbn [andb].
  2:{ apply bool_decide_eq_false in Es.
      split; [exact Hc|]. split; [apply below_refl | tauto]. }
  destruct (bool_decide (target_node l = b)) eqn:Et.
  2:{ apply bool_decide_eq_false in Et.
      split; [exact Hc|]. split; [apply below_refl | tauto]. }
  apply bool_decide_eq_true in Es, Et.
  change (latency l * (2 - quality_score l)) with (weight l).
  destruct (dist_lt (Fin (weight l)) (mat_get Inf st.1 i j)) eqn:Elt.
  2:{ split; [exact Hc|]. split; [apply below_refl|].
      intros _ _. apply dist_lt_false. exact Elt. }
  destruct Hc as [Hd Hh Hcell].
  assert (Hget : mat_get Inf (mat_set st.1 i j (Fin (weight l))) i j
                 = Fin (weight l)) by (eapply mat_get_set_eq; eassumption).
  assert (Hgeth : mat_get None (mat_set st.2 i j (Some b)) i j = Some b)
    by (eapply mat_get_set_eq; eassumption).
  split; [|split].
  - constructor; cbn [fst snd].
    + apply square_set. exact Hd.
    + apply square_set. exact Hh.
    + intros i' j' a' b' Hi' Hj'.
      destruct (decide ((i, j) = (i', j'))) as [[= <- <-]|Hne'].
      * unfold cell_ok. cbn [fst snd]. rewrite Hget, Hgeth.
        destruct (decide (i = j)); [contradiction|].
        rewrite Hi in Hi'. rewrite Hj in Hj'.
        injection Hi' as <-. injection Hj' as <-.
        exists b, [l]. split; [reflexivity|]. split; [cbn; auto|].
        split; [cbn; ring | cbn; congruence].
      * eapply cell_ok_frame; [| |apply Hcell; eassumption]; cbn [fst snd];
          apply mat_get_set_ne; exact Hne'.
  - intros i' j'. cbn [fst].
    destruct (decide ((i, j) = (i', j'))) as [[= <- <-]|Hne'].
    + rewrite Hget. apply dle_lt_total. exact Elt.
    + rewrite mat_get_set_ne by exact Hne'. apply dle_refl.
  - intros _ _. cbn [fst]. rewrite Hget. apply dle_refl.
Qed.

(** Every node has a distance to itself. *)
Definition diagonal (st : Tables) : Prop :=
  forall i a, nodes !! i = Some a -> mat_get Inf st.1 i i <> Inf.

Lemma diagonal_below st st' : diagonal st -> below st st' -> diagonal st'.
Proof.
  intros Hd Hb i a Hi Hinf. specialize (Hb i i). rewrite Hinf in Hb.
  specialize (Hd i a Hi). destruct (mat_get Inf st.1 i i); [|congruence].
  exact Hb.
Qed.

(** One pass of the innermost loop. *)
Lemma relax_step st k i j c a b :
  consistent st -> diagonal st ->
  nodes !! k = Some c -> nodes !! i = Some a -> nodes !! j = Some b ->
  let st' := relax k i st j in
  consistent st' /\ below st st' /\
  dle (mat_get Inf st'.1 i j)
      (dist_plus (mat_get Inf st.1 i k) (mat_get Inf st.1 k j)).
Proof.
  intros Hc Hdiag Hk Hi Hj. cbn zeta. unfold relax.
  pose proof (index_lt _ _ Hi) as Hilt. pose proof (index_lt _ _ Hj) as Hjlt.
  set (through := dist_plus (mat_get Inf st.1 i k) (mat_get Inf st.1 k j)).
  destruct (dist_lt through (mat_get Inf st.1 i j)) eqn:Elt.
  2:{ split; [exact Hc|]. split; [apply below_refl|].
      apply dist_lt_false. exact Elt. }
  destruct (mat_get Inf st.1 i k) as [q1|] eqn:E1;
    [|cbn in Elt; discriminate].
  destruct (mat_get Inf st.1 k j) as [q2|] eqn:E2;
    [|cbn in Elt; discriminate].
  pose proof (cell_nonneg st i k a c q1 Hc Hi Hk E1) as Hq1.
  pose proof (cell_nonneg st k j c b q2 Hc Hk Hj E2) as Hq2.
  pose proof (consistent_cell st Hc i k a c Hi Hk) as Hik.
  pose proof (consistent_cell st Hc k j c b Hk Hj) as Hkj.
  pose proof (consistent_cell st Hc i j a b Hi Hj) as Hij.
  unfold cell_ok in Hik, Hkj, Hij. rewrite E1 in Hik. rewrite E2 in Hkj.
  cbn [dist_plus] in through.
  assert (Hlt : forall q, mat_get Inf st.1 i j = Fin q -> q1 + q2 < q).
  { intros q Hq. rewrite Hq in Elt. unfold through in Elt. cbn in Elt.
    destruct (Qlt_le_dec (q1 + q2) q); [assumption | discriminate]. }
  assert (Hik' : i <> k).
  { intros ->. rewrite E2 in Hlt. specialize (Hlt q2 eq_refl). lra. }
  assert (Hkj' : k <> j).
  { intros ->. rewrite E1 in Hlt. specialize (Hlt q1 eq_refl). lra. }
  assert (Hij' : i <> j).
  { intros ->. specialize (Hdiag j b Hj).
    destruct (mat_get Inf st.1 j j) as [q|] eqn:E; [|congruence].
    destruct (decide (j = j)); [|congruence]. destruct Hij as [H0 _].
    specialize (Hlt q eq_refl). lra. }
  destruct (decide (i = k)); [contradiction|].
  destruct (decide (k = j)); [contradiction|].
  destruct Hik as (h1 & ls1 & Hh1 & Hw1 & Hww1 & Hf1).
  destruct Hkj as (h2 & ls2 & Hh2 & Hw2 & Hww2 & Hf2).
  destruct Hc as [Hd Hh Hcell].
  assert (Hget : mat_get Inf (mat_set st.1 i j through) i j = through)
    by (eapply mat_get_set_eq; eassumption).
  assert (Hgeth : mat_get None
                    (mat_set st.2 i j (mat_get None st.2 i k)) i j
                  = Some h1).
  { rewrite <- Hh1. eapply mat_get_set_eq; eassumption. }
  split; [|split].
  - constructor; cbn [fst snd].
    + apply square_set. exact Hd.
    + apply square_set. exact Hh.
    + intros i' j' a' b' Hi' Hj'.
      destruct (decide ((i, j) = (i', j'))) as [[= <- <-]|Hne'].
      * unfold cell_ok. cbn [fst snd]. rewrite Hget, Hgeth. unfold through.
        destruct (decide (i = j)); [contradiction|].
        rewrite Hi in Hi'. rewrite Hj in Hj'.
        injection Hi' as <-. injection Hj' as <-.
        exists h1, (ls1 ++ ls2). split; [reflexivity|].
        split; [eapply is_walk_app; eassumption|].
        split; [rewrite walk_weight_app, Hww1, Hww2; reflexivity|].
        destruct ls1 as [|l ls1]; [discriminate | exact Hf1].
      * eapply cell_ok_frame; [| |apply Hcell; eassumption]; cbn [fst snd];
          apply mat_get_set_ne; exact Hne'.
  - intros i' j'. cbn [fst].
    destruct (decide ((i, j) = (i', j'))) as [[= <- <-]|Hne'].
    + rewrite Hget. apply dle_lt_total. exact Elt.
    + rewrite mat_get_set_ne by exact Hne'. apply dle_refl.
  - cbn [fst]. rewrite Hget. apply dle_refl.
Qed.


(** A walk all of whose nodes between the first and the last have
    the property [P]. *)
Fixpoint walk_via (P : string -> Prop) (a b : string)
    (ls : list CommunicationLink) : Prop :=
  match ls with
  | [] => a = b
  | l :: ls' =>
      l ∈ links /\ source_node l = a /\
      match ls' with
      | [] => target_node l = b
      | _ :: _ => P (target_node l) /\ walk_via P (target_node l) b ls'
      end
  end.

Lemma walk_via_walk P ls : forall a b,
  walk_via P a b ls -> is_walk links a b ls.
Proof.
  induction ls as [|l ls IH]; intros a b; cbn [walk_via is_walk]; [auto|].
  intros (Hl & Hs & Hrest). split; [exact Hl|]. split; [exact Hs|].
  destruct ls as [|l' ls']; [exact Hrest|]. apply IH. apply Hrest.
Qed.

Lemma walk_walk_via (P : string -> Prop) ls :
  (forall x, x ∈ nodes -> P x) ->
  forall a b, is_walk links a b ls -> walk_via P a b ls.
Proof.
  intros HP. induction ls as [|l ls IH]; intros a b; cbn [walk_via is_walk];
    [auto|].
  intros (Hl & Hs & Hrest). split; [exact Hl|]. split; [exact Hs|].
  destruct ls as [|l' ls']; [exact Hrest|].
  split; [apply HP; apply (links_wf l Hl) | apply IH; exact Hrest].
Qed.

Lemma walk_via_mono (P P' : string -> Prop) ls :
  (forall x, P x -> P' x) ->
  forall a b, walk_via P a b ls -> walk_via P' a b ls.
Proof.
  intros HP. induction ls as [|l ls IH]; intros a b; cbn [walk_via]; [auto|].
  intros (Hl & Hs & Hrest). split; [exact Hl|]. split; [exact Hs|].
  destruct ls as [|l' ls']; [exact Hrest|].
  destruct Hrest as [H1 H2]. split; [auto | apply IH; exact H2].
Qed.

Lemma walk_via_nonneg P ls a b : walk_via P a b ls -> 0 <= walk_weight ls.
Proof.
  intros H. apply walk_via_walk in H.
  eapply walk_weight_nonneg; [|exact H]. intros l Hl. apply links_wf, Hl.
Qed.

Lemma walk_via_cons P l ls b :
  l ∈ links -> P (target_node l) -> walk_via P (target_node l) b ls ->
  walk_via P (source_node l) b (l :: ls).
Proof.
  intros Hl HP Hw. cbn [walk_via]. split; [exact Hl|].
  split; [reflexivity|]. destruct ls as [|l' ls']; [exact Hw | auto].
Qed.

(** A walk that may pass [x] goes without it, or is no lighter than
    a walk to [x] and a walk from [x] that do. *)
Lemma walk_via_split (P : string -> Prop) (x : string) ls :
  forall a b,
    walk_via (fun y => P y \/ y = x) a b ls ->
    walk_via P a b ls \/
    exists ls1 ls2,
      walk_via P a x ls1 /\ walk_via P x b ls2 /\
      walk_weight ls1 + walk_weight ls2 <= walk_weight ls.
Proof.
  induction ls as [|l ls IH]; intros a b Hw; [left; exact Hw|].
  cbn [walk_via] in Hw. destruct Hw as (Hl & Hs & Hrest).
  destruct ls as [|l' ls'].
  { left. cbn [walk_via]. auto. }
  destruct Hrest as [Hy Hrest].
  pose proof (proj2 (proj2 (links_wf l Hl))) as Hwl.
  change (walk_weight (l :: l' :: ls'))
    with (weight l + walk_weight (l' :: ls')).
  destruct (IH _ _ Hrest) as [Hvia|(ls1 & ls2 & H1 & H2 & Hle)].
  - destruct Hy as [Hy|Hy].
    + left. subst a. apply walk_via_cons; assumption.
    + right. exists [l], (l' :: ls'). split; [cbn; auto|].
      split; [rewrite <- Hy; exact Hvia|]. cbn. lra.
  - right. destruct Hy as [Hy|Hy].
    + destruct ls1 as [|l1 ls1].
      * cbn in H1. exists [l], ls2.
        split; [cbn; auto|]. split; [exact H2|]. cbn in *. lra.
      * exists (l :: l1 :: ls1), ls2. split.
        -- subst a. apply walk_via_cons; assumption.
        -- split; [exact H2|].
           change (walk_weight (l :: l1 :: ls1))
             with (weight l + walk_weight (l1 :: ls1)). lra.
    + exists [l], ls2. split; [cbn; auto|]. split; [exact H2|].
      pose proof (walk_via_nonneg _ _ _ _ H1). cbn in *. lra.
Qed.

(** The loops keep the matrices consistent and never raise a
    distance. *)
Lemma foldl_below {B : Type} (f : Tables -> B -> Tables) (l : list B) :
  (forall st x, x ∈ l -> consistent st ->
     consistent (f st x) /\ below st (f st x)) ->
  forall st, consistent st ->
    consistent (foldl f st l) /\ below st (foldl f st l).
Proof.
  intros Hstep st Hst.
  assert (H : consistent (foldl f st l) /\ below st (foldl f st l));
    [|exact H].
  apply (foldl_keeps (fun s => consistent s /\ below st s) f l).
  - intros s x Hx [H1 H2]. destruct (Hstep s x Hx H1) as [H3 H4].
    split; [exact H3 | eapply below_trans; eassumption].
  - split; [exact Hst | apply below_refl].
Qed.

Lemma foldl_below_diagonal {B : Type} (f : Tables -> B -> Tables)
    (l : list B) :
  (forall st x, x ∈ l -> consistent st -> diagonal st ->
     consistent (f st x) /\ below st (f st x)) ->
  forall st, consistent st -> diagonal st ->
    consistent (foldl f st l) /\ below st (foldl f st l).
Proof.
  intros Hstep st Hst Hdiag.
  assert (H : consistent (foldl f st l) /\ below st (foldl f st l));
    [|exact H].
  apply (foldl_keeps (fun s => consistent s /\ below st s) f l).
  - intros s x Hx [H1 H2].
    destruct (Hstep s x Hx H1 (diagonal_below _ _ Hdiag H2)) as [H3 H4].
    split; [exact H3 | eapply below_trans; eassumption].
  - split; [exact Hst | apply below_refl].
Qed.

(** **** The direct links *)

Lemma init_cell_step st i a jn :
  consistent st -> nodes !! i = Some a -> jn ∈ enumerate nodes ->
  consistent (init_cell links i a st jn) /\
  below st (init_cell links i a st jn).
Proof.
  intros Hc Hi Hjn. destruct jn as [j b]. apply enumerate_elem in Hjn.
  unfold init_cell. cbn [fst snd].
  destruct (bool_decide (i <> j)) eqn:E;
    [|split; [exact Hc | apply below_refl]].
  apply bool_decide_eq_true in E.
  apply foldl_below; [|exact Hc].
  intros s l Hl Hs.
  destruct (init_link_step s i j a b l Hs Hi Hjn E Hl) as (H1 & H2 & _).
  split; assumption.
Qed.

Lemma init_cell_hits st i j a b l :
  consistent st -> nodes !! i = Some a -> nodes !! j = Some b -> i <> j ->
  l ∈ links -> source_node l = a -> target_node l = b ->
  dle (mat_get Inf (init_cell links i a st (j, b)).1 i j) (Fin (weight l)).
Proof.
  intros Hc Hi Hj Hne Hl Hs Ht. unfold init_cell. cbn [fst snd].
  rewrite bool_decide_eq_true_2 by exact Hne.
  apply (foldl_hits consistent
           (fun s => dle (mat_get Inf s.1 i j) (Fin (weight l)))
           (init_link i j a b) links l Hl); [| | |exact Hc].
  - intros s y Hy Hs'. apply (init_link_step s i j a b y Hs' Hi Hj Hne Hy).
  - intros s Hs'.
    destruct (init_link_step s i j a b l Hs' Hi Hj Hne Hl) as (_ & _ & H).
    apply H; assumption.
  - intros s y Hy Hs' HQ.
    destruct (init_link_step s i j a b y Hs' Hi Hj Hne Hy) as (_ & H & _).
    eapply dle_trans; [apply H | exact HQ].
Qed.

Lemma init_row_step st en :
  consistent st -> en ∈ enumerate nodes ->
  consistent (init_row links nodes st en) /\
  below st (init_row links nodes st en).
Proof.
  intros Hc Hen. destruct en as [i a]. apply enumerate_elem in Hen.
  unfold init_row. cbn [fst snd].
  destruct (diag_step st i a Hc Hen) as (H1 & H2 & _). cbn zeta in H1, H2.
  destruct (foldl_below (init_cell links i a) (enumerate nodes)
              (fun s jn Hjn Hs => init_cell_step s i a jn Hs Hen Hjn)
              _ H1) as [H3 H4].
  split; [exact H3 | eapply below_trans; eassumption].
Qed.

Lemma init_row_hits st i a :
  consistent st -> nodes !! i = Some a ->
  let st' := init_row links nodes st (i, a) in
  mat_get Inf st'.1 i i <> Inf /\
  forall j b l,
    nodes !! j = Some b -> i <> j -> l ∈ links ->
    source_node l = a -> target_node l = b ->
    dle (mat_get Inf st'.1 i j) (Fin (weight l)).
Proof.
  intros Hc Hi. cbn zeta. unfold init_row. cbn [fst snd].
  destruct (diag_step st i a Hc Hi) as (H1 & H2 & H3). cbn zeta in H1, H2, H3.
  set (st1 := (mat_set st.1 i i (Fin 0), st.2)) in *.
  split.
  - destruct (foldl_below (init_cell links i a) (enumerate nodes)
                (fun s jn Hjn Hs => init_cell_step s i a jn Hs Hi Hjn)
                _ H1) as [_ H4].
    intros Hinf. specialize (H4 i i). rewrite Hinf, H3 in H4. exact H4.
  - intros j b l Hj Hne Hl Hs Ht.
    apply (foldl_hits consistent
             (fun s => dle (mat_get Inf s.1 i j) (Fin (weight l)))
             (init_cell links i a) (enumerate nodes) (j, b));
      [apply enumerate_elem; exact Hj| | | |exact H1].
    + intros s y Hy Hs'. apply (init_cell_step s i a y Hs' Hi Hy).
    + intros s Hs'. apply init_cell_hits; assumption.
    + intros s y Hy Hs' HQ.
      destruct (init_cell_step s i a y Hs' Hi Hy) as [_ H].
      eapply dle_trans; [apply H | exact HQ].
Qed.

Lemma initial_consistent :
  consistent (mat_new n Inf, mat_new n None).
Proof.
  constructor; cbn [fst snd]; [apply square_new..|].
  intros i j a b _ _. unfold cell_ok. cbn [fst snd].
  rewrite !mat_get_new. reflexivity.
Qed.

(** The matrices after the loops over the direct links. *)
Lemma direct_links :
  let st := foldl (init_row links nodes) (mat_new n Inf, mat_new n None)
              (enumerate nodes) in
  consistent st /\ diagonal st /\
  forall i j a b l,
    nodes !! i = Some a -> nodes !! j = Some b -> i <> j -> l ∈ links ->
    source_node l = a -> target_node l = b ->
    dle (mat_get Inf st.1 i j) (Fin (weight l)).
Proof.
  cbn zeta.
  destruct (foldl_below (init_row links nodes) (enumerate nodes)
              (fun s en Hen Hs => init_row_step s en Hs Hen)
              _ initial_consistent) as [Hc _].
  split; [exact Hc|]. split.
  - intros i a Hi.
    apply (foldl_hits consistent (fun s => mat_get Inf s.1 i i <> Inf)
             (init_row links nodes) (enumerate nodes) (i, a));
      [apply enumerate_elem; exact Hi| | | |exact initial_consistent].
    + intros s y Hy Hs. apply (init_row_step s y Hs Hy).
    + intros s Hs. apply (init_row_hits s i a Hs Hi).
    + intros s y Hy Hs HQ Hinf.
      destruct (init_row_step s y Hs Hy) as [_ H]. specialize (H i i).
      rewrite Hinf in H. destruct (mat_get Inf s.1 i i); [|congruence].
      exact H.
  - intros i j a b l Hi Hj Hne Hl Hs Ht.
    apply (foldl_hits consistent
             (fun s => dle (mat_get Inf s.1 i j) (Fin (weight l)))
             (init_row links nodes) (enumerate nodes) (i, a));
      [apply enumerate_elem; exact Hi| | | |exact initial_consistent].
    + intros s y Hy Hs'. apply (init_row_step s y Hs' Hy).
    + intros s Hs'.
      destruct (init_row_hits s i a Hs' Hi) as [_ H]. cbn zeta in H.
      apply (H j b l); assumption.
    + intros s y Hy Hs' HQ.
      destruct (init_row_step s y Hs' Hy) as [_ H].
      eapply dle_trans; [apply H | exact HQ].
Qed.

(** **** The main loops *)

Lemma seq_node j : j ∈ seq 0 n -> exists b, nodes !! j = Some b.
Proof.
  intros Hj. apply elem_of_seq in Hj.
  apply lookup_lt_is_Some_2. lia.
Qed.

Lemma node_seq j (b : string) : nodes !! j = Some b -> j ∈ seq 0 n.
Proof. intros Hj. apply elem_of_seq. apply index_lt in Hj. lia. Qed.

(** The loop invariant of a round that started from [ref]. *)
Definition round_inv (ref st : Tables) : Prop :=
  consistent st /\ diagonal st /\ below ref st.

Lemma relax_inv ref st k i j c a :
  nodes !! k = Some c -> nodes !! i = Some a -> j ∈ seq 0 n ->
  round_inv ref st -> round_inv ref (relax k i st j).
Proof.
  intros Hk Hi Hj (Hc & Hd & Hb). destruct (seq_node j Hj) as [b Hjb].
  destruct (relax_step st k i j c a b Hc Hd Hk Hi Hjb) as (H1 & H2 & _).
  split; [exact H1|].
  split; [eapply diagonal_below; eassumption|].
  eapply below_trans; eassumption.
Qed.

Lemma row_inv ref st k i c :
  nodes !! k = Some c -> i ∈ seq 0 n ->
  round_inv ref st -> round_inv ref (foldl (relax k i) st (seq 0 n)).
Proof.
  intros Hk Hi Hinv. destruct (seq_node i Hi) as [a Hia].
  apply (foldl_keeps (round_inv ref)); [|exact Hinv].
  intros s j Hj Hs. eapply relax_inv; eassumption.
Qed.

(** One round of the main loop. *)
Definition round (st : Tables) (k : nat) : Tables :=
  foldl (fun st i => foldl (relax k i) st (seq 0 n)) st (seq 0 n).

Lemma round_keeps st k c :
  nodes !! k = Some c -> consistent st -> diagonal st ->
  round_inv st (round st k).
Proof.
  intros Hk Hc Hd. unfold round.
  apply (foldl_keeps (round_inv st)).
  - intros s i Hi Hs. eapply row_inv; eassumption.
  - split; [exact Hc|]. split; [exact Hd | apply below_refl].
Qed.

Lemma round_hits st k i j c a b :
  nodes !! k = Some c -> nodes !! i = Some a -> nodes !! j = Some b ->
  consistent st -> diagonal st ->
  dle (mat_get Inf (round st k).1 i j)
      (dist_plus (mat_get Inf st.1 i k) (mat_get Inf st.1 k j)).
Proof.
  intros Hk Hi Hj Hc Hd. unfold round.
  set (Q := fun s : Tables =>
              dle (mat_get Inf s.1 i j)
                (dist_plus (mat_get Inf st.1 i k) (mat_get Inf st.1 k j))).
  assert (Hkeep : forall s i' j',
            i' ∈ seq 0 n -> j' ∈ seq 0 n ->
            round_inv st s -> Q s -> Q (relax k i' s j')).
  { intros s i' j' Hi' Hj' (Hs & Hds & _) HQ.
    destruct (seq_node i' Hi') as [a' Ha']. destruct (seq_node j' Hj') as [b' Hb'].
    destruct (relax_step s k i' j' c a' b' Hs Hds Hk Ha' Hb') as (_ & H & _).
    unfold Q. eapply dle_trans; [apply H | exact HQ]. }
  apply (foldl_hits (round_inv st) Q _ (seq 0 n) i (node_seq i a Hi)).
  - intros s y Hy Hs. eapply row_inv; eassumption.
  - intros s Hs.
    apply (foldl_hits (round_inv st) Q (relax k i) (seq 0 n) j
             (node_seq j b Hj)); [| | |exact Hs].
    + intros s' y Hy Hs'. eapply relax_inv; eassumption.
    + intros s' (Hs' & Hds' & Hbs').
      destruct (relax_step s' k i j c a b Hs' Hds' Hk Hi Hj) as (_ & _ & H).
      unfold Q. eapply dle_trans; [exact H|].
      apply dist_plus_mono; apply Hbs'.
    + intros s' y Hy Hs' HQ.
      apply Hkeep; [eapply node_seq; exact Hi | exact Hy
                   | exact Hs' | exact HQ].
  - intros s y Hy Hs HQ.
    assert (H : round_inv st (foldl (relax k y) s (seq 0 n))
                /\ Q (foldl (relax k y) s (seq 0 n))); [|apply H].
    apply (foldl_keeps (fun s' => round_inv st s' /\ Q s')); [|auto].
    intros s' j' Hj' [Hs' HQ']. split.
    + destruct (seq_node y Hy) as [a' Ha']. eapply relax_inv; eassumption.
    + apply Hkeep; auto.
  - split; [exact Hc|]. split; [exact Hd | apply below_refl].
Qed.

(** A node among the first [K] of the list. *)
Definition known (K : nat) (x : string) : Prop :=
  exists k, (k < K)%nat /\ nodes !! k = Some x.

(** No distance is above the weight of a walk through known nodes. *)
Definition lower (K : nat) (st : Tables) : Prop :=
  forall i j a b ls,
    nodes !! i = Some a -> nodes !! j = Some b ->
    walk_via (known K) a b ls ->
    dle (mat_get Inf st.1 i j) (Fin (walk_weight ls)).

Lemma diagonal_zero st i a :
  consistent st -> diagonal st -> nodes !! i = Some a ->
  exists q, mat_get Inf st.1 i i = Fin q /\ q == 0.
Proof.
  intros Hc Hd Hi. specialize (Hd i a Hi).
  pose proof (consistent_cell st Hc i i a a Hi Hi) as H. unfold cell_ok in H.
  destruct (mat_get Inf st.1 i i) as [q|]; [|congruence].
  destruct (decide (i = i)); [|congruence].
  exists q. split; [reflexivity | apply H].
Qed.

Lemma lower_direct st :
  consistent st -> diagonal st ->
  (forall i j a b l,
     nodes !! i = Some a -> nodes !! j = Some b -> i <> j -> l ∈ links ->
     source_node l = a -> target_node l = b ->
     dle (mat_get Inf st.1 i j) (Fin (weight l))) ->
  lower 0 st.
Proof.
  intros Hc Hd Hdirect i j a b ls Hi Hj Hw.
  destruct ls as [|l [|l' ls']]; cbn [walk_via] in Hw.
  - subst b. rewrite (index_inj _ _ _ Hj Hi).
    destruct (diagonal_zero st i a Hc Hd Hi) as (q & -> & Hq). cbn. lra.
  - destruct Hw as (Hl & Hs & Ht).
    pose proof (proj2 (proj2 (links_wf l Hl))) as Hwl.
    destruct (decide (i = j)) as [->|Hne].
    + destruct (diagonal_zero st j b Hc Hd Hj) as (q & -> & Hq). cbn. lra.
    + eapply dle_trans; [apply (Hdirect i j a b l); assumption|].
      cbn. lra.
  - destruct Hw as (_ & _ & (k & Hk & _) & _). lia.
Qed.

Lemma lower_round st K c :
  consistent st -> diagonal st -> nodes !! K = Some c ->
  lower K st -> lower (S K) (round st K).
Proof.
  intros Hc Hd HK Hlow i j a b ls Hi Hj Hw.
  destruct (round_keeps st K c HK Hc Hd) as (_ & _ & Hbelow).
  assert (Hw' : walk_via (fun y => known K y \/ y = c) a b ls).
  { eapply walk_via_mono; [|exact Hw].
    intros x (k & Hk & Hx).
    destruct (decide (k = K)) as [->|Hne].
    - right. congruence.
    - left. exists k. split; [lia | exact Hx]. }
  apply walk_via_split in Hw' as [Hvia|(ls1 & ls2 & H1 & H2 & Hle)].
  - eapply dle_trans; [apply Hbelow|]. eapply Hlow; eassumption.
  - eapply dle_trans; [apply (round_hits st K i j c a b); assumption|].
    pose proof (Hlow i K a c ls1 Hi HK H1) as Hd1.
    pose proof (Hlow K j c b ls2 HK Hj H2) as Hd2.
    eapply dle_trans; [apply dist_plus_mono; eassumption|].
    cbn. exact Hle.
Qed.

Lemma rounds_spec st m :
  (m <= n)%nat -> consistent st -> diagonal st -> lower 0 st ->
  let st' := foldl round st (seq 0 m) in
  consistent st' /\ diagonal st' /\ lower m st'.
Proof.
  intros Hm Hc Hd Hlow. cbn zeta. induction m as [|m IH].
  - cbn. auto.
  - rewrite seq_S, foldl_app. cbn [foldl Nat.add].
    destruct IH as (Hc' & Hd' & Hlow'); [lia|].
    destruct (lookup_lt_is_Some_2 nodes m) as [c Hmc]; [lia|].
    destruct (round_keeps _ m c Hmc Hc' Hd') as (H1 & H2 & _).
    split; [exact H1|]. split; [exact H2|].
    eapply lower_round; eassumption.
Qed.

(** The matrices when the main loops end: every distance is the
    weight of a lightest walk, and the hop is where such a walk goes
    first. *)
Lemma floyd_warshall_spec :
  let st := floyd_warshall n
              (foldl (init_row links nodes) (mat_new n Inf, mat_new n None)
                 (enumerate nodes)) in
  forall i j a b,
    nodes !! i = Some a -> nodes !! j = Some b -> i <> j ->
    match mat_get None st.2 i j with
    | None => forall ls, ~ is_walk links a b ls
    | Some h =>
        exists ls,
          is_walk links a b ls /\ first_hop ls = Some h /\
          forall ls', is_walk links a b ls' ->
            walk_weight ls <= walk_weight ls'
    end.
Proof.
  cbn zeta. destruct direct_links as (Hc0 & Hd0 & Hdirect).
  cbn zeta in Hc0, Hd0, Hdirect.
  set (st0 := foldl (init_row links nodes) _ _) in *.
  change (floyd_warshall n st0) with (foldl round st0 (seq 0 n)).
  destruct (rounds_spec st0 n (Nat.le_refl _) Hc0 Hd0
              (lower_direct st0 Hc0 Hd0 Hdirect)) as (Hc & _ & Hlow).
  cbn zeta in Hc, Hlow. set (st := foldl round st0 (seq 0 n)) in *.
  intros i j a b Hi Hj Hne.
  assert (Hall : forall ls, is_walk links a b ls ->
            dle (mat_get Inf st.1 i j) (Fin (walk_weight ls))).
  { intros ls Hw. apply (Hlow i j a b ls Hi Hj).
    apply walk_walk_via; [|exact Hw].
    intros x Hx. apply list_elem_of_lookup_1 in Hx as [k Hk].
    exists k. split; [eapply index_lt; exact Hk | exact Hk]. }
  pose proof (consistent_cell st Hc i j a b Hi Hj) as Hcell.
  unfold cell_ok in Hcell.
  destruct (mat_get Inf st.1 i j) as [q|] eqn:Eq.
  - destruct (decide (i = j)); [contradiction|].
    destruct Hcell as (h & ls & -> & Hw & Hww & Hf).
    exists ls. split; [exact Hw|]. split; [exact Hf|].
    intros ls' Hw'. specialize (Hall ls' Hw'). cbn in Hall. lra.
  - rewrite Hcell. intros ls Hw. exact (Hall ls Hw).
Qed.

End FloydWarshall.

(** **** The table *)

(** [routing_table[s][t]], if there is such an entry. *)
Definition table_entry (table : gmap string (gmap string string))
    (s t : string) : option string :=
  table !! s ≫= fun row => row !! t.

Lemma fill_cell_entry next_hop i s table j t s' t' :
  table_entry (fill_cell next_hop i s table (j, t)) s' t'
  = if decide (i <> j /\ is_Some (mat_get None next_hop i j)
               /\ s' = s /\ t' = t)
    then mat_get None next_hop i j
    else table_entry table s' t'.
Proof.
  unfold fill_cell, table_entry. cbn [fst snd].
  destruct (bool_decide (i <> j)) eqn:E.
  2:{ apply bool_decide_eq_false in E.
      destruct (decide _) as [[H _]|_]; [contradiction | reflexivity]. }
  apply bool_decide_eq_true in E.
  destruct (mat_get None next_hop i j) as [h|] eqn:Eh.
  2:{ destruct (decide _) as [(_ & [? H] & _)|_];
        [discriminate | reflexivity]. }
  destruct (decide (s' = s)) as [->|Hs].
  - rewrite lookup_insert_eq. cbn.
    destruct (decide (t' = t)) as [->|Ht].
    + rewrite lookup_insert_eq.
      destruct (decide _) as [_|H]; [reflexivity|].
      exfalso. apply H. eauto.
    + rewrite lookup_insert_ne by congruence.
      destruct (decide _) as [(_ & _ & _ & H)|_]; [contradiction|].
      destruct (table !! s); reflexivity.
  - rewrite lookup_insert_ne by congruence.
    destruct (decide _) as [(_ & _ & H & _)|_]; [contradiction | reflexivity].
Qed.

Lemma fill_cell_dom next_hop i s table jt :
  s ∈ dom table -> dom (fill_cell next_hop i s table jt) = dom table.
Proof.
  intros Hs. unfold fill_cell.
  destruct (bool_decide (i <> jt.1)); [|reflexivity].
  destruct (mat_get None next_hop i jt.1); [|reflexivity].
  rewrite dom_insert_L. set_solver.
Qed.

Section Table.

Variable nodes : list string.
Variable next_hop : list (list (option string)).
Hypothesis nodes_nodup : NoDup nodes.

Definition fill (table : gmap string (gmap string string))
    : gmap string (gmap string string) :=
  foldl (fun table en =>
           foldl (fill_cell next_hop en.1 en.2) table (enumerate nodes))
        table (enumerate nodes).

(** All the entries come from the matrix. *)
Definition from_matrix (table : gmap string (gmap string string)) : Prop :=
  forall s t h,
    table_entry table s t = Some h ->
    exists i j,
      nodes !! i = Some s /\ nodes !! j = Some t /\ i <> j /\
      mat_get None next_hop i j = Some h.

Lemma fill_cell_from_matrix table i s jt :
  nodes !! i = Some s -> jt ∈ enumerate nodes ->
  from_matrix table -> from_matrix (fill_cell next_hop i s table jt).
Proof.
  intros Hi Hjt Hfrom s' t' h. destruct jt as [j t].
  apply enumerate_elem in Hjt. rewrite fill_cell_entry.
  destruct (decide _) as [(Hne & _ & -> & ->)|_]; [|apply Hfrom].
  intros Hh. exists i, j. auto.
Qed.

Lemma fill_from_matrix table : from_matrix table -> from_matrix (fill table).
Proof.
  intros H. unfold fill. apply (foldl_keeps from_matrix); [|exact H].
  intros tb [i s] Hen Htb. apply enumerate_elem in Hen. cbn [fst snd].
  apply (foldl_keeps from_matrix); [|exact Htb].
  intros tb' jt Hjt Htb'. apply fill_cell_from_matrix; assumption.
Qed.

Lemma fill_dom table :
  (forall s, s ∈ nodes -> s ∈ dom table) -> dom (fill table) = dom table.
Proof.
  intros Hin. unfold fill.
  apply (foldl_keeps (fun tb => dom tb = dom table)); [|reflexivity].
  intros tb [i s] Hen Htb. apply enumerate_elem in Hen. cbn [fst snd].
  apply (foldl_keeps (fun tb' => dom tb' = dom table)); [|exact Htb].
  intros tb' jt _ Htb'. rewrite fill_cell_dom; [exact Htb'|].
  rewrite Htb'. apply Hin. eapply list_elem_of_lookup_2. exact Hen.
Qed.

Lemma fill_entry table i j s t h :
  nodes !! i = Some s -> nodes !! j = Some t -> i <> j ->
  mat_get None next_hop i j = Some h ->
  table_entry (fill table) s t = Some h.
Proof.
  intros Hi Hj Hne Hh. unfold fill.
  set (Q := fun tb => table_entry tb s t = Some h).
  assert (Hkeep : forall tb i' s' jt,
            nodes !! i' = Some s' -> jt ∈ enumerate nodes ->
            Q tb -> Q (fill_cell next_hop i' s' tb jt)).
  { intros tb i' s' [j' t'] Hi' Hjt HQ. apply enumerate_elem in Hjt.
    unfold Q. rewrite fill_cell_entry.
    destruct (decide _) as [(_ & _ & -> & ->)|_]; [|exact HQ].
    rewrite (index_inj nodes nodes_nodup _ _ _ Hi' Hi).
    rewrite (index_inj nodes nodes_nodup _ _ _ Hjt Hj). exact Hh. }
  apply (foldl_hits (fun _ => True) Q _ (enumerate nodes) (i, s));
    [apply enumerate_elem; exact Hi|auto| | |exact I].
  - intros tb _. cbn [fst snd].
    apply (foldl_hits (fun _ => True) Q _ (enumerate nodes) (j, t));
      [apply enumerate_elem; exact Hj|auto| | |exact I].
    + intros tb' _. unfold Q. rewrite fill_cell_entry.
      destruct (decide _) as [_|H]; [exact Hh|].
      exfalso. apply H. rewrite Hh. eauto.
    + intros tb' jt Hjt _ HQ. apply Hkeep; assumption.
  - intros tb [i' s'] Hen _ HQ. apply enumerate_elem in Hen. cbn [fst snd].
    apply (foldl_keeps Q); [|exact HQ].
    intros tb' jt Hjt HQ'. apply Hkeep; assumption.
Qed.

End Table.

(** The matrix of hops behind the table, and the entries read off
    it. *)
Lemma routing_table_matrix
    (nodes_iter : gmap string NetworkNode -> list string)
    (net : SpaceNetwork) :
  (forall m, NoDup (nodes_iter m) /\
             forall x, x ∈ nodes_iter m <-> x ∈ dom m) ->
  network_wf net ->
  let nodes0 := nodes_iter (nodes net) in
  let links0 := dict_values (links net) in
  exists st : Tables,
    _update_routing_table nodes_iter net
      = fill nodes0 st.2 (gset_to_gmap ∅ (dom (nodes net))) /\
    from_matrix nodes0 st.2 (_update_routing_table nodes_iter net) /\
    forall i j a b,
      nodes0 !! i = Some a -> nodes0 !! j = Some b -> i <> j ->
      match mat_get None st.2 i j with
      | None => forall ls, ~ is_walk links0 a b ls
      | Some h =>
          exists ls,
            is_walk links0 a b ls /\ first_hop ls = Some h /\
            forall ls', is_walk links0 a b ls' ->
              walk_weight ls <= walk_weight ls'
      end.
Proof.
  intros Hiter Hwf. cbn zeta. unfold _update_routing_table.
  destruct (Hiter (nodes net)) as [Hnd Hin].
  set (nodes0 := nodes_iter (nodes net)) in *.
  set (links0 := dict_values (links net)).
  assert (Hlinks : forall l, l ∈ links0 ->
            source_node l ∈ nodes0 /\ target_node l ∈ nodes0 /\ 0 <= weight l).
  { intros l Hl. destruct (Hwf l Hl) as (H1 & H2 & H3).
    rewrite !Hin. auto. }
  pose proof (floyd_warshall_spec links0 nodes0 Hnd Hlinks) as Hfw.
  cbn zeta in Hfw.
  set (st := floyd_warshall (length nodes0) _) in *.
  exists st. split; [reflexivity|]. split; [|exact Hfw].
  change (foldl _ (gset_to_gmap ∅ (dom (nodes net))) (enumerate nodes0))
    with (fill nodes0 st.2 (gset_to_gmap ∅ (dom (nodes net)))).
  apply fill_from_matrix.
  intros s t h. unfold table_entry. rewrite lookup_gset_to_gmap.
  destruct (decide (s ∈ dom (nodes net))) as [Hs|Hs].
  - rewrite option_guard_True by exact Hs. cbn.
    rewrite lookup_empty. discriminate.
  - rewrite option_guard_False by exact Hs. discriminate.
Qed.

(** The entry for two different registered nodes. *)
Lemma routing_table_entry
    (nodes_iter : gmap string NetworkNode -> list string)
    (net : SpaceNetwork) (s t : string) :
  (forall m, NoDup (nodes_iter m) /\
             forall x, x ∈ nodes_iter m <-> x ∈ dom m) ->
  network_wf net ->
  s ∈ dom (nodes net) -> t ∈ dom (nodes net) -> s <> t ->
  match table_entry (_update_routing_table nodes_iter net) s t with
  | None => forall ls, ~ is_walk (dict_values (links net)) s t ls
  | Some h =>
      exists ls,
        is_walk (dict_values (links net)) s t ls /\ first_hop ls = Some h /\
        forall ls', is_walk (dict_values (links net)) s t ls' ->
          walk_weight ls <= walk_weight ls'
  end.
Proof.
  intros Hiter Hwf Hs Ht Hne.
  destruct (routing_table_matrix nodes_iter net Hiter Hwf)
    as (st & Heq & Hfrom & Hfw). cbn zeta in *.
  destruct (Hiter (nodes net)) as [Hnd Hin].
  apply Hin, list_elem_of_lookup_1 in Hs as [i Hi].
  apply Hin, list_elem_of_lookup_1 in Ht as [j Hj].
  assert (Hij : i <> j) by (intros ->; congruence).
  specialize (Hfw i j s t Hi Hj Hij).
  destruct (mat_get None st.2 i j) as [h|] eqn:Eh.
  - rewrite Heq.
    rewrite (fill_entry _ st.2 Hnd _ i j s t h Hi Hj Hij Eh). exact Hfw.
  - destruct (table_entry _ s t) as [h|] eqn:E; [|exact Hfw].
    destruct (Hfrom s t h E) as (i' & j' & Hi' & Hj' & _ & Hh).
    rewrite (NoDup_lookup _ _ _ _ Hnd Hi' Hi) in Hh.
    rewrite (NoDup_lookup _ _ _ _ Hnd Hj' Hj) in Hh. congruence.
Qed.

(** X26.  On a network whose links join registered nodes and have
    non-negative weights, [_update_routing_table] leaves a table with
    one row for every registered node, and entries only from a
    registered node to another one.  There is no entry from a node to
    a node that no walk along the links reaches; for every other pair
    of different nodes the entry is the node that a walk of least
    total weight, latency * (2 - quality_score) summed over its links,
    goes to first, so that the node has a link to its entry. *)
Theorem routing_table_optimal
    (nodes_iter : gmap string NetworkNode -> list string)
    (net : SpaceNetwork) :
  (forall m, NoDup (nodes_iter m) /\
             forall x, x ∈ nodes_iter m <-> x ∈ dom m) ->
  network_wf net ->
  let table := _update_routing_table nodes_iter net in
  let links := dict_values (links net) in
  dom table = dom (nodes net) /\
  (forall s t h,
     table_entry table s t = Some h ->
     s ∈ dom (nodes net) /\ t ∈ dom (nodes net) /\ s <> t /\
     exists l, l ∈ links /\ source_node l = s /\ target_node l = h) /\
  (forall s t,
     s ∈ dom (nodes net) -> t ∈ dom (nodes net) -> s <> t ->
     match table_entry table s t with
     | None => forall ls, ~ is_walk links s t ls
     | Some h =>
         exists ls,
           is_walk links s t ls /\ first_hop ls = Some h /\
           forall ls', is_walk links s t ls' ->
             walk_weight ls <= walk_weight ls'
     end).
Proof.
  intros Hiter Hwf. cbn zeta.
  destruct (routing_table_matrix nodes_iter net Hiter Hwf)
    as (st & Heq & Hfrom & _). cbn zeta in *.
  destruct (Hiter (nodes net)) as [Hnd Hin].
  assert (Hreg : forall s t h,
            table_entry (_update_routing_table nodes_iter net) s t = Some h ->
            s ∈ dom (nodes net) /\ t ∈ dom (nodes net) /\ s <> t).
  { intros s t h Hh. destruct (Hfrom s t h Hh) as (i & j & Hi & Hj & Hne & _).
    split; [apply Hin; eapply list_elem_of_lookup_2; exact Hi|].
    split; [apply Hin; eapply list_elem_of_lookup_2; exact Hj|].
    intros ->. apply Hne. eapply NoDup_lookup; eassumption. }
  split; [|split].
  - rewrite Heq, fill_dom; [apply dom_gset_to_gmap|].
    intros s Hs. rewrite dom_gset_to_gmap. apply Hin. exact Hs.
  - intros s t h Hh. destruct (Hreg s t h Hh) as (Hs & Ht & Hne).
    split; [exact Hs|]. split; [exact Ht|]. split; [exact Hne|].
    pose proof (routing_table_entry nodes_iter net s t Hiter Hwf Hs Ht Hne)
      as Hentry.
    rewrite Hh in Hentry. destruct Hentry as (ls & Hw & Hf & _).
    destruct ls as [|l ls]; [discriminate|].
    cbn in Hw, Hf. destruct Hw as (Hl & Hsrc & _).
    exists l. split; [exact Hl|]. split; [exact Hsrc | congruence].
  - intros s t. apply routing_table_entry; assumption.
Qed.

Section Agreement.

Variable set_iter : gset string -> list string.
Hypothesis set_iter_spec : forall X x, x ∈ set_iter X <-> x ∈ X.

(** The route between two different registered nodes is nothing, if
    no walk joins them, or the nodes of a walk of least weight. *)
Lemma route_lightest net src tgt :
  network_wf net ->
  src ∈ dom (nodes net) -> tgt ∈ dom (nodes net) -> src <> tgt ->
  exists route,
    find_optimal_route set_iter net src tgt = Some route /\
    (((forall ls, ~ is_walk (dict_values (links net)) src tgt ls) /\
      route = []) \/
     (exists ls,
        is_walk (dict_values (links net)) src tgt ls /\
        route = walk_nodes src ls /\
        forall ls', is_walk (dict_values (links net)) src tgt ls' ->
          walk_weight ls <= walk_weight ls')).
Proof.
  intros Hwf Hsrc Htgt Hne. unfold find_optimal_route.
  rewrite (bool_decide_eq_true_2 _ Hsrc), (bool_decide_eq_true_2 _ Htgt).
  cbn [negb orb]. rewrite (bool_decide_eq_false_2 _ Hne).
  set (links0 := dict_values (links net)).
  pose proof (initial_inv links0 (dom (nodes net)) src Hwf) as Hinit.
  destruct (loop_spec set_iter set_iter_spec links0 (dom (nodes net)) src Hwf
              Hsrc tgt Htgt (S (size (dom (nodes net)))) _ _ _ _ Hinit)
    as (D & P & U & vis & Hloop & HI & Hset); [lia|].
  rewrite Hloop.
  destruct (route_spec links0 (dom (nodes net)) src tgt Htgt
              D P U vis HI Hset) as (route & Hroute & Hres); [congruence|].
  exists route. split; [exact Hroute | exact Hres].
Qed.

(** X27.  The routing table and [find_optimal_route] agree: for two
    different registered nodes of such a network the table has an
    entry exactly when the route is not empty.  The route then runs
    along a walk that no walk between the two nodes weighs less than,
    the hop of the table is the first hop of a walk that no walk
    between the two nodes weighs less than, which is so the lightest
    of the walks that start with that hop, and the two walks weigh
    the same. *)
Theorem routing_table_agrees
    (nodes_iter : gmap string NetworkNode -> list string)
    (net : SpaceNetwork) (s t : string) :
  (forall m, NoDup (nodes_iter m) /\
             forall x, x ∈ nodes_iter m <-> x ∈ dom m) ->
  network_wf net ->
  s ∈ dom (nodes net) -> t ∈ dom (nodes net) -> s <> t ->
  let entry := table_entry (_update_routing_table nodes_iter net) s t in
  exists route,
    find_optimal_route set_iter net s t = Some route /\
    (route = [] <-> entry = None) /\
    (forall h, entry = Some h ->
       exists along first,
         route = walk_nodes s along /\
         is_walk (dict_values (links net)) s t along /\
         is_walk (dict_values (links net)) s t first /\
         first_hop first = Some h /\
         (forall ls, is_walk (dict_values (links net)) s t ls ->
            walk_weight along <= walk_weight ls) /\
         (forall ls, is_walk (dict_values (links net)) s t ls ->
            walk_weight first <= walk_weight ls) /\
         (forall ls, is_walk (dict_values (links net)) s t ls ->
            first_hop ls = Some h -> walk_weight first <= walk_weight ls) /\
         walk_weight along == walk_weight first).
Proof.
  intros Hiter Hwf Hs Ht Hne. cbn zeta.
  destruct (route_lightest net s t Hwf Hs Ht Hne) as (route & Hroute & Hres).
  pose proof (routing_table_entry nodes_iter net s t Hiter Hwf Hs Ht Hne)
    as Hentry.
  exists route. split; [exact Hroute|].
  destruct (table_entry _ s t) as [h|].
  - destruct Hentry as (first & Hw & Hf & Hmin).
    destruct Hres as [[Hno _]|(along & Hw' & -> & Hmin')].
    { destruct (Hno first Hw). }
    split; [split; [discriminate | discriminate]|].
    intros h' [= <-]. exists along, first.
    split; [reflexivity|]. split; [exact Hw'|]. split; [exact Hw|].
    split; [exact Hf|]. split; [exact Hmin'|]. split; [exact Hmin|].
    split; [intros ls Hls _; apply Hmin; exact Hls|].
    apply Qle_antisym; [apply Hmin' | apply Hmin]; assumption.
  - destruct Hres as [[_ ->]|(along & Hw' & _)].
    + split; [tauto | discriminate].
    + destruct (Hentry along Hw').
Qed.

End Agreement.

(** *** [monitor_network_health] *)

#[global] Instance NetworkStatus_eq_dec : EqDecision NetworkStatus.
Proof. solve_decision. Defined.

(** [status.value]. *)
Definition status_value (s : NetworkStatus) : string :=
  match s with
  | ACTIVE => "active"
  | DEGRADED => "degraded"
  | OFFLINE => "offline"
  | EMERGENCY => "emergency"
  end.

(** The dictionary [monitor_network_health] returns. *)
Record HealthMetrics := {
  hm_network_status : string;
  active_nodes : nat;
  total_nodes : nat;
  node_availability : Q;
  active_links : nat;
  total_links : nat;
  link_availability : Q;
  avg_signal_strength : Q;
  avg_latency_ms : Q;
  total_bandwidth_mbps : Q;
  data_transmitted_gb : Q;
  uptime_hours : Q;
  emergency_active : bool
}.

(** [a / b if b > 0 else 0] on two counts. *)
Definition fraction (a b : nat) : Q :=
  if (0 <? b)%nat then inject_Z (Z.of_nat a) / inject_Z (Z.of_nat b) else 0.

(** [self.link_timeout], in seconds. *)
Definition link_timeout : Q := 1800.

(** [monitor_network_health]; [network_uptime] is the time the
    network was created at, and [clock k] the reading of the clock
    for the [k]-th link, the last one that for the uptime. *)
Definition monitor_network_health (net : SpaceNetwork) (network_uptime : Q)
    (clock : nat -> Q) : HealthMetrics :=
  let node_values := (map_to_list (nodes net)).*2 in
  let link_values := dict_values (links net) in
  let active_nodes :=
    length (List.filter (fun node => bool_decide (status node = ACTIVE))
              node_values) in
  let total_nodes := length node_values in
  let active_links :=
    length (List.filter
              (fun kl => negb (Qle_bool link_timeout
                                 (clock kl.1 - established_at kl.2)))
              (enumerate link_values)) in
  let total_links := length link_values in
  let avg_signal_strength :=
    match link_values with
    | [] => 0
    | _ => Py.mean (map signal_strength link_values)
    end in
  let avg_latency :=
    match link_values with
    | [] => 0
    | _ => Py.mean (map latency link_values)
    end in
  let total_bandwidth := foldl Qplus 0 (map bandwidth link_values) in
  let uptime_hours := (clock total_links - network_uptime) / 3600 in
  {| hm_network_status := status_value (network_status net);
     active_nodes := active_nodes;
     total_nodes := total_nodes;
     node_availability := fraction active_nodes total_nodes;
     active_links := active_links;
     total_links := total_links;
     link_availability := fraction active_links total_links;
     avg_signal_strength := avg_signal_strength;
     avg_latency_ms := avg_latency;
     total_bandwidth_mbps := total_bandwidth;
     data_transmitted_gb := total_data_transmitted net / 1024;
     uptime_hours := uptime_hours;
     emergency_active := emergency_protocols_active net |}.

Lemma fraction_range a b :
  (a <= b)%nat ->
  0 <= fraction a b <= 1 /\
  (b = 0%nat -> fraction a b = 0) /\
  ((0 < b)%nat -> (fraction a b == 1 <-> a = b)).
Proof.
  intros Hab. unfold fraction. destruct (Nat.ltb_spec 0 b) as [Hb|Hb].
  - assert (Hpos : 0 < inject_Z (Z.of_nat b)).
    { change 0 with (inject_Z 0). rewrite <- Zlt_Qlt. lia. }
    assert (Hle : inject_Z (Z.of_nat a) <= inject_Z (Z.of_nat b)).
    { rewrite <- Zle_Qle. lia. }
    assert (Hnn : 0 <= inject_Z (Z.of_nat a)).
    { change 0 with (inject_Z 0). rewrite <- Zle_Qle. lia. }
    split; [split|split].
    + apply Qle_shift_div_l; [exact Hpos|]. lra.
    + apply Qle_shift_div_r; [exact Hpos|]. lra.
    + intros ->. lia.
    + intros _. split.
      * intros H.
        assert (Hnz : ~ inject_Z (Z.of_nat b) == 0).
        { intros E. rewrite E in Hpos. exact (Qlt_irrefl 0 Hpos). }
        assert (Heq : inject_Z (Z.of_nat a)
                      == inject_Z (Z.of_nat a) / inject_Z (Z.of_nat b)
                         * inject_Z (Z.of_nat b)) by (field; exact Hnz).
        rewrite H in Heq. rewrite Qmult_1_l in Heq.
        apply (proj1 (inject_Z_injective _ _)) in Heq. lia.
      * intros ->. field. intros E. rewrite E in Hpos.
        exact (Qlt_irrefl 0 Hpos).
  - split; [lra|]. split; [reflexivity | lia].
Qed.

Lemma mean_range (l : list Q) (lo hi : Q) :
  l <> [] -> Forall (fun x => lo <= x <= hi) l ->
  lo <= Py.mean l <= hi.
Proof.
  intros Hne Hall. unfold Py.mean.
  assert (Hsum : inject_Z (Z.of_nat (length l)) * lo
                   <= fold_right Qplus 0 l
                 /\ fold_right Qplus 0 l
                   <= inject_Z (Z.of_nat (length l)) * hi).
  { clear Hne. induction Hall as [|x l [H1 H2] _ IH].
    - cbn [length fold_right]. change (inject_Z (Z.of_nat 0)) with 0. lra.
    - cbn [length fold_right]. rewrite Nat2Z.inj_succ.
      unfold Z.succ. rewrite inject_Z_plus.
      change (inject_Z 1) with 1. lra. }
  assert (Hpos : 0 < inject_Z (Z.of_nat (length l))).
  { change 0 with (inject_Z 0). rewrite <- Zlt_Qlt.
    destruct l; [congruence | cbn; lia]. }
  split.
  - apply Qle_shift_div_l; [exact Hpos|]. lra.
  - apply Qle_shift_div_r; [exact Hpos|]. lra.
Qed.

Lemma mean_lower (l : list Q) (lo : Q) :
  l <> [] -> Forall (fun x => lo <= x) l -> lo <= Py.mean l.
Proof.
  intros Hne Hall. unfold Py.mean.
  assert (Hsum : inject_Z (Z.of_nat (length l)) * lo
                   <= fold_right Qplus 0 l).
  { clear Hne. induction Hall as [|x l H1 _ IH].
    - cbn [length fold_right]. change (inject_Z (Z.of_nat 0)) with 0. lra.
    - cbn [length fold_right]. rewrite Nat2Z.inj_succ.
      unfold Z.succ. rewrite inject_Z_plus.
      change (inject_Z 1) with 1. lra. }
  assert (Hpos : 0 < inject_Z (Z.of_nat (length l))).
  { change 0 with (inject_Z 0). rewrite <- Zlt_Qlt.
    destruct l; [congruence | cbn; lia]. }
  apply Qle_shift_div_l; [exact Hpos|]. lra.
Qed.

Lemma filter_keeps_all {A : Type} (f : A -> bool) (l : list A) :
  length (List.filter f l) = length l <-> forall x, x ∈ l -> f x = true.
Proof.
  split.
  - intros H x Hx. apply filter_length_forallb in H.
    rewrite forallb_forall in H. apply H. apply list_elem_of_In. exact Hx.
  - intros H. rewrite forallb_filter_id; [reflexivity|].
    apply forallb_forall. intros x Hx. apply H. apply list_elem_of_In.
    exact Hx.
Qed.

Lemma sum_range (l : list Q) (lo hi : Q) :
  Forall (fun x => lo <= x <= hi) l ->
  forall acc,
    acc + inject_Z (Z.of_nat (length l)) * lo <= foldl Qplus acc l /\
    foldl Qplus acc l <= acc + inject_Z (Z.of_nat (length l)) * hi.
Proof.
  induction 1 as [|x l [H1 H2] _ IH]; intros acc.
  - cbn [length foldl]. change (inject_Z (Z.of_nat 0)) with 0. lra.
  - cbn [length foldl]. rewrite Nat2Z.inj_succ.
    unfold Z.succ. rewrite inject_Z_plus. change (inject_Z 1) with 1.
    destruct (IH (acc + x)). lra.
Qed.

(** X29.  [monitor_network_health] never divides by zero: the
    availabilities of an empty network are 0, and otherwise fractions
    between 0 and 1 that are 1 exactly when every node is active, or
    every link younger than the timeout.  The counts are those of the
    registered nodes and of the link table.  In a sound network with
    links the average signal strength lies between 0.1 and 1, the
    average latency is at least 10 ms, and the total bandwidth is
    between 0 and 100 Mbit/s per link. *)
Theorem health_report_ranges (net : SpaceNetwork) (network_uptime : Q)
    (clock : nat -> Q) :
  sound net ->
  let report := monitor_network_health net network_uptime clock in
  total_nodes report = size (nodes net) /\
  total_links report = length (links net) /\
  (active_nodes report <= total_nodes report)%nat /\
  (active_links report <= total_links report)%nat /\
  0 <= node_availability report <= 1 /\
  0 <= link_availability report <= 1 /\
  (nodes net = ∅ -> node_availability report = 0) /\
  (links net = [] ->
   link_availability report = 0 /\ avg_signal_strength report = 0 /\
   avg_latency_ms report = 0 /\ total_bandwidth_mbps report = 0) /\
  (nodes net <> ∅ ->
   (node_availability report == 1 <->
    forall id node, nodes net !! id = Some node -> status node = ACTIVE)) /\
  (links net <> [] ->
   (link_availability report == 1 <->
    forall k link, dict_values (links net) !! k = Some link ->
      clock k - established_at link < link_timeout) /\
   0.1 <= avg_signal_strength report <= 1 /\
   10 <= avg_latency_ms report) /\
  0 <= total_bandwidth_mbps report
    <= inject_Z (Z.of_nat (total_links report)) * 100.
Proof.
  intros Hs. cbn zeta. unfold monitor_network_health.
  cbn [total_nodes total_links active_nodes active_links node_availability
       link_availability avg_signal_strength avg_latency_ms
       total_bandwidth_mbps].
  set (node_values := (map_to_list (nodes net)).*2).
  set (link_values := dict_values (links net)).
  set (is_active := fun node : NetworkNode =>
                      bool_decide (status node = ACTIVE)).
  set (is_young := fun kl : nat * CommunicationLink =>
                     negb (Qle_bool link_timeout
                             (clock kl.1 - established_at kl.2))).
  assert (Hn : length node_values = size (nodes net)).
  { unfold node_values. rewrite length_fmap. apply length_map_to_list. }
  assert (Hl : length link_values = length (links net)).
  { unfold link_values, dict_values. apply length_map. }
  assert (Han : (length (List.filter is_active node_values)
                 <= length node_values)%nat) by apply filter_length_le.
  assert (Hal : (length (List.filter is_young (enumerate link_values))
                 <= length link_values)%nat).
  { etransitivity; [apply filter_length_le|].
    unfold enumerate. rewrite length_imap. reflexivity. }
  destruct (fraction_range _ _ Han) as (Hn1 & Hn2 & Hn3).
  destruct (fraction_range _ _ Hal) as (Hl1 & Hl2 & Hl3).
  assert (Hok : Forall link_ok link_values).
  { apply Forall_forall. intros l Hin. apply (sound_links _ Hs l Hin). }
  split; [exact Hn|]. split; [exact Hl|]. split; [exact Han|].
  split; [exact Hal|]. split; [exact Hn1|]. split; [exact Hl1|].
  split.
  { intros Hempty. apply Hn2. rewrite Hn, Hempty. apply map_size_empty. }
  split.
  { intros Hempty. unfold link_values. rewrite Hempty. cbn. auto. }
  split.
  { intros Hne. rewrite Hn3.
    2:{ rewrite Hn. apply Nat.neq_0_lt_0. intros H.
        apply map_size_empty_iff in H. contradiction. }
    rewrite filter_keeps_all. split.
    - intros H id node Hnode.
      assert (Hin : node ∈ node_values).
      { unfold node_values. apply list_elem_of_fmap.
        exists (id, node). split; [reflexivity|].
        apply elem_of_map_to_list. exact Hnode. }
      specialize (H node Hin). unfold is_active in H.
      apply bool_decide_eq_true in H. exact H.
    - intros H node Hin. unfold node_values in Hin.
      apply list_elem_of_fmap in Hin as ([id node'] & -> & Hin).
      apply elem_of_map_to_list in Hin. unfold is_active.
      apply bool_decide_eq_true. exact (H id node' Hin). }
  split.
  { intros Hne. assert (Hne' : link_values <> []).
    { intros H. apply Hne. apply (f_equal length) in H.
      rewrite Hl in H. destruct (links net); [reflexivity | discriminate]. }
    split; [|split].
    - rewrite Hl3 by (destruct link_values; [congruence | cbn; lia]).
      replace (length link_values)
        with (length (enumerate link_values))
        by (unfold enumerate; apply length_imap).
      rewrite filter_keeps_all. split.
      + intros H k link Hk.
        specialize (H (k, link) (proj2 (enumerate_elem _ _ _) Hk)).
        unfold is_young in H. cbn [fst snd] in H.
        apply negb_true_iff in H. apply Qnot_le_lt. intros Hle.
        apply Qle_bool_iff in Hle. congruence.
      + intros H [k link] Hin. apply enumerate_elem in Hin.
        specialize (H k link Hin). unfold is_young. cbn [fst snd].
        apply negb_true_iff. destruct (Qle_bool _ _) eqn:E; [|reflexivity].
        apply Qle_bool_iff in E. lra.
    - destruct link_values as [|l0 rest] eqn:E; [congruence|].
      rewrite <- E in *. apply mean_range.
      + rewrite E. discriminate.
      + apply Forall_forall. intros x Hx.
        apply list_elem_of_In, in_map_iff in Hx as (l & <- & Hin).
        rewrite Forall_forall in Hok.
        apply (Hok l). apply list_elem_of_In. exact Hin.
    - destruct link_values as [|l0 rest] eqn:E; [congruence|].
      rewrite <- E in *. apply mean_lower.
      + rewrite E. discriminate.
      + apply Forall_forall. intros x Hx.
        apply list_elem_of_In, in_map_iff in Hx as (l & <- & Hin).
        rewrite Forall_forall in Hok.
        destruct (Hok l) as (_ & _ & _ & _ & H & _);
          [apply list_elem_of_In; exact Hin|].
        destruct (link_type l); cbn [processing_delay] in H; lra. }
  assert (Hbw : Forall (fun x => 0 <= x <= 100) (map bandwidth link_values)).
  { apply Forall_forall. intros x Hx.
    apply list_elem_of_In, in_map_iff in Hx as (l & <- & Hin).
    rewrite Forall_forall in Hok.
    destruct (Hok l) as (H1 & _ & H3 & _);
      [apply list_elem_of_In; exact Hin|].
    rewrite H3. destruct (link_type l); cbn [max_bandwidth]; lra. }
  destruct (sum_range _ 0 100 Hbw 0) as [H1 H2].
  rewrite length_map in H1, H2. lra.
Qed.

(** *** The properties on small constellations *)

Lemma route_loop_free_witness :
  exists route,
    find_optimal_route elements demo_network "a" "c" = Some route /\
    NoDup route /\ (length route <= 4)%nat /\
    (route <> [] -> head route = Some "a"%string /\ last route = Some "c"%string).
Proof.
  destruct (route_loop_free elements demo_network "a" "c" elements_spec
              demo_network_wf)
    as (route & H1 & H2 & _ & H4 & _ & H6 & _).
  exists route. split; [exact H1|]. split; [exact H2|].
  split; [exact H4 | exact H6].
Defined.

Definition hello_json : list byte :=
  ["{"; x22; "m"; x22; ":"; "1"; "}"]%byte.

Lemma transmit_data_effect_witness :
  exists route net' sent,
    find_optimal_route elements demo_network "a" "c" = Some route /\
    transmit_data elements demo_network "a" "c" (Some hello_json)
      = Some (net', sent) /\
    (sent = true <-> route <> [] /\ is_Some (Some hello_json)) /\
    (route <> [] ->
     total_data_transmitted net'
       = total_data_transmitted demo_network + megabytes hello_json /\
     network_wf net' /\
     find_optimal_route elements net' "a" "c"
       = find_optimal_route elements demo_network "a" "c").
Proof.
  destruct (transmit_data_effect elements demo_network "a" "c"
              (Some hello_json) elements_spec demo_network_wf)
    as (route & net' & sent & H1 & H2 & H3 & _ & H5).
  exists route, net', sent.
  split; [exact H1|]. split; [exact H2|]. split; [exact H3|].
  intros Hne. destruct (H5 hello_json eq_refl Hne)
    as (H6 & _ & _ & _ & _ & _ & _ & H7 & H8).
  split; [exact H6|]. split; [exact H7 | apply H8].
Defined.

(** Four stations whose identifiers make one link identifier of two
    different pairs. *)
Definition dashed_network : SpaceNetwork :=
  let net := init "dashed" in
  let net := fst (add_node net (satellite "a-b" 0) 0) in
  let net := fst (add_node net (satellite "c" 300000) 0) in
  let net := fst (add_node net (satellite "a" 600000) 0) in
  fst (add_node net (satellite "b-c" 900000) 0).

Definition blank_link : CommunicationLink :=
  {| link_id := EmptyString; source_node := EmptyString;
     target_node := EmptyString;
     link_type := DEEP_SPACE; established_at := 0; signal_strength := 0;
     bandwidth := 0; latency := 0; packet_loss := 0; is_encrypted := true;
     quality_score := 0 |}.

Definition dashed_first : SpaceNetwork * option CommunicationLink :=
  Eval vm_compute in
  establish_link taxicab_norm (fun _ => 0) (fun _ => 1)
    dashed_network "a-b" "c" INTER_SATELLITE 0.

Definition dashed_second : SpaceNetwork * option CommunicationLink :=
  Eval vm_compute in
  establish_link taxicab_norm (fun _ => 0) (fun _ => 1)
    dashed_first.1 "a" "b-c" INTER_SATELLITE 1.

Lemma dashed_network_keyed : links_keyed dashed_network.
Proof. split; [constructor|]. intros k l H. inversion H. Qed.

Lemma link_name_collision_witness :
  let establish := establish_link taxicab_norm (fun _ => 0) (fun _ => 1) in
  let net1 := fst (establish dashed_network "a-b" "c" INTER_SATELLITE 0) in
  let net2 := fst (establish net1 "a" "b-c" INTER_SATELLITE 1) in
  dict_keys (links net2) = dict_keys (links net1) /\
  forall l, l ∈ dict_values (links net2) ->
    ~ (source_node l = "a-b"%string /\ target_node l = "c"%string /\
       link_type l = INTER_SATELLITE).
Proof.
  cbn zeta.
  destruct (link_name_collision taxicab_norm (fun _ => 0) (fun _ => 1)
              dashed_network "a-b" "c" "a" "b-c" INTER_SATELLITE
              INTER_SATELLITE 0 1
              (default blank_link dashed_first.2)
              (default blank_link dashed_second.2)
              ltac:(vm_compute; reflexivity) ltac:(vm_compute; reflexivity)
              ltac:(reflexivity))
    as (_ & _ & H3 & H4).
  split; [exact H3|].
  apply (H4 dashed_network_keyed). discriminate.
Defined.

Definition dict_order (m : gmap string NetworkNode) : list string :=
  elements (dom m : gset string).

Lemma dict_order_spec (m : gmap string NetworkNode) (x : string) :
  x ∈ dict_order m <-> x ∈ dom m.
Proof. unfold dict_order. apply elem_of_elements. Qed.

Lemma demo_network_no_dash :
  forall id, id ∈ dom (nodes demo_network) -> no_dash id = true.
Proof.
  intros id Hid. apply elem_of_dom in Hid as [n Hn].
  assert (H : map_Forall (fun k _ => no_dash k = true) (nodes demo_network)).
  { apply (bool_decide_eq_true_1
             (map_Forall (fun k _ => no_dash k = true) (nodes demo_network))).
    vm_compute. reflexivity. }
  exact (H id n Hn).
Qed.

Lemma emergency_beacons_witness :
  let net' := activate_emergency_protocol taxicab_norm (fun _ => 0)
                (fun _ => 1) dict_order (fun _ => 5) demo_network "flare"
                ["a"%string] in
  network_status net' = EMERGENCY /\
  (priority_level <$> nodes net' !! "a"%string) = Some 10%Z /\
  exists l,
    dict_get (link_name "a" "d" EMERGENCY_BEACON) (links net') = Some l /\
    beacon_link "a" "d" l.
Proof.
  cbn zeta.
  destruct (emergency_beacons taxicab_norm (fun _ => 0) (fun _ => 1)
              dict_order (fun _ => 5) dict_order_spec demo_network "flare"
              ["a"%string] demo_network_no_dash)
    as (H1 & _ & _ & _ & H5 & H6 & _).
  split; [exact H1|].
  split.
  { specialize (H5 "a"%string).
    apply (f_equal (fmap priority_level)) in H5.
    etransitivity; [exact H5|]. vm_compute. reflexivity. }
  apply H6.
  - left.
  - intros H. apply list_elem_of_singleton in H. discriminate.
  - apply elem_of_dom. exists (set_last_contact (satellite "a" 0) (Some 0)).
    vm_compute. reflexivity.
  - apply elem_of_dom. exists (set_last_contact (satellite "d" 900000) (Some 0)).
    vm_compute. reflexivity.
Defined.

Definition demo_commands : list Command :=
  [ AddNode (satellite "a" 0) 0;
    AddNode (satellite "b" 300000) 0;
    EstablishLink "a" "b" INTER_SATELLITE 1;
    TransmitData "a" "b" (Some hello_json);
    ActivateEmergency "flare" ["a"%string] (fun _ => 5);
    AddNode (satellite "a" 7) 9 ].

Lemma network_stays_sound_witness :
  exists net,
    run taxicab_norm (fun _ => 0) (fun _ => 1) elements dict_order
      (init "demo") demo_commands = Some net /\
    sound net /\
    forall l, l ∈ dict_values (links net) -> 0 < weight l.
Proof.
  destruct (network_stays_sound taxicab_norm (fun _ => 0) (fun _ => 1)
              elements dict_order "demo" demo_commands taxicab_norm_nonneg
              elements_spec) as (net & H1 & H2 & H3).
  exists net. split; [exact H1|]. split; [exact H2|].
  intros l Hl. apply (H3 l Hl).
Defined.

Lemma nothing_undone_witness :
  exists net1 net2,
    run taxicab_norm (fun _ => 0) (fun _ => 1) elements dict_order
      (init "demo") (take 4 demo_commands) = Some net1 /\
    run taxicab_norm (fun _ => 0) (fun _ => 1) elements dict_order
      net1 (drop 4 demo_commands) = Some net2 /\
    dom (nodes net1) ⊆ dom (nodes net2) /\
    total_data_transmitted net1 <= total_data_transmitted net2 /\
    network_status net2 = EMERGENCY.
Proof.
  destruct (nothing_undone taxicab_norm (fun _ => 0) (fun _ => 1)
              elements dict_order (init "demo") (take 4 demo_commands)
              [AddNode (satellite "a" 7) 9] "flare" ["a"%string] (fun _ => 5)
              taxicab_norm_nonneg elements_spec (init_sound _))
    as (net1 & net2 & H1 & H2 & _ & H4 & _ & _ & _ & H8 & _ & _ & H11).
  exists net1, net2. split; [exact H1|]. split; [exact H2|].
  split; [exact H4|]. split; [exact H8 | exact H11].
Defined.

Lemma dict_order_enumerates (m : gmap string NetworkNode) :
  NoDup (dict_order m) /\ forall x, x ∈ dict_order m <-> x ∈ dom m.
Proof.
  split; [unfold dict_order; apply NoDup_elements
        | intros x; apply dict_order_spec].
Qed.

Lemma demo_registered_a : "a"%string ∈ dom (nodes demo_network).
Proof. apply elem_of_dom. vm_compute. eexists. reflexivity. Qed.

Lemma demo_registered_c : "c"%string ∈ dom (nodes demo_network).
Proof. apply elem_of_dom. vm_compute. eexists. reflexivity. Qed.

Lemma demo_registered_d : "d"%string ∈ dom (nodes demo_network).
Proof. apply elem_of_dom. vm_compute. eexists. reflexivity. Qed.

Lemma demo_table_a_c :
  table_entry (_update_routing_table dict_order demo_network) "a" "c"
  = Some "b"%string.
Proof. vm_compute. reflexivity. Qed.

Lemma demo_table_a_d :
  table_entry (_update_routing_table dict_order demo_network) "a" "d" = None.
Proof. vm_compute. reflexivity. Qed.

Lemma routing_table_optimal_witness :
  let table := _update_routing_table dict_order demo_network in
  dom table = dom (nodes demo_network) /\
  (exists ls,
     is_walk (dict_values (links demo_network)) "a" "c" ls /\
     first_hop ls = Some "b"%string /\
     forall ls', is_walk (dict_values (links demo_network)) "a" "c" ls' ->
       walk_weight ls <= walk_weight ls') /\
  forall ls, ~ is_walk (dict_values (links demo_network)) "a" "d" ls.
Proof.
  cbn zeta.
  destruct (routing_table_optimal dict_order demo_network
              dict_order_enumerates demo_network_wf) as (H1 & _ & H3).
  pose proof (H3 "a"%string "c"%string demo_registered_a demo_registered_c
                ltac:(discriminate)) as Hc.
  pose proof (H3 "a"%string "d"%string demo_registered_a demo_registered_d
                ltac:(discriminate)) as Hd.
  clear H3.
  pose proof demo_table_a_c as Ec. pose proof demo_table_a_d as Ed.
  set (table := _update_routing_table dict_order demo_network) in *.
  set (links0 := dict_values (links demo_network)) in *.
  clearbody table links0.
  split; [exact H1|]. split.
  - destruct (table_entry table "a" "c") as [h|]; [|discriminate].
    injection Ec as ->. exact Hc.
  - destruct (table_entry table "a" "d") as [h|]; [discriminate|].
    exact Hd.
Defined.

Lemma routing_table_agrees_witness :
  exists route,
    find_optimal_route elements demo_network "a" "c" = Some route /\
    (route = [] <->
     table_entry (_update_routing_table dict_order demo_network) "a" "c"
       = None).
Proof.
  destruct (routing_table_agrees elements elements_spec dict_order
              demo_network "a" "c" dict_order_enumerates demo_network_wf
              demo_registered_a demo_registered_c ltac:(discriminate))
    as (route & H1 & H2 & _).
  exists route. split; [exact H1 | exact H2].
Defined.

(** Two satellites and the link between them. *)
Definition linked_pair : SpaceNetwork :=
  let net := init "pair" in
  let net := fst (add_node net (satellite "a" 0) 0) in
  let net := fst (add_node net (satellite "b" 300000) 0) in
  fst (establish_link taxicab_norm (fun _ => 0) (fun _ => 1) net
         "a" "b" INTER_SATELLITE 1).

Lemma linked_pair_sound : sound linked_pair.
Proof.
  unfold linked_pair.
  apply establish_link_sound; [exact taxicab_norm_nonneg|].
  repeat apply add_node_sound. apply init_sound.
Qed.

Lemma linked_pair_links : links linked_pair <> [].
Proof. vm_compute. discriminate. Qed.

Lemma health_report_ranges_witness :
  let report := monitor_network_health linked_pair 0 (fun _ => 100) in
  total_nodes report = size (nodes linked_pair) /\
  0 <= node_availability report <= 1 /\
  0.1 <= avg_signal_strength report <= 1 /\
  10 <= avg_latency_ms report.
Proof.
  destruct (health_report_ranges linked_pair 0 (fun _ => 100)
              linked_pair_sound)
    as (H1 & _ & _ & _ & H5 & _ & _ & _ & _ & H10 & _).
  destruct (H10 linked_pair_links) as (_ & H11 & H12).
  split; [exact H1|]. split; [exact H5|]. split; [exact H11 | exact H12].
Defined.

End NetworkOps.
